(* ===== verification/_CoqProject ===== *)
-Q . S2P
Prelude.v
Bytes.v
Fmt.v
Sha256.v
Eth.v
Base64.v
Json.v
Metrics.v
P2P.v
Framing.v
Sync.v
Wire.v
Network.v
Overlay.v
Verification.v
Race.v
Client.v
Rounding.v
Float.v
Value.v
Payloads.v
Config.v
BigFloat.v
Quorum.v
Reputation.v
Staking.v
Consensus.v
Node.v
Lifecycle.v
System.v
Rpc.v
