(* ===== verification/Prelude.v ===== *)
(** * InSo Validator: a verification development

    The program is a validator node for an L2 chain, written in Go (src/). It learns
    blocks from peers and, as a fallback, from the sequencer's JSON-RPC interface; it
    re-derives each block's state root, signs an attestation, counts attestations towards
    finality, keeps stakes and a reputation score, and serves a JSON-RPC interface of its
    own. This library models the node's packages as they are written, and proves what
    they do; where they do something else than they mean to, the theorem says so.

    ** The parts and how they interact

    cmd/validator/main.go builds the components, starts them, and stops them on a signal.
    [p2p.Network] owns the connections, a goroutine for each of them and one channel of
    incoming messages. The sync engine's P2P listener and
    the consensus engine's loop both receive from that channel. The sync engine's listener
    and its RPC loop both offer blocks to [processBlock], which stores a block under the
    engine's lock and then, without the lock, calls the callback of main.go: verify the
    state root (verification), check the adaptive bounds (only logged), attest
    (consensus), which signs, records, credits the reputation and broadcasts. The RPC
    server reads all components, and writes to one of them.

    ** The files

    Shared ground.
    - Prelude: Go's fixed-width integers as [Z] with explicit wrap-around, [outcome] for
      calls that return an error or panic, sums over lists that do not depend on the
      order, automation. Bytes: byte lists, arrays, big-endian integers.
    - Fmt, Sha256, Base64, Json, Value: what the program uses of Go's standard library
      (fmt and strconv on hexadecimal integers, SHA-256, base64, JSON texts with the
      scanner's limits and escapes, [interface{}] values), executable, with the round
      trips [decode_encode] and [parse_encode].
    - Rounding, Float, BigFloat: float64 and math/big.Float on the Standard Library's
      [spec_float]: every operation rounds the exact rational result ([result_of]), with
      monotonicity and exactness lemmas. Quorum: the two-thirds test in float64.
    - Eth: go-ethereum, which is not in this repository, as a class [EthLib] of operations
      and a class [EthLaws] of the documented laws the theorems use, with a concrete
      instance [ToyEth] on which the witnesses are evaluated.

    Components, each with its state as a record and one definition per operation.
    - P2P: message types and the class [Transport] through which the consensus engine sees
      the network, with its laws [TransportLaws]. Framing: [writeFrame] and [readFrame]
      over partial reads and writes. Wire: how [json.Unmarshal] fills structs, the message
      envelope and the block announcement. Payloads: the other payloads of
      internal/p2p/protocol.go. Network: the peer table, broadcast, connecting, the read
      loop, liveness, Start and Stop as functions, and the instance of [Transport]
      (internal/p2p/network.go). Overlay: the same file's goroutines, as a pool of program
      points that interleave; the functions of Network are what a goroutine does between
      two blocking points. A goroutine with a connection carries what the connection is
      going to deliver, in chunks, fixed when it is opened, and reads its frames from
      there.
    - Sync: internal/sync/engine.go. [processBlock] is [accept], its critical section,
      followed by [notify]. Client: the texts exchanged with the sequencer, of sync and of
      internal/verification/features.go.
    - Verification: internal/verification (engine.go, features.go); Race: concurrent calls
      of [VerifyBlock], its read and its write of the root apart. Reputation:
      internal/reputation/manager.go. Staking: internal/staking/manager.go. Consensus:
      internal/consensus/engine.go, over any transport and any cryptography. Metrics:
      internal/metrics/metrics.go. Config: internal/config/config.go.
    - Node: main.go. [setup] builds the components; [main_actions] is what [main] does from
      there on, to the end of its shutdown; [Node.step] is the running node: [main], the
      P2P listener, the RPC loop with its catch-up, the consensus loop, the network's
      goroutines ([Overlay.sched]) and the RPC requests interleave, and accepting,
      verifying and attesting a block are separate steps.
    - Rpc: internal/rpc/server.go over the node, from the path of a request to its answer.
    - Lifecycle: what holds of a node from its start to its end, and its RPC loop running
      alone against a sequencer ([rpc_hop]). System: two nodes; [hop] is the receiving node
      with only the goroutines on the way of a message running.

    ** What the theorems show

    Finality: with integral vote powers the float64 quorum test is the exact two-thirds
    majority in every iteration order, and for arbitrary finite powers it never finalizes
    below 2/3 less a rounding error ([IsFinalized_exact], [IsFinalized_sound]); vote power
    is within [stake, 1.5 stake] ([RegisterValidator_power]); peers never count, double
    attestations do ([peers_never_count], [duplicate_attestations_finalize]); attestations
    verify and their preimage is injective ([AttestBlock_verifies],
    [VerifyAttestation_spec], [attestation_preimage_injective]).

    Synchronisation: the engine implements an append-only log and delivers in order and at
    most once whatever arrives ([arrivals_refine_log], [delivery_in_order],
    [callback_at_most_once], [processBlock_branches]); the RPC
    fallback closes gaps, also from the sequencer's texts ([syncFromRPC_catches_up],
    [catch_up_texts]) and terminates below the largest height ([catch_up_termination]);
    blocks numbered 0 and null answers wedge it ([block_zero_wedges], [null_block_wedges]).

    From end to end: when a peer has broadcast a block and a running node's connection
    delivers the bytes it has written, cut in any way, the read loop, the listener and the
    callback cannot miss it: in whatever order they run, they can go on to where the block
    is in the chain, attested once and final ([gossip_finalizes]).

    Network: frames and streams of frames round-trip over any chunking
    ([frames_roundtrip], [readFrame_chunking], [truncated_frame], [oversize_rejected]);
    whatever a node broadcasts reaches the peer's channel in order ([gossip_delivery]);
    read loops terminate and clean up ([readLoop_terminates]); interleaved writers garble
    frames ([interleaved_writers]); in every interleaving each open connection has exactly
    one goroutine and each active peer a reader ([connections_owned]); after [Stop] the
    goroutines end and leave nothing open ([shutdown_quiesces], [Stop_closes]); two
    connections of one name disturb each other ([duplicate_silenced]); payloads round-trip
    ([announce_roundtrip], [wire_roundtrip], [payload_roundtrip]).

    Verification, staking, reputation: verdicts are exact and replay is the derivation
    ([VerifyBlock_spec], [verify_all_honest]); concurrent calls invent no root but can lose
    one ([serial_calls], [concurrent_verdicts], [lost_update]); reachable stakes and reputation entries stay
    in range, totals account for every operation, slashing takes the percentage up to one
    wei and deactivation is permanent ([reachable_stakes], [TotalStaked_accounts],
    [Slash_bounds], [deactivation_permanent], [reachable_entries]), the log shows whole
    stakes exactly ([formatINSO_whole]); the sovereignty score
    is between 0 and 1 and monotone in every factor ([sovereignty_monotone]); receipts'
    preimages are injective and block roots' are not ([receipt_preimage_injective],
    [state_root_ambiguous]).

    The node: in every reachable state a block is attested at most once and only when in
    the chain ([attested_once]); with the shipped set-up a block is final exactly when
    this node attested to it ([self_finality]); start-up succeeds exactly for stakes that
    fit an int64 ([setup_outcome]); races: callbacks out of order, announcements taken by
    the wrong engine, queries that move the verification root ([out_of_order_callbacks],
    [announcement_lost], [query_blocks_attestation]). Its network is always one of Overlay
    ([network_refined]); its chain, its blocks in hand, its attestations, its reputation
    entry, its stake and its metrics fit together, and its channel stays within capacity
    ([node_wellformed]); it can end after the shutdown ([node_stops]), except that the
    catch-up does not notice it ([catch_up_ignores_shutdown]); an RPC server that cannot
    listen goes unnoticed ([rpc_failure_unnoticed]); undisturbed, the RPC loop is the
    sequential catch-up of Sync, with each block verified and, if valid, attested before
    the next is asked for ([catch_up_refined]). The RPC server, while it answers, only
    performs steps of the node and writes nothing but the request counter and, for the one
    method that verifies, the verification root ([requests_are_steps]); bad requests get the
    right error ([rejected_requests]).

    ** Fuel and bounds

    Recursions that are not structural take fuel. JSON texts: the length of the text plus
    one, since every call consumes a byte ([parse_encode]). Read loops: one more than the
    bytes of input ([readLoop_terminates]). The catch-up loop: the number of missing blocks
    ([catch_up_termination] shows it ends, and when it never does). The goroutines of
    Overlay and Node are step relations and need none; their end is shown by a measure,
    [Overlay.load]. [os.Expand]: the length
    of the text. Decimal and hexadecimal printing: 20 and 16 digits, enough for 64 bits.

    ** Not modelled

    HTTP and TCP themselves (a request's outcome, a connection's chunks and errors are
    arguments), the HTTP servers' cleaning of paths and deadlines, the clock (an argument) and the rate of tickers (a tick may come at any time),
    logging, the two command-line flags and the banner, YAML (a parameter of [Config.Load]), the printing of float64s and of
    [time.Time] by the JSON encoder (replies are values), the text of the library's error
    messages, the end of the process, which takes the goroutines with it, tests and build
    files. Locks are modelled by the atomicity of what they protect. Of the code's data
    races, the one on the verification engine's root is modelled (Race, at the grain of a
    whole root; in Node a call of [VerifyBlock] is one step); in Overlay a frame is written
    in one step, [Network.interleaved_writers] shows what happens when it is not; the
    wiring of the metrics into running engines is one step of [main]. *)

From Stdlib Require Export ZArith Lia.
From Stdlib Require Strings.Byte.
From stdpp Require Export base tactics list gmap strings pretty vector relations.

#[global] Open Scope Z_scope.
#[export] Set Default Goal Selector "!".

(** ** Machine integers

    Go's fixed-width integers are kept as [Z]; every arithmetic operation that
    can leave the range is wrapped explicitly.  [int] is 64 bits wide. *)

Definition u64 (z : Z) : Z := z mod 2 ^ 64.
Definition u32 (z : Z) : Z := z mod 2 ^ 32.
Definition u16 (z : Z) : Z := z mod 2 ^ 16.
Definition i64 (z : Z) : Z := (z + 2 ^ 63) mod 2 ^ 64 - 2 ^ 63.
Definition i32 (z : Z) : Z := (z + 2 ^ 31) mod 2 ^ 32 - 2 ^ 31.

Definition is_u64 (z : Z) : Prop := 0 <= z < 2 ^ 64.
Definition is_u32 (z : Z) : Prop := 0 <= z < 2 ^ 32.
Definition is_i64 (z : Z) : Prop := - 2 ^ 63 <= z < 2 ^ 63.
Definition is_i32 (z : Z) : Prop := - 2 ^ 31 <= z < 2 ^ 31.

Declare Scope go_scope.
Delimit Scope go_scope with go.
Notation "x +[u64] y" := (u64 (x + y)) (at level 50, left associativity) : go_scope.
Notation "x -[u64] y" := (u64 (x - y)) (at level 50, left associativity) : go_scope.
Notation "x *[u64] y" := (u64 (x * y)) (at level 40, left associativity) : go_scope.
Notation "x +[int] y" := (i64 (x + y)) (at level 50, left associativity) : go_scope.
Open Scope go_scope.

(** Unfold the width predicates and let [lia] see powers of two. *)
Ltac widths := unfold is_u64, is_u32, is_i64, u64, u32, u16, i64, is_i32, i32 in *.

Lemma u64_small z : is_u64 z -> u64 z = z.
Proof. intros. apply Z.mod_small. done. Qed.

Lemma u64_range z : is_u64 (u64 z).
Proof. apply Z.mod_pos_bound. lia. Qed.

Lemma u32_range z : is_u32 (u32 z).
Proof. apply Z.mod_pos_bound. lia. Qed.

Lemma u32_small z : is_u32 z -> u32 z = z.
Proof. intros. apply Z.mod_small. done. Qed.

Lemma i64_range z : is_i64 (i64 z).
Proof. widths. pose proof (Z.mod_pos_bound (z + 2 ^ 63) (2 ^ 64)). lia. Qed.

Lemma i32_range z : is_i32 (i32 z).
Proof. widths. pose proof (Z.mod_pos_bound (z + 2 ^ 31) (2 ^ 32)). lia. Qed.

Lemma i64_small z : is_i64 z -> i64 z = z.
Proof. intros. widths. rewrite Z.mod_small; lia. Qed.

(** Conversion [uint64(i)] of an [int] and [int64(u)] of a [uint64] keep the
    64-bit pattern, so they undo each other. *)
Lemma i64_u64 z : is_i64 z -> i64 (u64 z) = z.
Proof.
  intros H. widths. destruct (decide (0 <= z)).
  - rewrite (Z.mod_small z), Z.mod_small; lia.
  - replace (z mod 2 ^ 64) with (z + 2 ^ 64).
    + replace (z + 2 ^ 64 + 2 ^ 63) with (z + 2 ^ 63 + 1 * 2 ^ 64) by lia.
      rewrite Z.mod_add, Z.mod_small; lia.
    + apply Z.mod_unique with (q := -1); lia.
Qed.

Lemma u64_of_i64_inj x y : is_i64 x -> is_i64 y -> u64 x = u64 y -> x = y.
Proof. intros Hx Hy E. rewrite <- (i64_u64 x), <- (i64_u64 y), E; done. Qed.

(** ** Outcomes of Go calls

    [Ok] is a normal return with a nil error, [Err] a non-nil [error] with its
    message, and [Panic] a run-time panic. *)

Inductive outcome (A : Type) : Type :=
| Ok (a : A)
| Err (e : string)
| Panic (why : string).
Arguments Ok {A} a.
Arguments Err {A} e.
Arguments Panic {A} why.

#[export] Instance outcome_eq_dec {A} `{!EqDecision A} : EqDecision (outcome A).
Proof. solve_decision. Defined.

#[export] Instance outcome_ret : MRet outcome := @Ok.
#[export] Instance outcome_bind : MBind outcome := fun _ _ f m =>
  match m with Ok a => f a | Err e => Err e | Panic w => Panic w end.
#[export] Instance outcome_fmap : FMap outcome := fun _ _ f m =>
  match m with Ok a => Ok (f a) | Err e => Err e | Panic w => Panic w end.

Definition is_ok {A} (m : outcome A) : bool :=
  match m with Ok _ => true | _ => false end.

Lemma outcome_bind_Ok {A B} (f : A -> outcome B) m b :
  (m ≫= f) = Ok b <-> exists a, m = Ok a /\ f a = Ok b.
Proof. destruct m; naive_solver. Qed.

(** ** Strings *)

Lemma string_app_assoc (a b c : string) : a +:+ (b +:+ c) = (a +:+ b) +:+ c.
Proof. induction a as [|x a IH]; [done|]. exact (f_equal (String x) IH). Qed.

(** ** Bytes *)

Abbreviation byte := Corelib.Init.Byte.byte.

#[export] Instance byte_eq_dec : EqDecision byte := Strings.Byte.byte_eq_dec.

#[export] Program Instance byte_countable : Countable byte :=
  inj_countable Strings.Byte.to_N Strings.Byte.of_N _.
Next Obligation. intros b. apply Strings.Byte.of_to_N. Qed.

(** ** Lists *)

Lemma app_inj_suffix {A} (l1 l2 k1 k2 : list A) :
  length k1 = length k2 -> l1 ++ k1 = l2 ++ k2 -> l1 = l2 /\ k1 = k2.
Proof. intros Hl H. by apply app_inj_2. Qed.

Lemma take_app_exact {A} (l k : list A) n : n = length l -> take n (l ++ k) = l.
Proof. intros ->. apply take_app_length. Qed.

Lemma drop_app_exact {A} (l k : list A) n : n = length l -> drop n (l ++ k) = k.
Proof. intros ->. apply drop_app_length. Qed.

(** Sums of a weight over a list: independent of the order in which a Go map
    is ranged over. *)
Definition sum_list_Z {A} (w : A -> Z) (l : list A) : Z :=
  foldr (fun a acc => w a + acc) 0 l.

#[export] Instance sum_list_Z_perm {A} (w : A -> Z) :
  Proper (Permutation ==> eq) (sum_list_Z w).
Proof. induction 1; simpl; lia. Qed.

Lemma sum_list_Z_app {A} (w : A -> Z) l k :
  sum_list_Z w (l ++ k) = sum_list_Z w l + sum_list_Z w k.
Proof. induction l; simpl; lia. Qed.

Lemma sum_list_Z_nonneg {A} (w : A -> Z) l :
  (forall a, a ∈ l -> 0 <= w a) -> 0 <= sum_list_Z w l.
Proof.
  induction l as [|a l IH]; intros H; simpl; [done|].
  assert (0 <= w a) by (apply H; left).
  assert (0 <= sum_list_Z w l) by (apply IH; intros; apply H; by right). lia.
Qed.

Lemma sum_list_Z_fmap {A B} (w : B -> Z) (f : A -> B) l :
  sum_list_Z w (f <$> l) = sum_list_Z (fun a => w (f a)) l.
Proof. induction l as [|a l IH]; [done|]. rewrite fmap_cons. cbn. f_equal. exact IH. Qed.

(** ** Automation *)

Create HintDb go.
#[export] Hint Resolve u64_range u32_range i64_range i32_range : go.
#[export] Hint Rewrite @length_app @length_take @length_drop @length_reverse : go.

(** Case analysis on the test of the innermost [if] or [match] in the goal or in a
    hypothesis, cleaning up after itself. *)
Ltac split_matches :=
  repeat (case_match || case_decide); simplify_eq/=.

Ltac bools :=
  repeat match goal with
  | H : (_ && _) = true |- _ => apply andb_true_iff in H as [? ?]
  | H : (_ || _) = false |- _ => apply orb_false_iff in H as [? ?]
  | H : negb _ = true |- _ => apply negb_true_iff in H
  | H : negb _ = false |- _ => apply negb_false_iff in H
  | H : (_ <? _) = true |- _ => apply Z.ltb_lt in H
  | H : (_ <? _) = false |- _ => apply Z.ltb_ge in H
  | H : (_ <=? _) = true |- _ => apply Z.leb_le in H
  | H : (_ <=? _) = false |- _ => apply Z.leb_gt in H
  | H : (_ =? _) = true |- _ => apply Z.eqb_eq in H
  | H : (_ =? _) = false |- _ => apply Z.eqb_neq in H
  end.
