(* ===== verification/Bytes.v ===== *)
(** * Byte slices and arrays

    The byte-level vocabulary of the Go standard library the validator uses:
    big-endian integers ([encoding/binary], [math/big.Int.Bytes]), [copy] into
    fixed-size arrays, and conversions between strings and byte slices. *)

From Stdlib Require Strings.Byte.
From S2P Require Import Prelude.

(** ** Bytes as numbers *)

Definition byte_to_Z (b : byte) : Z := Z.of_N (Strings.Byte.to_N b).

(** [byte(z)]: conversion truncates to eight bits. *)
Definition byte_of_Z (z : Z) : byte :=
  default Byte.x00 (Strings.Byte.of_N (Z.to_N (z mod 256))).

Lemma byte_to_Z_range b : 0 <= byte_to_Z b < 256.
Proof.
  unfold byte_to_Z. pose proof (Strings.Byte.to_N_bounded b). lia.
Qed.

Lemma byte_to_Z_inj b c : byte_to_Z b = byte_to_Z c -> b = c.
Proof.
  unfold byte_to_Z. intros H. apply N2Z.inj in H.
  pose proof (Strings.Byte.of_to_N b) as Hb.
  pose proof (Strings.Byte.of_to_N c) as Hc. congruence.
Qed.

Lemma byte_to_of_Z z : byte_to_Z (byte_of_Z z) = z mod 256.
Proof.
  unfold byte_to_Z, byte_of_Z.
  pose proof (Z.mod_pos_bound z 256 ltac:(lia)).
  destruct (Strings.Byte.of_N _) as [b|] eqn:E; simpl.
  - apply Strings.Byte.to_of_N in E. rewrite E. lia.
  - apply Strings.Byte.of_N_None_iff in E. lia.
Qed.

Lemma byte_of_to_Z b : byte_of_Z (byte_to_Z b) = b.
Proof.
  apply byte_to_Z_inj. rewrite byte_to_of_Z, Z.mod_small; [done|].
  apply byte_to_Z_range.
Qed.

(** ** Big-endian integers *)

Definition be_value (l : list byte) : Z :=
  foldl (fun acc b => acc * 256 + byte_to_Z b) 0 l.

(** [n] bytes, most significant first: [binary.BigEndian.PutUint32] is the case
    [n = 4]. *)
Fixpoint be_fixed (n : nat) (z : Z) : list byte :=
  match n with
  | O => []
  | S n' => be_fixed n' (z / 256) ++ [byte_of_Z z]
  end.

(** Number of significant bytes. *)
Definition nbytes (z : Z) : nat :=
  if z =? 0 then 0%nat else Z.to_nat (Z.log2 (Z.abs z) / 8 + 1).

(** [big.Int.Bytes]: the absolute value, big-endian, without leading
    zeros; the empty slice for zero. *)
Definition BigInt_Bytes (z : Z) : list byte := be_fixed (nbytes z) (Z.abs z).

Lemma be_value_snoc l b : be_value (l ++ [b]) = be_value l * 256 + byte_to_Z b.
Proof. unfold be_value. by rewrite foldl_app. Qed.

Lemma be_value_app l k :
  be_value (l ++ k) = be_value l * 256 ^ Z.of_nat (length k) + be_value k.
Proof.
  induction k as [|b k IH] using rev_ind.
  - rewrite app_nil_r. simpl. unfold be_value at 3. simpl. lia.
  - rewrite app_assoc, !be_value_snoc, IH, length_app. simpl length.
    rewrite Nat2Z.inj_add, Z.pow_add_r by lia. change (256 ^ Z.of_nat 1) with 256. lia.
Qed.

Lemma length_be_fixed n z : length (be_fixed n z) = n.
Proof. revert z. induction n; intros; simpl; [done|]. rewrite length_app, IHn. simpl. lia. Qed.

Lemma pow256_S n : 256 ^ Z.of_nat (S n) = 256 * 256 ^ Z.of_nat n.
Proof. rewrite Nat2Z.inj_succ, Z.pow_succ_r; lia. Qed.

Lemma pow256_pos n : 0 < 256 ^ Z.of_nat n.
Proof. apply Z.pow_pos_nonneg; lia. Qed.

Lemma be_value_fixed n z : be_value (be_fixed n z) = z mod 256 ^ Z.of_nat n.
Proof.
  revert z. induction n as [|n IH]; intros z.
  { simpl. by rewrite Z.mod_1_r. }
  simpl be_fixed. rewrite be_value_snoc, IH, byte_to_of_Z, pow256_S.
  pose proof (pow256_pos n). rewrite Z.rem_mul_r by lia. lia.
Qed.

Lemma be_value_range l : 0 <= be_value l < 256 ^ Z.of_nat (length l).
Proof.
  induction l as [|b l IH] using rev_ind; [done|].
  rewrite be_value_snoc, length_app. simpl length.
  replace (length l + 1)%nat with (S (length l)) by lia. rewrite pow256_S.
  pose proof (byte_to_Z_range b). lia.
Qed.

Lemma be_fixed_value l : be_fixed (length l) (be_value l) = l.
Proof.
  induction l as [|b l IH] using rev_ind; [done|].
  rewrite length_app. simpl length.
  replace (length l + 1)%nat with (S (length l)) by lia. simpl.
  rewrite be_value_snoc. pose proof (byte_to_Z_range b). f_equal.
  - rewrite Z.div_add_l, Z.div_small, Z.add_0_r by lia. done.
  - f_equal. apply byte_to_Z_inj. rewrite byte_to_of_Z.
    rewrite Z.add_comm, Z.mod_add, Z.mod_small; lia.
Qed.

Lemma be_value_inj l k : length l = length k -> be_value l = be_value k -> l = k.
Proof. intros Hl Hv. by rewrite <- (be_fixed_value l), <- (be_fixed_value k), Hl, Hv. Qed.

Lemma be_fixed_inj n x y :
  0 <= x < 256 ^ Z.of_nat n -> 0 <= y < 256 ^ Z.of_nat n ->
  be_fixed n x = be_fixed n y -> x = y.
Proof.
  intros Hx Hy E. apply (f_equal be_value) in E.
  by rewrite !be_value_fixed, !Z.mod_small in E.
Qed.

Lemma nbytes_bound z : Z.abs z < 256 ^ Z.of_nat (nbytes z).
Proof.
  unfold nbytes. destruct (Z.eqb_spec z 0) as [->|Hz]; [done|].
  pose proof (Z.log2_spec (Z.abs z) ltac:(lia)) as [_ Hhi].
  pose proof (Z.log2_nonneg (Z.abs z)).
  assert (0 <= Z.log2 (Z.abs z) / 8) by (apply Z.div_pos; lia).
  rewrite Z2Nat.id by lia. change 256 with (2 ^ 8). rewrite <- Z.pow_mul_r by lia.
  eapply Z.lt_le_trans; [exact Hhi|]. apply Z.pow_le_mono_r; [lia|].
  pose proof (Z.div_mod (Z.log2 (Z.abs z)) 8 ltac:(lia)).
  pose proof (Z.mod_pos_bound (Z.log2 (Z.abs z)) 8 ltac:(lia)). lia.
Qed.

Lemma be_value_BigInt_Bytes z : be_value (BigInt_Bytes z) = Z.abs z.
Proof.
  unfold BigInt_Bytes. rewrite be_value_fixed, Z.mod_small; [done|].
  pose proof (nbytes_bound z). lia.
Qed.

Lemma BigInt_Bytes_inj x y : 0 <= x -> 0 <= y -> BigInt_Bytes x = BigInt_Bytes y -> x = y.
Proof.
  intros Hx Hy E. apply (f_equal be_value) in E.
  rewrite !be_value_BigInt_Bytes in E. lia.
Qed.

Lemma length_BigInt_Bytes_u64 z : is_u64 z -> (length (BigInt_Bytes z) <= 8)%nat.
Proof.
  intros [H0 H1]. unfold BigInt_Bytes. rewrite length_be_fixed. unfold nbytes.
  destruct (Z.eqb_spec z 0); [lia|].
  assert (Z.log2 (Z.abs z) < 64) by (apply Z.log2_lt_pow2; lia).
  pose proof (Z.log2_nonneg (Z.abs z)).
  assert (Z.log2 (Z.abs z) / 8 < 8) by (apply Z.div_lt_upper_bound; lia).
  assert (0 <= Z.log2 (Z.abs z) / 8) by (apply Z.div_pos; lia). lia.
Qed.

Lemma length_BigInt_Bytes_value z : length (BigInt_Bytes z) = nbytes z.
Proof. apply length_be_fixed. Qed.

(** Leading zeros do not change the value: padding a minimal encoding on the left
    gives the fixed-width one. *)
Lemma be_value_zeros n l : be_value (replicate n Byte.x00 ++ l) = be_value l.
Proof.
  unfold be_value. rewrite foldl_app. f_equal.
  induction n; simpl; [done|]. done.
Qed.

Lemma be_fixed_pad n z :
  0 <= z < 256 ^ Z.of_nat n ->
  (length (BigInt_Bytes z) <= n)%nat ->
  replicate (n - length (BigInt_Bytes z)) Byte.x00 ++ BigInt_Bytes z = be_fixed n z.
Proof.
  intros Hz Hl. apply be_value_inj.
  - rewrite length_app, length_replicate, length_be_fixed. lia.
  - rewrite be_value_zeros, be_value_BigInt_Bytes, be_value_fixed, Z.mod_small; lia.
Qed.

(** ** Arrays

    [var a \[n\]byte; copy(a\[:\], src)]: the first bytes of [src], zero-filled. *)
Fixpoint arr_copy (n : nat) (src : list byte) : vec byte n :=
  match n with
  | O => [#]
  | S n' =>
      match src with
      | [] => Byte.x00 ::: arr_copy n' []
      | b :: src' => b ::: arr_copy n' src'
      end
  end.

Lemma arr_copy_exact n src : length src = n -> vec_to_list (arr_copy n src) = src.
Proof.
  revert src. induction n as [|n IH]; intros [|b src] H; simplify_eq/=; [done|].
  by rewrite IH.
Qed.

Lemma vec_to_list_inj {n} (u v : vec byte n) : vec_to_list u = vec_to_list v -> u = v.
Proof. apply vec_to_list_inj2. Qed.

#[export] Program Instance vec_byte_countable n : Countable (vec byte n) | 0 :=
  inj_countable vec_to_list (fun l => Some (arr_copy n l)) _.
Next Obligation.
  intros n v. simpl. f_equal. apply vec_to_list_inj, arr_copy_exact, length_vec_to_list.
Qed.

(** [copy(dst\[off:\], src)] on a slice: overwrites in place, never grows. *)
Definition slice_copy (dst : list byte) (off : nat) (src : list byte) : list byte :=
  let n := Nat.min (length dst - off) (length src) in
  take off dst ++ take n src ++ drop (off + n) dst.

Lemma length_slice_copy dst off src :
  (off <= length dst)%nat -> length (slice_copy dst off src) = length dst.
Proof.
  intros. unfold slice_copy. rewrite !length_app, !length_take, length_drop. lia.
Qed.

(** [\[\]byte(s)]. *)
Definition bytes_of_string (s : string) : list byte := String.list_byte_of_string s.
Definition string_of_bytes (l : list byte) : string := String.string_of_list_byte l.

Lemma string_of_bytes_of_string s : string_of_bytes (bytes_of_string s) = s.
Proof. apply String.string_of_list_byte_of_string. Qed.

Lemma bytes_of_string_of_bytes l : bytes_of_string (string_of_bytes l) = l.
Proof. apply String.list_byte_of_string_of_list_byte. Qed.

#[export] Hint Rewrite length_be_fixed @length_vec_to_list : go.
