(* ===== verification/Fmt.v ===== *)
(** * fmt and strconv: hexadecimal integers

    [fmt.Sprintf("0x%x", n)] and [fmt.Sscanf(s, "0x%x", &n)] on 64-bit unsigned
    integers.  White space recognised by the scanner is the ASCII one. *)

From Stdlib Require Import Ascii.
From S2P Require Import Prelude Bytes.

Module Fmt.

Definition hex_digit (n : Z) : ascii :=
  ascii_of_N (Z.to_N (if n <? 10 then 48 + n else 87 + n)).

(** The value of a hexadecimal digit of either case. *)
Definition hex_value (c : ascii) : option Z :=
  let n := Z.of_N (N_of_ascii c) in
  if (48 <=? n) && (n <=? 57) then Some (n - 48)
  else if (97 <=? n) && (n <=? 102) then Some (n - 87)
  else if (65 <=? n) && (n <=? 70) then Some (n - 55)
  else None.

(** Digits of [n >= 0], most significant first; [fuel] digits at most. *)
Fixpoint hex_digits (fuel : nat) (n : Z) : list Z :=
  match fuel with
  | O => []
  | S f => if n <? 16 then [n] else hex_digits f (n / 16) ++ [n mod 16]
  end.

Fixpoint string_of_digits (l : list Z) : string :=
  match l with [] => "" | d :: l' => String (hex_digit d) (string_of_digits l') end.

(** [%x] of a uint64 has at most 16 digits. *)
Definition format_hex (n : Z) : string := string_of_digits (hex_digits 16 n).
Definition Sprintf_0x (n : Z) : string := "0x" +:+ format_hex n.

(** ** Scanning *)

Definition is_space (c : ascii) : bool :=
  let n := Z.of_N (N_of_ascii c) in (n =? 32) || ((9 <=? n) && (n <=? 13) && negb (n =? 10)).

Fixpoint skip_space (s : string) : string :=
  match s with
  | String c s' => if is_space c then skip_space s' else s
  | EmptyString => s
  end.

(** The longest prefix of digits. *)
Fixpoint scan_digits (s : string) : list Z :=
  match s with
  | String c s' => match hex_value c with Some d => d :: scan_digits s' | None => [] end
  | EmptyString => []
  end.

Definition digits_value (l : list Z) : Z := foldl (fun acc d => acc * 16 + d) 0 l.

(** [strconv.ParseUint(tok, 16, 64)]: fails on an empty token and out of range. *)
Definition ParseUint16 (l : list Z) : option Z :=
  match l with
  | [] => None
  | _ => if digits_value l <? 2 ^ 64 then Some (digits_value l) else None
  end.

(** The value stored by [fmt.Sscanf(s, "0x%x", &num)]; [None] when the scan fails and
    [num] is left alone. *)
Definition Sscanf_0x (s : string) : option Z :=
  match s with
  | String a (String b s') =>
      if decide (a = "0"%char /\ b = "x"%char) then ParseUint16 (scan_digits (skip_space s')) else None
  | _ => None
  end.

(** ** Facts *)

Lemma hex_value_digit n : 0 <= n < 16 -> hex_value (hex_digit n) = Some n.
Proof.
  intros H. assert (forallb (fun n => bool_decide (hex_value (hex_digit n) = Some n)) (seqZ 0 16) = true)
    as Hall by (vm_compute; reflexivity).
  rewrite forallb_forall in Hall. eapply bool_decide_eq_true_1, Hall.
  apply list_elem_of_In, elem_of_seqZ. lia.
Qed.

Lemma hex_digit_not_space n : 0 <= n < 16 -> is_space (hex_digit n) = false.
Proof.
  intros H. assert (forallb (fun n => negb (is_space (hex_digit n))) (seqZ 0 16) = true)
    as Hall by (vm_compute; reflexivity).
  rewrite forallb_forall in Hall. apply negb_true_iff, Hall.
  apply list_elem_of_In, elem_of_seqZ. lia.
Qed.

Lemma hex_digits_range fuel n : 0 <= n -> Forall (fun d => 0 <= d < 16) (hex_digits fuel n).
Proof.
  revert n. induction fuel as [|f IH]; intros n Hn; simpl; [constructor|].
  destruct (Z.ltb_spec n 16); [repeat constructor; lia|].
  apply Forall_app. split; [apply IH, Z.div_pos; lia|].
  repeat constructor; apply Z.mod_pos_bound; lia.
Qed.

Lemma hex_digits_value fuel n :
  0 <= n < 16 ^ Z.of_nat fuel -> digits_value (hex_digits fuel n) = n.
Proof.
  revert n. induction fuel as [|f IH]; intros n Hn.
  - simpl in *. change (16 ^ Z.of_nat 0) with 1 in Hn. unfold digits_value. simpl. lia.
  - rewrite Nat2Z.inj_succ, Z.pow_succ_r in Hn by lia. simpl.
    destruct (Z.ltb_spec n 16); [done|].
    unfold digits_value in *. rewrite foldl_app, IH; simpl.
    + rewrite Z.mul_comm. symmetry. apply Z.div_mod. lia.
    + split; [apply Z.div_pos; lia|apply Z.div_lt_upper_bound; lia].
Qed.

Lemma scan_string_of_digits l :
  Forall (fun d => 0 <= d < 16) l -> scan_digits (string_of_digits l) = l.
Proof.
  induction 1 as [|d l Hd Hl IH]; simpl; [done|]. by rewrite hex_value_digit, IH.
Qed.

Lemma skip_space_digits l :
  Forall (fun d => 0 <= d < 16) l -> skip_space (string_of_digits l) = string_of_digits l.
Proof. intros H. destruct H as [|d l Hd Hl]; simpl; [done|]. by rewrite hex_digit_not_space. Qed.

Lemma hex_digits_nonempty fuel n : (0 < fuel)%nat -> hex_digits fuel n <> [].
Proof.
  destruct fuel; [lia|]. simpl. intros _. destruct (n <? 16); [done|].
  intros H. by apply app_eq_nil in H as [_ ?].
Qed.

(** Scanning undoes printing on every uint64. *)
Lemma Sscanf_Sprintf n : is_u64 n -> Sscanf_0x (Sprintf_0x n) = Some n.
Proof.
  intros Hn.
  change (Sscanf_0x (Sprintf_0x n)) with (ParseUint16 (scan_digits (skip_space (format_hex n)))).
  unfold format_hex.
  pose proof (hex_digits_range 16 n ltac:(unfold is_u64 in *; lia)) as Hr.
  rewrite skip_space_digits, scan_string_of_digits by done.
  pose proof (hex_digits_value 16 n) as Hv. unfold is_u64 in Hn.
  change (16 ^ Z.of_nat 16) with (2 ^ 64) in Hv. specialize (Hv Hn).
  pose proof (hex_digits_nonempty 16 n ltac:(lia)).
  unfold ParseUint16. destruct (hex_digits 16 n); [done|].
  rewrite Hv. destruct (Z.ltb_spec n (2 ^ 64)); [done|lia].
Qed.

Lemma hex_value_range c d : hex_value c = Some d -> 0 <= d < 16.
Proof.
  unfold hex_value. set (n := Z.of_N _). intros H. repeat case_match; simplify_eq; bools; lia.
Qed.

Lemma digits_value_range l : Forall (fun d => 0 <= d < 16) l -> 0 <= digits_value l.
Proof.
  intros H. enough (forall acc, 0 <= acc -> 0 <= foldl (fun acc d => acc * 16 + d) acc l) as Hl by (by apply Hl).
  induction H as [|d l Hd _ IH]; intros acc Hacc; [done|]. cbn [foldl]. apply (IH _). lia.
Qed.

(** What the scan stores fits a uint64. *)
Lemma Sscanf_range s n : Sscanf_0x s = Some n -> is_u64 n.
Proof.
  unfold Sscanf_0x. destruct s as [|a [|b s]]; try done. case_decide; [|done]. unfold ParseUint16.
  destruct (scan_digits (skip_space s)) as [|d l] eqn:E; [done|].
  destruct (Z.ltb_spec (digits_value (d :: l)) (2 ^ 64)); [|done]. intros [= <-]. split; [|done].
  apply digits_value_range. rewrite <- E. clear. induction (skip_space s) as [|c s' IH]; [constructor|].
  cbn. destruct (hex_value c) as [d|] eqn:Ec; [|constructor]. constructor; [by eapply hex_value_range|done].
Qed.

End Fmt.
