(* ===== verification/Sha256.v ===== *)
(** * crypto/sha256

    The validator derives state roots and receipt hashes with the SHA-256 of
    Go's standard library ([sha256.New], [Write], [Sum]).  This file is the
    FIPS 180-4 function it implements: the round constants are computed from
    their definition (fractional parts of square and cube roots of primes) and
    the published test vectors are checked. *)

From S2P Require Import Prelude Bytes.

Module Sha256.

(** ** Constants *)

Definition is_prime (n : nat) : bool :=
  (2 <=? n)%nat && forallb (fun d => negb (n mod d =? 0)%nat) (seq 2 (n - 2)).

Definition primes : list nat := List.filter is_prime (seq 0 312).

(** Integer cube root, one bit at a time from bit [n]. *)
Fixpoint cbrt_from (n : nat) (acc x : Z) : Z :=
  let acc' := if Z.pow (acc + 2 ^ Z.of_nat n) 3 <=? x then acc + 2 ^ Z.of_nat n else acc in
  match n with O => acc' | S n' => cbrt_from n' acc' x end.

Definition frac_cbrt (p : nat) : Z := cbrt_from 36 0 (Z.of_nat p * 2 ^ 96) mod 2 ^ 32.
Definition frac_sqrt (p : nat) : Z := Z.sqrt (Z.of_nat p * 2 ^ 64) mod 2 ^ 32.

(** The first 64 primes give the round constants, the first 8 the initial state. *)
Definition round_constants : list Z := Eval vm_compute in map frac_cbrt primes.
Definition initial_hash : list Z := Eval vm_compute in map frac_sqrt (take 8 primes).

(** ** Words *)

Definition add32 (x y : Z) : Z := u32 (x + y).
Definition not32 (x : Z) : Z := 2 ^ 32 - 1 - x.
Definition rotr (n x : Z) : Z := Z.lor (Z.shiftr x n) (u32 (Z.shiftl x (32 - n))).

Definition ch (x y z : Z) : Z := Z.lxor (Z.land x y) (Z.land (not32 x) z).
Definition maj (x y z : Z) : Z := Z.lxor (Z.lxor (Z.land x y) (Z.land x z)) (Z.land y z).
Definition big_sigma0 (x : Z) : Z := Z.lxor (Z.lxor (rotr 2 x) (rotr 13 x)) (rotr 22 x).
Definition big_sigma1 (x : Z) : Z := Z.lxor (Z.lxor (rotr 6 x) (rotr 11 x)) (rotr 25 x).
Definition small_sigma0 (x : Z) : Z := Z.lxor (Z.lxor (rotr 7 x) (rotr 18 x)) (Z.shiftr x 3).
Definition small_sigma1 (x : Z) : Z := Z.lxor (Z.lxor (rotr 17 x) (rotr 19 x)) (Z.shiftr x 10).

(** ** Padding and message schedule *)

Definition pad (msg : list byte) : list byte :=
  let len := Z.of_nat (length msg) in
  msg ++ [Byte.x80] ++ replicate (Z.to_nat ((55 - len) mod 64)) Byte.x00 ++ be_fixed 8 (8 * len).

(** Big-endian words of a byte string. *)
Fixpoint words (l : list byte) : list Z :=
  match l with
  | a :: b :: c :: d :: l' => be_value [a; b; c; d] :: words l'
  | _ => []
  end.

(** [extend n ws]: [n] more schedule words; [ws] holds the words produced so far,
    most recent first. *)
Fixpoint extend (n : nat) (ws : list Z) : list Z :=
  match n with
  | O => ws
  | S n' =>
      let w := add32 (add32 (small_sigma1 (nth 1 ws 0)) (nth 6 ws 0))
                     (add32 (small_sigma0 (nth 14 ws 0)) (nth 15 ws 0)) in
      extend n' (w :: ws)
  end.

Definition schedule (block : list Z) : list Z := reverse (extend 48 (reverse block)).

(** ** Compression *)

Record state := mk_state { sa : Z; sb : Z; sc : Z; sd : Z; se : Z; sf : Z; sg : Z; sh : Z }.

Definition state_of (l : list Z) : state :=
  mk_state (nth 0 l 0) (nth 1 l 0) (nth 2 l 0) (nth 3 l 0)
           (nth 4 l 0) (nth 5 l 0) (nth 6 l 0) (nth 7 l 0).

Definition state_words (s : state) : list Z :=
  [sa s; sb s; sc s; sd s; se s; sf s; sg s; sh s].

Definition round (s : state) (kw : Z * Z) : state :=
  let t1 := add32 (add32 (add32 (sh s) (big_sigma1 (se s))) (ch (se s) (sf s) (sg s)))
                  (add32 kw.1 kw.2) in
  let t2 := add32 (big_sigma0 (sa s)) (maj (sa s) (sb s) (sc s)) in
  mk_state (add32 t1 t2) (sa s) (sb s) (sc s) (add32 (sd s) t1) (se s) (sf s) (sg s).

Definition compress (s : state) (block : list Z) : state :=
  let s' := foldl round s (zip round_constants (schedule block)) in
  state_of (zip_with add32 (state_words s) (state_words s')).

(** Split a word list into 16-word blocks, at most [n] of them. *)
Fixpoint blocks (n : nat) (ws : list Z) : list (list Z) :=
  match n with
  | O => []
  | S n' => take 16 ws :: blocks n' (drop 16 ws)
  end.

Definition sha256 (msg : list byte) : list byte :=
  let ws := words (pad msg) in
  let final := foldl compress (state_of initial_hash) (blocks (length ws / 16) ws) in
  mjoin (map (be_fixed 4) (state_words final)).

(** ** Facts *)

Lemma length_sha256 msg : length (sha256 msg) = 32%nat.
Proof.
  unfold sha256. generalize (foldl compress (state_of initial_hash)
    (blocks (length (words (pad msg)) / 16) (words (pad msg)))). intros s.
  unfold state_words. cbn [map mjoin list_join].
  autorewrite with go. reflexivity.
Qed.

Lemma length_pad msg :
  Z.of_nat (length (pad msg)) mod 64 = 0.
Proof.
  unfold pad. rewrite !length_app, length_replicate, length_be_fixed. simpl length.
  set (len := Z.of_nat (length msg)).
  pose proof (Z.mod_pos_bound (55 - len) 64 ltac:(lia)).
  replace (Z.of_nat _) with (64 + (len - 55) + (55 - len) mod 64) by lia.
  pose proof (Z.div_mod (55 - len) 64 ltac:(lia)).
  replace (64 + (len - 55) + (55 - len) mod 64) with ((1 - (55 - len) / 64) * 64) by lia.
  apply Z.mod_mul. lia.
Qed.

Lemma num_constants : length round_constants = 64%nat /\ length initial_hash = 8%nat.
Proof. split; reflexivity. Qed.

Lemma sha256_empty :
  be_value (sha256 []) =
  0xe3b0c44298fc1c149afbf4c8996fb92427ae41e4649b934ca495991b7852b855.
Proof. vm_compute. reflexivity. Qed.

Lemma sha256_abc :
  be_value (sha256 (bytes_of_string "abc")) =
  0xba7816bf8f01cfea414140de5dae2223b00361a396177a9cb410ff61f20015ad.
Proof. vm_compute. reflexivity. Qed.

Lemma sha256_two_blocks :
  be_value (sha256 (bytes_of_string
    "abcdbcdecdefdefgefghfghighijhijkijkljklmklmnlmnomnopnopq")) =
  0x248d6a61d20638b8e5c026930c3e6039a33ce45964ff2167f6ecedd419db06c1.
Proof. vm_compute. reflexivity. Qed.

End Sha256.

#[export] Hint Rewrite Sha256.length_sha256 : go.
