(* ===== verification/Eth.v ===== *)
(** * The go-ethereum interface

    Hashes, addresses and signatures come from go-ethereum, whose code is not
    part of this repository.  The functions the validator calls are the fields
    of the class [EthLib]; the documented behaviour the theorems rely on is the
    class [EthLaws].  [ToyEth] is one concrete instance of both, used only to
    evaluate the development on concrete inputs. *)

From Stdlib Require Import Ascii.
From S2P Require Import Prelude Bytes Fmt Sha256.
Import Fmt.

(** [common.Hash] and [common.Address] are the arrays [\[32\]byte] and [\[20\]byte]. *)
Abbreviation Hash := (vec byte 32).
Abbreviation Address := (vec byte 20).

Class EthLib := {
  (** package common *)
  Hash_Bytes : Hash -> list byte;
  Hash_Hex : Hash -> string;
  BytesToHash : list byte -> Hash;
  HexToHash : string -> Hash;
  Address_Bytes : Address -> list byte;
  Address_Hex : Address -> string;
  Address_MarshalText : Address -> string;
  HexToAddress : string -> Address;
  (** package crypto *)
  PrivateKey : Type;
  PublicKey : Type;
  public_key : PrivateKey -> PublicKey;
  ToECDSA : list byte -> option PrivateKey;
  Keccak256Hash : list byte -> Hash;
  Sign : list byte -> PrivateKey -> option (list byte);
  SigToPub : list byte -> list byte -> option PublicKey;
  PubkeyToAddress : PublicKey -> Address;
}.

Class EthLaws (E : EthLib) : Prop := {
  Hash_Bytes_spec h : Hash_Bytes h = vec_to_list h;
  Hash_Hex_inj g h : Hash_Hex g = Hash_Hex h -> g = h;
  Hash_Hex_nonempty h : Hash_Hex h <> ""%string;
  HexToHash_Hex h : HexToHash (Hash_Hex h) = h;
  BytesToHash_exact l : length l = 32%nat -> vec_to_list (BytesToHash l) = l;
  Address_Bytes_spec a : Address_Bytes a = vec_to_list a;
  HexToAddress_Hex a : HexToAddress (Address_Hex a) = a;
  Sign_length h k s : Sign h k = Some s -> length s = 65%nat;
  Sign_recover h k s : Sign h k = Some s -> SigToPub h s = Some (public_key k);
}.

Section Laws.
Context {E : EthLib} {L : EthLaws E}.

Lemma length_Hash_Bytes h : length (Hash_Bytes h) = 32%nat.
Proof. rewrite Hash_Bytes_spec. apply length_vec_to_list. Qed.

Lemma length_Address_Bytes a : length (Address_Bytes a) = 20%nat.
Proof. rewrite Address_Bytes_spec. apply length_vec_to_list. Qed.

Lemma Hash_Bytes_inj g h : Hash_Bytes g = Hash_Bytes h -> g = h.
Proof. rewrite !Hash_Bytes_spec. apply vec_to_list_inj. Qed.

Lemma Address_Bytes_inj a b : Address_Bytes a = Address_Bytes b -> a = b.
Proof. rewrite !Address_Bytes_spec. apply vec_to_list_inj. Qed.

Lemma BytesToHash_inj l k :
  length l = 32%nat -> length k = 32%nat -> BytesToHash l = BytesToHash k -> l = k.
Proof. intros Hl Hk E'. by rewrite <- (BytesToHash_exact l), <- (BytesToHash_exact k), E'. Qed.
End Laws.

(** ** A concrete instance *)

Module ToyEth.

Fixpoint hex_of_bytes (l : list byte) : string :=
  match l with
  | [] => ""
  | b :: l' =>
      String (hex_digit (byte_to_Z b / 16)) (String (hex_digit (byte_to_Z b mod 16)) (hex_of_bytes l'))
  end.

Fixpoint bytes_of_hex (s : string) : list byte :=
  match s with
  | String a (String b s') => byte_of_Z (16 * default 0 (hex_value a) + default 0 (hex_value b)) :: bytes_of_hex s'
  | _ => []
  end.

Definition to_hex (l : list byte) : string := ("0x" +:+ hex_of_bytes l).
Definition of_hex (s : string) : list byte :=
  match s with
  | String a (String b s') =>
      if decide (a = "0"%char /\ b = "x"%char) then bytes_of_hex s' else bytes_of_hex s
  | _ => []
  end.

(** A signature names its key and repeats the digest: recoverable, 65 bytes. *)
Definition sign (h : list byte) (k : Address) : list byte :=
  vec_to_list k ++ vec_to_list (arr_copy 32 h) ++ replicate 13 Byte.x00.

Definition sig_to_pub (h s : list byte) : option Address :=
  if decide (take 32 (drop 20 s) = vec_to_list (arr_copy 32 h)) then Some (arr_copy 20 (take 20 s))
  else None.

#[export] Instance toy : EthLib := {|
  Hash_Bytes := vec_to_list;
  Hash_Hex h := to_hex (vec_to_list h);
  BytesToHash := arr_copy 32;
  HexToHash s := arr_copy 32 (of_hex s);
  Address_Bytes := vec_to_list;
  Address_Hex a := to_hex (vec_to_list a);
  Address_MarshalText a := to_hex (vec_to_list a);
  HexToAddress s := arr_copy 20 (of_hex s);
  PrivateKey := Address;
  PublicKey := Address;
  public_key := fun k => k;
  ToECDSA l := if (length l =? 32)%nat then Some (arr_copy 20 l) else None;
  Keccak256Hash l := arr_copy 32 (Sha256.sha256 l);
  Sign h k := Some (sign h k);
  SigToPub := sig_to_pub;
  PubkeyToAddress := fun k => k;
|}.

Lemma bytes_of_hex_of_bytes l : bytes_of_hex (hex_of_bytes l) = l.
Proof.
  induction l as [|b l IH]; simpl; [done|]. rewrite IH. f_equal.
  pose proof (byte_to_Z_range b).
  rewrite !hex_value_digit by (split; [apply Z.div_pos || apply Z.mod_pos_bound; lia|
    apply Z.div_lt_upper_bound || apply Z.mod_pos_bound; lia]).
  simpl. rewrite <- Z.div_mod by lia. apply byte_of_to_Z.
Qed.

Lemma of_to_hex l : of_hex (to_hex l) = l.
Proof. apply bytes_of_hex_of_bytes. Qed.

Lemma arr_copy_vec {n} (v : vec byte n) : arr_copy n (vec_to_list v) = v.
Proof. apply vec_to_list_inj, arr_copy_exact, length_vec_to_list. Qed.

Lemma sig_to_pub_sign h k : sig_to_pub h (sign h k) = Some k.
Proof.
  unfold sig_to_pub, sign.
  rewrite drop_app_exact by (by rewrite length_vec_to_list).
  rewrite take_app_exact by (by rewrite length_vec_to_list).
  rewrite decide_True by done. f_equal.
  rewrite take_app_exact by (by rewrite length_vec_to_list). apply arr_copy_vec.
Qed.

#[export] Instance toy_laws : EthLaws toy.
Proof.
  split.
  - reflexivity.
  - intros g h H. apply vec_to_list_inj. apply (f_equal of_hex) in H.
    rewrite <- (of_to_hex g), <- (of_to_hex h). exact H.
  - discriminate.
  - intros h. change (arr_copy 32 (of_hex (to_hex h)) = h). rewrite of_to_hex. apply arr_copy_vec.
  - intros l. apply arr_copy_exact.
  - reflexivity.
  - intros a. change (arr_copy 20 (of_hex (to_hex a)) = a). rewrite of_to_hex. apply arr_copy_vec.
  - intros h k s [= <-]. unfold sign. autorewrite with go. by rewrite length_replicate.
  - intros h k s [= <-]. apply sig_to_pub_sign.
Qed.

End ToyEth.
