(* ===== verification/Base64.v ===== *)
(** * encoding/base64: StdEncoding

    The encoding [encoding/json] uses for byte slices: the standard alphabet with
    padding; decoding skips carriage returns and line feeds, ignores the unused low
    bits of the last character, and accepts nothing after the padding. *)

From S2P Require Import Prelude Bytes.

Module Base64.

(** ** The alphabet *)

Definition sextet_char (n : Z) : byte :=
  byte_of_Z (if n <? 26 then 65 + n else if n <? 52 then 71 + n else if n <? 62 then n - 4
             else if n =? 62 then 43 else 47).

Definition char_sextet (b : byte) : option Z :=
  let c := byte_to_Z b in
  if (65 <=? c) && (c <=? 90) then Some (c - 65)
  else if (97 <=? c) && (c <=? 122) then Some (c - 71)
  else if (48 <=? c) && (c <=? 57) then Some (c + 4)
  else if c =? 43 then Some 62 else if c =? 47 then Some 63 else None.

Definition padding : byte := byte_of_Z 61.

(** ** EncodeToString *)

Definition sextets (v : Z) : list Z := [v / 2 ^ 18; v / 2 ^ 12 mod 64; v / 2 ^ 6 mod 64; v mod 64].

Definition group (l : list byte) : list byte :=
  let quad := sextet_char <$> sextets (be_value (l ++ replicate (3 - length l) Byte.x00)) in
  take (S (length l)) quad ++ replicate (3 - length l) padding.

Fixpoint encode (l : list byte) : list byte :=
  match l with
  | [] => []
  | a :: b :: c :: l' => group [a; b; c] ++ encode l'
  | _ => group l
  end.

(** ** DecodeString *)

Definition skip_newlines (l : list byte) : list byte :=
  filter (fun b => ~ (byte_to_Z b = 13 \/ byte_to_Z b = 10)) l.

(** The bytes of [k] sextets, [k - 1] of them. *)
Definition ungroup (k : nat) (ss : list Z) : list byte :=
  take (k - 1) (be_fixed 3 (foldl (fun acc s => acc * 64 + s) 0 (take 4 (ss ++ [0; 0; 0])))).

Fixpoint decode_clean (l : list byte) : option (list byte) :=
  match l with
  | [] => Some []
  | a :: b :: c :: d :: l' =>
      x ← char_sextet a; y ← char_sextet b;
      if decide (c = padding) then
        if decide (d = padding /\ l' = []) then Some (ungroup 2 [x; y]) else None
      else
        z ← char_sextet c;
        if decide (d = padding) then if decide (l' = []) then Some (ungroup 3 [x; y; z]) else None
        else
          w ← char_sextet d;
          rest ← decode_clean l';
          Some (ungroup 4 [x; y; z; w] ++ rest)
  | _ => None
  end.

Definition decode (l : list byte) : option (list byte) := decode_clean (skip_newlines l).

(** ** Round trip *)

Lemma char_sextet_char n : 0 <= n < 64 -> char_sextet (sextet_char n) = Some n.
Proof.
  intros H. assert (forallb (fun n => bool_decide (char_sextet (sextet_char n) = Some n)) (seqZ 0 64) = true)
    as Hall by (vm_compute; reflexivity).
  rewrite forallb_forall in Hall. eapply bool_decide_eq_true_1, Hall.
  apply list_elem_of_In, elem_of_seqZ. lia.
Qed.

Lemma sextet_char_clean n : 0 <= n < 64 ->
  sextet_char n <> padding /\ byte_to_Z (sextet_char n) <> 13 /\ byte_to_Z (sextet_char n) <> 10.
Proof.
  intros H. assert (forallb (fun n => bool_decide (sextet_char n <> padding) &&
    bool_decide (byte_to_Z (sextet_char n) <> 13) && bool_decide (byte_to_Z (sextet_char n) <> 10)) (seqZ 0 64) = true)
    as Hall by (vm_compute; reflexivity).
  rewrite forallb_forall in Hall. specialize (Hall n). rewrite !andb_true_iff, !bool_decide_eq_true in Hall.
  destruct Hall as [[? ?] ?]; [|done]. apply list_elem_of_In, elem_of_seqZ. lia.
Qed.

Lemma sextets_range v : 0 <= v < 2 ^ 24 -> Forall (fun s => 0 <= s < 64) (sextets v).
Proof.
  intros Hv. repeat constructor; try (apply Z.mod_pos_bound; lia).
  - apply Z.div_pos; lia.
  - apply Z.div_lt_upper_bound; lia.
Qed.

Lemma sextets_value v : 0 <= v -> foldl (fun acc s => acc * 64 + s) 0 (sextets v) = v.
Proof.
  intros Hv. unfold sextets. cbn [foldl].
  assert (v / 2 ^ 12 = v / 2 ^ 18 * 64 + v / 2 ^ 12 mod 64) as E1.
  { replace (v / 2 ^ 18) with (v / 2 ^ 12 / 64) by (rewrite Z.div_div by lia; done).
    pose proof (Z.div_mod (v / 2 ^ 12) 64 ltac:(lia)). lia. }
  assert (v / 2 ^ 6 = v / 2 ^ 12 * 64 + v / 2 ^ 6 mod 64) as E2.
  { replace (v / 2 ^ 12) with (v / 2 ^ 6 / 64) by (rewrite Z.div_div by lia; done).
    pose proof (Z.div_mod (v / 2 ^ 6) 64 ltac:(lia)). lia. }
  pose proof (Z.div_mod v 64 ltac:(lia)) as E3. change (2 ^ 6) with 64 in *. lia.
Qed.

Definition value3 (l : list byte) : Z := be_value (l ++ replicate (3 - length l) Byte.x00).

Lemma value3_range l : (length l <= 3)%nat -> 0 <= value3 l < 2 ^ 24.
Proof.
  intros Hl. unfold value3. pose proof (be_value_range (l ++ replicate (3 - length l) Byte.x00)) as H.
  rewrite length_app, length_replicate in H.
  replace (length l + (3 - length l))%nat with 3%nat in H by lia. exact H.
Qed.

Lemma value3_bytes l : (length l <= 3)%nat -> take (length l) (be_fixed 3 (value3 l)) = l.
Proof.
  intros Hl. unfold value3.
  replace 3%nat with (length (l ++ replicate (3 - length l) Byte.x00)) at 1
    by (rewrite length_app, length_replicate; lia).
  rewrite be_fixed_value. by rewrite take_app_length.
Qed.

(** The low bits a short group drops are zeros. *)
Lemma mul_div_mod_64 a k j : 0 <= j -> j + 6 <= k -> a * 2 ^ k / 2 ^ j mod 64 = 0.
Proof.
  intros Hj Hk. assert (2 ^ k = 2 ^ (k - j - 6) * 64 * 2 ^ j) as ->.
  { change 64 with (2 ^ 6). rewrite <- !Z.pow_add_r by lia. f_equal. lia. }
  rewrite !Z.mul_assoc, Z.div_mul by lia. apply Z.mod_mul. lia.
Qed.

Lemma mul_mod_64 a k : 6 <= k -> a * 2 ^ k mod 64 = 0.
Proof.
  intros Hk. pose proof (mul_div_mod_64 a k 0 ltac:(lia) ltac:(lia)) as H.
  change (2 ^ 0) with 1 in H. by rewrite Z.div_1_r in H.
Qed.

Lemma short_sextets l :
  (1 <= length l <= 3)%nat ->
  take 4 (take (S (length l)) (sextets (value3 l)) ++ [0; 0; 0]) = sextets (value3 l).
Proof.
  intros Hl. destruct l as [|a [|b [|c [|d l]]]]; cbn [length] in *; try lia; [| |done].
  - assert (value3 [a] = byte_to_Z a * 2 ^ 16) as -> by (unfold value3, be_value; cbn; lia).
    unfold sextets. cbn [take app]. by rewrite (mul_div_mod_64 _ 16 6), (mul_mod_64 _ 16) by lia.
  - assert (value3 [a; b] = (byte_to_Z a * 256 + byte_to_Z b) * 2 ^ 8) as ->
      by (unfold value3, be_value; cbn; lia).
    unfold sextets. cbn [take app]. by rewrite (mul_mod_64 _ 8) by lia.
Qed.

Lemma ungroup_sextets l :
  (1 <= length l <= 3)%nat -> ungroup (S (length l)) (take (S (length l)) (sextets (value3 l))) = l.
Proof.
  intros Hl. unfold ungroup. rewrite short_sextets by done.
  pose proof (value3_range l ltac:(lia)). rewrite sextets_value by lia.
  replace (S (length l) - 1)%nat with (length l) by lia. apply value3_bytes. lia.
Qed.

(** ** Decoding what was encoded *)

Lemma group_eq l : group l = take (S (length l)) (sextet_char <$> sextets (value3 l)) ++ replicate (3 - length l) padding.
Proof. done. Qed.

Lemma decode_group l rest :
  (1 <= length l <= 3)%nat -> (length l = 3%nat \/ rest = []) ->
  decode_clean (group l ++ rest) = app l <$> decode_clean rest.
Proof.
  intros Hl Hrest. pose proof (ungroup_sextets l Hl) as Hu.
  pose proof (sextets_range (value3 l) (value3_range l ltac:(lia))) as Hr.
  rewrite group_eq. unfold sextets in *. rewrite !Forall_cons in Hr. destruct Hr as (H1 & H2 & H3 & H4 & _).
  revert H1 H2 H3 H4 Hu.
  generalize (value3 l / 2 ^ 18), (value3 l / 2 ^ 12 mod 64), (value3 l / 2 ^ 6 mod 64), (value3 l mod 64).
  intros x y z w Hx Hy Hz Hw Hu.
  destruct (sextet_char_clean z Hz) as [Hzp _]. destruct (sextet_char_clean w Hw) as [Hwp _].
  destruct l as [|a [|b [|c [|d l]]]]; cbn [length] in *; try lia;
    try (destruct Hrest as [?| ->]; [lia|]); cbn [take Nat.sub replicate app fmap list_fmap decode_clean] in *;
    rewrite (char_sextet_char x), (char_sextet_char y) by done; cbn [mbind option_bind].
  - rewrite !decide_True by done. rewrite Hu. done.
  - rewrite (decide_False _ _ Hzp), (char_sextet_char z) by done. cbn [mbind option_bind].
    rewrite !decide_True by done. rewrite Hu. done.
  - rewrite (decide_False _ _ Hzp), (char_sextet_char z) by done. cbn [mbind option_bind].
    rewrite (decide_False _ _ Hwp), (char_sextet_char w) by done. cbn [mbind option_bind].
    rewrite Hu. by destruct (decode_clean rest).
Qed.

Lemma decode_clean_encode l : decode_clean (encode l) = Some l.
Proof.
  induction l as [l IH] using (induction_ltof1 _ (@length byte)). unfold ltof in IH.
  destruct l as [|a [|b [|c l]]]; [done| | |].
  - cbn [encode]. rewrite <- (app_nil_r (group [a])), decode_group by (simpl; auto with lia). done.
  - cbn [encode]. rewrite <- (app_nil_r (group [a; b])), decode_group by (simpl; auto with lia). done.
  - cbn [encode]. rewrite decode_group by (simpl; auto with lia). rewrite IH by (simpl; lia). done.
Qed.

(** Characters of the encoding: printable, and none that JSON escapes. *)
Definition plain_char (b : byte) : Prop :=
  (43 <= byte_to_Z b <= 57 \/ byte_to_Z b = 61 \/ 65 <= byte_to_Z b <= 90 \/ 97 <= byte_to_Z b <= 122) /\
  byte_to_Z b <> 13 /\ byte_to_Z b <> 10.

Lemma sextet_char_plain n : 0 <= n < 64 -> plain_char (sextet_char n).
Proof.
  intros H. assert (forallb (fun n => let c := byte_to_Z (sextet_char n) in
    ((43 <=? c) && (c <=? 57)) || ((65 <=? c) && (c <=? 90)) || ((97 <=? c) && (c <=? 122))) (seqZ 0 64) = true)
    as Hall by (vm_compute; reflexivity).
  rewrite forallb_forall in Hall. specialize (Hall n ltac:(apply list_elem_of_In, elem_of_seqZ; lia)).
  cbv zeta in Hall. rewrite !orb_true_iff, !andb_true_iff, !Z.leb_le in Hall. unfold plain_char. lia.
Qed.

Lemma padding_plain : plain_char padding.
Proof. unfold plain_char. vm_compute. repeat split; auto; discriminate. Qed.

Lemma group_plain l : (length l <= 3)%nat -> Forall plain_char (group l).
Proof.
  intros Hl. rewrite group_eq. apply Forall_app. split.
  - apply Forall_take. pose proof (sextets_range (value3 l) (value3_range l Hl)) as Hr.
    apply Forall_fmap. eapply Forall_impl; [exact Hr|]. intros s. apply sextet_char_plain.
  - apply Forall_replicate, padding_plain.
Qed.

Lemma encode_plain l : Forall plain_char (encode l).
Proof.
  induction l as [l IH] using (induction_ltof1 _ (@length byte)). unfold ltof in IH.
  destruct l as [|a [|b [|c l]]]; cbn [encode]; [constructor|apply group_plain; simpl; lia..|].
  apply Forall_app. split; [apply group_plain; simpl; lia|apply IH; simpl; lia].
Qed.

(** Decoding undoes encoding. *)
Lemma decode_encode l : decode (encode l) = Some l.
Proof.
  unfold decode. replace (skip_newlines (encode l)) with (encode l); [apply decode_clean_encode|].
  unfold skip_newlines. induction (encode_plain l) as [|b bs (_ & H1 & H2) _ IH]; [done|].
  rewrite filter_cons_True by tauto. by rewrite <- IH.
Qed.

Example encode_hello : string_of_bytes (encode (bytes_of_string "Hello")) = "SGVsbG8="%string.
Proof. reflexivity. Qed.

End Base64.
