(* ===== verification/Json.v ===== *)
(** * encoding/json: texts

    JSON texts as the Standard Library of Go reads and writes them: the syntax tree,
    the scanner with its nesting limit and its treatment of escapes and of malformed
    UTF-8, and the printer with its HTML-safe escapes.  The typed decoders and encoders
    of the program's messages are built on it in [Wire]. *)

From S2P Require Import Prelude Bytes.

Module Json.

(** Number literals are kept as written; members keep their order and duplicates. *)
Inductive json :=
| JNull
| JBool (b : bool)
| JNum (literal : list byte)
| JStr (s : list byte)
| JArr (elems : list json)
| JObj (members : list (list byte * json)).

Abbreviation code := byte_to_Z.
Abbreviation chr := byte_of_Z.
Definition text (s : string) : list byte := bytes_of_string s.

(** ** UTF-8 *)

Definition between_codes (lo hi : Z) (b : byte) : bool := (lo <=? code b) && (code b <=? hi).
Definition is_cont (b : byte) : bool := between_codes 128 191 b.

Definition RuneError : Z := 65533.

(** [utf8.DecodeRune] on a non-empty text: the rune and its width; one byte and
    [RuneError] when the encoding is malformed. *)
Definition DecodeRune (l : list byte) : Z * nat :=
  match l with
  | [] => (RuneError, 0%nat)
  | a :: l1 =>
      let c := code a in
      let bad := (RuneError, 1%nat) in
      if c <? 128 then (c, 1%nat)
      else if between_codes 194 223 a then
        match l1 with
        | b :: _ => if is_cont b then ((c - 192) * 64 + (code b - 128), 2%nat) else bad
        | _ => bad
        end
      else if between_codes 224 239 a then
        match l1 with
        | b :: d :: _ =>
            if between_codes (if c =? 224 then 160 else 128) (if c =? 237 then 159 else 191) b && is_cont d
            then ((c - 224) * 4096 + (code b - 128) * 64 + (code d - 128), 3%nat) else bad
        | _ => bad
        end
      else if between_codes 240 244 a then
        match l1 with
        | b :: d :: e :: _ =>
            if between_codes (if c =? 240 then 144 else 128) (if c =? 244 then 143 else 191) b && is_cont d && is_cont e
            then ((c - 240) * 262144 + (code b - 128) * 4096 + (code d - 128) * 64 + (code e - 128), 4%nat) else bad
        | _ => bad
        end
      else bad
  end.

(** [utf8.EncodeRune]; surrogates and out-of-range values become [RuneError]. *)
Definition EncodeRune (r : Z) : list byte :=
  let three r := [chr (224 + r / 4096); chr (128 + r / 64 mod 64); chr (128 + r mod 64)] in
  if (0 <=? r) && (r <? 128) then [chr r]
  else if (128 <=? r) && (r <? 2048) then [chr (192 + r / 64); chr (128 + r mod 64)]
  else if (r <? 0) || ((55296 <=? r) && (r <=? 57343)) || (1114111 <? r) then three RuneError
  else if r <? 65536 then three r
  else [chr (240 + r / 262144); chr (128 + r / 4096 mod 64); chr (128 + r / 64 mod 64); chr (128 + r mod 64)].

(** ** The scanner *)

Definition is_ws (b : byte) : bool :=
  (code b =? 32) || (code b =? 9) || (code b =? 13) || (code b =? 10).

Fixpoint skip_ws (l : list byte) : list byte :=
  match l with b :: l' => if is_ws b then skip_ws l' else l | [] => [] end.

Definition hex_code (b : byte) : option Z :=
  if between_codes 48 57 b then Some (code b - 48)
  else if between_codes 97 102 b then Some (code b - 87)
  else if between_codes 65 70 b then Some (code b - 55)
  else None.

(** The four digits after [\u]. *)
Definition hex4 (l : list byte) : option (Z * list byte) :=
  match l with
  | a :: b :: c :: d :: l' =>
      w ← hex_code a; x ← hex_code b; y ← hex_code c; z ← hex_code d;
      Some (w * 4096 + x * 256 + y * 16 + z, l')
  | _ => None
  end.

Definition is_surrogate (r : Z) : bool := (55296 <=? r) && (r <? 57344).

(** The rune of a [\u] escape whose digits gave [r], and what follows it: a high
    surrogate takes a following escaped low surrogate with it, any other surrogate is
    replaced. *)
Definition unicode_escape (r : Z) (l : list byte) : Z * list byte :=
  if is_surrogate r then
    match l with
    | a :: b :: l' =>
        match (if (code a =? 92) && (code b =? 117) then hex4 l' else None) with
        | Some (r2, l'') =>
            if (r <? 56320) && ((56320 <=? r2) && (r2 <? 57344))
            then (65536 + (r - 55296) * 1024 + (r2 - 56320), l'')
            else (RuneError, l)
        | None => (RuneError, l)
        end
    | _ => (RuneError, l)
    end
  else (r, l).

Definition simple_escape (b : byte) : option byte :=
  if (code b =? 34) || (code b =? 92) || (code b =? 47) then Some b
  else if code b =? 98 then Some (chr 8) else if code b =? 102 then Some (chr 12)
  else if code b =? 110 then Some (chr 10) else if code b =? 114 then Some (chr 13)
  else if code b =? 116 then Some (chr 9) else None.

Definition prepend (p : list byte) (r : option (list byte * list byte)) : option (list byte * list byte) :=
  '(s, rest) ← r; Some (p ++ s, rest).

(** The content of a string after its opening quote; [fuel] bounds the characters. *)
Fixpoint parse_string (fuel : nat) (l : list byte) : option (list byte * list byte) :=
  match fuel with
  | O => None
  | S f =>
      match l with
      | [] => None
      | b :: l1 =>
          if code b =? 34 then Some ([], l1)
          else if code b =? 92 then
            match l1 with
            | [] => None
            | e :: l2 =>
                if code e =? 117 then
                  '(r, l3) ← hex4 l2;
                  let '(r', l4) := unicode_escape r l3 in
                  prepend (EncodeRune r') (parse_string f l4)
                else c ← simple_escape e; prepend [c] (parse_string f l2)
            end
          else if code b <? 32 then None
          else
            let '(r, n) := DecodeRune l in
            prepend (EncodeRune r) (parse_string f (drop n l))
      end
  end.

Definition is_digit (b : byte) : bool := between_codes 48 57 b.

Fixpoint scan_digits (l : list byte) : list byte * list byte :=
  match l with
  | b :: l' => if is_digit b then let '(ds, r) := scan_digits l' in (b :: ds, r) else ([], l)
  | [] => ([], [])
  end.

Definition scan_integer (l : list byte) : option (list byte * list byte) :=
  match l with
  | b :: l' =>
      if code b =? 48 then Some ([b], l')
      else if is_digit b then Some (scan_digits l) else None
  | [] => None
  end.

(** Fraction and exponent, each optional. *)
Definition scan_fraction (l : list byte) : option (list byte * list byte) :=
  match l with
  | b :: l' => if code b =? 46 then
                 match scan_digits l' with ([], _) => None | (ds, r) => Some (b :: ds, r) end
               else Some ([], l)
  | [] => Some ([], [])
  end.

Definition scan_exponent (l : list byte) : option (list byte * list byte) :=
  match l with
  | b :: l' =>
      if (code b =? 101) || (code b =? 69) then
        let '(sign, l2) := match l' with
          | c :: l'' => if (code c =? 43) || (code c =? 45) then ([c], l'') else ([], l')
          | [] => ([], []) end in
        match scan_digits l2 with ([], _) => None | (ds, r) => Some (b :: sign ++ ds, r) end
      else Some ([], l)
  | [] => Some ([], [])
  end.

Definition scan_number (l : list byte) : option (list byte * list byte) :=
  let '(sign, l1) := match l with
    | b :: l' => if code b =? 45 then ([b], l') else ([], l)
    | [] => ([], []) end in
  '(int, l2) ← scan_integer l1;
  '(frac, l3) ← scan_fraction l2;
  '(exp, l4) ← scan_exponent l3;
  Some (sign ++ int ++ frac ++ exp, l4).

Fixpoint expect (word l : list byte) : option (list byte) :=
  match word, l with
  | [], _ => Some l
  | w :: word', b :: l' => if code w =? code b then expect word' l' else None
  | _, [] => None
  end.

Definition maxNestingDepth : Z := 10000.

(** A value, white space before it allowed; [depth] counts the open brackets and
    [fuel] bounds the number of values and characters. *)
Fixpoint parse_value (fuel : nat) (depth : Z) (l : list byte) : option (json * list byte) :=
  match fuel with
  | O => None
  | S f =>
      match skip_ws l with
      | [] => None
      | (b :: l1) as l0 =>
          if code b =? 34 then '(s, r) ← parse_string f l1; Some (JStr s, r)
          else if code b =? 123 then
            if maxNestingDepth <? depth + 1 then None
            else
              match skip_ws l1 with
              | [] => None
              | c :: l2 => if code c =? 125 then Some (JObj [], l2)
                           else '(ms, r) ← parse_members f (depth + 1) l1; Some (JObj ms, r)
              end
          else if code b =? 91 then
            if maxNestingDepth <? depth + 1 then None
            else
              match skip_ws l1 with
              | [] => None
              | c :: l2 => if code c =? 93 then Some (JArr [], l2)
                           else '(es, r) ← parse_elems f (depth + 1) l1; Some (JArr es, r)
              end
          else if code b =? 110 then r ← expect (text "null") l0; Some (JNull, r)
          else if code b =? 116 then r ← expect (text "true") l0; Some (JBool true, r)
          else if code b =? 102 then r ← expect (text "false") l0; Some (JBool false, r)
          else '(n, r) ← scan_number l0; Some (JNum n, r)
      end
  end
with parse_members (fuel : nat) (depth : Z) (l : list byte) : option (list (list byte * json) * list byte) :=
  match fuel with
  | O => None
  | S f =>
      match skip_ws l with
      | q :: l1 =>
          if code q =? 34 then
            '(k, l2) ← parse_string f l1;
            match skip_ws l2 with
            | c :: l3 =>
                if code c =? 58 then
                  '(v, l4) ← parse_value f depth l3;
                  match skip_ws l4 with
                  | e :: l5 =>
                      if code e =? 125 then Some ([(k, v)], l5)
                      else if code e =? 44 then
                        '(ms, l6) ← parse_members f depth l5; Some ((k, v) :: ms, l6)
                      else None
                  | [] => None
                  end
                else None
            | [] => None
            end
          else None
      | [] => None
      end
  end
with parse_elems (fuel : nat) (depth : Z) (l : list byte) : option (list json * list byte) :=
  match fuel with
  | O => None
  | S f =>
      '(v, l1) ← parse_value f depth l;
      match skip_ws l1 with
      | e :: l2 =>
          if code e =? 93 then Some ([v], l2)
          else if code e =? 44 then '(vs, l3) ← parse_elems f depth l2; Some (v :: vs, l3)
          else None
      | [] => None
      end
  end.

(** A whole text: one value and white space. *)
Definition parse (l : list byte) : option json :=
  '(v, r) ← parse_value (S (length l)) 0 l;
  if decide (skip_ws r = []) then Some v else None.

(** ** The printer *)

Definition hex_char (n : Z) : byte := chr (if n <? 10 then 48 + n else 87 + n).
Definition u00 (c : Z) : list byte := text "\u00" ++ [hex_char (c / 16); hex_char (c mod 16)].

(** An ASCII character inside a string, with HTML escaping. *)
Definition escape (b : byte) : list byte :=
  let c := code b in
  if (c =? 34) || (c =? 92) then [chr 92; b]
  else if c =? 8 then text "\b" else if c =? 12 then text "\f" else if c =? 10 then text "\n"
  else if c =? 13 then text "\r" else if c =? 9 then text "\t"
  else if (c <? 32) || (c =? 60) || (c =? 62) || (c =? 38) then u00 c
  else [b].

Fixpoint encode_chars (fuel : nat) (s : list byte) : list byte :=
  match fuel with
  | O => []
  | S f =>
      match s with
      | [] => []
      | b :: s' =>
          if code b <? 128 then escape b ++ encode_chars f s'
          else
            let '(r, n) := DecodeRune s in
            (if (r =? RuneError) && (n =? 1)%nat then text "\ufffd"
             else if r =? 8232 then text "\u2028" else if r =? 8233 then text "\u2029"
             else take n s) ++ encode_chars f (drop n s)
      end
  end.

Definition encode_string (s : list byte) : list byte := chr 34 :: encode_chars (length s) s ++ [chr 34].

Fixpoint commas (ts : list (list byte)) : list byte :=
  match ts with
  | [] => []
  | [t] => t
  | t :: ts' => t ++ chr 44 :: commas ts'
  end.

Fixpoint encode (j : json) : list byte :=
  match j with
  | JNull => text "null"
  | JBool b => if b then text "true" else text "false"
  | JNum n => n
  | JStr s => encode_string s
  | JArr es => chr 91 :: commas (List.map encode es) ++ [chr 93]
  | JObj ms =>
      chr 123 :: commas (List.map (fun '(k, v) => encode_string k ++ chr 58 :: encode v) ms) ++ [chr 125]
  end.

(** ** Decimal integers: strconv *)

Fixpoint dec_digits (fuel : nat) (n : Z) : list byte :=
  match fuel with
  | O => []
  | S f => (if n <? 10 then [] else dec_digits f (n / 10)) ++ [chr (48 + n mod 10)]
  end.

(** [FormatInt] of a 64-bit integer: at most 20 digits. *)
Definition FormatInt (n : Z) : list byte :=
  if n <? 0 then chr 45 :: dec_digits 20 (- n) else dec_digits 20 n.

Definition dec_value (ds : list byte) : Z := foldl (fun acc d => acc * 10 + (code d - 48)) 0 ds.

(** [ParseUint(s, 10, bits)] and [ParseInt(s, 10, 64)] of a JSON number literal: a
    fraction or an exponent is a syntax error. *)
Definition ParseUint (bits : Z) (s : list byte) : option Z :=
  if forallb is_digit s && negb (length s =? 0)%nat && (dec_value s <? 2 ^ bits) then Some (dec_value s) else None.

Definition ParseInt (s : list byte) : option Z :=
  let '(neg, ds) := match s with
    | b :: s' => if code b =? 45 then (true, s') else if code b =? 43 then (false, s') else (false, s)
    | [] => (false, s) end in
  if forallb is_digit ds && negb (length ds =? 0)%nat then
    let n := if neg then - dec_value ds else dec_value ds in
    if (- 2 ^ 63 <=? n) && (n <? 2 ^ 63) then Some n else None
  else None.

(** ** Round trip: strings *)

Definition ascii (s : list byte) : Prop := Forall (fun b => code b < 128) s.

Lemma parse_string_escape f b rest :
  code b < 128 -> parse_string (S f) (escape b ++ rest) = prepend [b] (parse_string f rest).
Proof. intros H. destruct b; first [reflexivity|exfalso; revert H; vm_compute; discriminate]. Qed.

Lemma parse_string_encode s fuel rest :
  ascii s -> (length s < fuel)%nat ->
  parse_string fuel (encode_chars (length s) s ++ chr 34 :: rest) = Some (s, rest).
Proof.
  intros Hs. revert fuel. induction Hs as [|b s Hb Hs IH]; intros fuel Hf; simpl in Hf.
  - destruct fuel; [lia|]. done.
  - destruct fuel as [|fuel]; [lia|]. cbn [length encode_chars].
    destruct (Z.ltb_spec (code b) 128); [|lia].
    rewrite <- app_assoc, parse_string_escape by done. rewrite IH by lia. done.
Qed.

(** ** Round trip: numbers *)

Lemma code_digit n : 0 <= n < 10 -> code (chr (48 + n)) = 48 + n.
Proof. intros H. rewrite byte_to_of_Z. apply Z.mod_small. lia. Qed.

Lemma is_digit_chr n : 0 <= n < 10 -> is_digit (chr (48 + n)) = true.
Proof. intros H. unfold is_digit, between_codes. rewrite code_digit by done. apply andb_true_iff. lia. Qed.

Lemma dec_digits_spec fuel n :
  0 <= n < 10 ^ Z.of_nat fuel ->
  Forall (fun d => is_digit d = true) (dec_digits fuel n) /\ dec_value (dec_digits fuel n) = n /\
  ((1 <= fuel)%nat -> exists d ds, dec_digits fuel n = d :: ds /\ (code d = 48 -> ds = [])).
Proof.
  revert n. induction fuel as [|f IH]; intros n Hn.
  - simpl in *. change (10 ^ Z.of_nat 0) with 1 in Hn. split; [constructor|]. split; [unfold dec_value; simpl; lia|lia].
  - rewrite Nat2Z.inj_succ, Z.pow_succ_r in Hn by lia. cbn [dec_digits].
    pose proof (Z.mod_pos_bound n 10 ltac:(lia)) as Hm. destruct (Z.ltb_spec n 10) as [Hlt|Hge].
    + rewrite (Z.mod_small n) in * by lia. split; [repeat constructor; by apply is_digit_chr|].
      split; [unfold dec_value; cbn [app foldl]; rewrite code_digit by lia; lia|].
      intros _. by exists (chr (48 + n)), [].
    + destruct (IH (n / 10)) as (Hd & Hv & Hh).
      { split; [apply Z.div_pos; lia|apply Z.div_lt_upper_bound; lia]. }
      split; [apply Forall_app; split; [done|repeat constructor; by apply is_digit_chr]|]. split.
      * unfold dec_value in *. rewrite foldl_app, Hv. cbn [foldl]. rewrite code_digit by lia.
        pose proof (Z.div_mod n 10 ltac:(lia)). lia.
      * intros _. destruct f as [|f]; [change (10 ^ Z.of_nat 0) with 1 in Hn; lia|].
        destruct (Hh ltac:(lia)) as (d & ds & E & Hz). rewrite E. exists d, (ds ++ [chr (48 + n mod 10)]).
        split; [done|]. intros H48. exfalso. rewrite (Hz H48) in E.
        rewrite E in Hv. unfold dec_value in Hv. cbn [foldl] in Hv.
        assert (1 <= n / 10) by (apply Z.div_le_lower_bound; lia). lia.
Qed.

(** What may follow a number. *)
Definition delim (rest : list byte) : Prop :=
  match rest with
  | [] => True
  | b :: _ => is_digit b = false /\ code b <> 46 /\ code b <> 101 /\ code b <> 69
  end.

Lemma scan_digits_app ds rest :
  Forall (fun d => is_digit d = true) ds -> delim rest -> scan_digits (ds ++ rest) = (ds, rest).
Proof.
  intros H Hr. induction H as [|d ds Hd _ IH]; cbn [app scan_digits].
  - destruct rest as [|b rest]; [done|]. cbn [scan_digits]. by destruct Hr as [-> _].
  - by rewrite Hd, IH.
Qed.

Lemma scan_tail rest : delim rest -> scan_fraction rest = Some ([], rest) /\ scan_exponent rest = Some ([], rest).
Proof.
  destruct rest as [|b rest]; [done|]. intros (_ & H1 & H2 & H3). cbn [scan_fraction scan_exponent].
  destruct (Z.eqb_spec (code b) 46), (Z.eqb_spec (code b) 101), (Z.eqb_spec (code b) 69); done.
Qed.

Lemma scan_integer_app d ds rest :
  Forall (fun d => is_digit d = true) (d :: ds) -> (code d = 48 -> ds = []) -> delim rest ->
  scan_integer ((d :: ds) ++ rest) = Some (d :: ds, rest).
Proof.
  intros Hd Hz Hr. cbn [app scan_integer]. destruct (Z.eqb_spec (code d) 48) as [E|]; [by rewrite (Hz E)|].
  inversion Hd; subst. rewrite H1. change (d :: ds ++ rest) with ((d :: ds) ++ rest).
  by rewrite scan_digits_app.
Qed.

Lemma digit_not_minus d : is_digit d = true -> (code d =? 45) = false /\ (code d =? 43) = false.
Proof. unfold is_digit, between_codes. rewrite andb_true_iff, !Z.leb_le, !Z.eqb_neq. lia. Qed.

Lemma FormatInt_shape n : - 10 ^ 20 < n < 10 ^ 20 ->
  exists d ds, Forall (fun d => is_digit d = true) (d :: ds) /\ (code d = 48 -> ds = []) /\
    dec_value (d :: ds) = Z.abs n /\ FormatInt n = (if n <? 0 then [chr 45] else []) ++ d :: ds.
Proof.
  intros Hn. destruct (dec_digits_spec 20 (Z.abs n)) as (Hd & Hv & Hh); [change (Z.of_nat 20) with 20; lia|].
  destruct (Hh ltac:(lia)) as (d & ds & E & Hz). rewrite E in *. exists d, ds.
  split; [done|]. split; [done|]. split; [done|]. unfold FormatInt.
  destruct (Z.ltb_spec n 0); rewrite <- E; [by replace (- n) with (Z.abs n) by lia|].
  by replace n with (Z.abs n) at 1 by lia.
Qed.

Lemma scan_number_FormatInt n rest :
  - 10 ^ 20 < n < 10 ^ 20 -> delim rest -> scan_number (FormatInt n ++ rest) = Some (FormatInt n, rest).
Proof.
  intros Hn Hr. destruct (FormatInt_shape n Hn) as (d & ds & Hd & Hz & _ & ->).
  destruct (scan_tail rest Hr) as [Hfr Hex]. unfold scan_number.
  assert ((code d =? 45) = false) as Hm by (inversion Hd; by apply digit_not_minus).
  destruct (n <? 0); cbn [app].
  - change (code (chr 45) =? 45) with true. cbv iota. change (d :: ds ++ rest) with ((d :: ds) ++ rest).
    rewrite scan_integer_app by done. cbn [mbind option_bind]. rewrite Hfr. cbn [mbind option_bind]. rewrite Hex.
    cbn. by rewrite app_nil_r.
  - rewrite Hm. change (d :: ds ++ rest) with ((d :: ds) ++ rest).
    rewrite scan_integer_app by done. cbn [mbind option_bind]. rewrite Hfr. cbn [mbind option_bind]. rewrite Hex.
    cbn. by rewrite app_nil_r.
Qed.

Lemma forallb_digits ds : Forall (fun d => is_digit d = true) ds -> forallb is_digit ds = true.
Proof. induction 1 as [|d ds Hd _ IH]; simpl; [done|by rewrite Hd]. Qed.

Lemma ParseInt_FormatInt n : is_i64 n -> ParseInt (FormatInt n) = Some n.
Proof.
  intros Hn. unfold is_i64 in Hn. destruct (FormatInt_shape n ltac:(lia)) as (d & ds & Hd & _ & Hv & ->).
  unfold ParseInt. destruct (digit_not_minus d ltac:(by inversion Hd)) as [Hm Hp].
  destruct (Z.ltb_spec n 0); cbn [app].
  - change (code (chr 45) =? 45) with true. cbv iota. rewrite forallb_digits by done. cbn [length Nat.eqb negb andb].
    rewrite Hv. destruct (Z.leb_spec (- 2 ^ 63) (- Z.abs n)), (Z.ltb_spec (- Z.abs n) (2 ^ 63)); try lia.
    simpl. f_equal. lia.
  - rewrite Hm, Hp. rewrite forallb_digits by done. cbn [length Nat.eqb negb andb].
    rewrite Hv. destruct (Z.leb_spec (- 2 ^ 63) (Z.abs n)), (Z.ltb_spec (Z.abs n) (2 ^ 63)); try lia.
    simpl. f_equal. lia.
Qed.

Lemma ParseUint_FormatInt bits n : 0 <= n < 2 ^ bits -> bits <= 64 -> ParseUint bits (FormatInt n) = Some n.
Proof.
  intros Hn Hb. pose proof (Z.pow_le_mono_r 2 bits 64 ltac:(lia) Hb).
  destruct (FormatInt_shape n ltac:(lia)) as (d & ds & Hd & _ & Hv & ->).
  destruct (Z.ltb_spec n 0); [lia|]. cbn [app]. unfold ParseUint.
  rewrite forallb_digits by done. cbn [length Nat.eqb negb andb]. rewrite Hv, Z.abs_eq by lia.
  destruct (Z.ltb_spec n (2 ^ bits)); [done|lia].
Qed.

(** ** Round trip: values *)

(** Scalars: what the messages of the program are made of. *)
Definition scalar (j : json) : Prop :=
  match j with
  | JNull | JBool _ => True
  | JNum l => exists n, - 10 ^ 20 < n < 10 ^ 20 /\ l = FormatInt n
  | JStr s => ascii s
  | _ => False
  end.

Lemma length_encode_chars s : ascii s -> (length s <= length (encode_chars (length s) s))%nat.
Proof.
  induction 1 as [|b s Hb _ IH]; [done|]. cbn [length encode_chars].
  destruct (Z.ltb_spec (code b) 128); [|lia]. rewrite length_app.
  assert (1 <= length (escape b))%nat; [|lia].
  unfold escape, u00. repeat case_match; simpl; lia.
Qed.

Lemma parse_value_scalar j f depth rest :
  scalar j -> delim rest -> (length (encode j) <= f)%nat ->
  parse_value (S f) depth (encode j ++ rest) = Some (j, rest).
Proof.
  intros Hj Hr Hf. destruct j as [|[]|l|s|es|ms]; [reflexivity..| | |done|done].
  - destruct Hj as (n & Hn & ->). pose proof (scan_number_FormatInt n rest Hn Hr) as Hs.
    destruct (FormatInt_shape n Hn) as (d & ds & Hd & _ & _ & E). cbn [encode] in *.
    assert (forall b tl, (b = chr 45 \/ is_digit b = true) -> scan_number (b :: tl) = Some (FormatInt n, rest) ->
      parse_value (S f) depth (b :: tl) = Some (JNum (FormatInt n), rest)) as Hgo.
    { intros b tl Hb Hsc. cbn [parse_value skip_ws].
      assert (is_ws b = false /\ (code b =? 34) = false /\ (code b =? 123) = false /\ (code b =? 91) = false /\
        (code b =? 110) = false /\ (code b =? 116) = false /\ (code b =? 102) = false)
        as (-> & -> & -> & -> & -> & -> & ->); [|by rewrite Hsc].
      unfold is_ws. destruct Hb as [->|Hb]; [by vm_compute|].
      unfold is_digit, between_codes in Hb. rewrite andb_true_iff, !Z.leb_le in Hb.
      rewrite !orb_false_iff, !Z.eqb_neq. lia. }
    rewrite E in Hs at 1. rewrite E at 1. inversion Hd; subst.
    destruct (n <? 0); cbn [app] in *; apply Hgo; auto.
  - cbn [encode] in *. unfold encode_string in *. cbn [app length] in Hf |- *.
    rewrite length_app in Hf. pose proof (length_encode_chars s Hj).
    cbn [parse_value skip_ws]. change (is_ws (chr 34)) with false. cbv iota.
    change (code (chr 34) =? 34) with true. cbv iota.
    rewrite <- app_assoc. cbn [app]. rewrite parse_string_encode; [done|done|simpl in Hf; lia].
Qed.

(** ** Round trip: trees *)

Definition encode_member : list byte * json -> list byte :=
  fun '(k, v) => encode_string k ++ chr 58 :: encode v.

(** Trees of integers, ASCII strings and keys, with brackets nested at most [d] deep. *)
Inductive printable : nat -> json -> Prop :=
| p_scalar d j : scalar j -> printable d j
| p_arr d es : Forall (printable d) es -> printable (S d) (JArr es)
| p_obj d ms : Forall (fun m => ascii (fst m) /\ printable d (snd m)) ms -> printable (S d) (JObj ms).

Lemma parse_key k f tl :
  ascii k -> (length (encode_chars (length k) k) <= f)%nat ->
  parse_string (S f) (encode_chars (length k) k ++ chr 34 :: tl) = Some (k, tl).
Proof.
  intros Hk Hf. pose proof (length_encode_chars k Hk). by rewrite parse_string_encode by (done || lia).
Qed.

(** Members and elements, given that the values inside are read back. *)
Section Lists.
Context (depth : Z) (Q : json -> Prop).
Hypothesis HQ : forall j f rest, Q j -> delim rest -> (length (encode j) <= f)%nat ->
  parse_value (S f) depth (encode j ++ rest) = Some (j, rest).

Lemma parse_member_step k v f tl :
  ascii k -> Q v -> (length (encode_member (k, v)) < f)%nat -> delim tl ->
  parse_members f depth (encode_member (k, v) ++ tl) =
    match skip_ws tl with
    | e :: l5 =>
        if code e =? 125 then Some ([(k, v)], l5)
        else if code e =? 44 then '(ms', l6) ← parse_members (pred f) depth l5; Some ((k, v) :: ms', l6)
        else None
    | [] => None
    end.
Proof.
  intros Hk Hv Hl Htl. destruct f as [|f]; [lia|]. unfold encode_member, encode_string in *.
  cbn [app length] in *. rewrite !length_app in Hl. cbn [length] in Hl.
  cbn [parse_members skip_ws pred]. change (is_ws (chr 34)) with false. cbv iota.
  change (code (chr 34) =? 34) with true. cbv iota.
  rewrite <- !app_assoc. cbn [app]. destruct f as [|f]; [lia|].
  rewrite parse_key by (done || lia). cbn [mbind option_bind skip_ws].
  change (is_ws (chr 58)) with false. cbv iota. change (code (chr 58) =? 58) with true. cbv iota.
  by rewrite HQ by (done || lia).
Qed.

Lemma parse_members_list ms f rest :
  Forall (fun m => ascii (fst m) /\ Q (snd m)) ms -> ms <> [] ->
  (length (commas (List.map encode_member ms)) < f)%nat ->
  parse_members f depth (commas (List.map encode_member ms) ++ chr 125 :: rest) = Some (ms, rest).
Proof.
  intros Hms. revert f. induction Hms as [|[k v] ms [Hk Hv] Hms IH]; intros f Hne Hf; [done|].
  destruct ms as [|kv ms]; cbn [List.map commas] in *.
  - rewrite parse_member_step; [done..|]. by vm_compute.
  - rewrite <- app_assoc. cbn [app]. rewrite length_app in Hf. cbn [length] in Hf.
    rewrite parse_member_step; [|done|done|lia|by vm_compute]. cbn [skip_ws].
    change (is_ws (chr 44)) with false. cbv iota.
    change (code (chr 44) =? 125) with false. change (code (chr 44) =? 44) with true. cbv iota.
    rewrite IH by (done || lia). done.
Qed.

Lemma parse_elem_step v f tl :
  Q v -> (length (encode v) + 1 < f)%nat -> delim tl ->
  parse_elems f depth (encode v ++ tl) =
    match skip_ws tl with
    | e :: l2 =>
        if code e =? 93 then Some ([v], l2)
        else if code e =? 44 then '(vs, l3) ← parse_elems (pred f) depth l2; Some (v :: vs, l3)
        else None
    | [] => None
    end.
Proof.
  intros Hv Hl Htl. destruct f as [|[|f]]; [lia..|]. cbn [parse_elems pred]. by rewrite HQ by (done || lia).
Qed.

Lemma parse_elems_list es f rest :
  Forall Q es -> es <> [] -> (length (commas (List.map encode es)) + 1 < f)%nat ->
  parse_elems f depth (commas (List.map encode es) ++ chr 93 :: rest) = Some (es, rest).
Proof.
  intros Hes. revert f. induction Hes as [|v es Hv Hes IH]; intros f Hne Hf; [done|].
  destruct es as [|e es]; cbn [List.map commas] in *.
  - rewrite parse_elem_step; [done..|]. by vm_compute.
  - rewrite <- app_assoc. cbn [app]. rewrite length_app in Hf. cbn [length] in Hf.
    rewrite parse_elem_step; [|done|lia|by vm_compute]. cbn [skip_ws].
    change (is_ws (chr 44)) with false. cbv iota.
    change (code (chr 44) =? 93) with false. change (code (chr 44) =? 44) with true. cbv iota.
    by rewrite IH by (done || lia).
Qed.

End Lists.

(** Bytes that cannot be white space or a closing bracket. *)
Definition starts_value (l : list byte) : Prop :=
  match l with b :: _ => is_ws b = false /\ code b <> 93 | [] => False end.

Lemma starts_value_encode d j tl : printable d j -> starts_value (encode j ++ tl).
Proof.
  intros [? [|[]|l|s|es|ms] Hs|? es Hes|? ms Hms]; try by vm_compute.
  destruct Hs as (n & Hn & ->). cbn [encode]. destruct (FormatInt_shape n Hn) as (c & ds & Hd & _ & _ & ->).
  destruct (n <? 0); [by vm_compute|]. inversion Hd as [|? ? Hc]; subst. cbn [app starts_value].
  unfold is_digit, between_codes in Hc. rewrite andb_true_iff, !Z.leb_le in Hc.
  split; [|lia]. unfold is_ws. rewrite !orb_false_iff, !Z.eqb_neq. lia.
Qed.

Lemma skip_ws_starts l : starts_value l -> skip_ws l = l.
Proof. destruct l as [|b l]; [done|]. intros [H _]. cbn [skip_ws]. by rewrite H. Qed.

Lemma parse_value_printable d j f depth rest :
  printable d j -> depth + Z.of_nat d <= maxNestingDepth -> delim rest -> (length (encode j) <= f)%nat ->
  parse_value (S f) depth (encode j ++ rest) = Some (j, rest).
Proof.
  revert j f depth rest. induction d as [|d IH]; intros j f depth rest Hj Hd Hr Hf;
    inversion Hj as [d' j' Hs|d' es Hes|d' ms Hms]; subst; try by apply parse_value_scalar.
  - cbn [encode] in *. cbn [app length] in *. rewrite length_app in Hf. cbn [length] in Hf.
    rewrite <- app_assoc. cbn [app]. cbn [parse_value skip_ws]. change (is_ws (chr 91)) with false. cbv iota.
    change (code (chr 91) =? 34) with false. change (code (chr 91) =? 123) with false.
    change (code (chr 91) =? 91) with true. cbv iota.
    destruct (Z.ltb_spec maxNestingDepth (depth + 1)); [lia|].
    destruct es as [|e es]; [done|].
    assert (starts_value (commas (List.map encode (e :: es)) ++ chr 93 :: rest)) as Hst.
    { inversion Hes; subst. cbn [List.map commas]. destruct (List.map encode es).
      - by eapply starts_value_encode.
      - rewrite <- app_assoc. by eapply starts_value_encode. }
    rewrite (skip_ws_starts _ Hst).
    rewrite (parse_elems_list (depth + 1) (printable d)); [|intros; apply IH; done || lia|done|done|lia].
    destruct (commas _ ++ _) as [|c l2]; [done|]. destruct Hst as [_ Hc].
    destruct (Z.eqb_spec (code c) 93); done.
  - cbn [encode] in *. change (List.map _ ms) with (List.map encode_member ms) in *.
    cbn [app length] in *. rewrite length_app in Hf. cbn [length] in Hf.
    rewrite <- app_assoc. cbn [app]. cbn [parse_value skip_ws]. change (is_ws (chr 123)) with false. cbv iota.
    change (code (chr 123) =? 34) with false. change (code (chr 123) =? 123) with true. cbv iota.
    destruct (Z.ltb_spec maxNestingDepth (depth + 1)); [lia|].
    destruct ms as [|[k v] ms]; [done|].
    rewrite (parse_members_list (depth + 1) (printable d)); [|intros; apply IH; done || lia|done|done|lia].
    assert (exists tl, commas (List.map encode_member ((k, v) :: ms)) ++ chr 125 :: rest = chr 34 :: tl) as [tl ->].
    { cbn [List.map commas encode_member]. unfold encode_string.
      destruct (List.map encode_member ms); cbn [app]; by eexists. }
    cbn [skip_ws]. change (is_ws (chr 34)) with false. cbv iota. done.
Qed.

(** Reading back a printed tree. *)
Lemma parse_encode d j : printable d j -> Z.of_nat d <= maxNestingDepth -> parse (encode j) = Some j.
Proof.
  intros Hj Hd. unfold parse.
  pose proof (parse_value_printable d j (length (encode j)) 0 [] Hj ltac:(lia) I ltac:(lia)) as H.
  rewrite app_nil_r in H. by rewrite H.
Qed.

(** Flat objects: every member a scalar. *)
Definition flat (ms : list (list byte * json)) : Prop :=
  Forall (fun '(k, v) => ascii k /\ scalar v) ms.

Lemma flat_printable ms : flat ms -> printable 1 (JObj ms).
Proof.
  intros H. apply p_obj. eapply Forall_impl; [exact H|]. intros [k v] [Hk Hv]. split; [done|by apply p_scalar].
Qed.

Lemma parse_encode_flat ms : flat ms -> parse (encode (JObj ms)) = Some (JObj ms).
Proof. intros Hms. by apply (parse_encode 1 _ (flat_printable ms Hms)). Qed.

(** Texts with apostrophes for quotation marks. *)
Definition quoted (s : string) : list byte := (fun b => if code b =? 39 then chr 34 else b) <$> text s.

Example parse_sample :
  parse (quoted " { 'a' : [1, -2.5e+3, 'x\u00e9\n'] , 'b':null}") =
    Some (JObj [(text "a", JArr [JNum (text "1"); JNum (text "-2.5e+3"); JStr [Byte.x78; Byte.xc3; Byte.xa9; Byte.x0a]]);
                (text "b", JNull)]).
Proof. vm_compute. reflexivity. Qed.

Example parse_garbage : parse (quoted "{'a':01}") = None /\ parse (text "[1,]") = None /\ parse (text "") = None.
Proof. vm_compute. done. Qed.

End Json.
