(* ===== verification/Metrics.v ===== *)
(** * internal/metrics: the counters

    The collector is one object shared by pointer between the components; an
    engine holds either nil or that pointer.  Counters are atomic machine
    integers; a component's [metrics != nil] is a boolean field of its state
    and the collector itself is threaded through the operations. *)

From S2P Require Import Prelude Bytes Json.
Import Json.

Module Metrics.

Record t := mk {
  AttestationsCreated : Z; AttestationsReceived : Z; AttestationsVerified : Z;
  AttestationsFailed : Z; BlocksFinalized : Z;
  SyncedBlock : Z; IsSynced : Z;
  CurrentXP : Z; SovereigntyScore : Z; SovereigntyTier : Z;
  PeerCount : Z; StakedAmountWei : Z;
  SlashesReceived : Z; SlashesReported : Z;
  RPCRequests : Z;
  BlocksVerified : Z; VerificationFailures : Z;
  CrossChainL2ToL1 : Z; CrossChainL1ToL2 : Z;
  GovernanceActiveProposals : Z; GovernanceProposalsTotal : Z; GovernanceVotesCast : Z;
}.

(** [New]: all counters zero. *)
Definition New : t := mk 0 0 0 0 0 0 0 0 0 0 0 0 0 0 0 0 0 0 0 0 0 0.

(** The stores the components perform: [Add(1)] wraps at 64 bits. *)
Definition add_AttestationsCreated (m : t) : t :=
  match m with mk a b c d e f g h i j k l n o p q r s u v w x =>
    mk (a +[u64] 1) b c d e f g h i j k l n o p q r s u v w x end.

Definition add_BlocksFinalized (m : t) : t :=
  match m with mk a b c d e f g h i j k l n o p q r s u v w x =>
    mk a b c d (e +[u64] 1) f g h i j k l n o p q r s u v w x end.

Definition add_RPCRequests (m : t) : t :=
  match m with mk a b c d e f g h i j k l n o p q r s u v w x =>
    mk a b c d e f g h i j k l n o (p +[u64] 1) q r s u v w x end.

Definition store_Synced (block synced : Z) (m : t) : t :=
  match m with mk a b c d e f g h i j k l n o p q r s u v w x =>
    mk a b c d e block synced h i j k l n o p q r s u v w x end.

Definition seed (peers stake : Z) (m : t) : t :=
  match m with mk a b c d e f g h i j k l n o p q r s u v w x =>
    mk a b c d e f g h i j peers stake n o p q r s u v w x end.

(** ** The exposition

    [handleMetrics]: a help line, a type line and the samples of each metric, and an
    empty line. *)

Definition nl : list byte := [Byte.x0a].

Definition header (name help kind : string) : list byte :=
  text ("# HELP " +:+ name +:+ " " +:+ help) ++ nl ++ text ("# TYPE " +:+ name +:+ " " +:+ kind) ++ nl.
Definition sample (name : string) (v : Z) : list byte := text (name +:+ " ") ++ FormatInt v ++ nl.
Definition metric (name help kind : string) (v : Z) : list byte := header name help kind ++ sample name v ++ nl.

Definition handleMetrics (m : t) : list byte :=
  metric "inso_validator_attestations_created_total" "Attestations created by this validator" "counter" (AttestationsCreated m) ++
  metric "inso_validator_attestations_received_total" "Attestations received from peers" "counter" (AttestationsReceived m) ++
  metric "inso_validator_attestations_verified_total" "Valid attestations verified" "counter" (AttestationsVerified m) ++
  metric "inso_validator_attestations_failed_total" "Invalid attestations rejected" "counter" (AttestationsFailed m) ++
  metric "inso_validator_blocks_finalized_total" "Blocks reaching consensus finality" "counter" (BlocksFinalized m) ++
  metric "inso_validator_synced_block" "Latest synced block number" "gauge" (SyncedBlock m) ++
  metric "inso_validator_is_synced" "Whether the validator is fully synced (1=yes)" "gauge" (IsSynced m) ++
  metric "inso_validator_xp" "Current XP points" "gauge" (CurrentXP m) ++
  metric "inso_validator_sovereignty_score" "Sovereignty score (x10000 for precision)" "gauge" (SovereigntyScore m) ++
  metric "inso_validator_sovereignty_tier" "Sovereignty tier (0=None,1=Bronze,2=Silver,3=Gold,4=Platinum)" "gauge" (SovereigntyTier m) ++
  metric "inso_validator_peer_count" "Connected P2P peers" "gauge" (PeerCount m) ++
  metric "inso_validator_staked_eth" "Total staked in ETH" "gauge" (StakedAmountWei m) ++
  metric "inso_validator_slashes_received_total" "Slashes received" "counter" (SlashesReceived m) ++
  metric "inso_validator_slashes_reported_total" "Slashes reported against others" "counter" (SlashesReported m) ++
  metric "inso_validator_rpc_requests_total" "Total RPC requests" "counter" (RPCRequests m) ++
  metric "inso_validator_blocks_verified_total" "Blocks verified via ZK proof" "counter" (BlocksVerified m) ++
  metric "inso_validator_verification_failures_total" "Block verification failures" "counter" (VerificationFailures m) ++
  header "inso_crosschain_attestations_total" "Cross-chain attestation count" "counter" ++
  (text "inso_crosschain_attestations_total" ++ quoted "{direction='l2_to_l1'} " ++ FormatInt (CrossChainL2ToL1 m) ++ nl) ++
  (text "inso_crosschain_attestations_total" ++ quoted "{direction='l1_to_l2'} " ++ FormatInt (CrossChainL1ToL2 m) ++ nl) ++ nl ++
  metric "inso_governance_active_proposals" "Currently active governance proposals" "gauge" (GovernanceActiveProposals m) ++
  metric "inso_governance_proposals_total" "Total governance proposals created" "counter" (GovernanceProposalsTotal m) ++
  metric "inso_governance_votes_cast_total" "Total governance votes cast" "counter" (GovernanceVotesCast m).

(** The health endpoint; [now] is the time in seconds. *)
Definition handleHealth (now : Z) (m : t) : list byte :=
  quoted "{'status':'ok','service':'inso-validator','synced':" ++
  text (if IsSynced m =? 1 then "true" else "false") ++
  quoted ",'peers':" ++ FormatInt (PeerCount m) ++ quoted ",'timestamp':" ++ FormatInt now ++ quoted "}".

(** The mux of [Serve]: the pages by path, [None] a 404. *)
Definition ServeHTTP (now : Z) (path : string) (m : t) : option (list byte) :=
  if decide (path = "/metrics"%string) then Some (handleMetrics m)
  else if decide (path = "/health"%string) then Some (handleHealth now m)
  else None.

(** Every counter fits 64 bits, signed or unsigned. *)
Definition fits (n : Z) : Prop := - 2 ^ 63 <= n < 2 ^ 64.
Definition counters (m : t) : list Z :=
  [AttestationsCreated m; AttestationsReceived m; AttestationsVerified m; AttestationsFailed m; BlocksFinalized m;
   SyncedBlock m; IsSynced m; CurrentXP m; SovereigntyScore m; SovereigntyTier m; PeerCount m; StakedAmountWei m;
   SlashesReceived m; SlashesReported m; RPCRequests m; BlocksVerified m; VerificationFailures m;
   CrossChainL2ToL1 m; CrossChainL1ToL2 m; GovernanceActiveProposals m; GovernanceProposalsTotal m; GovernanceVotesCast m].

Lemma FormatInt_inj a b : fits a -> fits b -> FormatInt a = FormatInt b -> a = b.
Proof.
  unfold fits. intros Ha Hb E.
  destruct (FormatInt_shape a ltac:(lia)) as (c & cs & Hc & _ & Hva & Ea).
  destruct (FormatInt_shape b ltac:(lia)) as (d & ds & Hd & _ & Hvb & Eb).
  rewrite Ea, Eb in E. apply Forall_cons in Hc as [Hc _]. apply Forall_cons in Hd as [Hd _].
  destruct (Z.ltb_spec a 0), (Z.ltb_spec b 0); cbn [app] in E; injection E as E1 E2.
  - rewrite E1, E2 in Hva. lia.
  - rewrite <- E1 in Hd. vm_compute in Hd. discriminate.
  - rewrite E1 in Hc. vm_compute in Hc. discriminate.
  - rewrite E1, E2 in Hva. lia.
Qed.

(** A number and the line break after it can be read off a text. *)
Lemma sample_inj a b r1 r2 :
  fits a -> fits b -> FormatInt a ++ nl ++ r1 = FormatInt b ++ nl ++ r2 -> a = b /\ r1 = r2.
Proof.
  intros Ha Hb E. assert (forall n r, fits n -> scan_number (FormatInt n ++ nl ++ r) = Some (FormatInt n, nl ++ r)) as Hs.
  { intros n r Hn. apply scan_number_FormatInt; [unfold fits in Hn; lia|by vm_compute]. }
  pose proof (Hs a r1 Ha) as H1. rewrite E, (Hs b r2 Hb) in H1. injection H1 as H1 H2.
  split; [by apply FormatInt_inj|done].
Qed.

(** The exposition loses nothing: two collectors that print the same page hold the same 22
    values. *)
Theorem handleMetrics_injective (m1 m2 : t) (H1 : Forall fits (counters m1)) (H2 : Forall fits (counters m2))
  (Heq : handleMetrics m1 = handleMetrics m2) : m1 = m2.
Proof.
  unfold handleMetrics, metric, sample in Heq. destruct m1, m2. unfold counters in *. cbn in H1, H2.
  rewrite !Forall_cons in H1, H2. decompose [and] H1. decompose [and] H2. clear H1 H2. cbn [AttestationsCreated
    AttestationsReceived AttestationsVerified AttestationsFailed BlocksFinalized SyncedBlock IsSynced CurrentXP
    SovereigntyScore SovereigntyTier PeerCount StakedAmountWei SlashesReceived SlashesReported RPCRequests BlocksVerified
    VerificationFailures CrossChainL2ToL1 CrossChainL1ToL2 GovernanceActiveProposals GovernanceProposalsTotal
    GovernanceVotesCast] in Heq.
  rewrite <- !app_assoc in Heq.
  repeat (do 5 (try apply app_inv_head in Heq); apply sample_inj in Heq as [-> Heq]; [|done..]).
  done.
Qed.

Lemma handleMetrics_injective_witness :
  handleMetrics (add_RPCRequests New) <> handleMetrics New.
Proof.
  intros H. apply handleMetrics_injective in H; [discriminate|..];
    unfold counters; repeat constructor; vm_compute; discriminate || reflexivity.
Defined.

End Metrics.
