(* ===== verification/P2P.v ===== *)
(** * internal/p2p: the interface

    What the other components see of the network: typed messages, a broadcast, and
    one channel of incoming messages that every consumer receives from. [Network]
    implements it. *)

From S2P Require Import Prelude Bytes.

Module P2P.

(** [MessageType], an integer enumeration. *)
Definition MsgNewBlock : Z := 0.
Definition MsgAttestation : Z := 1.
Definition MsgSyncRequest : Z := 2.
Definition MsgSyncResponse : Z := 3.
Definition MsgValidatorAnnounce : Z := 4.
Definition MsgSlashReport : Z := 5.

(** A nil payload is [None]. *)
Record Message := mkMessage { Type_ : Z; From : list byte; Payload : option (list byte) }.

(** [inbox] is the content of the channel behind [Messages()], oldest first. *)
Class Transport (N : Type) := {
  Broadcast : Z -> option (list byte) -> N -> N * option string;
  inbox : N -> list Message;
  take_message : N -> option (Message * N)
}.

Class TransportLaws (N : Type) (T : Transport N) : Prop := {
  Broadcast_inbox t p n : inbox (fst (Broadcast t p n)) = inbox n;
  take_message_inbox n : 
    match take_message n with
    | Some (m, n') => inbox n = m :: inbox n'
    | None => inbox n = []
    end
}.

(** A transport without peers: what is in the inbox, and nowhere to send to. *)
Module Loopback.

#[export] Instance transport : Transport (list Message) := {|
  Broadcast _ _ n := (n, None);
  inbox n := n;
  take_message n := match n with [] => None | m :: n' => Some (m, n') end
|}.

#[export] Instance transport_laws : TransportLaws (list Message) transport.
Proof. split; [done|]. by intros []. Qed.

End Loopback.

End P2P.
