(* ===== verification/Framing.v ===== *)
(** * internal/p2p: length-prefixed framing

    [writeFrame] and [readFrame] of network.go over a TCP connection.  The
    receiving side of a connection is the sequence of chunks the kernel will
    deliver followed by the error that ends it; the sending side is the bytes
    written so far and, when the peer stops reading or the write deadline
    expires, the number of bytes still accepted.  Deadlines themselves have no
    other effect. *)

From S2P Require Import Prelude Bytes.

Module Framing.

Inductive io_error := EOF | ErrUnexpectedEOF | ErrTimeout | ErrClosed | ErrOther (why : string).

#[export] Instance io_error_eq_dec : EqDecision io_error.
Proof. solve_decision. Defined.

(** ** The receiving side *)

Record inbound := Inbound { chunks : list (list byte); fin : io_error }.

#[export] Instance inbound_eq_dec : EqDecision inbound.
Proof. solve_decision. Defined.

(** The bytes still to come. *)
Definition pending (c : inbound) : list byte := mjoin (chunks c).

(** [io.ReadFull(conn, buf)] with [len(buf) = need]: loop over [conn.Read], each call
    returning at most one chunk; what is not consumed of a chunk stays buffered. *)
Fixpoint read_full_loop (need : nat) (got : list byte) (cs : list (list byte)) (err : io_error) :
    list (list byte) * (list byte + io_error) :=
  match need with
  | O => (cs, inl got)
  | _ =>
      match cs with
      | [] => ([], inr (if decide (err = EOF /\ got <> []) then ErrUnexpectedEOF else err))
      | c :: cs' =>
          if (length c <=? need)%nat
          then read_full_loop (need - length c) (got ++ c) cs' err
          else (drop need c :: cs', inl (got ++ take need c))
      end
  end.

Definition ReadFull (n : nat) (c : inbound) : inbound * (list byte + io_error) :=
  let '(cs, r) := read_full_loop n [] (chunks c) (fin c) in (Inbound cs (fin c), r).

Inductive frame_error := IoErr (e : io_error) | TooLarge (length : Z).

Definition max_message : Z := 10 * 1024 * 1024.

Definition readFrame (c : inbound) : inbound * (list byte + frame_error) :=
  match ReadFull 4 c with
  | (c1, inr e) => (c1, inr (IoErr e))
  | (c1, inl lenBuf) =>
      let length := be_value lenBuf in
      if max_message <? length then (c1, inr (TooLarge length))
      else
        match ReadFull (Z.to_nat length) c1 with
        | (c2, inr e) => (c2, inr (IoErr e))
        | (c2, inl data) => (c2, inl data)
        end
  end.

(** ** The sending side *)

Record outbound := Outbound { wire : list byte; room : option nat; werr : io_error }.

(** [conn.Write]: all of [p], or as much as there is room for and an error. *)
Definition conn_Write (p : list byte) (c : outbound) : outbound * option io_error :=
  match room c with
  | None => (Outbound (wire c ++ p) None (werr c), None)
  | Some n =>
      if (length p <=? n)%nat
      then (Outbound (wire c ++ p) (Some (n - length p)%nat) (werr c), None)
      else (Outbound (wire c ++ take n p) (Some 0%nat) (werr c), Some (werr c))
  end.

Definition frame_header (data : list byte) : list byte :=
  be_fixed 4 (u32 (Z.of_nat (length data))).

Definition writeFrame (data : list byte) (c : outbound) : outbound * option io_error :=
  match conn_Write (frame_header data) c with
  | (c1, Some e) => (c1, Some e)
  | (c1, None) => conn_Write data c1
  end.

(** The bytes of a frame. *)
Definition frame (data : list byte) : list byte := frame_header data ++ data.

(** ** Reading *)

Lemma read_full_loop_ok need got cs err :
  (need <= length (mjoin cs))%nat ->
  exists cs', read_full_loop need got cs err = (cs', inl (got ++ take need (mjoin cs))) /\
    mjoin cs' = drop need (mjoin cs).
Proof.
  revert need got. induction cs as [|c cs IH]; intros need got Hlen.
  - simpl in Hlen. destruct need; [|lia]. exists []. simpl. by rewrite app_nil_r.
  - destruct need as [|need]; [exists (c :: cs); simpl; by rewrite app_nil_r|].
    simpl read_full_loop. simpl mjoin in *. rewrite length_app in Hlen.
    destruct (Nat.leb_spec (length c) (S need)) as [Hle|Hgt].
    + destruct (IH (S need - length c)%nat (got ++ c)) as (cs' & -> & Hcs); [lia|].
      exists cs'. rewrite Hcs, take_app_ge, drop_app_ge by lia. by rewrite <- app_assoc.
    + exists (drop (S need) c :: cs). split.
      * rewrite take_app_le by lia. done.
      * simpl mjoin. rewrite drop_app_le by lia. done.
Qed.

Lemma read_full_loop_short need got cs err :
  (length (mjoin cs) < need)%nat ->
  read_full_loop need got cs err =
    ([], inr (if decide (err = EOF /\ got ++ mjoin cs <> []) then ErrUnexpectedEOF else err)).
Proof.
  revert need got. induction cs as [|c cs IH]; intros need got Hlen.
  - simpl in *. rewrite app_nil_r. by destruct need; [lia|].
  - simpl mjoin in *. rewrite length_app in Hlen. destruct need as [|need]; [lia|].
    simpl read_full_loop. destruct (Nat.leb_spec (length c) (S need)); [|lia].
    rewrite IH by lia. by rewrite <- app_assoc.
Qed.

Lemma ReadFull_ok n c :
  (n <= length (pending c))%nat ->
  exists c', ReadFull n c = (c', inl (take n (pending c))) /\
    pending c' = drop n (pending c) /\ fin c' = fin c.
Proof.
  intros H. unfold ReadFull.
  destruct (read_full_loop_ok n [] (chunks c) (fin c) H) as (cs' & -> & Hcs).
  by exists (Inbound cs' (fin c)).
Qed.

Lemma ReadFull_short n c :
  (length (pending c) < n)%nat ->
  ReadFull n c = (Inbound [] (fin c),
    inr (if decide (fin c = EOF /\ pending c <> []) then ErrUnexpectedEOF else fin c)).
Proof. intros H. unfold ReadFull. by rewrite read_full_loop_short. Qed.

Lemma frame_length_value data :
  Z.of_nat (length data) < 2 ^ 32 -> be_value (frame_header data) = Z.of_nat (length data).
Proof.
  intros H. unfold frame_header. rewrite be_value_fixed, u32_small by (split; lia).
  apply Z.mod_small. lia.
Qed.

Lemma readFrame_spec data rest c :
  pending c = frame data ++ rest -> Z.of_nat (length data) <= max_message ->
  exists c', readFrame c = (c', inl data) /\ pending c' = rest /\ fin c' = fin c.
Proof.
  intros Hp Hlen. unfold readFrame.
  assert (length (frame_header data) = 4%nat) as Hh by apply length_be_fixed.
  unfold frame in Hp. rewrite <- app_assoc in Hp.
  destruct (ReadFull_ok 4 c) as (c1 & -> & Hp1 & Hf1); [rewrite Hp, length_app; lia|].
  rewrite Hp in *. rewrite take_app_exact by done. rewrite drop_app_exact in Hp1 by done.
  rewrite frame_length_value by (unfold max_message in Hlen; lia).
  destruct (Z.ltb_spec max_message (Z.of_nat (length data))); [lia|]. rewrite Nat2Z.id.
  destruct (ReadFull_ok (length data) c1) as (c2 & -> & Hp2 & Hf2); [rewrite Hp1, length_app; lia|].
  rewrite Hp1 in *. rewrite take_app_length. rewrite drop_app_length in Hp2.
  exists c2. split; [done|]. split; [done|congruence].
Qed.

(** The result of a read, and the bytes left, depend only on the byte stream. *)
Definition same_stream (c d : inbound) : Prop := pending c = pending d /\ fin c = fin d.

Lemma ReadFull_stream n c d :
  same_stream c d ->
  same_stream (fst (ReadFull n c)) (fst (ReadFull n d)) /\ snd (ReadFull n c) = snd (ReadFull n d).
Proof.
  intros [Hp Hf]. destruct (decide (n <= length (pending c))%nat) as [Hle|Hgt].
  - destruct (ReadFull_ok n c Hle) as (c' & -> & Hc1 & Hc2). rewrite Hp in Hle.
    destruct (ReadFull_ok n d Hle) as (d' & -> & Hd1 & Hd2). simpl.
    unfold same_stream. rewrite Hc1, Hc2, Hd1, Hd2, Hp, Hf. done.
  - rewrite !ReadFull_short by (rewrite <- ?Hp; lia). simpl. by rewrite Hp, Hf.
Qed.

Lemma ReadFull_prefix n k c whole :
  pending c = take k whole -> (k < n)%nat -> (k <= length whole)%nat -> fin c = EOF ->
  exists c', ReadFull n c = (c', inr (if decide (k = 0%nat) then EOF else ErrUnexpectedEOF)).
Proof.
  intros Hp Hk Hw Hf. eexists. rewrite ReadFull_short by (rewrite Hp, length_take; lia).
  do 2 f_equal. rewrite Hf, Hp. destruct k as [|k].
  - rewrite decide_False by (rewrite take_0; naive_solver). done.
  - rewrite decide_True; [done|]. split; [done|]. destruct whole; simpl in *; [lia|done].
Qed.

(** The receive loop: frames until the first error, at most [n] of them. *)
Fixpoint readFrames (n : nat) (c : inbound) : list (list byte) * option frame_error :=
  match n with
  | O => ([], None)
  | S n' =>
      match readFrame c with
      | (_, inr e) => ([], Some e)
      | (c', inl data) => let '(ds, e) := readFrames n' c' in (data :: ds, e)
      end
  end.

(** Sending a sequence of messages on one connection. *)
Definition writeFrames (msgs : list (list byte)) (c : outbound) : outbound :=
  foldl (fun c m => fst (writeFrame m c)) c msgs.

Lemma conn_Write_unlimited p w e :
  conn_Write p (Outbound w None e) = (Outbound (w ++ p) None e, None).
Proof. done. Qed.

Lemma writeFrame_unlimited data w e :
  writeFrame data (Outbound w None e) = (Outbound (w ++ frame data) None e, None).
Proof. unfold writeFrame. rewrite !conn_Write_unlimited. unfold frame. by rewrite app_assoc. Qed.

Lemma writeFrames_wire msgs w e :
  writeFrames msgs (Outbound w None e) = Outbound (w ++ mjoin (map frame msgs)) None e.
Proof.
  revert w. induction msgs as [|m msgs IH]; intros w.
  - simpl. by rewrite app_nil_r.
  - change (writeFrames (m :: msgs) ?c) with (writeFrames msgs (fst (writeFrame m c))).
    rewrite writeFrame_unlimited. cbn [fst map mjoin list_join]. by rewrite IH, app_assoc.
Qed.

Lemma readFrames_stream msgs c :
  Forall (fun m => Z.of_nat (length m) <= max_message) msgs ->
  pending c = mjoin (map frame msgs) ->
  fin c = EOF ->
  readFrames (S (length msgs)) c = (msgs, Some (IoErr EOF)).
Proof.
  revert c. induction msgs as [|m msgs IH]; intros c Hall Hp Hf.
  - simpl. unfold readFrame. simpl in Hp. rewrite ReadFull_short by (rewrite Hp; simpl; lia).
    rewrite Hp, Hf. by rewrite decide_False by naive_solver.
  - apply Forall_cons in Hall as [Hm Hall]. cbn [map] in Hp. 
    destruct (readFrame_spec m (mjoin (map frame msgs)) c Hp Hm) as (c' & Hr & Hp' & Hf').
    change (length (m :: msgs)) with (S (length msgs)).
    cbn [readFrames] in *. rewrite Hr. rewrite IH; [done|done|done|congruence].
Qed.

(** ** Properties *)

(** C13. Framing round trip: messages of at most 10 MiB written one after the other on a
    connection are read back, whole and in order, however the stream was cut
    into chunks, and the reader then sees a clean EOF. *)
Theorem frames_roundtrip (msgs : list (list byte)) (cs : list (list byte)) (e : io_error)
  (Hsize : Forall (fun m => Z.of_nat (length m) <= max_message) msgs)
  (Hcs : mjoin cs = wire (writeFrames msgs (Outbound [] None e))) :
  readFrames (S (length msgs)) (Inbound cs EOF) = (msgs, Some (IoErr EOF)).
Proof.
  rewrite writeFrames_wire in Hcs. by apply readFrames_stream.
Qed.

(** [readFrame] cannot tell two deliveries of the same bytes apart: result and
    remaining stream are functions of the concatenated chunks. *)
Theorem readFrame_chunking (c d : inbound) (H : same_stream c d) :
  snd (readFrame c) = snd (readFrame d) /\
  same_stream (fst (readFrame c)) (fst (readFrame d)).
Proof.
  unfold readFrame. destruct (ReadFull_stream 4 c d H) as [Hs Hr].
  destruct (ReadFull 4 c) as [c1 [lb|e]], (ReadFull 4 d) as [d1 [lb'|e']]; simplify_eq/=; [|done].
  destruct (max_message <? be_value lb'); [done|].
  destruct (ReadFull_stream (Z.to_nat (be_value lb')) c1 d1 Hs) as [Hs' Hr'].
  by destruct (ReadFull _ c1) as [c2 [b|e]], (ReadFull _ d1) as [d2 [b'|e']]; simplify_eq/=.
Qed.

(** No partial message: a stream cut anywhere inside a frame yields EOF at the
    frame boundary, ErrUnexpectedEOF inside the header, and one of the two
    inside the body; data is never delivered. *)
Theorem truncated_frame (data : list byte) (k : nat) (c : inbound)
  (Hsize : Z.of_nat (length data) <= max_message)
  (Hk : (k < length (frame data))%nat)
  (Hp : pending c = take k (frame data)) (Hf : fin c = EOF) :
  snd (readFrame c) =
    inr (IoErr (if decide (k = 0 \/ k = 4)%nat then EOF else ErrUnexpectedEOF)).
Proof.
  unfold readFrame. assert (length (frame_header data) = 4%nat) as Hh by apply length_be_fixed.
  destruct (decide (k < 4)%nat) as [Hlt|Hge].
  - destruct (ReadFull_prefix 4 k c (frame data)) as [c' ->]; [done|done|lia|done|].
    cbn [snd]. by destruct (decide (k = 0)%nat), (decide (k = 0 \/ k = 4)%nat); try lia.
  - unfold frame in Hp, Hk. rewrite take_app_ge in Hp by lia. rewrite length_app in Hk.
    destruct (ReadFull_ok 4 c) as (c1 & -> & Hp1 & Hf1); [rewrite Hp, length_app; lia|].
    rewrite Hp in *. rewrite take_app_exact by done. rewrite drop_app_exact in Hp1 by done.
    rewrite frame_length_value by (unfold max_message in Hsize; lia).
    destruct (Z.ltb_spec max_message (Z.of_nat (length data))); [lia|]. rewrite Nat2Z.id.
    destruct (ReadFull_prefix (length data) (k - 4) c1 data) as [c' ->];
      [by rewrite Hp1, Hh|lia|lia|congruence|].
    cbn [snd]. by destruct (decide (k - 4 = 0)%nat), (decide (k = 0 \/ k = 4)%nat); try lia.
Qed.

(** The two sides disagree on size: [writeFrame] sends any message, but a length
    above 10 MiB (below 4 GiB) makes [readFrame] fail before reading the body,
    and at 4 GiB the announced length wraps. *)
Theorem oversize_rejected (data rest : list byte) (cs : list (list byte)) (w : list byte) (e f : io_error)
  (Hsize : max_message < u32 (Z.of_nat (length data)))
  (Hcs : mjoin cs = frame data ++ rest) :
  writeFrame data (Outbound w None e) = (Outbound (w ++ frame data) None e, None) /\
  snd (readFrame (Inbound cs f)) = inr (TooLarge (u32 (Z.of_nat (length data)))).
Proof.
  split; [apply writeFrame_unlimited|]. unfold readFrame.
  assert (length (frame_header data) = 4%nat) as Hh by apply length_be_fixed.
  unfold frame in Hcs. rewrite <- app_assoc in Hcs.
  destruct (ReadFull_ok 4 (Inbound cs f)) as (c1 & -> & _);
    [unfold pending; simpl; rewrite Hcs, length_app; lia|].
  unfold pending. simpl chunks. rewrite Hcs, take_app_exact by done.
  assert (be_value (frame_header data) = u32 (Z.of_nat (length data))) as ->.
  { unfold frame_header. rewrite be_value_fixed. change (256 ^ Z.of_nat 4) with (2 ^ 32).
    apply Z.mod_small, u32_range. }
  destruct (Z.ltb_spec max_message (u32 (Z.of_nat (length data)))); [done|lia].
Qed.

(** ** Witnesses *)

Definition hello : list byte := bytes_of_string "hello".

Lemma frames_roundtrip_witness :
  readFrames 3 (Inbound [[Byte.x00; Byte.x00]; [Byte.x00; Byte.x05] ++ take 2 hello;
    drop 2 hello ++ [Byte.x00]; [Byte.x00; Byte.x00; Byte.x00]] EOF) = ([hello; []], Some (IoErr EOF)).
Proof.
  apply (frames_roundtrip [hello; []] [[Byte.x00; Byte.x00]; [Byte.x00; Byte.x05] ++ take 2 hello;
    drop 2 hello ++ [Byte.x00]; [Byte.x00; Byte.x00; Byte.x00]] ErrClosed).
  - repeat constructor; vm_compute; discriminate.
  - vm_compute. reflexivity.
Defined.

Lemma readFrame_chunking_witness :
  snd (readFrame (Inbound [frame hello] EOF)) = snd (readFrame (Inbound [[]; frame_header hello; hello] EOF)) /\
  same_stream (fst (readFrame (Inbound [frame hello] EOF)))
              (fst (readFrame (Inbound [[]; frame_header hello; hello] EOF))).
Proof.
  apply (readFrame_chunking (Inbound [frame hello] EOF) (Inbound [[]; frame_header hello; hello] EOF)).
  split; vm_compute; reflexivity.
Defined.

Lemma truncated_frame_witness :
  snd (readFrame (Inbound [take 7 (frame hello)] EOF)) = inr (IoErr ErrUnexpectedEOF).
Proof.
  apply (truncated_frame hello 7 (Inbound [take 7 (frame hello)] EOF));
    vm_compute; try reflexivity; try discriminate. repeat constructor.
Defined.

Lemma oversize_rejected_witness :
  exists data, length data = Z.to_nat (max_message + 1) /\
  snd (readFrame (Inbound [frame data] EOF)) = inr (TooLarge (max_message + 1)).
Proof.
  assert (forall n, exists data : list byte, length data = n) as Hex
    by (intros n; exists (replicate n Byte.x00); apply length_replicate).
  destruct (Hex (Z.to_nat (max_message + 1))) as [data Hd]. exists data. split; [done|].
  assert (u32 (Z.of_nat (length data)) = max_message + 1) as Hu
    by (rewrite Hd, Z2Nat.id by (vm_compute; discriminate); reflexivity).
  rewrite <- Hu. apply (oversize_rejected data [] [frame data] [] EOF EOF).
  - rewrite Hu. lia.
  - reflexivity.
Defined.

End Framing.
