(* ===== verification/Sync.v ===== *)
(** * internal/sync: the block synchroniser

    Blocks reach the engine from the P2P listener and from the RPC polling
    loop; both end in [processBlock].  A JSON-RPC reply is given after
    [rpcCall] and [json.Unmarshal]: an error, or the decoded value, where
    [None] is the JSON [null], which [Unmarshal] accepts without storing
    anything. *)

From S2P Require Import Prelude Bytes Fmt Metrics.

Module Sync.

Record L2Block := mkL2Block {
  Number : Z; BHash : string; ParentHash : string; Timestamp : Z; StateRoot : string;
  GasUsed : Z; GasLimit : Z; TxCount : Z; Sequencer : string
}.

Definition zero_block : L2Block := mkL2Block 0 "" "" 0 "" 0 0 0 "".

(** The fields of [Engine] that change or guard behaviour; [metrics] and
    [onNewBlock] record whether the pointer is non-nil. *)
Record Engine := mkEngine {
  latestBlock : Z;
  blocks : gmap Z L2Block;
  onNewBlock : bool;
  metrics : bool
}.

Definition NewEngine : Engine := mkEngine 0 ∅ false false.
Definition SetMetrics (e : Engine) : Engine :=
  mkEngine (latestBlock e) (blocks e) (onNewBlock e) true.
Definition OnNewBlock (e : Engine) : Engine :=
  mkEngine (latestBlock e) (blocks e) true (metrics e).
Definition LatestBlock (e : Engine) : Z := latestBlock e.
Definition GetBlock (num : Z) (e : Engine) : option L2Block := blocks e !! num.

(** ** RPC helpers *)

(** A failed scan of the hexadecimal string is ignored and leaves [num] at zero. *)
Definition fetchLatestBlockNumber (reply : outcome (option string)) : outcome Z :=
  hexNum ← reply; Ok (default 0 (Fmt.Sscanf_0x (default ""%string hexNum))).

Definition fetchBlock (reply : outcome (option L2Block)) : outcome L2Block :=
  block ← reply; Ok (default zero_block block).

Definition IsSynced (reply : outcome (option string)) (e : Engine) : bool :=
  match fetchLatestBlockNumber reply with
  | Ok latest => latest <=? LatestBlock e
  | _ => false
  end.

(** ** processBlock *)

(** The critical section: [None] when the block is skipped or deferred. *)
Definition accept (block : L2Block) (e : Engine) : option Engine :=
  match blocks e !! Number block with
  | Some _ => None
  | None =>
      if (1 <? Number block) && negb (Number block =? latestBlock e +[u64] 1) then None
      else Some (mkEngine (Number block) (<[Number block := block]> (blocks e))
                          (onNewBlock e) (metrics e))
  end.

(** After the lock is released: metrics, then the callback.  The second component
    is the list of callback invocations. *)
Definition notify (reply : outcome (option string)) (block : L2Block) (e : Engine)
    (m : Metrics.t) : Metrics.t * list L2Block :=
  (if metrics e
   then Metrics.store_Synced (Number block) (if IsSynced reply e then 1 else 0) m
   else m,
   if onNewBlock e then [block] else []).

Definition processBlock (reply : outcome (option string)) (block : L2Block)
    (s : Engine * Metrics.t) : (Engine * Metrics.t) * list L2Block :=
  match accept block s.1 with
  | None => (s, [])
  | Some e' => let '(m', cbs) := notify reply block e' s.2 in ((e', m'), cbs)
  end.

(** ** The RPC fallback *)

(** What the sequencer answers during one [syncFromRPC]: the block number, the
    requested blocks, and the block number again from within [processBlock]. *)
Record rpc_env := mkRpc {
  latest_reply : outcome (option string);
  block_reply : Z -> outcome (option L2Block);
  synced_reply : Z -> outcome (option string)
}.

(** The catch-up loop, for at most [fuel] iterations; the flag tells whether it ran
    to its end. *)
Fixpoint catch_up (fuel : nat) (env : rpc_env) (num remoteLatest : Z)
    (s : Engine * Metrics.t) : (Engine * Metrics.t) * list L2Block * bool :=
  if remoteLatest <? num then (s, [], true)
  else
    match fuel with
    | O => (s, [], false)
    | S f =>
        match fetchBlock (block_reply env num) with
        | Ok block =>
            let '(s', cbs) := processBlock (synced_reply env num) block s in
            let '(s'', cbs', fin) := catch_up f env (num +[u64] 1) remoteLatest s' in
            (s'', cbs ++ cbs', fin)
        | _ => (s, [], true)
        end
    end.

Definition syncFromRPC (fuel : nat) (env : rpc_env) (s : Engine * Metrics.t) :
    (Engine * Metrics.t) * list L2Block * bool :=
  match fetchLatestBlockNumber (latest_reply env) with
  | Ok remoteLatest =>
      let localLatest := LatestBlock s.1 in
      if remoteLatest <=? localLatest then (s, [], true)
      else catch_up fuel env (localLatest +[u64] 1) remoteLatest s
  | _ => (s, [], true)
  end.

(** ** The P2P listener *)

Record BlockAnnounce := mkAnnounce {
  aNumber : Z; aHash : string; aParentHash : string; aTimestamp : Z; aStateRoot : string;
  aGasUsed : Z; aGasLimit : Z; aTxCount : Z; aSequencer : string
}.

Definition block_of_announce (a : BlockAnnounce) : L2Block :=
  mkL2Block (aNumber a) (aHash a) (aParentHash a) (aTimestamp a) (aStateRoot a)
            (aGasUsed a) (aGasLimit a) (aTxCount a) (aSequencer a).

(** [handleP2PBlock], given the decoded payload. *)
Definition handleP2PBlock (reply : outcome (option string)) (announce : outcome BlockAnnounce)
    (s : Engine * Metrics.t) : (Engine * Metrics.t) * list L2Block :=
  match announce with
  | Ok a => processBlock reply (block_of_announce a) s
  | _ => (s, [])
  end.

(** ** The reader handed to the HTTP client *)

Record bytesReader := mkReader { data : list byte; pos : nat }.

Definition jsonReader (d : list byte) : bytesReader := mkReader d 0.

(** [Read(p)] with [len(p) = n]: the bytes copied, or [None] for EOF. *)
Definition Read (n : nat) (r : bytesReader) : bytesReader * option (list byte) :=
  if (length (data r) <=? pos r)%nat then (r, None)
  else
    let chunk := take n (drop (pos r) (data r)) in
    (mkReader (data r) (pos r + length chunk), Some chunk).

(** Reading with the given buffer sizes until EOF. *)
Fixpoint read_all (sizes : list nat) (r : bytesReader) : list byte * bool :=
  match sizes with
  | [] => ([], false)
  | n :: sizes' =>
      match Read n r with
      | (_, None) => ([], true)
      | (r', Some c) => let '(out, eof) := read_all sizes' r' in (c ++ out, eof)
      end
  end.

(** ** Lemmas *)

(** A chain without gaps: exactly the blocks [1 .. latestBlock] are held, each under
    its own number. *)
Record contiguous (e : Engine) : Prop := {
  contiguous_dom n : is_Some (blocks e !! n) <-> 1 <= n <= latestBlock e;
  contiguous_key n b : blocks e !! n = Some b -> Number b = n;
  contiguous_latest : is_u64 (latestBlock e)
}.

Lemma contiguous_new : contiguous NewEngine.
Proof.
  split; simpl.
  - intros n. rewrite lookup_empty, is_Some_alt. lia.
  - intros n b. by rewrite lookup_empty.
  - unfold is_u64. lia.
Qed.

Lemma accept_Some block e e' :
  accept block e = Some e' ->
  blocks e !! Number block = None /\
  (Number block <= 1 \/ Number block = latestBlock e +[u64] 1) /\
  e' = mkEngine (Number block) (<[Number block := block]> (blocks e)) (onNewBlock e) (metrics e).
Proof.
  unfold accept. intros H. split_matches; bools. split; [done|]. split; [|done].
  apply andb_false_iff in H1 as [?|?]; bools; [left; lia|right; done].
Qed.

(** Wiring the callback or the metrics does not touch the chain. *)
Lemma contiguous_wiring e on me :
  contiguous e -> contiguous (mkEngine (latestBlock e) (blocks e) on me).
Proof. by intros [? ? ?]. Qed.

(** On a gapless chain a positive block number is accepted exactly when it is next. *)
Lemma accept_contiguous block e :
  contiguous e -> 1 <= Number block -> is_u64 (Number block) ->
  accept block e =
    if Number block =? latestBlock e + 1
    then Some (mkEngine (Number block) (<[Number block := block]> (blocks e)) (onNewBlock e) (metrics e))
    else None.
Proof.
  intros [Hdom _ Hl] H1 Hu. unfold accept.
  pose proof (Hdom (Number block)) as Hn. unfold is_u64 in *.
  destruct (blocks e !! Number block) eqn:E.
  - destruct (Z.eqb_spec (Number block) (latestBlock e + 1)); [|done].
    assert (1 <= Number block <= latestBlock e) by (apply Hn; eauto). lia.
  - assert (latestBlock e < Number block).
    { destruct (Z_lt_ge_dec (latestBlock e) (Number block)); [done|].
      destruct (proj2 Hn) as [? ?]; [lia|done]. }
    rewrite u64_small by (unfold is_u64; lia).
    destruct (Z.eqb_spec (Number block) (latestBlock e + 1)), (Z.ltb_spec 1 (Number block));
      simpl; try done. lia.
Qed.

Lemma contiguous_extend block e :
  contiguous e -> Number block = latestBlock e + 1 -> is_u64 (Number block) ->
  contiguous (mkEngine (Number block) (<[Number block := block]> (blocks e)) (onNewBlock e) (metrics e)).
Proof.
  intros [Hdom Hkey Hl] Hn Hu. split; simpl; [| |done].
  - intros n. destruct (decide (n = Number block)) as [->|Hne].
    + rewrite lookup_insert_eq. split; [intros _; unfold is_u64 in *; lia|eauto].
    + rewrite lookup_insert_ne, Hdom by done. lia.
  - intros n b. destruct (decide (n = Number block)) as [->|Hne].
    + rewrite lookup_insert_eq. by intros [= ->].
    + rewrite lookup_insert_ne by done. apply Hkey.
Qed.

(** A sequence of arrivals, each with the reply [IsSynced] would get. *)
Fixpoint process_all (l : list (outcome (option string) * L2Block)) (s : Engine * Metrics.t) :
    (Engine * Metrics.t) * list L2Block :=
  match l with
  | [] => (s, [])
  | (reply, block) :: l' =>
      let '(s', cbs) := processBlock reply block s in
      let '(s'', cbs') := process_all l' s' in (s'', cbs ++ cbs')
  end.

Definition positive_numbers (l : list (outcome (option string) * L2Block)) : Prop :=
  Forall (fun rb => 1 <= Number rb.2 /\ is_u64 (Number rb.2)) l.

Lemma processBlock_contiguous reply block e m :
  contiguous e -> 1 <= Number block -> is_u64 (Number block) ->
  exists e' m',
    processBlock reply block (e, m) = ((e', m'),
      if (Number block =? latestBlock e + 1) && onNewBlock e then [block] else []) /\
    contiguous e' /\ onNewBlock e' = onNewBlock e /\
    latestBlock e' = (if Number block =? latestBlock e + 1 then latestBlock e + 1 else latestBlock e) /\
    blocks e' = (if Number block =? latestBlock e + 1 then <[Number block := block]> (blocks e) else blocks e).
Proof.
  intros Hc H1 Hu. unfold processBlock. simpl. rewrite accept_contiguous by done.
  destruct (Z.eqb_spec (Number block) (latestBlock e + 1)) as [E|E]; [|by exists e, m].
  eexists _, _. split; [reflexivity|]. split; [by apply contiguous_extend|]. done.
Qed.

Lemma process_all_contiguous l e m :
  contiguous e -> onNewBlock e = true -> positive_numbers l ->
  exists e' m' cbs,
    process_all l (e, m) = ((e', m'), cbs) /\ contiguous e' /\
    map Number cbs = seqZ (latestBlock e + 1) (latestBlock e' - latestBlock e) /\
    latestBlock e <= latestBlock e'.
Proof.
  revert e m. induction l as [|[reply block] l IH]; intros e m Hc Hon Hl.
  { exists e, m, []. rewrite Z.sub_diag. done. }
  apply Forall_cons in Hl as [[H1 Hu] Hl].
  destruct (processBlock_contiguous reply block e m Hc H1 Hu) as (e1 & m1 & E1 & Hc1 & Hon1 & Hl1 & _).
  rewrite Hon in *. destruct (IH e1 m1 Hc1 Hon1 Hl) as (e2 & m2 & cbs & E2 & Hc2 & Hcb & Hle).
  cbn [process_all]. rewrite E1, E2.
  exists e2, m2. eexists. split; [reflexivity|]. split; [done|]. rewrite map_app, Hcb, Hl1 in *.
  destruct (Z.eqb_spec (Number block) (latestBlock e + 1)) as [E|E]; simpl; [|done].
  split; [|lia]. rewrite (seqZ_cons (latestBlock e + 1)) by lia. rewrite E. f_equal.
  f_equal; lia.
Qed.

(** Callback numbers are new, distinct, and recorded. *)
Lemma process_all_fresh l s s' cbs :
  process_all l s = (s', cbs) ->
  dom (blocks s.1) ⊆ dom (blocks s'.1) /\ NoDup (map Number cbs) /\
  (forall n, n ∈ map Number cbs -> blocks s.1 !! n = None /\ is_Some (blocks s'.1 !! n)).
Proof.
  revert s cbs. induction l as [|[reply block] l IH]; intros s cbs H; simpl in H.
  { simplify_eq. split; [done|]. split; [constructor|]. intros n Hn. by apply elem_of_nil in Hn. }
  destruct (processBlock reply block s) as [s1 c1] eqn:E1.
  destruct (process_all l s1) as [s2 c2] eqn:E2. simplify_eq.
  destruct (IH _ _ E2) as (Hsub & Hnd & Hfr). unfold processBlock in E1.
  destruct (accept block s.1) as [e'|] eqn:Ea; [|by simplify_eq].
  apply accept_Some in Ea as (Hnone & _ & ->). unfold notify in E1. simplify_eq. simpl in *.
  rewrite dom_insert_L in Hsub.
  assert (is_Some (blocks s'.1 !! Number block)) as Hin by (apply elem_of_dom; set_solver).
  split; [set_solver|]. rewrite map_app.
  destruct (onNewBlock s.1); simpl; [split|split; [done|]].
  - constructor; [|done]. intros Hin'. apply Hfr in Hin' as [Hin' _].
    by rewrite lookup_insert_eq in Hin'.
  - intros n [->|Hn]%elem_of_cons; [done|]. apply Hfr in Hn as [Hn Hs]. split; [|done].
    destruct (decide (n = Number block)) as [->|Hne]; [done|]. by rewrite lookup_insert_ne in Hn.
  - intros n Hn. apply Hfr in Hn as [Hn Hs]. split; [|done].
    destruct (decide (n = Number block)) as [->|Hne]; [done|]. by rewrite lookup_insert_ne in Hn.
Qed.

(** ** Wedging *)

(** A chain of at least one block whose height was reset to zero. *)
Record rewound (e : Engine) : Prop := {
  rewound_latest : latestBlock e = 0;
  rewound_zero : is_Some (blocks e !! 0);
  rewound_one : is_Some (blocks e !! 1)
}.

Lemma accept_rewound block e : rewound e -> 0 <= Number block -> accept block e = None.
Proof.
  intros [Hl [b0 H0] [b1 H1]] Hn. unfold accept. rewrite Hl.
  destruct (blocks e !! Number block) eqn:E; [done|].
  destruct (decide (Number block = 0)) as [E0|]; [rewrite E0 in E; congruence|].
  destruct (decide (Number block = 1)) as [E1|]; [rewrite E1 in E; congruence|].
  destruct (Z.ltb_spec 1 (Number block)); [|lia]. simpl.
  rewrite u64_small by (unfold is_u64; lia). destruct (Z.eqb_spec (Number block) (0 + 1)); [lia|done].
Qed.

Lemma processBlock_rewound reply block s :
  rewound s.1 -> 0 <= Number block -> processBlock reply block s = (s, []).
Proof. intros Hr Hn. unfold processBlock. by rewrite accept_rewound. Qed.

Lemma process_all_rewound l s :
  rewound s.1 -> Forall (fun rb => 0 <= Number rb.2) l -> process_all l s = (s, []).
Proof.
  intros Hr. induction 1 as [|[reply block] l Hb Hl IH]; [done|].
  cbn [process_all]. rewrite processBlock_rewound by done. by rewrite IH.
Qed.

Lemma processBlock_zero reply block e m :
  contiguous e -> Number block = 0 ->
  exists m', processBlock reply block (e, m) =
    ((mkEngine 0 (<[0 := block]> (blocks e)) (onNewBlock e) (metrics e), m'),
     if onNewBlock e then [block] else []).
Proof.
  intros [Hdom _ _] H0. unfold processBlock, accept. simpl. rewrite H0.
  destruct (blocks e !! 0) eqn:E; [|by eexists].
  assert (1 <= 0 <= latestBlock e) by (apply Hdom; eauto). lia.
Qed.

Lemma rewound_after_zero block e :
  contiguous e -> 1 <= latestBlock e ->
  rewound (mkEngine 0 (<[0 := block]> (blocks e)) (onNewBlock e) (metrics e)).
Proof.
  intros [Hdom _ _] Hl. split; simpl; [done| |].
  - rewrite lookup_insert_eq. eauto.
  - rewrite lookup_insert_ne by done. apply Hdom. lia.
Qed.

Lemma catch_up_rewound fuel env num remote s :
  rewound s.1 ->
  (forall n b, block_reply env n = Ok (Some b) -> 0 <= Number b) ->
  (catch_up fuel env num remote s).1 = (s, []).
Proof.
  intros Hr Hpos. revert num. induction fuel as [|f IH]; intros num; simpl;
    destruct (remote <? num); try done.
  unfold fetchBlock. destruct (block_reply env num) as [ob|err|w] eqn:E; simpl; try done.
  assert (0 <= Number (default zero_block ob)) by (destruct ob; [by eapply Hpos|done]).
  rewrite processBlock_rewound by done. specialize (IH (num +[u64] 1)).
  destruct (catch_up f env _ remote s) as [[s' cbs] fin]. simpl in *. congruence.
Qed.

(** ** Catching up *)

(** The sequencer serves the right blocks below [stop], and fails at [stop] unless
    that is past [remote]. *)
Definition serves (env : rpc_env) (blk : Z -> L2Block) (first stop remote : Z) : Prop :=
  (forall n, first <= n < stop -> block_reply env n = Ok (Some (blk n)) /\ Number (blk n) = n) /\
  (stop <= remote -> exists err, block_reply env stop = Err err).

Lemma catch_up_serves fuel env blk num stop remote e m :
  contiguous e -> onNewBlock e = true -> num = latestBlock e + 1 ->
  num <= stop <= remote + 1 -> remote < 2 ^ 64 - 1 -> remote + 1 - num <= Z.of_nat fuel ->
  serves env blk num stop remote ->
  exists e' m', catch_up fuel env num remote (e, m) = ((e', m'), map blk (seqZ num (stop - num)), true) /\
    contiguous e' /\ latestBlock e' = stop - 1.
Proof.
  revert num e m. induction fuel as [|f IH]; intros num e m Hc Hon Hnum Hstop Hmax Hfuel [Hok Herr].
  - simpl. destruct (Z.ltb_spec remote num); [|lia]. exists e, m.
    replace (stop - num) with 0 by lia. split; [done|]. split; [done|lia].
  - cbn [catch_up]. destruct (Z.ltb_spec remote num).
    { exists e, m. replace (stop - num) with 0 by lia. split; [done|]. split; [done|lia]. }
    destruct (decide (num = stop)) as [Hs|Hs].
    { destruct Herr as [err Herr]; [lia|]. rewrite <- Hs in Herr. rewrite Herr. simpl.
      exists e, m. replace (stop - num) with 0 by lia. split; [done|]. split; [done|lia]. }
    destruct (Hok num ltac:(lia)) as [Hr Hn]. rewrite Hr. cbn [fetchBlock mbind outcome_bind default].
    pose proof (contiguous_latest e Hc) as Hu. unfold is_u64 in Hu.
    destruct (processBlock_contiguous (synced_reply env num) (blk num) e m Hc) as
      (e1 & m1 & E1 & Hc1 & Hon1 & Hl1 & _); [lia|unfold is_u64; lia|].
    assert (Hb : (Number (blk num) =? latestBlock e + 1) = true) by (apply Z.eqb_eq; lia).
    cbn [from_option id]. rewrite E1. rewrite Hb, Hon in *. simpl.
    rewrite u64_small by (unfold is_u64; lia).
    destruct (IH (num + 1) e1 m1) as (e2 & m2 & -> & Hc2 & Hl2); [done|done|lia|lia|lia|lia| |].
    { split; [|done]. intros n Hn'. apply Hok. lia. }
    exists e2, m2. rewrite (seqZ_cons num) by lia.
    replace (Z.pred (stop - num)) with (stop - (num + 1)) by lia.
    replace (Z.succ num) with (num + 1) by lia. done.
Qed.

Lemma catch_up_total fuel env num remote s :
  is_u64 num -> remote < 2 ^ 64 - 1 -> remote + 1 - num <= Z.of_nat fuel ->
  snd (catch_up fuel env num remote s) = true.
Proof.
  revert num s. induction fuel as [|f IH]; intros num s Hn Hr Hf; cbn [catch_up];
    destruct (Z.ltb_spec remote num); try done; [lia|].
  destruct (fetchBlock (block_reply env num)) as [b| |]; [|done..].
  destruct (processBlock _ b s) as [s1 c1]. unfold is_u64 in Hn.
  assert (num +[u64] 1 = num + 1) as Hn1 by (apply u64_small; unfold is_u64; lia).
  specialize (IH (num +[u64] 1) s1). rewrite Hn1 in *.
  destruct (catch_up f env (num + 1) remote s1) as [[s2 c2] fin]. apply IH; [|lia|lia].
  unfold is_u64. lia.
Qed.

Lemma catch_up_endless fuel env num s :
  is_u64 num -> (forall n, exists ob, block_reply env n = Ok ob) ->
  snd (catch_up fuel env num (2 ^ 64 - 1) s) = false.
Proof.
  revert num s. induction fuel as [|f IH]; intros num s Hn Hall; cbn [catch_up];
    unfold is_u64 in Hn; destruct (Z.ltb_spec (2 ^ 64 - 1) num); try lia; [done|].
  destruct (Hall num) as [ob ->]. cbn [fetchBlock mbind outcome_bind].
  destruct (processBlock _ _ s) as [s1 c1].
  specialize (IH (num +[u64] 1) s1 (u64_range _) Hall).
  by destruct (catch_up f env (num +[u64] 1) (2 ^ 64 - 1) s1) as [[s2 c2] fin].
Qed.

Lemma read_all_data sizes r :
  Forall (fun n => 0 < n)%nat sizes -> (length (data r) - pos r < length sizes)%nat ->
  read_all sizes r = (drop (pos r) (data r), true).
Proof.
  revert r. induction sizes as [|n sizes IH]; intros r Hs Hl; simpl in Hl; [lia|].
  apply Forall_cons in Hs as [Hn Hs]. cbn [read_all]. unfold Read.
  destruct (Nat.leb_spec (length (data r)) (pos r)).
  - by rewrite drop_ge.
  - rewrite IH; [|done|].
    + simpl. rewrite length_take, length_drop.
      rewrite <- (take_drop n (drop (pos r) (data r))) at 2. f_equal. f_equal.
      rewrite drop_drop. destruct (decide (n <= length (data r) - pos r)%nat).
      * by rewrite Nat.min_l by lia.
      * rewrite !drop_ge by lia. done.
    + simpl. rewrite length_take, length_drop. lia.
Qed.

(** ** Properties *)

(** The specification the engine implements: a log that a block extends exactly when its
    number is the next one. *)
Fixpoint log_spec (height : Z) (arrivals : list L2Block) : list L2Block :=
  match arrivals with
  | [] => []
  | b :: l => if Number b =? height + 1 then b :: log_spec (height + 1) l else log_spec height l
  end.

(** C3. The engine implements an append-only log. From a gapless chain, whatever arrives
    (numbers are positive), in whatever order and however often, the callbacks are
    exactly the blocks that extend the log at the moment they arrive, the height counts
    them, and the log read back at each height is the block delivered for it. *)
Theorem arrivals_refine_log (l : list (outcome (option string) * L2Block)) (e : Engine) (m : Metrics.t)
  (Hc : contiguous e) (Hon : onNewBlock e = true) (Hl : positive_numbers l) :
  exists e' m', process_all l (e, m) = ((e', m'), log_spec (latestBlock e) (map snd l)) /\
    contiguous e' /\ onNewBlock e' = true /\
    latestBlock e' = latestBlock e + Z.of_nat (length (log_spec (latestBlock e) (map snd l))) /\
    (forall n, n <= latestBlock e -> GetBlock n e' = GetBlock n e) /\
    (forall i b, log_spec (latestBlock e) (map snd l) !! i = Some b ->
       GetBlock (latestBlock e + 1 + Z.of_nat i) e' = Some b).
Proof.
  revert e m Hc Hon. induction Hl as [|[reply block] l [H1 Hu] _ IH]; intros e m Hc Hon.
  { exists e, m. simpl. split_and!; try done. lia. }
  destruct (processBlock_contiguous reply block e m Hc H1 Hu) as (e1 & m1 & E1 & Hc1 & Hon1 & Hl1 & Hb1).
  rewrite Hon, ?andb_true_r in *. cbn [process_all map log_spec snd] in *. rewrite E1. clear E1.
  destruct (IH e1 m1 Hc1 Hon1) as (e2 & m2 & E2 & Hc2 & Hon2 & Hlen & Hold & Hnew). rewrite E2. clear E2 IH.
  destruct (Z.eqb_spec (Number block) (latestBlock e + 1)) as [E|E]; rewrite Hl1 in *.
  - exists e2, m2. split; [done|]. split; [done|]. split; [done|].
    cbn [length]. split; [lia|]. split.
    + intros n Hn. rewrite Hold by lia. unfold GetBlock. rewrite Hb1. by rewrite lookup_insert_ne by lia.
    + intros [|i] b Hi; cbn in Hi.
      * injection Hi as <-. rewrite Z.add_0_r, Hold by lia. unfold GetBlock. by rewrite Hb1, <- E, lookup_insert_eq.
      * rewrite <- (Hnew i b Hi). f_equal. lia.
  - exists e2, m2. split; [done|]. split_and!; try done.
    intros n Hn. rewrite Hold by done. unfold GetBlock. by rewrite Hb1.
Qed.

(** In-order, gap-free delivery: starting from a fresh engine with a callback, any
    arrivals of blocks with positive numbers leave the chain contiguous and
    invoke the callback exactly for 1, 2, ..., latestBlock, in this order. *)
Theorem delivery_in_order (l : list (outcome (option string) * L2Block)) (m : Metrics.t)
  (Hl : positive_numbers l) :
  exists e m' cbs,
    process_all l (OnNewBlock NewEngine, m) = ((e, m'), cbs) /\
    contiguous e /\ map Number cbs = seqZ 1 (latestBlock e).
Proof.
  destruct (process_all_contiguous l (OnNewBlock NewEngine) m) as (e & m' & cbs & E & Hc & Hn & _);
    [apply contiguous_wiring, contiguous_new|done|done|].
  exists e, m', cbs. split; [done|]. split; [done|]. rewrite Hn. simpl. f_equal; lia.
Qed.

(** C25. Whatever arrives, from whatever state, a block number is handed to the callback
    at most once, only if it was not held before, and is held afterwards. *)
Theorem callback_at_most_once (l : list (outcome (option string) * L2Block)) (s s' : Engine * Metrics.t)
  (cbs : list L2Block) (H : process_all l s = (s', cbs)) :
  NoDup (map Number cbs) /\
  (forall n, n ∈ map Number cbs -> GetBlock n s.1 = None /\ is_Some (GetBlock n s'.1)).
Proof. by apply process_all_fresh in H as (_ & Hnd & Hfr). Qed.

(** [processBlock] on every branch: a held number is skipped, a number above 1 that
    is not the successor of the height is deferred, anything else is stored,
    becomes the height and is handed to the callback. *)
Theorem processBlock_branches (reply : outcome (option string)) (block : L2Block) (e : Engine) (m : Metrics.t) :
  processBlock reply block (e, m) =
    if decide (is_Some (GetBlock (Number block) e)) then ((e, m), [])
    else if decide (1 < Number block /\ Number block <> latestBlock e +[u64] 1) then ((e, m), [])
    else
      let e' := mkEngine (Number block) (<[Number block := block]> (blocks e)) (onNewBlock e) (metrics e) in
      ((e', if metrics e then Metrics.store_Synced (Number block) (if IsSynced reply e' then 1 else 0) m else m),
       if onNewBlock e then [block] else []).
Proof.
  unfold processBlock, accept, GetBlock. simpl.
  destruct (blocks e !! Number block) eqn:E.
  { rewrite decide_True by eauto. done. }
  rewrite (decide_False (P := is_Some _)) by (by intros [? ?]).
  destruct (Z.ltb_spec 1 (Number block)), (Z.eqb_spec (Number block) (latestBlock e +[u64] 1)); simpl;
    case_decide as Hd; try done; exfalso; (by destruct Hd) || (destruct Hd; lia) || (by apply Hd).
Qed.

(** The RPC fallback closes a gap: with the right replies for every block up to
    [stop - 1] and a failure there (or none up to the sequencer's height), one
    [syncFromRPC] delivers exactly the missing blocks in order and ends at
    height [stop - 1]. *)
Theorem syncFromRPC_catches_up (env : rpc_env) (blk : Z -> L2Block) (stop remote : Z) (fuel : nat)
  (e : Engine) (m : Metrics.t)
  (Hc : contiguous e) (Hon : onNewBlock e = true)
  (Hlatest : latest_reply env = Ok (Some (Fmt.Sprintf_0x remote)))
  (Hremote : latestBlock e < remote < 2 ^ 64 - 1)
  (Hstop : latestBlock e + 1 <= stop <= remote + 1)
  (Hserves : serves env blk (latestBlock e + 1) stop remote)
  (Hfuel : remote - latestBlock e <= Z.of_nat fuel) :
  exists e' m', syncFromRPC fuel env (e, m) =
      ((e', m'), map blk (seqZ (latestBlock e + 1) (stop - latestBlock e - 1)), true) /\
    contiguous e' /\ latestBlock e' = stop - 1.
Proof.
  pose proof (contiguous_latest e Hc) as Hu. unfold is_u64 in Hu.
  unfold syncFromRPC. rewrite Hlatest. unfold fetchLatestBlockNumber.
  cbn [mbind outcome_bind from_option id]. unfold LatestBlock. simpl fst.
  rewrite Fmt.Sscanf_Sprintf by (unfold is_u64; lia). cbn [from_option id].
  destruct (Z.leb_spec remote (latestBlock e)); [lia|].
  rewrite u64_small by (unfold is_u64; lia).
  replace (stop - latestBlock e - 1) with (stop - (latestBlock e + 1)) by lia.
  apply (catch_up_serves fuel env blk _ stop remote); try done; lia.
Qed.

(** C32. The catch-up loop terminates for every sequencer height below the largest
    uint64, whatever is served; at that height the counter wraps around and the
    loop never ends while replies succeed. *)
Theorem catch_up_termination (env : rpc_env) (num remote : Z) (s : Engine * Metrics.t)
  (Hnum : is_u64 num) (Hremote : is_u64 remote) :
  (remote <> 2 ^ 64 - 1 -> snd (catch_up (Z.to_nat (remote + 1 - num)) env num remote s) = true) /\
  (remote = 2 ^ 64 - 1 -> (forall n, exists ob, block_reply env n = Ok ob) ->
   forall fuel, snd (catch_up fuel env num remote s) = false).
Proof.
  unfold is_u64 in Hremote. split.
  - intros Hne. apply catch_up_total; [done|lia|lia].
  - intros -> Hall fuel. by apply catch_up_endless.
Qed.

(** A block numbered 0 wedges the engine: it is accepted at any height, resets the
    height to 0, and from then on no arrival of any kind changes the state or
    reaches the callback again. *)
Theorem block_zero_wedges (reply : outcome (option string)) (block : L2Block) (e : Engine) (m : Metrics.t)
  (l : list (outcome (option string) * L2Block))
  (Hc : contiguous e) (Hlatest : 1 <= latestBlock e) (Hzero : Number block = 0)
  (Hl : Forall (fun rb => 0 <= Number rb.2) l) :
  exists s, process_all ((reply, block) :: l) (e, m) = (s, if onNewBlock e then [block] else []) /\
    latestBlock s.1 = 0 /\ (forall n, n <> 0 -> GetBlock n s.1 = GetBlock n e).
Proof.
  destruct (processBlock_zero reply block e m Hc Hzero) as [m' E].
  eexists. cbn [process_all]. rewrite E, process_all_rewound; [|by apply rewound_after_zero|done].
  rewrite app_nil_r. split; [reflexivity|]. split; [done|]. intros n Hn. unfold GetBlock. simpl.
  by rewrite lookup_insert_ne.
Qed.

(** The same happens without any malicious peer: when the sequencer answers the
    first missing block with JSON [null], [syncFromRPC] stores the zero block,
    resets the height to 0 and delivers nothing else. *)
Theorem null_block_wedges (env : rpc_env) (remote : Z) (fuel : nat) (e : Engine) (m : Metrics.t)
  (Hc : contiguous e) (Hlatest : 1 <= latestBlock e)
  (Hreply : latest_reply env = Ok (Some (Fmt.Sprintf_0x remote)))
  (Hremote : latestBlock e < remote < 2 ^ 64) (Hnull : block_reply env (latestBlock e + 1) = Ok None)
  (Hpos : forall n b, block_reply env n = Ok (Some b) -> 0 <= Number b) (Hfuel : (0 < fuel)%nat) :
  exists s fin, syncFromRPC fuel env (e, m) = (s, (if onNewBlock e then [zero_block] else []), fin) /\
    rewound s.1.
Proof.
  pose proof (contiguous_latest e Hc) as Hu. unfold is_u64 in Hu.
  unfold syncFromRPC. rewrite Hreply. unfold fetchLatestBlockNumber.
  cbn [mbind outcome_bind from_option id]. unfold LatestBlock. simpl fst.
  rewrite Fmt.Sscanf_Sprintf by (unfold is_u64; lia). cbn [from_option id].
  destruct (Z.leb_spec remote (latestBlock e)); [lia|].
  rewrite u64_small by (unfold is_u64; lia). destruct fuel as [|f]; [lia|]. cbn [catch_up].
  destruct (Z.ltb_spec remote (latestBlock e + 1)); [lia|].
  rewrite Hnull. cbn [fetchBlock mbind outcome_bind from_option id].
  destruct (processBlock_zero (synced_reply env (latestBlock e + 1)) zero_block e m Hc eq_refl) as [m' ->].
  pose proof (rewound_after_zero zero_block e Hc Hlatest) as Hr.
  pose proof (catch_up_rewound f env (latestBlock e + 1 +[u64] 1) remote
    (mkEngine 0 (<[0:=zero_block]> (blocks e)) (onNewBlock e) (metrics e), m') Hr Hpos) as Hcu.
  destruct (catch_up f env _ remote _) as [[s' cbs] fin]. simpl in Hcu. simplify_eq.
  eexists _, fin. rewrite app_nil_r. by split.
Qed.

(** A block-number reply that is a string but not a hexadecimal number reads as
    height 0, so the engine reports itself synced and the polling loop does
    nothing. *)
Theorem malformed_height_reads_as_synced (env : rpc_env) (hexNum : option string) (fuel : nat)
  (e : Engine) (m : Metrics.t)
  (Hc : contiguous e) (Hbad : Fmt.Sscanf_0x (default ""%string hexNum) = None)
  (Hreply : latest_reply env = Ok hexNum) :
  IsSynced (latest_reply env) e = true /\ syncFromRPC fuel env (e, m) = ((e, m), [], true).
Proof.
  pose proof (contiguous_latest e Hc) as Hu. unfold is_u64 in Hu.
  unfold IsSynced, syncFromRPC, fetchLatestBlockNumber, LatestBlock. rewrite Hreply.
  cbn [mbind outcome_bind]. rewrite Hbad. simpl.
  destruct (Z.leb_spec 0 (latestBlock e)); [done|lia].
Qed.

(** The request body reader: reading with any non-empty buffers until EOF returns
    the whole body. *)
Theorem jsonReader_reads_all (d : list byte) (sizes : list nat)
  (Hsizes : Forall (fun n => 0 < n)%nat sizes) (Henough : (length d < length sizes)%nat) :
  read_all sizes (jsonReader d) = (d, true).
Proof. rewrite read_all_data; [done|done|]. simpl. lia. Qed.

(** ** Witnesses *)

Definition sample_block (n : Z) : L2Block := mkL2Block n "0xaa" "0xbb" 1700000000 "" 21000 30000000 1 "seq".
Definition no_reply : outcome (option string) := Err "rpc call: refused".

(** A synchronised engine at height 1. *)
Definition chain1 : Engine := mkEngine 1 (<[1 := sample_block 1]> ∅) true true.

Lemma chain1_contiguous : contiguous chain1.
Proof.
  pose proof (contiguous_extend (sample_block 1) NewEngine contiguous_new eq_refl) as H.
  exact (contiguous_wiring _ true true (H ltac:(by split))).
Qed.

(** A sequencer at height 3 that fails on block 3. *)
Definition env3 : rpc_env := mkRpc (Ok (Some (Fmt.Sprintf_0x 3)))
  (fun n => if n =? 2 then Ok (Some (sample_block 2)) else Err "rpc call: timeout") (fun _ => no_reply).

Lemma delivery_in_order_witness :
  exists e m' cbs,
    process_all [(no_reply, sample_block 1); (no_reply, sample_block 3); (no_reply, sample_block 2)]
      (OnNewBlock NewEngine, Metrics.New) = ((e, m'), cbs) /\
    contiguous e /\ map Number cbs = seqZ 1 (latestBlock e).
Proof.
  apply (delivery_in_order [(no_reply, sample_block 1); (no_reply, sample_block 3); (no_reply, sample_block 2)]).
  repeat constructor; simpl; lia.
Defined.

Lemma callback_at_most_once_witness :
  NoDup (map Number [sample_block 2]) /\
  (forall n, n ∈ map Number [sample_block 2] -> GetBlock n chain1 = None /\
     is_Some (GetBlock n (mkEngine 2 (<[2 := sample_block 2]> (blocks chain1)) true true))).
Proof.
  apply (callback_at_most_once [(no_reply, sample_block 2); (no_reply, sample_block 2)]
    (chain1, Metrics.New)
    (mkEngine 2 (<[2 := sample_block 2]> (blocks chain1)) true true, Metrics.store_Synced 2 0 Metrics.New)).
  vm_compute. reflexivity.
Defined.

Lemma arrivals_refine_log_witness :
  exists e' m', process_all [(no_reply, sample_block 3); (no_reply, sample_block 2); (no_reply, sample_block 2)]
      (chain1, Metrics.New) = ((e', m'), [sample_block 2]) /\ latestBlock e' = 2.
Proof.
  destruct (arrivals_refine_log [(no_reply, sample_block 3); (no_reply, sample_block 2); (no_reply, sample_block 2)]
    chain1 Metrics.New) as (e' & m' & H1 & _ & _ & H2 & _).
  - apply chain1_contiguous.
  - reflexivity.
  - repeat constructor; simpl; lia.
  - exists e', m'. split; [exact H1|exact H2].
Defined.

Lemma syncFromRPC_catches_up_witness :
  exists e' m', syncFromRPC 2 env3 (chain1, Metrics.New) = ((e', m'), [sample_block 2], true) /\
    contiguous e' /\ latestBlock e' = 2.
Proof.
  apply (syncFromRPC_catches_up env3 sample_block 3 3 2 chain1 Metrics.New).
  - apply chain1_contiguous.
  - reflexivity.
  - reflexivity.
  - simpl; lia.
  - simpl; lia.
  - split.
    + intros n Hn. simpl in Hn. assert (n = 2) as -> by lia. by split.
    + intros _. by eexists.
  - simpl; lia.
Defined.

Lemma catch_up_termination_witness :
  snd (catch_up 2 env3 2 3 (chain1, Metrics.New)) = true.
Proof. apply (catch_up_termination env3 2 3 (chain1, Metrics.New)); [by split|by split|lia]. Defined.

Lemma block_zero_wedges_witness :
  exists s, process_all [(no_reply, sample_block 0); (no_reply, sample_block 2)] (chain1, Metrics.New)
      = (s, [sample_block 0]) /\
    latestBlock s.1 = 0 /\ (forall n, n <> 0 -> GetBlock n s.1 = GetBlock n chain1).
Proof.
  apply (block_zero_wedges no_reply (sample_block 0) chain1 Metrics.New [(no_reply, sample_block 2)]).
  - apply chain1_contiguous.
  - simpl; lia.
  - reflexivity.
  - repeat constructor; simpl; lia.
Defined.

Lemma null_block_wedges_witness :
  exists s fin, syncFromRPC 5 (mkRpc (Ok (Some (Fmt.Sprintf_0x 3))) (fun _ => Ok None) (fun _ => no_reply))
      (chain1, Metrics.New) = (s, [zero_block], fin) /\ rewound s.1.
Proof.
  apply (null_block_wedges (mkRpc (Ok (Some (Fmt.Sprintf_0x 3))) (fun _ => Ok None) (fun _ => no_reply))
    3 5 chain1 Metrics.New).
  - apply chain1_contiguous.
  - simpl; lia.
  - reflexivity.
  - simpl; lia.
  - reflexivity.
  - simpl. discriminate.
  - lia.
Defined.

Lemma malformed_height_reads_as_synced_witness :
  IsSynced (Ok (Some "17"%string)) chain1 = true /\
  syncFromRPC 5 (mkRpc (Ok (Some "17"%string)) (fun n => Ok (Some (sample_block n))) (fun _ => no_reply))
    (chain1, Metrics.New) = ((chain1, Metrics.New), [], true).
Proof.
  apply (malformed_height_reads_as_synced
    (mkRpc (Ok (Some "17"%string)) (fun n => Ok (Some (sample_block n))) (fun _ => no_reply))
    (Some "17"%string) 5 chain1 Metrics.New).
  - apply chain1_contiguous.
  - vm_compute. reflexivity.
  - reflexivity.
Defined.

Lemma jsonReader_reads_all_witness :
  read_all [3; 3; 4]%nat (jsonReader [Byte.x61; Byte.x62]) = ([Byte.x61; Byte.x62], true).
Proof. apply jsonReader_reads_all; [repeat constructor|simpl]; lia. Defined.

End Sync.
