(* ===== verification/Wire.v ===== *)
(** * internal/p2p: messages on the wire

    The JSON envelope of a frame and the gossip payloads, with the rules by which
    [json.Unmarshal] fills a struct: members are matched to fields up to letter case,
    unknown members are skipped, [null] leaves a field alone, later duplicates win, and
    a value of the wrong type makes the call fail but only after the other fields have
    been filled. *)

From S2P Require Import Prelude Bytes Base64 Json P2P Sync.
Import Json P2P.

Module Wire.

(** ** Unmarshal *)

(** A decoder updates the destination and says whether it met a type error. *)
Definition decoder (A : Type) : Type := json -> A -> A * bool.

Definition dec_int : decoder Z := fun j old =>
  match j with
  | JNull => (old, true)
  | JNum l => match ParseInt l with Some n => (n, true) | None => (old, false) end
  | _ => (old, false)
  end.

Definition dec_uint (bits : Z) : decoder Z := fun j old =>
  match j with
  | JNull => (old, true)
  | JNum l => match ParseUint bits l with Some n => (n, true) | None => (old, false) end
  | _ => (old, false)
  end.

Definition dec_string : decoder (list byte) := fun j old =>
  match j with JNull => (old, true) | JStr s => (s, true) | _ => (old, false) end.

(** A byte slice: nil, or its elements and what lies behind them in the array. *)
Definition slice : Type := option (list byte * list byte).
Definition slice_bytes (s : slice) : option (list byte) := fst <$> s.

Fixpoint dec_elems (es : list json) (old : list byte) : list byte * bool :=
  match es with
  | [] => ([], true)
  | e :: es' =>
      let '(b, ok) := dec_uint 8 e (byte_to_Z (default Byte.x00 (head old))) in
      let '(bs, ok') := dec_elems es' (tail old) in
      (byte_of_Z b :: bs, ok && ok')
  end.

(** A string holds base64, an array the elements; elements that are not set keep what
    the array held. *)
Definition dec_bytes : decoder slice := fun j old =>
  match j with
  | JNull => (None, true)
  | JStr s => match Base64.decode s with Some b => (Some (b, []), true) | None => (old, false) end
  | JArr [] => (Some ([], []), true)
  | JArr es =>
      let array := match old with Some (l, t) => l ++ t | None => [] end in
      let '(bs, ok) := dec_elems es array in (Some (bs, drop (length es) array), ok)
  | _ => (old, false)
  end.

(** Letter case is ignored, as are the two non-ASCII letters that fold to ASCII ones. *)
Fixpoint fold_name (l : list byte) : list byte :=
  match l with
  | [] => []
  | a :: l1 =>
      match l1 with
      | b :: l2 =>
          if (code a =? 197) && (code b =? 191) then chr 83 :: fold_name l2
          else
            match l2 with
            | c :: l3 =>
                if (code a =? 226) && (code b =? 132) && (code c =? 170) then chr 75 :: fold_name l3
                else (if between_codes 97 122 a then chr (code a - 32) else a) :: fold_name l1
            | [] => (if between_codes 97 122 a then chr (code a - 32) else a) :: fold_name l1
            end
      | [] => [if between_codes 97 122 a then chr (code a - 32) else a]
      end
  end.

Definition field (A : Type) : Type := string * decoder A.

Definition find_field {A} (fields : list (field A)) (key : list byte) : option (decoder A) :=
  snd <$> find (fun '(n, _) => bool_decide (fold_name (text n) = fold_name key)) fields.

Definition dec_member {A} (fields : list (field A)) (acc : A * bool) (m : list byte * json) : A * bool :=
  match find_field fields (fst m) with
  | None => acc
  | Some d => let '(a, ok) := d (snd m) (fst acc) in (a, snd acc && ok)
  end.

Definition dec_struct {A} (fields : list (field A)) : decoder A := fun j a =>
  match j with
  | JNull => (a, true)
  | JObj ms => foldl (dec_member fields) (a, true) ms
  | _ => (a, false)
  end.

(** [json.Unmarshal(data, &v)] with [v] holding [a]. *)
Definition Unmarshal {A} (fields : list (field A)) (a : A) (data : list byte) : option A :=
  j ← parse data; let '(v, ok) := dec_struct fields j a in if ok then Some v else None.

(** Focusing a decoder on a part of the struct. *)
Definition on {A B} (get : A -> B) (set : B -> A -> A) (d : decoder B) : decoder A := fun j a =>
  let '(b, ok) := d j (get a) in (set b a, ok).

(** ** The envelope *)

Record wireMessage := mkWire { wType : Z; wFrom : list byte; wPayload : slice }.

Definition wire_fields : list (field wireMessage) := [
  ("t"%string, on wType (fun x w => mkWire x (wFrom w) (wPayload w)) dec_int);
  ("f"%string, on wFrom (fun x w => mkWire (wType w) x (wPayload w)) dec_string);
  ("p"%string, on wPayload (fun x w => mkWire (wType w) (wFrom w) x) dec_bytes) ].

Definition wire_marshal (type : Z) (from : list byte) (payload : option (list byte)) : list byte :=
  encode (JObj [(text "t", JNum (FormatInt type)); (text "f", JStr from);
                (text "p", match payload with None => JNull | Some p => JStr (Base64.encode p) end)]).

Definition wire_unmarshal (data : list byte) : option wireMessage :=
  Unmarshal wire_fields (mkWire 0 [] None) data.

(** ** Gossip payloads *)

Definition str_field {A} (get : A -> string) (set : string -> A -> A) : decoder A :=
  on (fun a => bytes_of_string (get a)) (fun s => set (string_of_bytes s)) dec_string.

Import Sync.

Definition announce_fields : list (field BlockAnnounce) := [
  ("number"%string, on aNumber (fun x a => mkAnnounce x (aHash a) (aParentHash a) (aTimestamp a) (aStateRoot a)
     (aGasUsed a) (aGasLimit a) (aTxCount a) (aSequencer a)) (dec_uint 64));
  ("hash"%string, str_field aHash (fun x a => mkAnnounce (aNumber a) x (aParentHash a) (aTimestamp a) (aStateRoot a)
     (aGasUsed a) (aGasLimit a) (aTxCount a) (aSequencer a)));
  ("parentHash"%string, str_field aParentHash (fun x a => mkAnnounce (aNumber a) (aHash a) x (aTimestamp a)
     (aStateRoot a) (aGasUsed a) (aGasLimit a) (aTxCount a) (aSequencer a)));
  ("timestamp"%string, on aTimestamp (fun x a => mkAnnounce (aNumber a) (aHash a) (aParentHash a) x (aStateRoot a)
     (aGasUsed a) (aGasLimit a) (aTxCount a) (aSequencer a)) (dec_uint 64));
  ("stateRoot"%string, str_field aStateRoot (fun x a => mkAnnounce (aNumber a) (aHash a) (aParentHash a)
     (aTimestamp a) x (aGasUsed a) (aGasLimit a) (aTxCount a) (aSequencer a)));
  ("gasUsed"%string, on aGasUsed (fun x a => mkAnnounce (aNumber a) (aHash a) (aParentHash a) (aTimestamp a)
     (aStateRoot a) x (aGasLimit a) (aTxCount a) (aSequencer a)) (dec_uint 64));
  ("gasLimit"%string, on aGasLimit (fun x a => mkAnnounce (aNumber a) (aHash a) (aParentHash a) (aTimestamp a)
     (aStateRoot a) (aGasUsed a) x (aTxCount a) (aSequencer a)) (dec_uint 64));
  ("txCount"%string, on aTxCount (fun x a => mkAnnounce (aNumber a) (aHash a) (aParentHash a) (aTimestamp a)
     (aStateRoot a) (aGasUsed a) (aGasLimit a) x (aSequencer a)) dec_int);
  ("sequencer"%string, str_field aSequencer (fun x a => mkAnnounce (aNumber a) (aHash a) (aParentHash a)
     (aTimestamp a) (aStateRoot a) (aGasUsed a) (aGasLimit a) (aTxCount a) x)) ].

(** [EncodePayload] of an announcement. *)
Definition EncodeBlockAnnounce (a : BlockAnnounce) : list byte :=
  encode (JObj [
    (text "number", JNum (FormatInt (aNumber a))); (text "hash", JStr (text (aHash a)));
    (text "parentHash", JStr (text (aParentHash a))); (text "timestamp", JNum (FormatInt (aTimestamp a)));
    (text "stateRoot", JStr (text (aStateRoot a))); (text "gasUsed", JNum (FormatInt (aGasUsed a)));
    (text "gasLimit", JNum (FormatInt (aGasLimit a))); (text "txCount", JNum (FormatInt (aTxCount a)));
    (text "sequencer", JStr (text (aSequencer a))) ]).

Definition DecodeBlockAnnounce (data : list byte) : outcome BlockAnnounce :=
  match Unmarshal announce_fields (mkAnnounce 0 "" "" 0 "" 0 0 0 "") data with
  | Some a => Ok a
  | None => Err "decode BlockAnnounce"
  end.

(** ** Types

    What a decoder leaves in a typed destination is typed again: the widths of the Go
    types hold for everything that comes off the wire, and for what an earlier call left
    there when this one stops at an error. *)

Definition keeps {A} (P : A -> Prop) (d : decoder A) : Prop := forall j a, P a -> P (fst (d j a)).

Lemma dec_value_nonneg ds : forallb is_digit ds = true -> 0 <= dec_value ds.
Proof.
  enough (forall acc, 0 <= acc -> forallb is_digit ds = true -> 0 <= foldl (fun acc d => acc * 10 + (code d - 48)) acc ds)
    as H by (intros Hd; by apply H).
  induction ds as [|d ds IH]; intros acc Hacc H; [done|]. cbn in H. apply andb_true_iff in H as [Hd Hds].
  cbn [foldl]. apply (IH _); [|done]. unfold is_digit, between_codes in Hd. lia.
Qed.

Lemma keeps_dec_uint bits : keeps (fun z => 0 <= z < 2 ^ bits) (dec_uint bits).
Proof.
  intros j a Ha. unfold dec_uint, ParseUint. destruct j as [| |l| | |]; try done.
  destruct (forallb is_digit l) eqn:Hd; [|done]. cbn [andb]. destruct (negb _); [|done]. cbn [andb].
  destruct (Z.ltb_spec (dec_value l) (2 ^ bits)); [|done]. split; [by apply dec_value_nonneg|done].
Qed.

Lemma keeps_dec_int : keeps is_i64 dec_int.
Proof.
  intros j a Ha. unfold dec_int. destruct j as [| |l| | |]; try done. destruct (ParseInt l) as [n|] eqn:E; [|done].
  unfold ParseInt in E. cbn [fst]. repeat case_match; simplify_eq; bools; unfold is_i64; lia.
Qed.

Lemma keeps_on {A B} (P : A -> Prop) (Q : B -> Prop) (get : A -> B) (set : B -> A -> A) d :
  keeps Q d -> (forall a, P a -> Q (get a)) -> (forall b a, Q b -> P a -> P (set b a)) -> keeps P (on get set d).
Proof.
  intros Hd Hg Hs j a Ha. unfold on. specialize (Hd j (get a) (Hg a Ha)). destruct (d j (get a)) as [b ok].
  cbn [fst] in *. auto.
Qed.

Lemma keeps_any {A B} (P : A -> Prop) (get : A -> B) (set : B -> A -> A) d :
  (forall b a, P a -> P (set b a)) -> keeps P (on get set d).
Proof. intros H. apply (keeps_on P (fun _ => True)); [done|done|auto]. Qed.

Lemma find_field_In {A} (fields : list (field A)) key d : find_field fields key = Some d -> exists n, (n, d) ∈ fields.
Proof.
  unfold find_field. intros ([n d'] & E & ->)%fmap_Some. exists n. apply find_some in E as [E _].
  by apply list_elem_of_In.
Qed.

Lemma keeps_struct {A} (P : A -> Prop) (fields : list (field A)) :
  Forall (fun f => keeps P (snd f)) fields -> keeps P (dec_struct fields).
Proof.
  intros Hf j a Ha. destruct j as [| | | | |ms]; try done. cbn [dec_struct].
  change a with (fst (a, true)) in Ha. revert Ha. generalize (a, true). clear a.
  induction ms as [|m ms IH]; intros acc Ha; [done|]. cbn [foldl]. apply IH. unfold dec_member.
  destruct (find_field fields (fst m)) as [d|] eqn:E; [|done]. apply find_field_In in E as [n Hin].
  rewrite Forall_forall in Hf. specialize (Hf _ Hin (snd m) (fst acc) Ha). cbn [snd] in Hf.
  revert Hf. by destruct (d (snd m) (fst acc)).
Qed.

Lemma Unmarshal_keeps {A} (P : A -> Prop) (fields : list (field A)) a data v :
  Forall (fun f => keeps P (snd f)) fields -> P a -> Unmarshal fields a data = Some v -> P v.
Proof.
  intros Hf Ha. unfold Unmarshal. destruct (parse data) as [j|]; [|done]. cbn.
  pose proof (keeps_struct P fields Hf j a Ha) as Hk. destruct (dec_struct fields j a) as [w ok].
  destruct ok; [|done]. by intros [= <-].
Qed.

Lemma wire_unmarshal_typed data w : wire_unmarshal data = Some w -> is_i64 (wType w).
Proof.
  apply (Unmarshal_keeps (fun w => is_i64 (wType w))); [|done]. unfold wire_fields.
  rewrite !Forall_cons, Forall_nil. split_and!; [|by apply keeps_any..|done].
  apply (keeps_on _ is_i64); [apply keeps_dec_int|done|done].
Qed.

(** An announcement with Go's widths. *)
Definition announce_typed (a : BlockAnnounce) : Prop :=
  is_u64 (aNumber a) /\ is_u64 (aTimestamp a) /\ is_u64 (aGasUsed a) /\ is_u64 (aGasLimit a) /\ is_i64 (aTxCount a).

Lemma announce_fields_typed : Forall (fun f => keeps announce_typed (snd f)) announce_fields.
Proof.
  unfold announce_fields. rewrite !Forall_cons, Forall_nil. unfold announce_typed.
  split_and!; try done; cbn [snd];
    first [ apply keeps_any; naive_solver
          | apply (keeps_on _ is_u64); [apply (keeps_dec_uint 64)|naive_solver|naive_solver]
          | apply (keeps_on _ is_i64); [apply keeps_dec_int|naive_solver|naive_solver] ].
Qed.

Lemma zero_announce_typed : announce_typed (mkAnnounce 0 "" "" 0 "" 0 0 0 "").
Proof. by split_and!. Qed.

Definition block_typed (b : L2Block) : Prop :=
  is_u64 (Number b) /\ is_u64 (Timestamp b) /\ is_u64 (GasUsed b) /\ is_u64 (GasLimit b) /\ is_i64 (TxCount b).

Lemma DecodeBlockAnnounce_typed data a : DecodeBlockAnnounce data = Ok a -> announce_typed a.
Proof.
  unfold DecodeBlockAnnounce. destruct (Unmarshal _ _ data) as [v|] eqn:E; [|done]. intros [= <-].
  by apply (Unmarshal_keeps announce_typed _ _ _ _ announce_fields_typed zero_announce_typed E).
Qed.

(** ** Round trips *)

Lemma scalar_int n : - 10 ^ 20 < n < 10 ^ 20 -> scalar (JNum (FormatInt n)).
Proof. intros H. by exists n. Qed.

Lemma plain_ascii s : Forall Base64.plain_char s -> ascii s.
Proof. intros H. eapply Forall_impl; [exact H|]. intros b. unfold Base64.plain_char. lia. Qed.

Lemma text_ascii (s : string) : forallb (fun b => code b <? 128) (text s) = true -> ascii (text s).
Proof.
  intros H. apply Forall_forall. intros b Hb. rewrite forallb_forall in H.
  apply Z.ltb_lt, H. by apply list_elem_of_In.
Qed.

Ltac ascii_text := apply text_ascii; vm_compute; reflexivity.

(** Members named like the fields, in the order of the fields, meet their decoders. *)
Definition distinct_names {A} (fields : list (field A)) : Prop :=
  NoDup ((fun f => fold_name (text (fst f))) <$> fields).

Lemma find_field_elem {A} (fields : list (field A)) n d :
  distinct_names fields -> (n, d) ∈ fields -> find_field fields (text n) = Some d.
Proof.
  unfold distinct_names, find_field. intros Hnd Hin. induction fields as [|[m e] fields IH]; [by inversion Hin|].
  rewrite fmap_cons in Hnd. apply NoDup_cons in Hnd as [Hm Hnd]. cbn [find fst] in *.
  apply elem_of_cons in Hin as [[= <- <-]|Hin]; [by rewrite bool_decide_eq_true_2|].
  rewrite bool_decide_eq_false_2; [by apply IH|]. intros E. apply Hm. rewrite E.
  by apply (list_elem_of_fmap_2 (fun f => fold_name (text (fst f))) _ (n, d)).
Qed.

Lemma dec_in_order {A} (fields sub : list (field A)) (vs : list json) (acc : A * bool) :
  distinct_names fields -> sub ⊆ fields ->
  foldl (dec_member fields) acc (zip_with (fun f v => (text (fst f), v)) sub vs) =
  foldl (fun acc fv => let '(a, ok) := snd (fst fv) (snd fv) (fst acc) in (a, snd acc && ok)) acc (zip sub vs).
Proof.
  intros Hnd. revert vs acc. induction sub as [|[n d] sub IH]; intros [|v vs] acc Hsub; [done..|].
  cbn [zip_with foldl]. rewrite IH by set_solver. f_equal.
  unfold dec_member. cbn [fst snd]. by rewrite (find_field_elem fields n d) by set_solver.
Qed.

Lemma wire_names : distinct_names wire_fields.
Proof. apply (bool_decide_unpack _). vm_compute. done. Qed.

Lemma announce_names : distinct_names announce_fields.
Proof. apply (bool_decide_unpack _). vm_compute. done. Qed.

Lemma Unmarshal_flat {A} (fields : list (field A)) a vs :
  distinct_names fields -> flat (zip_with (fun f v => (text (fst f), v)) fields vs) ->
  Unmarshal fields a (encode (JObj (zip_with (fun f v => (text (fst f), v)) fields vs))) =
    let '(r, ok) := foldl (fun acc fv => let '(b, ok) := snd (fst fv) (snd fv) (fst acc) in (b, snd acc && ok))
      (a, true) (zip fields vs) in
    if ok then Some r else None.
Proof.
  intros Hnd Hfl. unfold Unmarshal. rewrite parse_encode_flat by done. cbn [mbind option_bind dec_struct].
  by rewrite dec_in_order.
Qed.

Lemma flat_zip {A} (fields : list (field A)) vs :
  forallb (fun f => forallb (fun b => code b <? 128) (text (fst f))) fields = true -> Forall scalar vs ->
  flat (zip_with (fun f v => (text (fst f), v)) fields vs).
Proof.
  intros Hn Hv. revert Hn. revert fields. induction Hv as [|v vs Hv _ IH]; intros [|f fields] Hn; try constructor.
  - cbn [forallb] in Hn. apply andb_true_iff in Hn as [Hn _]. split; [by apply text_ascii|done].
  - cbn [forallb] in Hn. apply andb_true_iff in Hn as [_ Hn]. by apply IH.
Qed.

Lemma wire_marshal_ok type from payload :
  is_i64 type -> ascii from ->
  exists w, wire_unmarshal (wire_marshal type from payload) = Some w /\
    wType w = type /\ wFrom w = from /\ slice_bytes (wPayload w) = payload.
Proof.
  intros Ht Hf.
  set (vs := [JNum (FormatInt type); JStr from;
              match payload with None => JNull | Some p => JStr (Base64.encode p) end]).
  unfold is_i64 in Ht. unfold wire_unmarshal.
  change (wire_marshal type from payload) with (encode (JObj (zip_with (fun f v => (text (fst f), v)) wire_fields vs))).
  rewrite Unmarshal_flat; [|exact wire_names|].
  - unfold vs, wire_fields, on. cbn [zip zip_with foldl fst snd dec_int dec_string].
    rewrite ParseInt_FormatInt by done.
    destruct payload as [p|]; cbn [dec_bytes]; [rewrite Base64.decode_encode|];
      eexists; (split; [reflexivity|done]).
  - apply flat_zip; [vm_compute; reflexivity|]. unfold vs. repeat constructor; [apply scalar_int; lia|exact Hf|].
    destruct payload as [p|]; [|done]. apply plain_ascii, Base64.encode_plain.
Qed.

(** An envelope survives the wire: whatever the message type (a machine integer), an
    ASCII sender and any payload, nil or not, unmarshalling what was marshalled gives
    the same three fields back. *)
Theorem wire_roundtrip (type : Z) (from : list byte) (payload : option (list byte))
  (Ht : is_i64 type) (Hf : ascii from) :
  exists w, wire_unmarshal (wire_marshal type from payload) = Some w /\
    wType w = type /\ wFrom w = from /\ slice_bytes (wPayload w) = payload.
Proof. by apply wire_marshal_ok. Qed.

(** An announcement a Go struct can hold, with ASCII strings. *)
Definition announce_ok (a : BlockAnnounce) : Prop :=
  is_u64 (aNumber a) /\ is_u64 (aTimestamp a) /\ is_u64 (aGasUsed a) /\ is_u64 (aGasLimit a) /\
  is_i64 (aTxCount a) /\ ascii (text (aHash a)) /\ ascii (text (aParentHash a)) /\
  ascii (text (aStateRoot a)) /\ ascii (text (aSequencer a)).

Definition announce_values (a : BlockAnnounce) : list json :=
  [JNum (FormatInt (aNumber a)); JStr (text (aHash a)); JStr (text (aParentHash a));
   JNum (FormatInt (aTimestamp a)); JStr (text (aStateRoot a)); JNum (FormatInt (aGasUsed a));
   JNum (FormatInt (aGasLimit a)); JNum (FormatInt (aTxCount a)); JStr (text (aSequencer a))].

Lemma foldl_step {A B} (f : A -> B -> A) a x l : foldl f a (x :: l) = foldl f (f a x) l.
Proof. done. Qed.

(** One member: the decoder reduces to its update of the record built so far. *)
Ltac decode_step :=
  match goal with |- context [foldl _ ?acc _] =>
    let H := fresh in
    eassert (acc = (_, true)) as H;
      [unfold on; cbn [fst snd dec_int dec_uint dec_string];
       rewrite ?ParseInt_FormatInt, ?ParseUint_FormatInt by (unfold is_i64; lia);
       cbn [andb aNumber aHash aParentHash aTimestamp aStateRoot aGasUsed aGasLimit aTxCount aSequencer];
       reflexivity
      |rewrite H; clear H]
  end.

(** C37. A block announcement whose strings are ASCII and whose numbers have Go's widths
    survives its JSON encoding, all nine fields of it. *)
Theorem announce_roundtrip (a : BlockAnnounce) (Ha : announce_ok a) :
  DecodeBlockAnnounce (EncodeBlockAnnounce a) = Ok a.
Proof.
  unfold announce_ok, is_u64, is_i64 in Ha. destruct Ha as (H1 & H2 & H3 & H4 & H5 & H6 & H7 & H8 & H9).
  unfold DecodeBlockAnnounce.
  change (EncodeBlockAnnounce a) with
    (encode (JObj (zip_with (fun f v => (text (fst f), v)) announce_fields (announce_values a)))).
  rewrite Unmarshal_flat; [|exact announce_names|].
  - unfold announce_values, announce_fields, str_field, text. cbn [zip zip_with].
    repeat (rewrite foldl_step; decode_step).
    cbn [foldl]. rewrite !string_of_bytes_of_string. destruct a; reflexivity.
  - apply flat_zip; [vm_compute; reflexivity|]. unfold announce_values.
    repeat constructor; try (apply scalar_int; lia); done.
Qed.

(** ** Witnesses *)

Lemma wire_roundtrip_witness :
  exists w, wire_unmarshal (wire_marshal MsgAttestation (text "validator-9000") (Some [Byte.x00; Byte.xff])) = Some w /\
    slice_bytes (wPayload w) = Some [Byte.x00; Byte.xff].
Proof.
  destruct (wire_roundtrip MsgAttestation (text "validator-9000") (Some [Byte.x00; Byte.xff]))
    as (w & Hw & _ & _ & Hp); [by split|ascii_text|].
  exists w. split; [exact Hw|exact Hp].
Defined.

Definition sample_announce : BlockAnnounce := mkAnnounce 7 "0xab" "0xaa" 1700000000 "" 21000 30000000 (-1) "<seq>".

Lemma announce_roundtrip_witness : DecodeBlockAnnounce (EncodeBlockAnnounce sample_announce) = Ok sample_announce.
Proof. apply announce_roundtrip. unfold announce_ok. split_and!; try (by split); ascii_text. Defined.

(** The envelope as it appears on the wire, and some texts other encoders may send. *)
Example wire_text :
  wire_marshal MsgNewBlock (text "validator-30303") (Some (text "Hello")) =
    quoted "{'t':0,'f':'validator-30303','p':'SGVsbG8='}".
Proof. vm_compute. reflexivity. Qed.

Example wire_null : wire_unmarshal (text "null") = Some (mkWire 0 [] None).
Proof. vm_compute. reflexivity. Qed.

Example wire_loose :
  wire_unmarshal (quoted " {'x':[{}], 'T':5, 'F':null, 'p':[1,null,255]} ") =
    Some (mkWire 5 [] (Some ([Byte.x01; Byte.x00; Byte.xff], []))).
Proof. vm_compute. reflexivity. Qed.

End Wire.
