(* ===== verification/Network.v ===== *)
(** * internal/p2p: peers, broadcast and the message channel

    The peer table, the connections its entries point to, and the channel of incoming
    messages.  Connections are shared by reference: the table, the read loop of a peer
    and whoever holds its [*Peer] reach the same connection, so they live in a store of
    their own, named by numbers.  A method that holds the lock throughout is one
    transition; [handleInbound] and [dialPeer] are split where they release it. *)

From S2P Require Import Prelude Bytes Base64 Json P2P Framing Wire.
Import Json P2P Framing Wire.

Module Network.

(** ** Data *)

Record Peer := mkPeer {
  ID : string; pAddress : string; Version : string; IsActive : bool; Latency : Z; conn : option nat
}.

Record connection := mkConn { out : outbound; closed : bool }.

Record Network := mkNetwork {
  P2PPort : Z; localID : string; bootnodes : list string;
  peers : gmap string Peer; msgCh : list Message;
  conns : gmap nat connection; ctx : option bool; listener : option bool
}.

(** [ctx] is the context [Start] derives: none before, then whether it is done; it is done
    when [Stop] cancels it or when the caller's context is. *)
Definition cancelled (n : Network) : bool := default false (ctx n).

Definition msgCh_cap : nat := 4096.

Definition NewNetwork (port : Z) (boot : list string) : Network :=
  mkNetwork port ("validator-" +:+ string_of_bytes (FormatInt port)) boot ∅ [] ∅ None None.

Definition set_peers (ps : gmap string Peer) (n : Network) : Network :=
  mkNetwork (P2PPort n) (localID n) (bootnodes n) ps (msgCh n) (conns n) (ctx n) (listener n).
Definition set_msgCh (ch : list Message) (n : Network) : Network :=
  mkNetwork (P2PPort n) (localID n) (bootnodes n) (peers n) ch (conns n) (ctx n) (listener n).
Definition set_conns (cs : gmap nat connection) (n : Network) : Network :=
  mkNetwork (P2PPort n) (localID n) (bootnodes n) (peers n) (msgCh n) cs (ctx n) (listener n).
Definition set_ctx (d : option bool) (n : Network) : Network :=
  mkNetwork (P2PPort n) (localID n) (bootnodes n) (peers n) (msgCh n) (conns n) d (listener n).
Definition set_listener (l : option bool) (n : Network) : Network :=
  mkNetwork (P2PPort n) (localID n) (bootnodes n) (peers n) (msgCh n) (conns n) (ctx n) l.
Definition set_active (a : bool) (p : Peer) : Peer :=
  mkPeer (ID p) (pAddress p) (Version p) a (Latency p) (conn p).

(** ** Connections *)

(** [writeFrame(conn, data)]: a closed connection refuses the first byte. *)
Definition frame_to (c : nat) (data : list byte) (n : Network) : Network * option io_error :=
  match conns n !! c with
  | None => (n, Some ErrClosed)
  | Some k =>
      if closed k then (n, Some ErrClosed)
      else let '(o, e) := writeFrame data (out k) in (set_conns (<[c := mkConn o false]> (conns n)) n, e)
  end.

Definition close_conn (c : nat) (n : Network) : Network :=
  match conns n !! c with
  | None => n
  | Some k => set_conns (<[c := mkConn (out k) true]> (conns n)) n
  end.

(** ** Sending *)

Definition io_error_string (e : io_error) : string :=
  match e with
  | EOF => "EOF" | ErrUnexpectedEOF => "unexpected EOF" | ErrTimeout => "i/o timeout"
  | ErrClosed => "use of closed network connection" | ErrOther w => w
  end.

Definition envelope (n : Network) (type : Z) (payload : option (list byte)) : list byte :=
  wire_marshal type (text (localID n)) payload.

(** One round of the loop over the peers: a failed write is remembered and skipped. *)
Definition broadcast_one (data : list byte) (acc : Network * option io_error) (id : string) :
    Network * option io_error :=
  let '(n, lastErr) := acc in
  match peers n !! id with
  | Some p =>
      match conn p with
      | Some c =>
          if negb (IsActive p) then acc
          else match frame_to c data n with
               | (n', Some e) => (n', Some e)
               | (n', None) => (n', lastErr)
               end
      | None => acc
      end
  | None => acc
  end.

(** [order]: the peers in the order the run-time iterates over the map. *)
Definition Broadcast (order : list string) (msgType : Z) (payload : option (list byte)) (n : Network) :
    Network * option io_error :=
  foldl (broadcast_one (envelope n msgType payload)) (n, None) order.

Definition SendTo (peerID : string) (msgType : Z) (payload : option (list byte)) (n : Network) :
    Network * option string :=
  let missing := (n, Some ("peer " +:+ peerID +:+ " not found or inactive")) in
  match peers n !! peerID with
  | Some p =>
      match conn p with
      | Some c =>
          if negb (IsActive p) then missing
          else let '(n', e) := frame_to c (envelope n msgType payload) n in (n', io_error_string <$> e)
      | None => missing
      end
  | None => missing
  end.

Definition PeerCount (n : Network) : Z :=
  Z.of_nat (length (filter (fun '(_, p) => IsActive p = true) (map_to_list (peers n)))).

(** Copies without the connection. *)
Definition Peers (order : list string) (n : Network) : list Peer :=
  omap (fun id => (fun p => mkPeer (ID p) (pAddress p) (Version p) (IsActive p) (Latency p) None) <$> peers n !! id) order.

(** ** Connecting *)

Definition announce (n : Network) : list byte :=
  envelope n MsgValidatorAnnounce (Some (quoted "{'port':" ++ FormatInt (P2PPort n) ++ text "}")).

Definition add_peer (id addr : string) (c : nat) (n : Network) : Network :=
  set_peers (<[id := mkPeer id addr "inso/1.0" true 0 (Some c)]> (peers n)) n.

(** Up to the read loop: the entry is visible to broadcasts before the announcement is
    written. *)
Definition handleInbound (remoteAddr : string) (c : nat) (n : Network) : Network :=
  let n' := add_peer ("inbound-" +:+ remoteAddr) remoteAddr c n in
  fst (frame_to c (announce n') n').

(** [dial attempt]: the connection of that attempt, if it succeeds; [stop attempt]: the
    context was done before it.  The result lists the delays slept, in seconds. *)
Fixpoint dial_loop (left : nat) (attempt : Z) (addr : string) (dial : Z -> option nat) (stop : Z -> bool)
    (n : Network) : Network * list Z * option nat :=
  match left with
  | O => (n, [], None)
  | S left' =>
      if stop attempt then (n, [], None)
      else
        match dial attempt with
        | None =>
            let '(n', delays, r) := dial_loop left' (attempt + 1) addr dial stop n in
            (n', Z.shiftl 1 attempt :: delays, r)
        | Some c =>
            let n' := add_peer ("outbound-" +:+ addr) addr c n in
            (fst (frame_to c (announce n') n'), [], Some c)
        end
  end.

Definition dialPeer (addr : string) (dial : Z -> option nat) (stop : Z -> bool) (n : Network) :
    Network * list Z * option nat := dial_loop 5 0 addr dial stop n.

(** ** Receiving *)

Definition message_of (w : wireMessage) : Message := mkMessage (wType w) (wFrom w) (slice_bytes (wPayload w)).

(** The non-blocking send: a full channel drops the message. *)
Definition deliver (m : Message) (n : Network) : Network :=
  if (length (msgCh n) <? msgCh_cap)%nat then set_msgCh (msgCh n ++ [m]) n else n.

(** A frame that was read: one that is not an envelope is ignored. *)
Definition on_frame (data : list byte) (n : Network) : Network :=
  match wire_unmarshal data with
  | None => n
  | Some w => deliver (message_of w) n
  end.

(** The deferred clean-up of the read loop. *)
Definition deactivate (peerID : string) (n : Network) : Network :=
  match peers n !! peerID with
  | Some p => set_peers (<[peerID := set_active false p]> (peers n)) n
  | None => n
  end.

Definition readLoop_exit (peerID : string) (c : nat) (n : Network) : Network :=
  deactivate peerID (close_conn c n).

(** The loop without interference, for at most [fuel] frames; [None] when more remain. *)
Fixpoint readLoop (fuel : nat) (peerID : string) (c : nat) (input : inbound) (n : Network) : option Network :=
  match fuel with
  | O => None
  | S f =>
      if cancelled n then Some (readLoop_exit peerID c n)
      else
        match readFrame input with
        | (_, inr _) => Some (readLoop_exit peerID c n)
        | (input', inl data) => readLoop f peerID c input' (on_frame data n)
        end
  end.

(** ** Liveness and shutdown *)

(** [alive c]: whether the kernel accepts a zero-byte write on an open connection. *)
Definition check_one (alive : nat -> bool) (n : Network) (id : string) : Network :=
  match peers n !! id with
  | Some p =>
      match conn p with
      | Some c =>
          if negb (IsActive p) then n
          else if alive c && negb (default true (closed <$> conns n !! c)) then n
          else close_conn c (set_peers (<[id := set_active false p]> (peers n)) n)
      | None => n
      end
  | None => n
  end.

Definition checkPeerLiveness (alive : nat -> bool) (order : list string) (n : Network) : Network :=
  foldl (check_one alive) n order.

(** [err]: what [net.Listen] reports. The three goroutines started on success are the
    matter of [Overlay]. [parent]: whether the caller's context is done already. *)
Definition Start (parent : bool) (err : option string) (n : Network) : Network * option string :=
  let n := set_ctx (Some parent) n in
  match err with
  | Some e => (n, Some ("p2p listen on 0.0.0.0:" +:+ string_of_bytes (FormatInt (P2PPort n)) +:+ ": " +:+ e))
  | None => (set_listener (Some true) n, None)
  end.

(** The end of the context: of the caller's, or of the one [Start] derived. *)
Definition cancel (n : Network) : Network := set_ctx ((fun _ => true) <$> ctx n) n.

Definition close_listener (n : Network) : Network := set_listener ((fun _ => false) <$> listener n) n.

Definition close_peer (n : Network) (id : string) : Network :=
  match peers n !! id with
  | Some p => match conn p with Some c => close_conn c n | None => n end
  | None => n
  end.

Definition close_peers (order : list string) (n : Network) : Network := foldl close_peer n order.

Definition Stop (order : list string) (n : Network) : Network :=
  close_peers order (close_listener (cancel n)).

(** ** The interface *)

Definition order_of (n : Network) : list string := (map_to_list (peers n)).*1.

#[export] Instance transport : Transport Network := {|
  P2P.Broadcast t p n := let '(n', e) := Broadcast (order_of n) t p n in (n', io_error_string <$> e);
  inbox := msgCh;
  take_message n := match msgCh n with [] => None | m :: ch => Some (m, set_msgCh ch n) end
|}.

(** ** Facts *)

Lemma frame_to_frame c data n :
  let n' := fst (frame_to c data n) in
  peers n' = peers n /\ msgCh n' = msgCh n /\ localID n' = localID n /\ cancelled n' = cancelled n /\
  forall d, d <> c -> conns n' !! d = conns n !! d.
Proof.
  unfold frame_to. destruct (conns n !! c) as [k|]; [|done]. destruct (closed k); [done|].
  destruct (writeFrame data (out k)) as [o e]. simpl. repeat split; try done.
  intros d Hd. by rewrite lookup_insert_ne.
Qed.

(** An open connection that accepts everything. *)
Definition open_conn (n : Network) (c : nat) (w : list byte) : Prop :=
  exists e, conns n !! c = Some (mkConn (Outbound w None e) false).

Lemma frame_to_open c data n w :
  open_conn n c w -> snd (frame_to c data n) = None /\ open_conn (fst (frame_to c data n)) c (w ++ frame data).
Proof.
  intros [e Hc]. unfold frame_to. rewrite Hc. cbn [closed out]. rewrite writeFrame_unlimited. cbn [fst snd].
  split; [done|]. exists e. apply lookup_insert_eq.
Qed.

(** The connection an entry is broadcast to. *)
Definition target (n : Network) (id : string) : option nat :=
  p ← peers n !! id; if IsActive p then conn p else None.

Lemma broadcast_one_eq data n err id :
  broadcast_one data (n, err) id =
    match target n id with
    | None => (n, err)
    | Some c => let '(n', e) := frame_to c data n in (n', match e with Some _ => e | None => err end)
    end.
Proof.
  unfold broadcast_one, target. destruct (peers n !! id) as [p|]; [|done]. simpl.
  destruct (conn p) as [c|], (IsActive p); try done. simpl. by destruct (frame_to c data n) as [n' [e|]].
Qed.

(** Rounds that address other connections. *)
Lemma broadcast_others data order acc c :
  (forall id, id ∈ order -> target (fst acc) id <> Some c) ->
  let r := foldl (broadcast_one data) acc order in
  peers (fst r) = peers (fst acc) /\ msgCh (fst r) = msgCh (fst acc) /\ conns (fst r) !! c = conns (fst acc) !! c.
Proof.
  revert acc. induction order as [|id order IH]; intros [n err] H; [done|]. cbn [foldl].
  rewrite broadcast_one_eq. cbn [fst] in H.
  destruct (target n id) as [d|] eqn:Et; [|by apply IH; intros; apply H; right].
  pose proof (frame_to_frame d data n) as (Hp & Hm & _ & _ & Hc). destruct (frame_to d data n) as [n' e].
  cbn [fst] in *. assert (target n' = target n) as Ht by (unfold target; by rewrite Hp).
  assert (d <> c) as Hdc by (intros ->; apply (H id); [left|done]).
  specialize (IH (n', match e with Some _ => e | None => err end)). cbn [fst] in IH. cbv zeta in IH.
  rewrite Ht, Hp, Hm, Hc in IH by done. apply IH. intros i Hi. apply H. by right.
Qed.

Lemma broadcast_peers data order acc :
  peers (fst (foldl (broadcast_one data) acc order)) = peers (fst acc) /\
  msgCh (fst (foldl (broadcast_one data) acc order)) = msgCh (fst acc) /\
  localID (fst (foldl (broadcast_one data) acc order)) = localID (fst acc).
Proof.
  revert acc. induction order as [|id order IH]; intros [n err]; [done|]. cbn [foldl].
  destruct (IH (broadcast_one data (n, err) id)) as (-> & -> & ->). rewrite broadcast_one_eq.
  destruct (target n id) as [d|]; [|done].
  pose proof (frame_to_frame d data n) as (Hp & Hm & Hl & _). by destruct (frame_to d data n).
Qed.

(** The peers of the network, once each. *)
Definition iterates (order : list string) (n : Network) : Prop := order ≡ₚ order_of n.

Lemma iterates_NoDup order n : iterates order n -> NoDup order.
Proof. intros ->. apply NoDup_fst_map_to_list. Qed.

Lemma iterates_elem order n id : iterates order n -> id ∈ order <-> is_Some (peers n !! id).
Proof.
  intros ->. unfold order_of. rewrite list_elem_of_fmap. split.
  - intros ([i p] & -> & H). apply elem_of_map_to_list in H. by exists p.
  - intros [p Hp]. exists (id, p). split; [done|by apply elem_of_map_to_list].
Qed.

(** No two active entries share the connection. *)
Definition owns (n : Network) (id : string) (c : nat) : Prop :=
  target n id = Some c /\ forall id', target n id' = Some c -> id' = id.

Lemma Broadcast_open order t p n id c w :
  iterates order n -> owns n id c -> open_conn n c w ->
  open_conn (fst (Broadcast order t p n)) c (w ++ frame (envelope n t p)).
Proof.
  intros Ho [Ht Hu] Hc. assert (id ∈ order) as Hin.
  { apply (iterates_elem order n id Ho). unfold target in Ht. destruct (peers n !! id); [by eexists|done]. }
  apply list_elem_of_split in Hin as (l1 & l2 & ->). pose proof (iterates_NoDup _ _ Ho) as Hnd.
  apply NoDup_app in Hnd as (_ & Hl1 & Hnd). apply NoDup_cons in Hnd as [Hl2 _].
  unfold Broadcast. rewrite foldl_app. cbn [foldl]. set (data := envelope n t p).
  destruct (broadcast_others data l1 (n, None) c) as (Hp1 & _ & Hc1).
  { cbn [fst]. intros i Hi E. rewrite (Hu i E) in Hi. apply (Hl1 id Hi). left. }
  destruct (foldl (broadcast_one data) (n, None) l1) as [n1 e1]. cbn [fst] in *.
  rewrite broadcast_one_eq. assert (target n1 = target n) as Ht1 by (unfold target; by rewrite Hp1).
  rewrite Ht1, Ht. assert (open_conn n1 c w) as Ho1 by (unfold open_conn in *; by rewrite Hc1).
  destruct (frame_to_open c data n1 w Ho1) as [_ Ho2].
  pose proof (frame_to_frame c data n1) as (Hp2 & _). destruct (frame_to c data n1) as [n2 e2]. cbn [fst] in *.
  destruct (broadcast_others data l2 (n2, match e2 with Some _ => e2 | None => e1 end) c) as (_ & _ & Hc2).
  { cbn [fst]. intros i Hi E. apply Hl2. replace id with i; [done|]. apply Hu.
    unfold target in *. by rewrite Hp2, Hp1 in E. }
  unfold open_conn in *. rewrite Hc2. exact Ho2.
Qed.

(** A broadcast reaches every active peer: each open connection that belongs to one
    active entry receives exactly one whole frame holding the envelope, whatever the
    iteration order and whatever failed on the others; connections of inactive or
    unknown peers, the peer table and the incoming channel are untouched. *)
Theorem Broadcast_delivers (order : list string) (t : Z) (payload : option (list byte)) (n : Network)
  (Ho : iterates order n) :
  (forall id c w, owns n id c -> open_conn n c w ->
     open_conn (fst (Broadcast order t payload n)) c (w ++ frame (envelope n t payload))) /\
  (forall c, (forall id, target n id <> Some c) -> conns (fst (Broadcast order t payload n)) !! c = conns n !! c) /\
  peers (fst (Broadcast order t payload n)) = peers n /\ msgCh (fst (Broadcast order t payload n)) = msgCh n.
Proof.
  split; [intros id c w; by apply Broadcast_open|]. split.
  - intros c Hc. by apply (broadcast_others _ order (n, None) c).
  - by destruct (broadcast_peers (envelope n t payload) order (n, None)) as (? & ? & _).
Qed.

(** ** Receiving *)

Lemma on_frame_frame data n :
  peers (on_frame data n) = peers n /\ conns (on_frame data n) = conns n /\ cancelled (on_frame data n) = cancelled n.
Proof. unfold on_frame, deliver. by repeat case_match. Qed.

Lemma take_take_app {A} k (l1 l2 : list A) : take k (take k l1 ++ l2) = take k (l1 ++ l2).
Proof.
  destruct (decide (k <= length l1)%nat).
  - rewrite !take_app_le by (rewrite ?length_take; lia). rewrite take_take. f_equal. lia.
  - by rewrite (take_ge l1) by lia.
Qed.

(** The messages a sequence of frames carries. *)
Definition decoded (datas : list (list byte)) : list Message :=
  omap (fun d => message_of <$> wire_unmarshal d) datas.

Lemma decoded_cons d ds : decoded (d :: ds) = decoded [d] ++ decoded ds.
Proof. unfold decoded. cbn [omap list_omap]. by destruct (message_of <$> wire_unmarshal d). Qed.

Lemma decoded_length ds : (length (decoded ds) <= length ds)%nat.
Proof.
  induction ds as [|x ds IH]; [done|]. rewrite decoded_cons, length_app. unfold decoded at 1. cbn [omap list_omap].
  destruct (message_of <$> wire_unmarshal x); cbn [length]; lia.
Qed.

Lemma on_frame_channel datas n :
  (length (msgCh n) <= msgCh_cap)%nat ->
  msgCh (foldl (fun n d => on_frame d n) n datas) = take msgCh_cap (msgCh n ++ decoded datas).
Proof.
  revert n. induction datas as [|d datas IH]; intros n Hn.
  - cbn. by rewrite app_nil_r, take_ge.
  - cbn [foldl]. unfold on_frame at 2. unfold decoded. cbn [omap list_omap].
    destruct (wire_unmarshal d) as [w|]; cbn [fmap option_fmap option_map]; [|by apply IH].
    unfold deliver. destruct (Nat.ltb_spec (length (msgCh n)) msgCh_cap) as [Hlt|Hge].
    + rewrite IH by (cbn [msgCh set_msgCh]; rewrite length_app; simpl; lia). cbn [msgCh set_msgCh].
      by rewrite <- app_assoc.
    + rewrite IH by done. rewrite !take_app_ge by lia.
      by replace (msgCh_cap - length (msgCh n))%nat with 0%nat by lia.
Qed.

Lemma readLoop_exit_spec id c n :
  msgCh (readLoop_exit id c n) = msgCh n /\ target (readLoop_exit id c n) id = None /\
  (forall k, conns n !! c = Some k -> conns (readLoop_exit id c n) !! c = Some (mkConn (out k) true)) /\
  (forall j, j <> id -> peers (readLoop_exit id c n) !! j = peers n !! j).
Proof.
  unfold readLoop_exit, deactivate, target. assert (peers (close_conn c n) = peers n /\ msgCh (close_conn c n) = msgCh n) as [Hp Hm]
    by (unfold close_conn; by case_match).
  rewrite Hp. destruct (peers n !! id) as [p|] eqn:Ep.
  - split; [done|]. split; [|split].
    + cbn [peers set_peers]. by rewrite lookup_insert_eq.
    + intros k Hk. cbn [conns set_peers]. unfold close_conn. rewrite Hk. apply lookup_insert_eq.
    + intros j Hj. cbn [peers set_peers]. by rewrite lookup_insert_ne.
  - split; [done|]. split; [by rewrite Hp, Ep|]. split; [|by rewrite Hp].
    intros k Hk. unfold close_conn. rewrite Hk. apply lookup_insert_eq.
Qed.

Lemma readLoop_frames fuel id c input n datas :
  cancelled n = false -> readFrames fuel input = (datas, Some (IoErr EOF)) ->
  readLoop fuel id c input n = Some (readLoop_exit id c (foldl (fun n d => on_frame d n) n datas)).
Proof.
  revert input n datas. induction fuel as [|f IH]; intros input n datas Hc Hr; [done|].
  cbn [readFrames readLoop] in *. rewrite Hc. destruct (readFrame input) as [input' [data|e]]; [|by injection Hr as <- _].
  destruct (readFrames f input') as [ds e] eqn:Er. injection Hr as <- ->.
  rewrite (IH _ _ ds); [done| |exact Er]. by destruct (on_frame_frame data n) as (_ & _ & ->).
Qed.

(** Reading a frame consumes at least the four bytes of its length. *)
Lemma readFrame_consumes input input' data :
  readFrame input = (input', inl data) -> (length (pending input') + 4 <= length (pending input))%nat.
Proof.
  unfold readFrame. intros H. destruct (decide (4 <= length (pending input))%nat) as [Hle|Hgt].
  - destruct (ReadFull_ok 4 input Hle) as (c1 & E1 & Hp1 & _). rewrite E1 in H.
    destruct (max_message <? _); [done|]. set (k := Z.to_nat _) in *.
    destruct (decide (k <= length (pending c1))%nat) as [Hle2|Hgt2].
    + destruct (ReadFull_ok k c1 Hle2) as (c2 & E2 & Hp2 & _). rewrite E2 in H. injection H as <- <-.
      rewrite Hp2, Hp1, !length_drop. lia.
    + rewrite ReadFull_short in H by lia. done.
  - rewrite ReadFull_short in H by lia. done.
Qed.

(** C33. The read loop of a peer terminates on every finite input, and afterwards the
    connection is closed and the peer no longer broadcast to; unless the network was
    stopped, its incoming messages are, in order, those of the well-formed envelopes
    among the frames up to the first error, as far as the capacity of the channel
    goes: beyond it they are dropped. *)
Theorem readLoop_terminates (id : string) (c : nat) (k : connection) (input : inbound) (n : Network)
  (Hc : conns n !! c = Some k) (Hlen : (length (msgCh n) <= msgCh_cap)%nat) :
  let fuel := S (length (pending input)) in
  exists n' datas, readLoop fuel id c input n = Some n' /\
    target n' id = None /\ conns n' !! c = Some (mkConn (out k) true) /\
    (forall j, j <> id -> peers n' !! j = peers n !! j) /\
    msgCh n' = take msgCh_cap (msgCh n ++ decoded datas) /\
    (cancelled n = false -> exists e, readFrames fuel input = (datas, Some e)).
Proof.
  intros fuel. assert (length (pending input) < fuel)%nat as Hfuel by (unfold fuel; lia). clearbody fuel.
  revert input n Hc Hlen Hfuel. induction fuel as [|f IH]; intros input n Hc Hlen Hfuel; [lia|].
  destruct (readLoop_exit_spec id c n) as (He1 & He2 & He3 & He4).
  assert (msgCh n = take msgCh_cap (msgCh n ++ decoded [])) as Hself by (cbn; by rewrite app_nil_r, take_ge).
  cbn [readLoop readFrames]. destruct (cancelled n) eqn:Hcan; [|destruct (readFrame input) as [input' [data|e]] eqn:Er].
  - exists (readLoop_exit id c n), []. rewrite He1. split_and!; [done|apply He2|by apply He3|apply He4|done|done].
  - pose proof (readFrame_consumes _ _ _ Er). destruct (on_frame_frame data n) as (Hp & Hcs & Hcn).
    pose proof (on_frame_channel [data] n Hlen) as Hch. cbn [foldl] in Hch.
    destruct (IH input' (on_frame data n)) as (n' & datas & -> & Ht & Hk & Hj & Hm & Hr);
      [by rewrite Hcs|rewrite Hch, length_take; lia|lia|].
    exists n', (data :: datas). split; [done|]. split; [done|]. split; [done|]. split; [by rewrite <- Hp|].
    split; [by rewrite Hm, Hch, take_take_app, <- app_assoc, (decoded_cons data datas)|].
    intros _. rewrite Hcn in Hr. destruct (Hr Hcan) as [e ->]. by exists e.
  - exists (readLoop_exit id c n), []. rewrite He1. split_and!; [done|apply He2|by apply He3|apply He4|done|by exists e].
Qed.

(** ** Gossip *)

(** A node's broadcasts, one after the other. *)
Definition broadcast_all (order : list string) (msgs : list (Z * option (list byte))) (n : Network) : Network :=
  foldl (fun n m => fst (Broadcast order (fst m) (snd m) n)) n msgs.

Lemma broadcast_all_wire order msgs n id c w :
  iterates order n -> owns n id c -> open_conn n c w ->
  open_conn (broadcast_all order msgs n) c (w ++ mjoin (map frame (map (fun m => envelope n (fst m) (snd m)) msgs))).
Proof.
  revert n w. induction msgs as [|m msgs IH]; intros n w Ho Hown Hc.
  - cbn. by rewrite app_nil_r.
  - unfold broadcast_all. cbn [foldl]. pose proof (Broadcast_open order (fst m) (snd m) n id c w Ho Hown Hc) as Hc'.
    destruct (broadcast_peers (envelope n (fst m) (snd m)) order (n, None)) as (Hp & _ & Hl).
    fold (Broadcast order (fst m) (snd m) n) in Hp, Hl. cbn [fst] in Hp, Hl.
    specialize (IH (fst (Broadcast order (fst m) (snd m) n)) (w ++ frame (envelope n (fst m) (snd m)))).
    unfold broadcast_all in IH. cbn [map mjoin list_join]. rewrite app_assoc.
    assert (forall x, envelope (fst (Broadcast order (fst m) (snd m) n)) (fst x) (snd x) = envelope n (fst x) (snd x)) as He
      by (intros x; unfold envelope; by rewrite Hl).
    rewrite (map_ext _ (fun x => envelope n (fst x) (snd x)) He) in IH. apply IH; [| |exact Hc'].
    + unfold iterates, order_of. by rewrite Hp.
    + unfold owns, target. rewrite Hp. exact Hown.
Qed.

Lemma decoded_envelopes n msgs :
  ascii (text (localID n)) -> Forall (fun m => is_i64 (fst m)) msgs ->
  decoded (map (fun m => envelope n (fst m) (snd m)) msgs) =
    map (fun m => mkMessage (fst m) (text (localID n)) (snd m)) msgs.
Proof.
  intros Ha. induction 1 as [|[t p] msgs Ht _ IH]; [done|]. cbn [map fst snd] in *.
  rewrite decoded_cons, IH. unfold decoded, envelope. cbn [omap list_omap].
  destruct (wire_marshal_ok t (text (localID n)) p Ht Ha) as (w & -> & H1 & H2 & H3).
  cbn. unfold message_of. by rewrite H1, H2, H3.
Qed.

(** C12. End to end: what one node broadcasts over a connection, however many messages and
    however the stream was cut into chunks, reaches the other node's channel whole and
    in order, with the type, the sender's identity and the payload intact, as long as
    no envelope exceeds 10 MiB and the channel has room. *)
Theorem gossip_delivery (order : list string) (msgs : list (Z * option (list byte))) (n m : Network)
  (id peer : string) (c d : nat) (cs : list (list byte)) (w : list byte)
  (Ho : iterates order n) (Hown : owns n id c) (Hopen : open_conn n c [])
  (Hid : ascii (text (localID n))) (Htypes : Forall (fun x => is_i64 (fst x)) msgs)
  (Hsize : Forall (fun x => Z.of_nat (length (envelope n (fst x) (snd x))) <= max_message) msgs)
  (Hw : open_conn (broadcast_all order msgs n) c w) (Hcs : mjoin cs = w)
  (Hrun : cancelled m = false) (Hroom : (length (msgCh m) + length msgs <= msgCh_cap)%nat) :
  exists m', readLoop (S (length msgs)) peer d (Inbound cs EOF) m = Some m' /\
    msgCh m' = msgCh m ++ map (fun x => mkMessage (fst x) (text (localID n)) (snd x)) msgs.
Proof.
  pose proof (broadcast_all_wire order msgs n id c [] Ho Hown Hopen) as Hw'.
  destruct Hw as [e1 Hw]. destruct Hw' as [e2 Hw']. rewrite Hw in Hw'. injection Hw' as Hweq _.
  cbn [app] in Hweq. set (datas := map (fun x => envelope n (fst x) (snd x)) msgs) in *.
  assert (readFrames (S (length datas)) (Inbound cs EOF) = (datas, Some (IoErr EOF))) as Hr.
  { apply readFrames_stream; [|unfold pending; simpl; congruence|done].
    unfold datas. apply Forall_map. exact Hsize. }
  unfold datas in Hr at 1. rewrite length_map in Hr. 
  exists (readLoop_exit peer d (foldl (fun n d => on_frame d n) m datas)).
  split; [by apply readLoop_frames|].
  destruct (readLoop_exit_spec peer d (foldl (fun n d => on_frame d n) m datas)) as (-> & _).
  rewrite on_frame_channel by lia. unfold datas. rewrite decoded_envelopes by done.
  apply take_ge. rewrite length_app, length_map. lia.
Qed.

(** ** Interference *)

(** [writeFrame] is two writes and nothing serialises two writers of one connection
    (a broadcast holds only the read lock, the announcement of a new connection none).
    When their writes interleave as header, header, body, body, the peer reads a frame
    of the first length that starts with the second header. *)
Theorem interleaved_writers (A B : list byte) (e : io_error) (cs : list (list byte))
  (HA : Z.of_nat (length A) <= max_message) (HA4 : (4 <= length A)%nat) :
  let o1 := fst (conn_Write (frame_header A) (Outbound [] None e)) in
  let o2 := fst (conn_Write (frame_header B) o1) in
  let o3 := fst (conn_Write A o2) in
  let o4 := fst (conn_Write B o3) in
  mjoin cs = wire o4 ->
  exists c', readFrame (Inbound cs EOF) = (c', inl (take (length A) (frame_header B ++ A ++ B))).
Proof.
  cbn [fst conn_Write room wire]. intros Hcs. set (D := take (length A) (frame_header B ++ A ++ B)).
  assert (length D = length A) as HD.
  { unfold D. rewrite length_take, !length_app. unfold frame_header. rewrite length_be_fixed. lia. }
  assert (frame_header D = frame_header A) as Hh by (unfold frame_header; by rewrite HD).
  destruct (readFrame_spec D (drop (length A) (frame_header B ++ A ++ B)) (Inbound cs EOF)) as (c' & H & _).
  - unfold pending. cbn [chunks]. rewrite Hcs. unfold frame. rewrite Hh, <- !app_assoc.
    unfold D. by rewrite take_drop.
  - by rewrite HD.
  - by exists c'.
Qed.

(** ** The interface's laws *)

#[export] Instance transport_laws : TransportLaws Network transport.
Proof.
  split.
  - intros t p n. simpl. pose proof (broadcast_peers (envelope n t p) (order_of n) (n, None)) as (_ & H & _).
    fold (Broadcast (order_of n) t p n) in H. by destruct (Broadcast (order_of n) t p n).
  - intros n. simpl. by destruct (msgCh n) as [|m ch] eqn:E.
Qed.

(** ** Witnesses *)

Definition fresh_conn : connection := mkConn (Outbound [] None ErrClosed) false.

(** A node with one connected peer. *)
Definition node : Network :=
  add_peer "outbound-b:9001" "b:9001" 1 (set_conns {[1%nat := fresh_conn]} (NewNetwork 9000 ["b:9001"])).

Lemma node_owns : owns node "outbound-b:9001" 1.
Proof.
  split; [vm_compute; reflexivity|]. intros id. unfold target. cbn [peers node add_peer set_peers].
  destruct (decide (id = "outbound-b:9001")) as [->|Hne]; [done|].
  rewrite lookup_insert_ne by done. cbn. by rewrite lookup_empty.
Qed.

Lemma node_open : open_conn node 1 [].
Proof. exists ErrClosed. vm_compute. reflexivity. Qed.

Lemma Broadcast_delivers_witness :
  exists data, open_conn (fst (Broadcast (order_of node) MsgAttestation (Some [Byte.x07]) node)) 1 ([] ++ frame data).
Proof.
  destruct (Broadcast_delivers (order_of node) MsgAttestation (Some [Byte.x07]) node (Permutation_refl _)) as [H _].
  exists (envelope node MsgAttestation (Some [Byte.x07])).
  exact (H "outbound-b:9001"%string 1%nat [] node_owns node_open).
Defined.

Definition chatter : list (Z * option (list byte)) := [(MsgNewBlock, Some (text "hi")); (MsgAttestation, None)].

Lemma gossip_delivery_witness :
  exists w m', open_conn (broadcast_all (order_of node) chatter node) 1 w /\
    readLoop 3 "inbound-a" 2 (Inbound [take 9 w; drop 9 w] EOF) (NewNetwork 9001 []) = Some m' /\
    msgCh m' = [mkMessage 0 (text "validator-9000") (Some (text "hi")); mkMessage 1 (text "validator-9000") None].
Proof.
  assert (exists w, open_conn (broadcast_all (order_of node) chatter node) 1 w) as [w Hw].
  { eexists. apply (broadcast_all_wire _ chatter node "outbound-b:9001" 1 [] (Permutation_refl _) node_owns node_open). }
  destruct (gossip_delivery (order_of node) chatter node (NewNetwork 9001 []) "outbound-b:9001" "inbound-a" 1 2
    [take 9 w; drop 9 w] w (Permutation_refl _) node_owns node_open) as (m' & H1 & H2).
  - apply text_ascii. vm_compute. reflexivity.
  - unfold chatter. repeat constructor; vm_compute; discriminate || reflexivity.
  - unfold chatter. repeat constructor; vm_compute; discriminate.
  - exact Hw.
  - cbn. by rewrite app_nil_r, take_drop.
  - reflexivity.
  - unfold msgCh_cap. cbn. lia.
  - exists w, m'. split; [exact Hw|]. split; [exact H1|]. rewrite H2. reflexivity.
Defined.

Lemma readLoop_terminates_witness :
  exists n', readLoop 6 "outbound-b:9001" 1 (Inbound [[Byte.x00]; [Byte.x00; Byte.x00; Byte.x01; Byte.x7b]] EOF) node = Some n'
    /\ target n' "outbound-b:9001" = None.
Proof.
  destruct (readLoop_terminates "outbound-b:9001" 1 fresh_conn
    (Inbound [[Byte.x00]; [Byte.x00; Byte.x00; Byte.x01; Byte.x7b]] EOF) node) as (n' & _ & H & Ht & _);
    [vm_compute; reflexivity|vm_compute; lia|].
  exists n'. split; [exact H|exact Ht].
Defined.

Lemma interleaved_writers_witness :
  exists c', readFrame (Inbound [frame_header hello ++ frame_header [Byte.x41]; hello ++ [Byte.x41]] EOF) =
    (c', inl (frame_header [Byte.x41] ++ take 1 hello)).
Proof.
  exact (interleaved_writers hello [Byte.x41] ErrClosed
    [frame_header hello ++ frame_header [Byte.x41]; hello ++ [Byte.x41]] ltac:(vm_compute; discriminate)
    ltac:(cbn; lia) ltac:(vm_compute; reflexivity)).
Defined.

End Network.
