(* ===== verification/Overlay.v ===== *)
(** * internal/p2p: the goroutines of the network

    [Start] spawns the accept loop, the dialler of the bootnodes and the liveness loop;
    these spawn a handler per inbound connection and a dialler per bootnode, and each
    connection ends up with a read loop of its own. The overlay is the network with the
    pool of its goroutines: one step takes one goroutine from one blocking call, lock or
    [select] to the next, replacing it by what it becomes and what it spawns. The other
    components' calls and [Stop] interleave with them. *)

From S2P Require Import Prelude Bytes Base64 Json P2P Framing Wire Network.
Import Json P2P Framing Wire Network.

Module Overlay.

(** ** Goroutines

    A goroutine that has a connection to read from carries the bytes that it will still
    deliver, with the error that ends them, a deadline that passes included: they are
    fixed when the connection is made, and nobody else reads from it. *)

Inductive task :=
| AcceptLoop                                   (* at the [select] of [acceptLoop] *)
| Accepting                                    (* in [Accept] *)
| HandleInbound (addr : string) (c : nat) (i : inbound)   (* spawned for a connection *)
| Bootnodes (left : list string)               (* [connectToBootnodes], [left] to come *)
| Dial (addr : string) (attempt : nat)         (* at the [select] of [dialPeer] *)
| Dialing (addr : string) (attempt : nat)      (* in [DialTimeout] or asleep *)
| Dialed (addr : string) (c : nat) (i : inbound)          (* connected, not registered *)
| Announcing (id : string) (c : nat) (i : inbound)        (* registered *)
| ReadTop (id : string) (c : nat) (i : inbound)           (* at the [select] of [readLoop] *)
| Reading (id : string) (c : nat) (i : inbound)           (* in [readFrame] *)
| Closing (id : string) (c : nat)              (* at the deferred [Close] *)
| Leaving (id : string) (c : nat)              (* closed, before taking the lock *)
| Liveness.                                    (* [livenessLoop] *)

#[export] Instance task_eq_dec : EqDecision task.
Proof. solve_decision. Defined.

Record Overlay := mkOverlay { net : Network; tasks : list task }.

(** The goroutines of a successful [Start]. *)
Definition launch (parent : bool) (n : Network) : Overlay :=
  mkOverlay (fst (Start parent None n)) [AcceptLoop; Bootnodes (bootnodes n); Liveness].

Definition inbound_id (addr : string) : string := "inbound-" +:+ addr.
Definition outbound_id (addr : string) : string := "outbound-" +:+ addr.

(** A connection the listener or the dialler hands out. *)
Definition open_new (c : nat) (o : outbound) (n : Network) : Network :=
  set_conns (<[c := mkConn o false]> (conns n)) n.

Definition is_open (n : Network) (c : nat) : Prop := exists k, conns n !! c = Some k /\ closed k = false.

Definition dial_attempts : nat := 5.

(** From one point of a goroutine to the next: the network afterwards, and the goroutines
    it is replaced by. *)
Inductive task_step (n : Network) : task -> Network -> list task -> Prop :=
| accept_done : cancelled n = true -> task_step n AcceptLoop n []
| accept_check : cancelled n = false -> task_step n AcceptLoop n [Accepting]
| accept_conn addr c o i :
    listener n = Some true -> conns n !! c = None ->
    task_step n Accepting (open_new c o n) [AcceptLoop; HandleInbound addr c i]
| accept_error : task_step n Accepting n (if cancelled n then [] else [AcceptLoop])
| inbound_register addr c i :
    task_step n (HandleInbound addr c i) (add_peer (inbound_id addr) addr c n) [Announcing (inbound_id addr) c i]
| boot_end : task_step n (Bootnodes []) n []
| boot_done addr left : cancelled n = true -> task_step n (Bootnodes (addr :: left)) n []
| boot_dial addr left : cancelled n = false -> task_step n (Bootnodes (addr :: left)) n [Bootnodes left; Dial addr 0]
| dial_end addr attempt : (dial_attempts <= attempt)%nat -> task_step n (Dial addr attempt) n []
| dial_done addr attempt : cancelled n = true -> task_step n (Dial addr attempt) n []
| dial_check addr attempt :
    (attempt < dial_attempts)%nat -> cancelled n = false -> task_step n (Dial addr attempt) n [Dialing addr attempt]
| dial_fail addr attempt : task_step n (Dialing addr attempt) n [Dial addr (S attempt)]
| dial_ok addr attempt c o i :
    conns n !! c = None -> task_step n (Dialing addr attempt) (open_new c o n) [Dialed addr c i]
| outbound_register addr c i :
    task_step n (Dialed addr c i) (add_peer (outbound_id addr) addr c n) [Announcing (outbound_id addr) c i]
| announce_write id c i : task_step n (Announcing id c i) (fst (frame_to c (announce n) n)) [ReadTop id c i]
| read_done id c i : cancelled n = true -> task_step n (ReadTop id c i) n [Closing id c]
| read_check id c i : cancelled n = false -> task_step n (ReadTop id c i) n [Reading id c i]
| read_frame id c i i' data :
    is_open n c -> readFrame i = (i', inl data) -> task_step n (Reading id c i) (on_frame data n) [ReadTop id c i']
| read_error id c i i' e : readFrame i = (i', inr e) -> task_step n (Reading id c i) n [Closing id c]
| read_closed id c i : ~ is_open n c -> task_step n (Reading id c i) n [Closing id c]
| read_close id c : task_step n (Closing id c) (close_conn c n) [Leaving id c]
| read_leave id c : task_step n (Leaving id c) (deactivate id n) []
| liveness_done : cancelled n = true -> task_step n Liveness n []
| liveness_tick alive order :
    iterates order n -> task_step n Liveness (checkPeerLiveness alive order n) [Liveness].

(** Calls of the other components, and the three actions of [Stop], which holds the lock
    only for the last. *)
Inductive call_step (n : Network) : Network -> Prop :=
| call_Broadcast order t payload : iterates order n -> call_step n (fst (Broadcast order t payload n))
| call_SendTo id t payload : call_step n (fst (SendTo id t payload n))
| call_receive m n' : take_message n = Some (m, n') -> call_step n n'
| call_cancel : call_step n (cancel n)
| call_close_listener : call_step n (close_listener n)
| call_close_peers order : iterates order n -> call_step n (close_peers order n).

(** The scheduler picks a goroutine. *)
Inductive sched (o : Overlay) : Overlay -> Prop :=
| sched_task t rest n' ts :
    tasks o ≡ₚ t :: rest -> task_step (net o) t n' ts -> sched o (mkOverlay n' (ts ++ rest)).

Inductive step (o : Overlay) : Overlay -> Prop :=
| step_sched o' : sched o o' -> step o o'
| step_call n' : call_step (net o) n' -> step o (mkOverlay n' (tasks o)).

(** ** Shrinking

    All calls and most steps open no connection and register no peer: they keep the
    connections, close some, and change entries at most by making them inactive. *)

Record shrinks (n n' : Network) : Prop := {
  sh_known c : is_Some (conns n' !! c) <-> is_Some (conns n !! c);
  sh_open c : is_open n' c -> is_open n c;
  sh_peers id p' : peers n' !! id = Some p' ->
    exists p, peers n !! id = Some p /\ ID p' = ID p /\ conn p' = conn p /\ (IsActive p' = true -> IsActive p = true);
  sh_ctx : is_Some (ctx n) -> is_Some (ctx n');
  sh_cancelled : cancelled n = true -> cancelled n' = true;
  sh_listener : listener n' = Some true -> listener n = Some true
}.

#[export] Instance shrinks_preorder : PreOrder shrinks.
Proof.
  split.
  - intros n. split; try done. intros id p' Hp. by exists p'.
  - intros n1 n2 n3 [K1 O1 P1 X1 C1 L1] [K2 O2 P2 X2 C2 L2]. split; [|naive_solver| |naive_solver..].
    + intros c. by rewrite K2.
    + intros id p' Hp. apply P2 in Hp as (p & Hp & E1 & E2 & A). apply P1 in Hp as (q & Hq & E3 & E4 & B).
      exists q. split; [done|]. split; [congruence|]. split; [congruence|]. tauto.
Qed.

Lemma shrinks_conns n n' :
  (forall c, is_Some (conns n' !! c) <-> is_Some (conns n !! c)) -> (forall c, is_open n' c -> is_open n c) ->
  peers n' = peers n -> ctx n' = ctx n -> listener n' = listener n -> shrinks n n'.
Proof.
  intros Hk Ho Hp Hc Hl. split; [done|done| |by rewrite Hc| |by rewrite Hl].
  - intros id p'. rewrite Hp. intros H. by exists p'.
  - unfold cancelled. by rewrite Hc.
Qed.

Lemma insert_known (cs : gmap nat connection) c k d :
  is_Some (cs !! c) -> is_Some (<[c := k]> cs !! d) <-> is_Some (cs !! d).
Proof.
  intros Hc. destruct (decide (c = d)) as [<-|Hne]; [|by rewrite lookup_insert_ne].
  rewrite lookup_insert_eq. split; [done|]. by eexists.
Qed.

Lemma is_open_insert n c k d :
  is_open (set_conns (<[c := k]> (conns n)) n) d -> (d = c /\ closed k = false) \/ (d <> c /\ is_open n d).
Proof.
  intros (j & Hj & Hc). cbn [conns set_conns] in Hj. destruct (decide (c = d)) as [->|Hne].
  - rewrite lookup_insert_eq in Hj. injection Hj as ->. by left.
  - rewrite lookup_insert_ne in Hj by done. right. split; [done|]. by exists j.
Qed.

Lemma set_conn_shrinks n c k k' :
  conns n !! c = Some k -> (closed k' = false -> closed k = false) -> shrinks n (set_conns (<[c := k']> (conns n)) n).
Proof.
  intros Hk Hcl. apply shrinks_conns; try done.
  - intros d. apply insert_known. by exists k.
  - intros d [[-> H]|[_ H]]%is_open_insert; [|done]. exists k. auto.
Qed.

Lemma frame_to_shrinks c data n : shrinks n (fst (frame_to c data n)).
Proof.
  unfold frame_to. destruct (conns n !! c) as [k|] eqn:Ek; [|done]. destruct (closed k) eqn:Ec; [done|].
  destruct (writeFrame data (out k)) as [o e]. by apply (set_conn_shrinks n c k).
Qed.

Lemma close_conn_shrinks c n : shrinks n (close_conn c n).
Proof.
  unfold close_conn. destruct (conns n !! c) as [k|] eqn:Ek; [|done]. by apply (set_conn_shrinks n c k).
Qed.

Lemma deactivate_shrinks id n : shrinks n (deactivate id n).
Proof.
  unfold deactivate. destruct (peers n !! id) as [p|] eqn:Ep; [|done]. split; try done.
  intros j q. cbn [peers set_peers]. destruct (decide (id = j)) as [->|Hne].
  - rewrite lookup_insert_eq. intros [= <-]. by exists p.
  - rewrite lookup_insert_ne by done. intros H. by exists q.
Qed.

Lemma foldl_shrinks {A} (f : Network -> A -> Network) l n :
  (forall n a, shrinks n (f n a)) -> shrinks n (foldl f n l).
Proof. intros Hf. revert n. induction l as [|a l IH]; intros n; [done|]. cbn [foldl]. by etrans; [apply Hf|]. Qed.

Lemma Broadcast_shrinks order t p n : shrinks n (fst (Broadcast order t p n)).
Proof.
  unfold Broadcast. generalize (@None io_error). generalize (envelope n t p). intros data. revert n.
  induction order as [|id order IH]; intros n err; [done|]. cbn [foldl].
  rewrite broadcast_one_eq. destruct (target n id) as [c|]; [|apply IH].
  pose proof (frame_to_shrinks c data n). destruct (frame_to c data n) as [n' e]. by etrans; [|apply IH].
Qed.

Lemma SendTo_shrinks id t p n : shrinks n (fst (SendTo id t p n)).
Proof.
  unfold SendTo. destruct (peers n !! id) as [q|]; [|done]. destruct (conn q) as [c|]; [|done].
  destruct (negb _); [done|]. pose proof (frame_to_shrinks c (envelope n t p) n).
  by destruct (frame_to c (envelope n t p) n).
Qed.

Lemma set_msgCh_shrinks ch n : shrinks n (set_msgCh ch n).
Proof. by apply shrinks_conns. Qed.

Lemma on_frame_shrinks data n : shrinks n (on_frame data n).
Proof. unfold on_frame, deliver. repeat case_match; try done. apply set_msgCh_shrinks. Qed.

Lemma check_one_shrinks alive n id : shrinks n (check_one alive n id).
Proof.
  unfold check_one. destruct (peers n !! id) as [p|] eqn:Ep; [|done]. destruct (conn p) as [c|]; [|done].
  destruct (negb _); [done|]. destruct (_ && _); [done|]. etrans; [|apply close_conn_shrinks].
  pose proof (deactivate_shrinks id n) as H. unfold deactivate in H. by rewrite Ep in H.
Qed.

Lemma close_peer_shrinks n id : shrinks n (close_peer n id).
Proof.
  unfold close_peer. destruct (peers n !! id) as [p|]; [|done]. destruct (conn p); [|done]. apply close_conn_shrinks.
Qed.

Lemma call_shrinks n n' : call_step n n' -> shrinks n n'.
Proof.
  intros [order t p _|id t p|m n2 Hm| | |order _].
  - apply Broadcast_shrinks.
  - apply SendTo_shrinks.
  - simpl in Hm. destruct (msgCh n) as [|m' ch]; [done|]. injection Hm as _ <-. apply set_msgCh_shrinks.
  - split; try done; [intros id p' Hp; by exists p'|intros [d Hd]; cbn; by rewrite Hd|]. unfold cancelled, cancel. cbn. by destruct (ctx n).
  - split; try done; [intros id p' Hp; by exists p'|]. cbn. by destruct (listener n).
  - apply foldl_shrinks. apply close_peer_shrinks.
Qed.

(** ** The invariant *)

Definition conn_of (t : task) : option nat :=
  match t with
  | HandleInbound _ c _ | Dialed _ c _ | Announcing _ c _ | ReadTop _ c _ | Reading _ c _ | Closing _ c | Leaving _ c => Some c
  | _ => None
  end.

(** The entry a goroutine works for, once registered. *)
Definition serves (t : task) : option (string * nat) :=
  match t with
  | Announcing id c _ | ReadTop id c _ | Reading id c _ | Closing id c | Leaving id c => Some (id, c)
  | _ => None
  end.

Definition hands (c : nat) (ts : list task) : nat :=
  sum_list_with (fun t => if decide (conn_of t = Some c) then 1 else 0)%nat ts.

#[export] Instance hands_perm c : Proper (Permutation ==> eq) (hands c).
Proof. intros ts ts' H. unfold hands. by rewrite H. Qed.

Lemma hands_app c ts ts' : hands c (ts ++ ts') = (hands c ts + hands c ts')%nat.
Proof. apply sum_list_with_app. Qed.

Lemma hands_elem c t ts : t ∈ ts -> conn_of t = Some c -> (0 < hands c ts)%nat.
Proof.
  intros (l1 & l2 & ->)%list_elem_of_split Hc. rewrite hands_app. unfold hands at 2. cbn [sum_list_with].
  rewrite decide_True by done. lia.
Qed.

(** Every open connection is in the hands of exactly one goroutine, no connection in
    those of two; a goroutine that has closed its connection finds it closed; and the
    connection of an active entry is served by a goroutine that works for that entry. *)
Record wf (n : Network) (ts : list task) : Prop := {
  wf_hands c : (hands c ts <= 1)%nat;
  wf_known c : (0 < hands c ts)%nat -> is_Some (conns n !! c);
  wf_open c : is_open n c -> (0 < hands c ts)%nat;
  wf_leaving id c : Leaving id c ∈ ts -> ~ is_open n c;
  wf_entry id p : peers n !! id = Some p -> ID p = id /\ exists c, conn p = Some c /\ is_Some (conns n !! c) /\
    (IsActive p = true -> exists t, t ∈ ts /\ serves t = Some (id, c))
}.

#[export] Instance wf_perm n : Proper (Permutation ==> iff) (wf n).
Proof.
  assert (forall ts ts', Permutation ts ts' -> wf n ts -> wf n ts') as H.
  { intros ts ts' Hp [H1 H2 H3 H4 H5]. split.
    - intros c. by rewrite <- Hp.
    - intros c. rewrite <- Hp. apply H2.
    - intros c. rewrite <- Hp. apply H3.
    - intros id c. rewrite <- Hp. apply H4.
    - intros id p Hid. destruct (H5 id p Hid) as (E & c & Hc & Hk & Ha). split; [done|]. exists c. split; [done|].
      split; [done|]. intros Hact. destruct (Ha Hact) as (t & Ht & Hs). exists t. by rewrite <- Hp. }
  intros ts ts' Hp. split; apply H; by try symmetry.
Qed.

Lemma wf_shrinks n n' ts : shrinks n n' -> wf n ts -> wf n' ts.
Proof.
  intros [K O P _ _ _] [H1 H2 H3 H4 H5]. split; [done| | | |].
  - intros c Hc. by apply K, H2.
  - intros c Hc. by apply H3, O.
  - intros id c Hin Hop. by apply (H4 id c Hin), O.
  - intros id p' Hp. apply P in Hp as (p & Hp & E1 & E2 & A). destruct (H5 id p Hp) as (E & c & Hc & Hk & Ha).
    split; [congruence|]. exists c. split; [congruence|]. split; [by apply K|]. auto.
Qed.

(** A goroutine moves on with the connection it has. *)
Lemma wf_moves n t ts rest :
  (forall c, hands c ts = hands c [t]) -> (forall id c, Leaving id c ∈ ts -> Leaving id c = t) ->
  (forall x, serves t = Some x -> exists t', t' ∈ ts /\ serves t' = Some x) ->
  wf n (t :: rest) -> wf n (ts ++ rest).
Proof.
  intros Hh Hl Hs [H1 H2 H3 H4 H5].
  assert (forall c, hands c (ts ++ rest) = hands c (t :: rest)) as Hc.
  { intros c. by rewrite hands_app, Hh, <- hands_app. }
  split.
  - intros c. by rewrite Hc.
  - intros c. rewrite Hc. apply H2.
  - intros c. rewrite Hc. apply H3.
  - intros id c [Hin|Hin]%elem_of_app; apply (H4 id c); [rewrite (Hl _ _ Hin); left|by right].
  - intros id p Hp. destruct (H5 id p Hp) as (E & c & Hcn & Hk & Ha). split; [done|]. exists c. split; [done|].
    split; [done|]. intros Hact. destruct (Ha Hact) as (t' & Hin & Hst). apply elem_of_cons in Hin as [->|Hin].
    + destruct (Hs _ Hst) as (t' & Hin & Ht). exists t'. split; [|done]. apply elem_of_app. by left.
    + exists t'. split; [|done]. apply elem_of_app. by right.
Qed.

(** A new connection for a goroutine that had none. *)
Lemma wf_opens n t ts rest c o :
  conns n !! c = None -> conn_of t = None ->
  (forall d, hands d ts = if decide (d = c) then 1%nat else 0%nat) -> (forall id d, Leaving id d ∉ ts) ->
  wf n (t :: rest) -> wf (open_new c o n) (ts ++ rest).
Proof.
  intros Hnew Ht Hts Hnl [H1 H2 H3 H4 H5].
  assert (forall d, hands d (t :: rest) = hands d rest) as Hrest.
  { intros d. unfold hands. cbn [sum_list_with]. rewrite decide_False; [done|]. by rewrite Ht. }
  assert (hands c rest = 0%nat) as Hc.
  { rewrite <- Hrest. destruct (hands c (t :: rest)) eqn:E; [done|]. destruct (H2 c) as [k Hk]; [lia|]. congruence. }
  split.
  - intros d. rewrite hands_app, Hts. specialize (H1 d). rewrite Hrest in H1. case_decide; subst; lia.
  - intros d. rewrite hands_app, Hts. cbn [conns open_new set_conns]. case_decide as Hd.
    + intros _. subst d. rewrite lookup_insert_eq. by eexists.
    + intros Hp. rewrite lookup_insert_ne by done. apply H2. rewrite Hrest. lia.
  - intros d [[-> _]|[Hd Ho]]%is_open_insert; rewrite hands_app, Hts; [rewrite decide_True by done; lia|].
    apply H3 in Ho. rewrite Hrest in Ho. lia.
  - intros id d [Hin|Hin]%elem_of_app; [by apply Hnl in Hin|]. intros [[-> _]|[Hd Ho]]%is_open_insert.
    + pose proof (hands_elem c _ _ Hin eq_refl). lia.
    + apply (H4 id d); [by right|done].
  - intros id p Hp. destruct (H5 id p Hp) as (E & d & Hd & [k Hk] & Ha). split; [done|]. exists d. split; [done|].
    assert (c <> d) by congruence. split; [exists k; cbn; by rewrite lookup_insert_ne|].
    intros Hact. destruct (Ha Hact) as (t' & [->|Hin]%elem_of_cons & Hs); [by destruct t|].
    exists t'. split; [|done]. apply elem_of_app. by right.
Qed.

(** The registration of a connection, possibly over an entry of the same name. *)
Lemma wf_registers n t id addr c i rest :
  conn_of t = Some c -> serves t = None ->
  wf n (t :: rest) -> wf (add_peer id addr c n) (Announcing id c i :: rest).
Proof.
  intros Ht Hs [H1 H2 H3 H4 H5].
  assert (forall d, hands d (Announcing id c i :: rest) = hands d (t :: rest)) as Hh.
  { intros d. unfold hands. cbn [sum_list_with]. by rewrite Ht. }
  split.
  - intros d. by rewrite Hh.
  - intros d. rewrite Hh. apply H2.
  - intros d. rewrite Hh. apply H3.
  - intros j d [Hin|Hin]%elem_of_cons; [done|]. intros Ho. apply (H4 j d); [by right|done].
  - intros j p. cbn [peers add_peer set_peers]. destruct (decide (id = j)) as [<-|Hne].
    + rewrite lookup_insert_eq. intros [= <-]. split; [done|]. exists c. split; [done|]. split.
      * apply H2. unfold hands. cbn [sum_list_with]. rewrite decide_True by done. lia.
      * intros _. exists (Announcing id c i). split; [left|done].
    + rewrite lookup_insert_ne by done. intros Hp. destruct (H5 j p Hp) as (E & d & Hd & Hk & Ha).
      split; [done|]. exists d. split; [done|]. split; [done|]. intros Hact.
      destruct (Ha Hact) as (t' & [->|Hin]%elem_of_cons & Ht'); [congruence|]. exists t'. split; [by right|done].
Qed.

(** A read loop ends: its connection is closed, its entry inactive. *)
Lemma wf_leaves n id c rest : wf n (Leaving id c :: rest) -> wf (deactivate id n) rest.
Proof.
  intros H. pose proof (wf_leaving _ _ H id c (list_elem_of_here _ _)) as Hcl.
  assert (forall d, hands d (Leaving id c :: rest) = ((if decide (d = c) then 1 else 0) + hands d rest)%nat) as Hh.
  { intros d. unfold hands. cbn [sum_list_with conn_of]. f_equal. repeat case_decide; congruence. }
  assert (forall d, conns (deactivate id n) !! d = conns n !! d) as Hcs by (intros d; unfold deactivate; by case_match).
  destruct H as [H1 H2 H3 H4 H5]. split.
  - intros d. specialize (H1 d). rewrite Hh in H1. lia.
  - intros d Hd. rewrite Hcs. apply H2. rewrite Hh. lia.
  - intros d Ho. unfold is_open in Ho. rewrite Hcs in Ho. pose proof (H3 d Ho) as Hp. rewrite Hh in Hp.
    case_decide; [subst; done|lia].
  - intros j d Hin Ho. unfold is_open in Ho. rewrite Hcs in Ho. apply (H4 j d); [by right|done].
  - intros j p Hp. destruct (decide (j = id)) as [->|Hne].
    + unfold deactivate in Hp. destruct (peers n !! id) as [q|] eqn:Eq; [|congruence].
      cbn [peers set_peers] in Hp. rewrite lookup_insert_eq in Hp. injection Hp as <-.
      destruct (H5 id q Eq) as (E & d & Hd & Hk & _). split; [done|]. exists d. by rewrite Hcs.
    + assert (peers n !! j = Some p) as Hq.
      { unfold deactivate in Hp. destruct (peers n !! id); [|done]. cbn [peers set_peers] in Hp.
        by rewrite lookup_insert_ne in Hp. }
      destruct (H5 j p Hq) as (E & d & Hd & Hk & Ha). split; [done|]. exists d. rewrite Hcs. split; [done|].
      split; [done|]. intros Hact. destruct (Ha Hact) as (t & [->|Hin]%elem_of_cons & Ht); [|by exists t].
      injection Ht as -> ->. done.
Qed.

Lemma checkPeerLiveness_shrinks alive order n : shrinks n (checkPeerLiveness alive order n).
Proof. apply foldl_shrinks. apply check_one_shrinks. Qed.

Lemma close_conn_closed c n : ~ is_open (close_conn c n) c.
Proof.
  unfold close_conn, is_open. destruct (conns n !! c) as [k|] eqn:Ek.
  - cbn [conns set_conns]. rewrite lookup_insert_eq. by intros (? & [= <-] & ?).
  - rewrite Ek. by intros (? & ? & _).
Qed.

Lemma hands_single c t : hands c [t] = (if decide (conn_of t = Some c) then 1 else 0)%nat.
Proof. unfold hands. cbn [sum_list_with]. by case_decide. Qed.

Create HintDb overlay.
#[export] Hint Resolve frame_to_shrinks close_conn_shrinks deactivate_shrinks on_frame_shrinks
  checkPeerLiveness_shrinks : overlay.

Lemma wf_same n m t t' rest :
  shrinks n m -> conn_of t' = conn_of t -> serves t' = serves t -> (forall id c, t' <> Leaving id c) ->
  wf n (t :: rest) -> wf m ([t'] ++ rest).
Proof.
  intros Hsh Hc Hs Hnl Hwf. apply (wf_moves m t).
  - intros d. by rewrite !hands_single, Hc.
  - intros j d Hin%list_elem_of_singleton. by destruct (Hnl j d).
  - intros x Hx. exists t'. split; [left|congruence].
  - by apply (wf_shrinks n).
Qed.

(** Goroutines without a connection. *)
Lemma wf_idle n m t ts rest :
  shrinks n m -> conn_of t = None -> Forall (fun t' => conn_of t' = None) ts -> wf n (t :: rest) -> wf m (ts ++ rest).
Proof.
  intros Hsh Ht Hts Hwf. apply (wf_moves m t); [| | |by apply (wf_shrinks n)].
  - intros d. rewrite hands_single, Ht. unfold hands. induction Hts as [|t' ts Ht' _ IH]; [done|].
    cbn [sum_list_with]. by rewrite Ht', IH.
  - intros id c Hin. rewrite Forall_forall in Hts. by apply Hts in Hin.
  - intros x Hx. by destruct t.
Qed.

Lemma wf_closes n id c rest : wf n (Closing id c :: rest) -> wf (close_conn c n) ([Leaving id c] ++ rest).
Proof.
  intros Hwf. apply (wf_shrinks n (close_conn c n)) in Hwf; [|apply close_conn_shrinks].
  destruct Hwf as [H1 H2 H3 H4 H5]. split; try done.
  - intros j d [[= -> ->]|Hin]%elem_of_cons; [apply close_conn_closed|]. apply (H4 j d). by right.
  - intros j p Hp. destruct (H5 j p Hp) as (E & d & Hd & Hk & Ha). split; [done|]. exists d. split; [done|].
    split; [done|]. intros Hact. destruct (Ha Hact) as (t & [->|Hin]%elem_of_cons & Ht).
    + exists (Leaving id c). split; [left|done].
    + exists t. split; [by right|done].
Qed.

Lemma task_step_wf n t n' ts rest : task_step n t n' ts -> wf n (t :: rest) -> wf n' (ts ++ rest).
Proof.
  intros Hst Hwf. destruct Hst;
    try (eapply wf_idle; [| |  |exact Hwf]; [eauto with overlay; done|done|repeat (constructor; [done|]); constructor]; fail);
    try (eapply wf_same; [| | | |exact Hwf]; [eauto with overlay; done|done..]; fail);
    try (eapply wf_registers; [| |exact Hwf]; done; fail).
  - apply (wf_opens _ Accepting); try done.
    + intros d. unfold hands. cbn [sum_list_with conn_of]. repeat case_decide; simplify_eq; lia.
    + intros id d. set_solver.
  - eapply wf_idle; [| | |exact Hwf]; [done..|]. destruct (cancelled n); repeat constructor.
  - apply (wf_opens _ (Dialing addr attempt)); try done.
    + intros d. unfold hands. cbn [sum_list_with conn_of]. repeat case_decide; simplify_eq; lia.
    + intros id d. set_solver.
  - by apply wf_closes.
  - by eapply wf_leaves.
Qed.

Lemma step_wf o o' : step o o' -> wf (net o) (tasks o) -> wf (net o') (tasks o').
Proof.
  intros [o1 [t rest n' ts Hp Hst]|n' Hc] Hwf.
  - rewrite Hp in Hwf. by apply (task_step_wf (net o) t).
  - apply (wf_shrinks (net o)); [by apply call_shrinks|done].
Qed.

Lemma steps_wf o o' : rtc step o o' -> wf (net o) (tasks o) -> wf (net o') (tasks o').
Proof. induction 1; eauto using step_wf. Qed.

Lemma launch_wf parent port boot :
  wf (net (launch parent (NewNetwork port boot))) (tasks (launch parent (NewNetwork port boot))).
Proof.
  set (o := launch _ _). assert (forall c, hands c (tasks o) = 0%nat) as Hh by done. split.
  - intros c. rewrite Hh. lia.
  - intros c. rewrite Hh. lia.
  - intros c (k & Hk & _). cbn in Hk. by rewrite lookup_empty in Hk.
  - intros id c Hin. cbn in Hin. set_solver.
  - intros id p. cbn. by rewrite lookup_empty.
Qed.

(** The states a started network can be in. *)
Definition reachable (o : Overlay) : Prop :=
  exists parent port boot, rtc step (launch parent (NewNetwork port boot)) o.

Lemma reachable_wf o : reachable o -> wf (net o) (tasks o).
Proof. intros (parent & port & boot & Hr). eapply steps_wf; [done|apply launch_wf]. Qed.

(** The context a started network runs with exists, and stays done once it is. *)
Lemma task_step_ctx n t n' ts :
  task_step n t n' ts ->
  (is_Some (ctx n) -> is_Some (ctx n')) /\ (cancelled n = true -> cancelled n' = true).
Proof.
  intros Hst. assert (shrinks n n' \/ (ctx n' = ctx n)) as [[]|Heq].
  { destruct Hst; (by right) || (left; eauto with overlay; done). }
  - done.
  - unfold cancelled. by rewrite Heq.
Qed.

Lemma step_ctx o o' :
  step o o' ->
  (is_Some (ctx (net o)) -> is_Some (ctx (net o'))) /\ (cancelled (net o) = true -> cancelled (net o') = true).
Proof.
  intros [o1 [t rest n' ts _ Hst]|n' Hc]; [by eapply task_step_ctx|]. by apply call_shrinks in Hc as [].
Qed.

Lemma steps_cancelled o o' : rtc step o o' -> cancelled (net o) = true -> cancelled (net o') = true.
Proof. induction 1 as [|o1 o2 o3 H _ IH]; [done|]. apply step_ctx in H as [_ H]. auto. Qed.

Lemma reachable_ctx o : reachable o -> is_Some (ctx (net o)).
Proof.
  intros (parent & port & boot & Hr).
  assert (is_Some (ctx (net (launch parent (NewNetwork port boot))))) as H0 by (by eexists).
  induction Hr as [|o1 o2 o3 H _ IH]; [done|]. apply step_ctx in H as [H _]. auto.
Qed.

(** ** The channel

    It never holds more than its capacity, and the message types in it are what a Go
    [int] can hold. *)

Definition inbox_ok (n : Network) : Prop :=
  (length (msgCh n) <= msgCh_cap)%nat /\ Forall (fun m => is_i64 (Type_ m)) (msgCh n).

Lemma inbox_same n n' : msgCh n' = msgCh n -> inbox_ok n -> inbox_ok n'.
Proof. unfold inbox_ok. by intros ->. Qed.

Lemma on_frame_inbox data n : inbox_ok n -> inbox_ok (on_frame data n).
Proof.
  intros [Hl Ht]. unfold on_frame. destruct (wire_unmarshal data) as [w|] eqn:Ew; [|done]. unfold deliver.
  destruct (Nat.ltb_spec (length (msgCh n)) msgCh_cap); [|done]. split; cbn [msgCh set_msgCh].
  - rewrite length_app. cbn. lia.
  - apply Forall_app. split; [done|]. constructor; [|constructor]. by apply wire_unmarshal_typed in Ew.
Qed.

Lemma close_conn_inbox c n : msgCh (close_conn c n) = msgCh n.
Proof. unfold close_conn. by case_match. Qed.

Lemma deactivate_inbox id n : msgCh (deactivate id n) = msgCh n.
Proof. unfold deactivate. by case_match. Qed.

Lemma foldl_inbox {A} (f : Network -> A -> Network) l n :
  (forall n a, msgCh (f n a) = msgCh n) -> msgCh (foldl f n l) = msgCh n.
Proof. intros Hf. revert n. induction l as [|a l IH]; intros n; [done|]. cbn [foldl]. by rewrite IH, Hf. Qed.

Lemma close_peers_inbox order n : msgCh (close_peers order n) = msgCh n.
Proof. apply foldl_inbox. intros m id. unfold close_peer. repeat case_match; try done. apply close_conn_inbox. Qed.

Lemma task_step_inbox n t n' ts : task_step n t n' ts -> inbox_ok n -> inbox_ok n'.
Proof.
  intros Hst. destruct Hst; try done; try (by apply inbox_same).
  - apply inbox_same. by destruct (frame_to_frame c (announce n) n) as (_ & H & _).
  - apply on_frame_inbox.
  - apply inbox_same, close_conn_inbox.
  - apply inbox_same, deactivate_inbox.
  - apply inbox_same. apply foldl_inbox. intros m id. unfold check_one. repeat case_match; try done.
    by rewrite close_conn_inbox.
Qed.

Lemma call_step_inbox n n' : call_step n n' -> inbox_ok n -> inbox_ok n'.
Proof.
  intros [order t p _|id t p|m n2 Hm| | |order _].
  - apply inbox_same. by destruct (broadcast_peers (envelope n t p) order (n, None)) as (_ & H & _).
  - apply inbox_same. unfold SendTo. destruct (peers n !! id) as [q|]; [|done]. destruct (conn q) as [c|]; [|done].
    destruct (negb _); [done|]. destruct (frame_to_frame c (envelope n t p) n) as (_ & H & _).
    by destruct (frame_to c (envelope n t p) n).
  - intros [Hl Ht]. simpl in Hm. destruct (msgCh n) as [|m' ch] eqn:E; [done|]. injection Hm as _ <-.
    split; cbn [msgCh set_msgCh]; [cbn in Hl; lia|by inversion Ht].
  - by apply inbox_same.
  - by apply inbox_same.
  - apply inbox_same, close_peers_inbox.
Qed.

Lemma reachable_inbox o : reachable o -> inbox_ok (net o).
Proof.
  intros (parent & port & boot & Hr).
  assert (inbox_ok (net (launch parent (NewNetwork port boot)))) as H0 by (split; [cbn; lia|constructor]).
  induction Hr as [|o1 o2 o3 H _ IH]; [done|]. apply IH.
  destruct H as [o' [t rest n' ts _ Hst]|n' Hc]; [by eapply task_step_inbox|by eapply call_step_inbox].
Qed.

(** ** Ownership *)

Lemma hands_split c ts : (0 < hands c ts)%nat -> exists t rest, ts ≡ₚ t :: rest /\ conn_of t = Some c.
Proof.
  induction ts as [|t ts IH]; unfold hands; cbn [sum_list_with]; [lia|]. fold (hands c ts). case_decide as Ht.
  - intros _. by exists t, ts.
  - intros (t' & rest & Hp & Hc)%IH. exists t', (t :: rest). split; [|done]. rewrite Hp. apply Permutation_swap.
Qed.

Lemma hands_cons c t ts : hands c (t :: ts) = ((if decide (conn_of t = Some c) then 1 else 0) + hands c ts)%nat.
Proof. done. Qed.

Lemma serves_conn t id c : serves t = Some (id, c) -> conn_of t = Some c.
Proof. destruct t; cbn; congruence. Qed.

(** Two goroutines do not hold the same connection. *)
Lemma wf_unique n ts t t' c : wf n ts -> t ∈ ts -> t' ∈ ts -> conn_of t = Some c -> conn_of t' = Some c -> t = t'.
Proof.
  intros Hwf Hin Hin' Ht Ht'. apply elem_of_Permutation in Hin as [rest Hp]. rewrite Hp in Hin'.
  apply elem_of_cons in Hin' as [->|Hin']; [done|]. pose proof (wf_hands _ _ Hwf c) as Hh. rewrite Hp, hands_cons in Hh.
  rewrite decide_True in Hh by done. pose proof (hands_elem c t' rest Hin' Ht'). lia.
Qed.

Lemma wf_target n ts id c :
  wf n ts -> target n id = Some c -> exists t, t ∈ ts /\ serves t = Some (id, c).
Proof.
  intros Hwf. unfold target. destruct (peers n !! id) as [p|] eqn:Ep; [|done]. cbn.
  destruct (IsActive p) eqn:Ha; [|done]. intros Hc. destruct (wf_entry _ _ Hwf id p Ep) as (_ & d & Hd & _ & Hs).
  rewrite Hd in Hc. injection Hc as ->. auto.
Qed.

Lemma wf_owns n ts id c : wf n ts -> target n id = Some c -> owns n id c.
Proof.
  intros Hwf Ht. split; [done|]. intros id' Ht'.
  destruct (wf_target _ _ _ _ Hwf Ht) as (t & Hin & Hs). destruct (wf_target _ _ _ _ Hwf Ht') as (t' & Hin' & Hs').
  assert (t = t') as <- by (eapply wf_unique; eauto using serves_conn). congruence.
Qed.

(** ** Shutdown *)

(** How far a goroutine is from its end once the context is done. *)
Definition weight (t : task) : nat :=
  match t with
  | AcceptLoop | Bootnodes _ | Dial _ _ | Leaving _ _ | Liveness => 1
  | Closing _ _ => 2 | ReadTop _ _ _ => 3 | Reading _ _ _ => 4 | Announcing _ _ _ => 5
  | HandleInbound _ _ _ | Dialed _ _ _ => 6 | Dialing _ _ => 7 | Accepting => 8
  end.

Definition load (ts : list task) : nat := sum_list_with weight ts.

#[export] Instance load_perm : Proper (Permutation ==> eq) load.
Proof. intros ts ts' H. unfold load. by rewrite H. Qed.

Lemma load_app ts ts' : load (ts ++ ts') = (load ts + load ts')%nat.
Proof. apply sum_list_with_app. Qed.

(** A step of a goroutine other than another round of the liveness loop, which [select]
    may prefer to leaving as long as its ticker fires. *)
Definition work (o o' : Overlay) : Prop :=
  exists t rest n' ts, tasks o ≡ₚ t :: rest /\ task_step (net o) t n' ts /\ ts <> [t] /\ o' = mkOverlay n' (ts ++ rest).

Lemma work_step o o' : work o o' -> step o o'.
Proof. intros (t & rest & n' & ts & Hp & Hst & _ & ->). apply step_sched. by eapply sched_task. Qed.

Lemma work_sched o o' : work o o' -> sched o o'.
Proof. intros (t & rest & n' & ts & Hp & Hst & _ & ->). by eapply sched_task. Qed.

Lemma task_step_load n t n' ts :
  cancelled n = true -> task_step n t n' ts -> ts = [t] \/ (load ts < weight t)%nat.
Proof. intros Hc Hst. destruct Hst; try congruence; try (by left); right; rewrite ?Hc; cbn; lia. Qed.

Lemma work_load o o' : cancelled (net o) = true -> work o o' -> (load (tasks o') < load (tasks o))%nat.
Proof.
  intros Hc (t & rest & n' & ts & Hp & Hst & Hne & ->). cbn [tasks]. rewrite Hp, load_app.
  destruct (task_step_load _ _ _ _ Hc Hst) as [?|Hlt]; [done|].
  change (load (t :: rest)) with (weight t + load rest)%nat. lia.
Qed.

Lemma step_load o o' : cancelled (net o) = true -> step o o' -> (load (tasks o') <= load (tasks o))%nat.
Proof.
  intros Hc [o1 [t rest n' ts Hp Hst]|n' _]; [|done]. cbn [tasks]. rewrite Hp, load_app.
  change (load (t :: rest)) with (weight t + load rest)%nat.
  destruct (task_step_load _ _ _ _ Hc Hst) as [->|Hlt]; [cbn|]; lia.
Qed.

Lemma steps_load o o' : rtc step o o' -> cancelled (net o) = true -> (load (tasks o') <= load (tasks o))%nat.
Proof.
  induction 1 as [|o1 o2 o3 H _ IH]; [done|]. intros Hc. pose proof (step_load _ _ Hc H).
  apply step_ctx in H as [_ H]. specialize (IH (H Hc)). lia.
Qed.

#[export] Instance is_open_dec n c : Decision (is_open n c).
Proof.
  unfold is_open. destruct (conns n !! c) as [k|]; [|right; by intros (? & ? & _)].
  destruct (closed k) eqn:Hc; [right|left; by exists k]. intros (? & [= <-] & ?). congruence.
Defined.

(** No goroutine waits for another: each can take its next step, reads and dials because
    they have deadlines, [Accept] because the listener is closed. *)
Lemma task_can_step n t : cancelled n = true -> exists n' ts, task_step n t n' ts /\ ts <> [t].
Proof.
  intros Hc. destruct t as [| |addr c i|left|addr k|addr k|addr c i|id c i|id c i|id c i|id c|id c|].
  - exists n, []. split; [by constructor|done].
  - exists n, []. split; [|done]. pose proof (accept_error n) as H. by rewrite Hc in H.
  - eexists _, _. split; [apply inbound_register|done].
  - exists n, []. split; [destruct left; by constructor|done].
  - exists n, []. split; [by apply dial_done|done].
  - eexists _, _. split; [apply dial_fail|done].
  - eexists _, _. split; [apply outbound_register|done].
  - eexists _, _. split; [apply announce_write|done].
  - eexists _, _. split; [by apply read_done|done].
  - destruct (decide (is_open n c)) as [Ho|Ho]; [|eexists _, _; split; [by apply read_closed|done]].
    destruct (readFrame i) as [i' [data|e]] eqn:Er.
    + eexists _, _. split; [by eapply read_frame|done].
    + eexists _, _. split; [by eapply read_error|done].
  - eexists _, _. split; [apply read_close|done].
  - eexists _, _. split; [apply read_leave|done].
  - exists n, []. split; [by constructor|done].
Qed.

Lemma work_exists o t : cancelled (net o) = true -> t ∈ tasks o -> exists o', work o o'.
Proof.
  intros Hc [rest Hp]%elem_of_Permutation. destruct (task_can_step _ t Hc) as (n' & ts & Hst & Hne).
  exists (mkOverlay n' (ts ++ rest)), t, rest, n', ts. done.
Qed.

Lemma work_terminates o : cancelled (net o) = true -> exists o', rtc work o o' /\ tasks o' = [].
Proof.
  remember (load (tasks o)) as k eqn:Hk. revert o Hk. induction (lt_wf k) as [k _ IH]. intros o -> Hc.
  destruct (tasks o) as [|t ts] eqn:Et; [by exists o|].
  destruct (work_exists o t Hc) as [o1 Hw]; [rewrite Et; left|].
  pose proof (work_load _ _ Hc Hw) as Hlt. rewrite <- Et in IH.
  destruct (IH _ Hlt o1 eq_refl) as (o' & Hr & He); [by eapply step_ctx; [apply work_step|]|].
  exists o'. split; [by eapply rtc_l|done].
Qed.

(** Without goroutines there is nothing left open or active. *)
Lemma wf_quiet n : wf n [] -> (forall c, ~ is_open n c) /\ (forall id, target n id = None) /\ PeerCount n = 0.
Proof.
  intros Hwf. assert (forall id p, peers n !! id = Some p -> IsActive p = false) as Hp.
  { intros id p Hp. destruct (wf_entry _ _ Hwf id p Hp) as (_ & c & _ & _ & Ha). apply not_true_is_false.
    intros H. destruct (Ha H) as (t & Hin & _). by apply elem_of_nil in Hin. }
  split; [|split].
  - intros c Ho. apply (wf_open _ _ Hwf) in Ho. unfold hands in Ho. cbn in Ho. lia.
  - intros id. unfold target. destruct (peers n !! id) as [p|] eqn:E; [|done]. cbn. by rewrite (Hp id p E).
  - unfold PeerCount. destruct (filter _ _) as [|[id p] l] eqn:E; [done|].
    assert ((id, p) ∈ (id, p) :: l) as Hin by left. rewrite <- E, list_elem_of_filter in Hin.
    destruct Hin as [Ha Hin%elem_of_map_to_list]. rewrite (Hp id p Hin) in Ha. done.
Qed.

Lemma close_peer_open n id c : is_open (close_peer n id) c <-> is_open n c /\ (p ← peers n !! id; conn p) <> Some c.
Proof.
  unfold close_peer. destruct (peers n !! id) as [p|]; cbn; [|naive_solver].
  destruct (conn p) as [d|]; [|naive_solver]. split.
  - intros Ho. split; [by apply (sh_open _ _ (close_conn_shrinks d n))|]. intros [= ->]. by apply close_conn_closed in Ho.
  - intros [(k & Hk & Hc) Hne]. exists k. split; [|done]. unfold close_conn. destruct (conns n !! d); [|done].
    cbn [conns set_conns]. rewrite lookup_insert_ne; [done|congruence].
Qed.

Lemma close_peer_peers n id : peers (close_peer n id) = peers n.
Proof. unfold close_peer, close_conn. by repeat case_match. Qed.

Lemma close_peers_open order n c :
  is_open (close_peers order n) c <-> is_open n c /\ forall id, id ∈ order -> (p ← peers n !! id; conn p) <> Some c.
Proof.
  revert n. induction order as [|id order IH]; intros n; cbn [close_peers foldl].
  - split; [|by intros []]. intros Ho. split; [done|]. intros id Hin. by apply elem_of_nil in Hin.
  - fold (close_peers order (close_peer n id)). rewrite IH, close_peer_open, close_peer_peers.
    setoid_rewrite elem_of_cons. naive_solver.
Qed.

(** A goroutine may take its steps one after the other, whatever else is in the pool. *)
Lemma task_run n t n' t' rest o :
  task_step n t n' [t'] -> rtc sched (mkOverlay n' (t' :: rest)) o -> rtc sched (mkOverlay n (t :: rest)) o.
Proof. intros Hst Hr. eapply rtc_l; [|exact Hr]. by apply (sched_task (mkOverlay n (t :: rest)) t rest n' [t']). Qed.

Lemma task_ends n t n' rest : task_step n t n' [] -> rtc sched (mkOverlay n (t :: rest)) (mkOverlay n' rest).
Proof. intros Hst. apply rtc_once. by apply (sched_task (mkOverlay n (t :: rest)) t rest n' []). Qed.

Lemma sched_steps o o' : rtc sched o o' -> rtc step o o'.
Proof. apply rtc_subrel. apply step_sched. Qed.

(** The order of the pool does not matter to a run that does something. *)
Lemma sched_perm n ts ts' o :
  rtc sched (mkOverlay n ts) o -> ts ≡ₚ ts' -> (length (tasks o) < length ts)%nat ->
  rtc sched (mkOverlay n ts') o.
Proof.
  intros Hr Hp Hl. apply rtc_inv in Hr as [<-|(o1 & H1 & Hr)]; [cbn in Hl; lia|].
  eapply rtc_l; [|exact Hr]. destruct H1 as [t rest n' new Ht Hst]. cbn [tasks net] in *.
  apply (sched_task (mkOverlay n ts') t rest n' new); [|done]. cbn. by rewrite <- Hp.
Qed.

Lemma readLoop_exit_run id c n rest :
  rtc sched (mkOverlay n (Closing id c :: rest)) (mkOverlay (readLoop_exit id c n) rest).
Proof. eapply task_run; [apply read_close|]. apply task_ends. apply (read_leave _ id c). Qed.

Lemma Stop_run order o : iterates order (net o) -> rtc step o (mkOverlay (Stop order (net o)) (tasks o)).
Proof.
  intros Ho. destruct o as [n ts]. cbn [net tasks] in *.
  eapply rtc_l; [apply (step_call (mkOverlay n ts)), call_cancel|].
  eapply rtc_l; [apply (step_call (mkOverlay (cancel n) ts)), call_close_listener|].
  apply rtc_once. apply (step_call (mkOverlay (close_listener (cancel n)) ts)), call_close_peers, Ho.
Qed.

(** A dial that succeeds at once. *)
Definition connected (addr : string) (c : nat) (o : outbound) (n : Network) : Network :=
  let n1 := add_peer (outbound_id addr) addr c (open_new c o n) in fst (frame_to c (announce n1) n1).

Lemma connected_cancelled addr c o n : cancelled (connected addr c o n) = cancelled n.
Proof. by destruct (frame_to_frame c (announce (add_peer (outbound_id addr) addr c (open_new c o n)))
  (add_peer (outbound_id addr) addr c (open_new c o n))) as (_ & _ & _ & H & _). Qed.

Lemma dialing_run addr k c o i n rest :
  conns n !! c = None -> cancelled n = false ->
  rtc sched (mkOverlay n (Dialing addr k :: rest)) (mkOverlay (connected addr c o n) (Reading (outbound_id addr) c i :: rest)).
Proof.
  intros Hc Hn. eapply task_run; [by apply (dial_ok _ addr k c o i)|].
  eapply task_run; [apply outbound_register|]. eapply task_run; [apply announce_write|].
  eapply task_run; [apply read_check|]; [|done]. by rewrite <- Hn, <- (connected_cancelled addr c o n).
Qed.

(** A connection accepted at once: the sequential handler is a run of the goroutines. *)
Lemma inbound_run addr c o i n rest :
  cancelled n = false -> listener n = Some true -> conns n !! c = None ->
  rtc sched (mkOverlay n (AcceptLoop :: rest))
    (mkOverlay (handleInbound addr c (open_new c o n)) (ReadTop (inbound_id addr) c i :: AcceptLoop :: rest)).
Proof.
  intros Hn Hl Hc. eapply task_run; [by apply accept_check|].
  set (n0 := open_new c o n). set (n1 := add_peer (inbound_id addr) addr c n0).
  eapply rtc_l; [apply (sched_task (mkOverlay n (Accepting :: rest)) Accepting rest n0 [AcceptLoop; HandleInbound addr c i]);
    [reflexivity|by apply (accept_conn n addr c o i)]|]. cbn [app].
  eapply rtc_l; [apply (sched_task (mkOverlay n0 (AcceptLoop :: HandleInbound addr c i :: rest)) (HandleInbound addr c i)
    (AcceptLoop :: rest) n1 [Announcing (inbound_id addr) c i]); [apply Permutation_swap|apply inbound_register]|]. cbn [app].
  eapply task_run; [apply announce_write|apply rtc_refl].
Qed.

(** A frame that arrives. *)
Lemma frame_run id c i i' data n rest :
  cancelled n = false -> is_open n c -> readFrame i = (i', inl data) ->
  rtc sched (mkOverlay n (ReadTop id c i :: rest)) (mkOverlay (on_frame data n) (ReadTop id c i' :: rest)).
Proof.
  intros Hn Ho Hr. eapply task_run; [by apply read_check|]. eapply task_run; [by eapply read_frame|apply rtc_refl].
Qed.

(** The sequential read loop is a run of the goroutine's steps: what it computes from the
    bytes of its connection the goroutine reaches, whatever the others are at. *)
Lemma readLoop_run fuel id c input n n' rest :
  is_open n c -> readLoop fuel id c input n = Some n' ->
  rtc sched (mkOverlay n (ReadTop id c input :: rest)) (mkOverlay n' rest).
Proof.
  revert input n. induction fuel as [|f IH]; intros input n Ho Hl; [done|]. cbn [readLoop] in Hl.
  destruct (cancelled n) eqn:Hc.
  - injection Hl as <-. eapply task_run; [by apply read_done|]. apply readLoop_exit_run.
  - destruct (readFrame input) as [input' [data|e]] eqn:Er.
    + etrans; [by eapply frame_run|]. apply (IH input'); [|done].
      destruct (on_frame_frame data n) as (_ & Hcs & _). unfold is_open. by rewrite Hcs.
    + injection Hl as <-. eapply task_run; [by apply read_check|]. eapply task_run; [by eapply read_error|].
      apply readLoop_exit_run.
Qed.

(** A reader comes to its end, having delivered some messages at most. *)
Lemma reader_ends id c i n rest :
  exists m, peers m = peers n /\ conns m = conns n /\
    rtc sched (mkOverlay n (Reading id c i :: rest)) (mkOverlay (readLoop_exit id c m) rest).
Proof.
  remember (length (pending i)) as k eqn:Hk. revert i n Hk. induction (lt_wf k) as [k _ IH]. intros i n ->.
  destruct (decide (is_open n c)) as [Ho|Ho].
  2: { exists n. split_and!; [done..|]. eapply task_run; [by apply read_closed|apply readLoop_exit_run]. }
  destruct (readFrame i) as [i' [data|e]] eqn:Er.
  2: { exists n. split_and!; [done..|]. eapply task_run; [by eapply read_error|apply readLoop_exit_run]. }
  destruct (on_frame_frame data n) as (Hp & Hc & Hx).
  assert (rtc sched (mkOverlay n (Reading id c i :: rest)) (mkOverlay (on_frame data n) (ReadTop id c i' :: rest))) as Hr
    by (eapply task_run; [by eapply read_frame|apply rtc_refl]).
  destruct (cancelled n) eqn:Hcan.
  - exists (on_frame data n). split_and!; [done..|]. etrans; [exact Hr|].
    eapply task_run; [by apply read_done|apply readLoop_exit_run].
  - destruct (IH (length (pending i'))) with (i := i') (n := on_frame data n) as (m & H1 & H2 & H3);
      [apply readFrame_consumes in Er; lia|done|].
    exists m. split_and!; [congruence..|]. etrans; [exact Hr|]. eapply task_run; [by apply read_check|exact H3].
Qed.

(** ** Properties *)

(** C6. However the goroutines, the other components' calls and [Stop] interleave: every open
    connection is in the hands of exactly one goroutine, which will close it, and every
    peer that messages are sent to has a goroutine of its own that reads from the very
    connection they are written to, which no other active peer has. *)
Theorem connections_owned (o : Overlay) (Hr : reachable o) :
  (forall c, is_open (net o) c -> exists t rest,
     tasks o ≡ₚ t :: rest /\ conn_of t = Some c /\ forall t', t' ∈ rest -> conn_of t' <> Some c) /\
  (forall id c, target (net o) id = Some c ->
     owns (net o) id c /\ exists t, t ∈ tasks o /\ serves t = Some (id, c)).
Proof.
  apply reachable_wf in Hr as Hwf. split.
  - intros c Ho. apply (wf_open _ _ Hwf) in Ho. apply hands_split in Ho as (t & rest & Hp & Hc).
    exists t, rest. split; [done|]. split; [done|]. intros t' Hin Hc'.
    pose proof (wf_hands _ _ Hwf c) as Hh. rewrite Hp, hands_cons, decide_True in Hh by done.
    pose proof (hands_elem c t' rest Hin Hc'). lia.
  - intros id c Ht. split; [by eapply wf_owns|by eapply wf_target].
Qed.

(** C5. Shutdown. After [Stop], in whatever state it found the network, the goroutines come to
    an end: in any continuation no step but a tick of the liveness loop leaves as much to
    do as before, as long as a goroutine is left one of them can take such a step, and
    they do get to the end; there, every connection is closed (also those of handlers and
    dialers that were under way), no peer is active, and nothing is sent to any. *)
Theorem shutdown_quiesces (o o' : Overlay) (order : list string)
  (Hr : reachable o) (Ho : iterates order (net o)) (Hs : rtc step (mkOverlay (Stop order (net o)) (tasks o)) o') :
  (forall o'', work o' o'' -> (load (tasks o'') < load (tasks o'))%nat) /\
  (load (tasks o') <= load (tasks o))%nat /\
  (forall t, t ∈ tasks o' -> exists n' ts, task_step (net o') t n' ts /\ ts <> [t]) /\
  (exists o'', rtc work o' o'' /\ tasks o'' = []) /\
  (tasks o' = [] ->
     (forall c, ~ is_open (net o') c) /\ (forall id, target (net o') id = None) /\ PeerCount (net o') = 0).
Proof.
  assert (cancelled (Stop order (net o)) = true) as Hc.
  { destruct (reachable_ctx o Hr) as [d Hd]. assert (shrinks (close_listener (cancel (net o))) (Stop order (net o)))
      as Hsh by (apply foldl_shrinks, close_peer_shrinks). apply (sh_cancelled _ _ Hsh).
    unfold cancelled. cbn. by rewrite Hd. }
  pose proof (steps_cancelled _ _ Hs Hc) as Hc'. split_and!.
  - intros o''. by apply work_load.
  - by apply (steps_load _ _ Hs).
  - intros t _. by apply task_can_step.
  - by apply work_terminates.
  - intros Hnil. apply wf_quiet. rewrite <- Hnil. apply (steps_wf o).
    + etrans; [apply Stop_run, Ho|exact Hs].
    + by apply reachable_wf.
Qed.

(** What [Stop] itself closes: of the open connections exactly those a peer entry refers
    to. One that is not registered yet, or whose entry was replaced by a later
    connection of the same name, stays open until its goroutine notices. *)
Theorem Stop_closes (order : list string) (n : Network) (c : nat) (Ho : iterates order n) :
  (is_open (Stop order n) c <-> is_open n c /\ forall id p, peers n !! id = Some p -> conn p <> Some c) /\
  peers (Stop order n) = peers n /\ listener (Stop order n) <> Some true.
Proof.
  unfold Stop. set (n0 := close_listener (cancel n)). split; [|split].
  - rewrite close_peers_open. change (is_open n0 c) with (is_open n c). change (peers n0) with (peers n).
    assert (forall id, id ∈ order <-> is_Some (peers n !! id)) as Hin by (intros; by apply iterates_elem).
    split; intros [Hop H]; (split; [done|]).
    + intros id p Hp. specialize (H id (proj2 (Hin id) (ex_intro _ p Hp))). by rewrite Hp in H.
    + intros id Hid. destruct (peers n !! id) as [p|] eqn:Ep; [cbn; eauto|done].
  - enough (forall l m, peers (close_peers l m) = peers m) as -> by done.
    intros l. induction l as [|id l IH]; intros m; [done|]. cbn. unfold close_peers in IH. by rewrite IH, close_peer_peers.
  - intros H. assert (shrinks n0 (close_peers order n0)) as Hsh by (apply foldl_shrinks, close_peer_shrinks).
    apply (sh_listener _ _ Hsh) in H. cbn in H. by destruct (listener n).
Qed.

(** C22. Entries are named by address, and the clean-up of a read loop looks its entry up by
    name. When a second connection has replaced the first under one name (an address
    listed twice among the bootnodes, or an inbound port used again), the end of the first
    makes the second inactive: the connection stays open and is still read from, but it
    is no peer any more and nothing is sent to it. *)
Theorem duplicate_silenced (o : Overlay) (rest : list task) (id : string) (c1 c2 : nat) (i : inbound)
  (Hr : reachable o) (Hp : tasks o ≡ₚ Reading id c1 i :: rest) (Hne : c1 <> c2)
  (Ht : target (net o) id = Some c2) (Ho : is_open (net o) c2) :
  exists o', rtc step o o' /\ is_open (net o') c2 /\ (exists t, t ∈ tasks o' /\ serves t = Some (id, c2)) /\
    target (net o') id = None /\
    (forall ty payload, SendTo id ty payload (net o') = (net o', Some ("peer " +:+ id +:+ " not found or inactive"))) /\
    (forall order ty payload, conns (fst (Broadcast order ty payload (net o'))) !! c2 = conns (net o') !! c2).
Proof.
  pose proof (reachable_wf _ Hr) as Hwf. destruct o as [n0 ts]. cbn [net tasks] in *.
  destruct (reader_ends id c1 i n0 rest) as (m & Hmp & Hmc & Hend).
  set (n' := readLoop_exit id c1 m) in *.
  assert (rtc step (mkOverlay n0 ts) (mkOverlay n' rest)) as Hrun.
  { apply sched_steps. apply (sched_perm n0 (Reading id c1 i :: rest)); [exact Hend|by symmetry|cbn; lia]. }
  destruct (readLoop_exit_spec id c1 m) as (_ & Hnone & _). fold n' in Hnone.
  assert (is_open n' c2) as Ho'.
  { destruct Ho as (k & Hk & Hc). exists k. split; [|done]. unfold n', readLoop_exit, deactivate.
    assert (conns (close_conn c1 m) !! c2 = Some k) as H1.
    { unfold close_conn. rewrite Hmc. destruct (conns n0 !! c1); [|congruence]. cbn. rewrite lookup_insert_ne; congruence. }
    by case_match. }
  pose proof (steps_wf _ _ Hrun Hwf) as Hwf'. cbn [net tasks] in Hwf'.
  destruct (wf_target _ _ _ _ Hwf Ht) as (t & Hin & Hs).
  assert (t ∈ rest) as Hrest.
  { rewrite Hp in Hin. apply elem_of_cons in Hin as [->|]; [cbn in Hs; congruence|done]. }
  exists (mkOverlay n' rest). cbn [net tasks]. split; [done|]. split; [done|]. split; [by exists t|]. split; [done|].
  split.
  - intros ty payload. unfold SendTo. unfold target in Hnone. destruct (peers n' !! id) as [p|]; [|done].
    cbn in Hnone. destruct (IsActive p); [by rewrite Hnone|]. by destruct (conn p).
  - intros order ty payload. apply (broadcast_others _ order (n', None) c2). cbn [fst]. intros id' _ Ht'.
    destruct (wf_target _ _ _ _ Hwf' Ht') as (t' & Hin' & Hs').
    assert (t = t') as <- by (eapply (wf_unique n' rest); eauto using serves_conn). congruence.
Qed.

(** ** Witnesses *)

Definition quiet_conn : outbound := Outbound [] None ErrClosed.
Definition silent : inbound := Inbound [] ErrTimeout.

(** A node whose configuration lists one bootnode twice, with both connections up. *)
Definition twice : Network := net (launch false (NewNetwork 9000 ["b:9001"; "b:9001"])).
Definition doubled : Overlay :=
  mkOverlay (connected "b:9001" 2 quiet_conn (connected "b:9001" 1 quiet_conn twice))
    [Reading "outbound-b:9001" 2 silent; Reading "outbound-b:9001" 1 silent; AcceptLoop; Liveness].

Lemma doubled_reachable : reachable doubled.
Proof.
  exists false, 9000, ["b:9001"; "b:9001"]. unfold launch. cbn [bootnodes NewNetwork]. fold twice. apply sched_steps.
  eapply rtc_l; [eapply (sched_task _ (Bootnodes _) [AcceptLoop; Liveness]); [apply Permutation_swap|by apply boot_dial]|].
  eapply rtc_l; [eapply (sched_task _ (Bootnodes ["b:9001"]) [Dial "b:9001" 0; AcceptLoop; Liveness]);
    [reflexivity|by apply boot_dial]|].
  etrans; [apply task_ends, boot_end|].
  eapply task_run; [apply dial_check; [unfold dial_attempts; lia|reflexivity]|].
  etrans; [apply (dialing_run _ _ 1 quiet_conn silent); reflexivity|].
  eapply rtc_l; [eapply (sched_task _ (Dial "b:9001" 0) [Reading "outbound-b:9001" 1 silent; AcceptLoop; Liveness]);
    [apply Permutation_swap|apply dial_check; [unfold dial_attempts; lia|vm_compute; reflexivity]]|].
  apply (dialing_run _ _ 2 quiet_conn silent); vm_compute; reflexivity.
Qed.

Lemma doubled_target : target (net doubled) "outbound-b:9001" = Some 2%nat.
Proof. vm_compute. reflexivity. Qed.

Lemma doubled_open : is_open (net doubled) 2.
Proof. eexists. split; vm_compute; reflexivity. Qed.

Lemma connections_owned_witness : owns (net doubled) "outbound-b:9001" 2.
Proof. destruct (connections_owned doubled doubled_reachable) as [_ H]. by apply (H _ _ doubled_target). Defined.

Lemma shutdown_quiesces_witness :
  exists o', rtc work (mkOverlay (Stop (order_of (net doubled)) (net doubled)) (tasks doubled)) o' /\ tasks o' = [].
Proof.
  by destruct (shutdown_quiesces doubled _ (order_of (net doubled)) doubled_reachable (Permutation_refl _) (rtc_refl _ _)) as (_ & _ & _ & H & _).
Defined.

Lemma Stop_closes_witness : is_open (Stop (order_of (net doubled)) (net doubled)) 1.
Proof.
  destruct (Stop_closes (order_of (net doubled)) (net doubled) 1 (Permutation_refl _)) as [H _]. apply H. split.
  - eexists. split; vm_compute; reflexivity.
  - intros id p Hp%elem_of_map_to_list.
    assert (Forall (fun x => conn x.2 <> Some 1%nat) (map_to_list (peers (net doubled)))) as Hall by (vm_compute; repeat constructor; discriminate).
    rewrite Forall_forall in Hall. apply (Hall _ Hp).
Defined.

Lemma duplicate_silenced_witness :
  exists o', rtc step doubled o' /\ is_open (net o') 2 /\ target (net o') "outbound-b:9001" = None.
Proof.
  destruct (duplicate_silenced doubled [Reading "outbound-b:9001" 2 silent; AcceptLoop; Liveness] "outbound-b:9001" 1 2 silent
    doubled_reachable (Permutation_swap _ _ _) ltac:(discriminate) doubled_target doubled_open) as (o' & H1 & H2 & _ & H3 & _).
  exists o'. split; [exact H1|]. split; [exact H2|exact H3].
Defined.

End Overlay.
