(* ===== verification/Verification.v ===== *)
(** * internal/verification: the verification engine

    engine.go (state-root derivation and [VerifyBlock]) and features.go (lane
    statistics, compute receipts, adaptive block bounds).  Replies of the
    sequencer are given after HTTP and JSON decoding, as an error or a value. *)

From S2P Require Import Prelude Bytes Sha256 Eth Metrics Sync.
Import Sync.

Module Verification.
Section Engine.
Context {E : EthLib}.

(** ** engine.go *)

Record Result := mkResult {
  rBlockNumber : Z; rValid : bool; rError : string; rStateRoot : string
}.

Record Engine := mkEngine { stateRoot : Hash; vmetrics : bool }.

Definition genesis_preimage : list byte :=
  bytes_of_string "insoblok-genesis" ++ BigInt_Bytes 42069.

Definition NewEngine : Engine :=
  mkEngine (arr_copy 32 (Sha256.sha256 genesis_preimage)) false.

Definition SetMetrics (e : Engine) : Engine := mkEngine (stateRoot e) true.

(** The bytes hashed by [computeExpectedStateRoot]. *)
Definition root_preimage (root : Hash) (block : L2Block) : list byte :=
  BigInt_Bytes (Number block) ++ Hash_Bytes root ++
  BigInt_Bytes (Timestamp block) ++ BigInt_Bytes (GasUsed block).

Definition computeExpectedStateRoot (e : Engine) (block : L2Block) : Hash :=
  arr_copy 32 (Sha256.sha256 (root_preimage (stateRoot e) block)).

Definition VerifyBlock (block : L2Block) (e : Engine) : Engine * Result :=
  if Number block =? 0
  then (e, mkResult (Number block) false "invalid block number" "")
  else
    let expectedRoot := computeExpectedStateRoot e block in
    if negb (bool_decide (StateRoot block = "")) &&
       negb (bool_decide (StateRoot block = Hash_Hex expectedRoot))
    then (e, mkResult (Number block) false
               ("state root mismatch: got " +:+ StateRoot block +:+ ", expected " +:+ Hash_Hex expectedRoot)
               (Hash_Hex expectedRoot))
    else (mkEngine expectedRoot (vmetrics e),
          mkResult (Number block) true "" (Hash_Hex expectedRoot)).

(** ** Lane statistics *)

Record LaneStats := mkLanes { Fast : Z; Standard : Z; Slow : Z; Total : Z; Enabled : bool }.

Record LaneVerificationResult := mkLaneResult {
  lrBlockNumber : Z; lrLanesEnabled : bool; lrFast : Z; lrStandard : Z; lrSlow : Z;
  lrValid : bool; lrError : string
}.

Definition VerifyLaneAllocation (reply : outcome LaneStats) : LaneVerificationResult :=
  match reply with
  | Ok stats =>
      let result valid err :=
        mkLaneResult 0 (Enabled stats) (Fast stats) (Standard stats) (Slow stats) valid err in
      if negb (Enabled stats) then result true ""%string
      else
        let expectedTotal := Fast stats +[int] Standard stats +[int] Slow stats in
        if (0 <? Total stats) && negb (Total stats =? expectedTotal)
        then result false ("lane count mismatch: total=" +:+ pretty (Total stats) +:+
                           " but fast+std+slow=" +:+ pretty expectedTotal)
        else result true ""%string
  | Err err | Panic err =>
      mkLaneResult 0 false 0 0 0 false ("failed to fetch lane stats: " +:+ err)
  end.

(** ** Compute receipts *)

Record ComputeReceiptData := mkReceipt {
  TxHash : string; rcBlockNumber : Z; TxIndex : Z; Sender : string; rcGasUsed : Z; Status : Z;
  PreStateRoot : string; PostStateRoot : string; InputHash : string; OutputHash : string;
  LogsHash : string; ReceiptHash : string; Verified : bool
}.

Record ReceiptVerificationResult := mkReceiptResult {
  rrTxHash : string; rrBlockNumber : Z; rrValid : bool; rrError : string;
  rrReceiptHash : string; rrVerified : bool
}.

(** [uint64ToBytes]: the minimal encoding copied to the end of eight zero bytes. *)
Definition uint64ToBytes (v : Z) : list byte :=
  let b := BigInt_Bytes v in
  slice_copy (replicate 8 Byte.x00) (8 - length b) b.

Definition receipt_preimage (r : ComputeReceiptData) : list byte :=
  Hash_Bytes (HexToHash (TxHash r)) ++
  uint64ToBytes (rcBlockNumber r) ++
  uint64ToBytes (u64 (TxIndex r)) ++
  Address_Bytes (HexToAddress (Sender r)) ++
  uint64ToBytes (rcGasUsed r) ++
  Hash_Bytes (HexToHash (PreStateRoot r)) ++
  Hash_Bytes (HexToHash (PostStateRoot r)) ++
  uint64ToBytes (Status r) ++
  Hash_Bytes (HexToHash (InputHash r)) ++
  Hash_Bytes (HexToHash (OutputHash r)) ++
  Hash_Bytes (HexToHash (LogsHash r)).

Definition computeReceiptHash (r : ComputeReceiptData) : Hash :=
  BytesToHash (Sha256.sha256 (receipt_preimage r)).

Definition VerifyComputeReceipt (reply : outcome (option ComputeReceiptData)) (txHash : string) :
    ReceiptVerificationResult :=
  match reply with
  | Err err | Panic err =>
      mkReceiptResult txHash 0 false ("failed to fetch receipt: " +:+ err) "" false
  | Ok None => mkReceiptResult txHash 0 false "receipt not found" "" false
  | Ok (Some receipt) =>
      let recomputed := computeReceiptHash receipt in
      if negb (bool_decide (Hash_Hex recomputed = ReceiptHash receipt))
      then mkReceiptResult txHash (rcBlockNumber receipt) false
             ("receipt hash mismatch: got " +:+ ReceiptHash receipt +:+ ", recomputed " +:+ Hash_Hex recomputed)
             (ReceiptHash receipt) false
      else if negb (Verified receipt)
      then mkReceiptResult txHash (rcBlockNumber receipt) false
             "sequencer reports receipt as unverified" (ReceiptHash receipt) (Verified receipt)
      else mkReceiptResult txHash (rcBlockNumber receipt) true "" (ReceiptHash receipt) (Verified receipt)
  end.

(** ** Adaptive blocks *)

Record AdaptiveBlockBounds := mkBounds {
  MinGasLimit : Z; MaxGasLimit : Z; MinMaxTx : Z; MaxMaxTx : Z
}.

Definition DefaultAdaptiveBounds : AdaptiveBlockBounds := mkBounds 15000000 60000000 1000 10000.

Record AdaptiveVerificationResult := mkAdaptive {
  arBlockNumber : Z; arGasUsed : Z; arGasLimit : Z; arGasLimitValid : bool; arTxCountValid : bool;
  arValid : bool; arError : string
}.

Definition VerifyAdaptiveBlock (block : L2Block) (bounds : AdaptiveBlockBounds) :
    AdaptiveVerificationResult :=
  (* gas limit within adaptive bounds *)
  let '(gasOk, err) :=
    if 0 <? GasLimit block then
      let ok := (MinGasLimit bounds <=? GasLimit block) && (GasLimit block <=? MaxGasLimit bounds) in
      (ok, if negb ok then "gas limit " +:+ pretty (GasLimit block) +:+ " outside bounds [" +:+
             pretty (MinGasLimit bounds) +:+ ", " +:+ pretty (MaxGasLimit bounds) +:+ "]"
           else ""%string)
    else (true, ""%string) in
  (* transaction count within bounds *)
  let '(txOk, err) :=
    if 0 <? TxCount block then
      let ok := TxCount block <=? MaxMaxTx bounds in
      (ok, if negb ok then "tx count " +:+ pretty (TxCount block) +:+ " exceeds max " +:+ pretty (MaxMaxTx bounds)
           else err)
    else (true, err) in
  (* gas used does not exceed the gas limit *)
  let '(gasOk, err) :=
    if (0 <? GasLimit block) && (GasLimit block <? GasUsed block)
    then (false, "gas used " +:+ pretty (GasUsed block) +:+ " exceeds gas limit " +:+ pretty (GasLimit block))
    else (gasOk, err) in
  mkAdaptive (Number block) (GasUsed block) (GasLimit block) gasOk txOk (gasOk && txOk) err.

(** [truncate]. *)
Definition truncate (s : string) (n : nat) : string :=
  if (String.length s <=? n)%nat then s else String.substring 0 n s.

(** ** Lemmas *)

Lemma uint64ToBytes_be v : is_u64 v -> uint64ToBytes v = be_fixed 8 v.
Proof.
  intros Hv. pose proof (length_BigInt_Bytes_u64 v Hv) as Hl. unfold uint64ToBytes, slice_copy.
  rewrite length_replicate.
  replace (Nat.min (8 - (8 - length (BigInt_Bytes v))) (length (BigInt_Bytes v)))
    with (length (BigInt_Bytes v)) by lia.
  rewrite (take_ge (BigInt_Bytes v)) by lia.
  rewrite (drop_ge (replicate 8 Byte.x00)) by (rewrite length_replicate; lia).
  rewrite app_nil_r, take_replicate, Nat.min_l by lia.
  apply be_fixed_pad; [exact Hv|done].
Qed.

Lemma length_uint64ToBytes v : length (uint64ToBytes v) = 8%nat.
Proof.
  unfold uint64ToBytes. rewrite length_slice_copy; rewrite length_replicate; [done|lia].
Qed.

Lemma uint64ToBytes_inj v w : is_u64 v -> is_u64 w -> uint64ToBytes v = uint64ToBytes w -> v = w.
Proof.
  intros Hv Hw. rewrite !uint64ToBytes_be by done. by apply be_fixed_inj.
Qed.

(** A leading digit can be split off a minimal encoding, and a trailing one appended. *)
Lemma BigInt_Bytes_snoc t c : 1 <= t -> 0 <= c < 256 -> BigInt_Bytes (t * 256 + c) = BigInt_Bytes t ++ [byte_of_Z c].
Proof.
  intros Ht Hc. apply be_value_inj.
  - rewrite length_app, !length_BigInt_Bytes_value. simpl. unfold nbytes.
    destruct (Z.eqb_spec (t * 256 + c) 0); [lia|]. destruct (Z.eqb_spec t 0); [lia|].
    rewrite !Z.abs_eq by lia.
    assert (Z.log2 (t * 256 + c) = Z.log2 t + 8) as ->.
    { apply Z.log2_unique; [pose proof (Z.log2_nonneg t); lia|].
      pose proof (Z.log2_spec t ltac:(lia)) as [H1 H2]. pose proof (Z.log2_nonneg t).
      rewrite Z.pow_add_r by lia. replace (Z.succ (Z.log2 t + 8)) with (Z.succ (Z.log2 t) + 8) by lia.
      rewrite Z.pow_add_r by lia. change (2 ^ 8) with 256. lia. }
    replace (Z.log2 t + 8) with (Z.log2 t + 1 * 8) by lia. rewrite Z.div_add by lia.
    pose proof (Z.log2_nonneg t). pose proof (Z.div_pos (Z.log2 t) 8 ltac:(lia) ltac:(lia)). lia.
  - rewrite be_value_snoc, !be_value_BigInt_Bytes, byte_to_of_Z, Z.mod_small; lia.
Qed.

Lemma BigInt_Bytes_cons c g :
  1 <= c < 256 -> 0 <= g ->
  BigInt_Bytes (c * 256 ^ Z.of_nat (nbytes g) + g) = byte_of_Z c :: BigInt_Bytes g.
Proof.
  intros Hc Hg. set (k := nbytes g). pose proof (nbytes_bound g) as Hb. fold k in Hb.
  rewrite Z.abs_eq in Hb by done. pose proof (pow256_pos k) as Hp.
  apply be_value_inj.
  - simpl. rewrite !length_BigInt_Bytes_value. fold k. unfold nbytes at 1.
    destruct (Z.eqb_spec (c * 256 ^ Z.of_nat k + g) 0); [nia|]. rewrite Z.abs_eq by nia.
    assert (Z.log2 (c * 256 ^ Z.of_nat k + g) / 8 = Z.of_nat k) as ->; [|lia].
    assert (8 * Z.of_nat k <= Z.log2 (c * 256 ^ Z.of_nat k + g) < 8 * (Z.of_nat k + 1)) as Hlog.
    { change 256 with (2 ^ 8) in *. rewrite <- Z.pow_mul_r in * by lia. split.
      - apply Z.log2_le_pow2; nia.
      - apply Z.log2_lt_pow2; [nia|]. rewrite Z.mul_add_distr_l, Z.pow_add_r by lia.
        change (2 ^ (8 * 1)) with 256. change (2 ^ 8) with 256 in Hc. nia. }
    symmetry. apply Z.div_unique with (r := Z.log2 (c * 256 ^ Z.of_nat k + g) - 8 * Z.of_nat k); lia.
  - rewrite be_value_BigInt_Bytes, Z.abs_eq by nia.
    change (byte_of_Z c :: BigInt_Bytes g) with ([byte_of_Z c] ++ BigInt_Bytes g).
    rewrite be_value_app, length_BigInt_Bytes_value, be_value_BigInt_Bytes, Z.abs_eq by done.
    unfold be_value at 1. simpl. rewrite byte_to_of_Z, Z.mod_small by lia. done.
Qed.

Context {L : EthLaws E}.

Definition claim_ok (e : Engine) (block : L2Block) : Prop :=
  StateRoot block = ""%string \/ StateRoot block = Hash_Hex (computeExpectedStateRoot e block).

Lemma VerifyBlock_accepts block e :
  Number block <> 0 -> claim_ok e block ->
  VerifyBlock block e = (mkEngine (computeExpectedStateRoot e block) (vmetrics e),
    mkResult (Number block) true "" (Hash_Hex (computeExpectedStateRoot e block))).
Proof.
  intros Hn Hc. unfold VerifyBlock. destruct (Z.eqb_spec (Number block) 0); [done|].
  destruct Hc as [Hc|Hc]; [rewrite (bool_decide_eq_true_2 (StateRoot block = "")) by done; done|].
  rewrite (bool_decide_eq_true_2 (StateRoot block = Hash_Hex _)) by done.
  by rewrite andb_false_r.
Qed.

Lemma VerifyBlock_rejects block e :
  Number block = 0 \/ ~ claim_ok e block ->
  exists err root, VerifyBlock block e = (e, mkResult (Number block) false err root).
Proof.
  intros H. unfold VerifyBlock. destruct (Z.eqb_spec (Number block) 0); [eauto|].
  destruct H as [|H]; [done|]. unfold claim_ok in H.
  rewrite !bool_decide_eq_false_2 by tauto. simpl. eauto.
Qed.

#[export] Instance claim_ok_dec e block : Decision (claim_ok e block).
Proof. unfold claim_ok. apply _. Defined.

(** The state root a sequence of blocks leads to. *)
Fixpoint derive (root : Hash) (bs : list L2Block) : Hash :=
  match bs with
  | [] => root
  | b :: bs' => derive (arr_copy 32 (Sha256.sha256 (root_preimage root b))) bs'
  end.

(** Verifying a sequence of blocks. *)
Fixpoint verify_all (bs : list L2Block) (e : Engine) : Engine * list Result :=
  match bs with
  | [] => (e, [])
  | b :: bs' =>
      let '(e', r) := VerifyBlock b e in
      let '(e'', rs) := verify_all bs' e' in (e'', r :: rs)
  end.

(** A sequence whose claimed roots are empty or those of the derivation. *)
Fixpoint honest (root : Hash) (bs : list L2Block) : Prop :=
  match bs with
  | [] => True
  | b :: bs' =>
      let root' := arr_copy 32 (Sha256.sha256 (root_preimage root b)) in
      Number b <> 0 /\ (StateRoot b = ""%string \/ StateRoot b = Hash_Hex root') /\ honest root' bs'
  end.

(** An honest sequence leaves the fold of the derivation. *)
Lemma honest_root (bs : list L2Block) (e : Engine) :
  honest (stateRoot e) bs -> stateRoot (fst (verify_all bs e)) = derive (stateRoot e) bs.
Proof.
  revert e. induction bs as [|b bs IH]; intros e H; simpl in *; [done|].
  destruct H as (Hn & Hc & H). rewrite VerifyBlock_accepts by done.
  specialize (IH (mkEngine (computeExpectedStateRoot e b) (vmetrics e)) H).
  by destruct (verify_all bs _).
Qed.

(** One block more. *)
Lemma verify_all_snoc bs b e :
  fst (verify_all (bs ++ [b]) e) = fst (VerifyBlock b (fst (verify_all bs e))) /\
  snd (verify_all (bs ++ [b]) e) = snd (verify_all bs e) ++ [snd (VerifyBlock b (fst (verify_all bs e)))].
Proof.
  revert e. induction bs as [|b1 bs IH]; intros e; simpl.
  - by destruct (VerifyBlock b e).
  - destruct (VerifyBlock b1 e) as [e1 r1]. specialize (IH e1).
    destruct (verify_all (bs ++ [b]) e1) as [e2 rs2], (verify_all bs e1) as [e3 rs3]. simpl in *.
    destruct IH as [-> ->]. done.
Qed.

(** How many of the blocks are accepted under the number [k]. *)
Definition accepted_as (k : Z) (bs : list L2Block) (e : Engine) : nat :=
  length (filter (fun r => rValid r = true /\ rBlockNumber r = k) (snd (verify_all bs e))).

(** ** Properties *)

(** C27. [VerifyBlock] is exact: a block is valid iff its number is not 0 and its claimed
    root is empty or the hex form of the derived root; the engine's root advances
    to the derived root then, and is left alone otherwise. *)
Theorem VerifyBlock_spec (block : L2Block) (e : Engine) :
  (rValid (snd (VerifyBlock block e)) = true <->
     Number block <> 0 /\
     (StateRoot block = ""%string \/ StateRoot block = Hash_Hex (computeExpectedStateRoot e block))) /\
  stateRoot (fst (VerifyBlock block e)) =
    (if rValid (snd (VerifyBlock block e)) then computeExpectedStateRoot e block else stateRoot e) /\
  rBlockNumber (snd (VerifyBlock block e)) = Number block.
Proof.
  destruct (decide (Number block <> 0 /\ claim_ok e block)) as [[Hn Hc]|H].
  - by rewrite VerifyBlock_accepts.
  - destruct (VerifyBlock_rejects block e) as (err & root & ->); [|done].
    destruct (decide (Number block = 0)); [by left|right; tauto].
Qed.

(** C28. Replay: an engine accepts every block of a sequence iff the sequence is an honest
    derivation from its root, and then its root is the derivation's result. *)
Theorem verify_all_honest (bs : list L2Block) (e : Engine) :
  (Forall (fun r => rValid r = true) (snd (verify_all bs e)) <-> honest (stateRoot e) bs) /\
  (honest (stateRoot e) bs -> stateRoot (fst (verify_all bs e)) = derive (stateRoot e) bs).
Proof.
  split; [|apply honest_root]. revert e. induction bs as [|b bs IH]; intros e; simpl; [by split; [|constructor]|].
  destruct (decide (Number b <> 0 /\ claim_ok e b)) as [[Hn Hc]|H].
  - rewrite VerifyBlock_accepts by done. specialize (IH (mkEngine (computeExpectedStateRoot e b) (vmetrics e))).
    destruct (verify_all bs _) as [e'' rs]. simpl in *. rewrite Forall_cons. simpl. rewrite IH.
    unfold claim_ok in Hc. unfold computeExpectedStateRoot in *. tauto.
  - destruct (VerifyBlock_rejects b e) as (err & root & Hv).
    { destruct (decide (Number b = 0)); [by left|right; tauto]. }
    rewrite Hv. destruct (verify_all bs e) as [e'' rs]. simpl. rewrite Forall_cons. simpl.
    unfold claim_ok, computeExpectedStateRoot in H. split; [intros [? _]; done|tauto].
Qed.

(** C40. The derived root does not separate its inputs: variable-length integers are
    concatenated, so the last byte [c] of the timestamp can move to the front of
    the gas used and every engine derives the same root for two different
    blocks. *)
Theorem state_root_ambiguous (e : Engine) (b : L2Block) (t c g : Z)
  (Ht : 1 <= t) (Hc : 1 <= c < 256) (Hg : 0 <= g) :
  let b1 := mkL2Block (Number b) (BHash b) (ParentHash b) (t * 256 + c) (StateRoot b) g (GasLimit b) (TxCount b) (Sequencer b) in
  let b2 := mkL2Block (Number b) (BHash b) (ParentHash b) t (StateRoot b) (c * 256 ^ Z.of_nat (nbytes g) + g)
              (GasLimit b) (TxCount b) (Sequencer b) in
  b1 <> b2 /\ computeExpectedStateRoot e b1 = computeExpectedStateRoot e b2.
Proof.
  intros b1 b2. split; [intros H; injection H; lia|].
  unfold computeExpectedStateRoot. do 2 f_equal. unfold root_preimage. simpl.
  rewrite BigInt_Bytes_snoc, BigInt_Bytes_cons by lia. by rewrite <- app_assoc.
Qed.

(** Verification is not idempotent: verifying a block again on the engine that just
    accepted it, when the block claims a root, succeeds only at a fixed point of
    the derivation; when it claims none, it moves the engine's root on. *)
Theorem reverification (block : L2Block) (e : Engine)
  (Hvalid : rValid (snd (VerifyBlock block e)) = true) :
  let e1 := fst (VerifyBlock block e) in
  (StateRoot block <> ""%string ->
     (rValid (snd (VerifyBlock block e1)) = true <-> computeExpectedStateRoot e1 block = stateRoot e1)) /\
  (StateRoot block = ""%string ->
     stateRoot (fst (VerifyBlock block e1)) = computeExpectedStateRoot e1 block).
Proof.
  intros e1. apply VerifyBlock_spec in Hvalid as Hv. destruct Hv as [Hn Hc].
  assert (stateRoot e1 = computeExpectedStateRoot e block) as Hr
    by (unfold e1; by rewrite VerifyBlock_accepts).
  split.
  - intros Hne. rewrite (proj1 (VerifyBlock_spec block e1)), Hr. split.
    + intros [_ [?|H]]; [done|]. destruct Hc as [?|Hc]; [done|]. rewrite Hc in H.
      symmetry. by apply Hash_Hex_inj.
    + intros H. split; [done|]. right. rewrite H. by destruct Hc.
  - intros Hempty. rewrite VerifyBlock_accepts; [done|done|by left].
Qed.

(** C24. What the receipt digest binds. Two receipts whose numbers have Go's widths have the
    same preimage exactly when they agree on the block number, the transaction index, the
    gas and the status, and on the sender, the transaction hash, the roots and the input,
    output and logs hashes as they decode. Other than for the state root nothing can move
    from one field into the next; only the claimed digest itself and the flag [Verified]
    are not part of it. *)
Theorem receipt_preimage_injective (r s : ComputeReceiptData)
  (Hr : is_u64 (rcBlockNumber r) /\ is_i64 (TxIndex r) /\ is_u64 (rcGasUsed r) /\ is_u64 (Status r))
  (Hs : is_u64 (rcBlockNumber s) /\ is_i64 (TxIndex s) /\ is_u64 (rcGasUsed s) /\ is_u64 (Status s)) :
  receipt_preimage r = receipt_preimage s <->
  HexToHash (TxHash r) = HexToHash (TxHash s) /\ rcBlockNumber r = rcBlockNumber s /\
  TxIndex r = TxIndex s /\ HexToAddress (Sender r) = HexToAddress (Sender s) /\
  rcGasUsed r = rcGasUsed s /\ Status r = Status s /\
  HexToHash (PreStateRoot r) = HexToHash (PreStateRoot s) /\
  HexToHash (PostStateRoot r) = HexToHash (PostStateRoot s) /\
  HexToHash (InputHash r) = HexToHash (InputHash s) /\
  HexToHash (OutputHash r) = HexToHash (OutputHash s) /\ HexToHash (LogsHash r) = HexToHash (LogsHash s).
Proof.
  unfold receipt_preimage. split; [intros H|by intros (-> & -> & -> & -> & -> & -> & -> & -> & -> & -> & ->)].
  destruct Hr as (? & ? & ? & ?), Hs as (? & ? & ? & ?).
  repeat (apply app_inj_1 in H as [? H];
    [|by rewrite ?length_Hash_Bytes, ?length_Address_Bytes, ?length_uint64ToBytes]).
  repeat match goal with
  | H : Hash_Bytes _ = Hash_Bytes _ |- _ => apply Hash_Bytes_inj in H
  | H : Address_Bytes _ = Address_Bytes _ |- _ => apply Address_Bytes_inj in H
  | H : uint64ToBytes _ = uint64ToBytes _ |- _ => apply uint64ToBytes_inj in H; [|by auto with go..]
  end.
  repeat split; try done. by apply u64_of_i64_inj.
Qed.

(** A receipt is reported valid iff the sequencer returned one, its hash string is the
    hex form of the recomputed digest, and it is flagged verified. *)
Theorem VerifyComputeReceipt_spec (reply : outcome (option ComputeReceiptData)) (txHash : string) :
  rrValid (VerifyComputeReceipt reply txHash) = true <->
  exists r, reply = Ok (Some r) /\ ReceiptHash r = Hash_Hex (computeReceiptHash r) /\ Verified r = true.
Proof.
  unfold VerifyComputeReceipt. destruct reply as [[r|]|err|w]; simpl; try (split; [done|naive_solver]).
  case_bool_decide as Hh; simpl; [|split; [done|naive_solver]].
  destruct (Verified r) eqn:Hv; simpl; [|split; [done|naive_solver]].
  split; [|done]. intros _. eauto.
Qed.

(** Lane statistics are accepted iff the reply arrived and lanes are disabled, or the
    total is not positive, or it equals the 64-bit sum of the lanes. *)
Theorem VerifyLaneAllocation_spec (reply : outcome LaneStats) :
  lrValid (VerifyLaneAllocation reply) = true <->
  exists s, reply = Ok s /\
    (Enabled s = false \/ Total s <= 0 \/ Total s = i64 (Fast s + Standard s + Slow s)).
Proof.
  assert (forall a b c, (a +[int] b) +[int] c = i64 (a + b + c)) as Hi.
  { intros a b c. widths. f_equal.
    replace ((a + b + 2 ^ 63) mod 2 ^ 64 - 2 ^ 63 + c + 2 ^ 63)
      with ((a + b + 2 ^ 63) mod 2 ^ 64 + c) by lia.
    rewrite Zplus_mod_idemp_l. f_equal. lia. }
  unfold VerifyLaneAllocation. destruct reply as [s|err|w]; simpl; try (split; [done|naive_solver]).
  destruct (Enabled s) eqn:Hen; simpl; [|split; [intros _; exists s; auto|done]]. rewrite Hi.
  destruct (Z.ltb_spec 0 (Total s)), (Z.eqb_spec (Total s) (i64 (Fast s + Standard s + Slow s))); simpl;
    (split; [try done; intros _; exists s; auto|
             intros (s' & [= <-] & Hs); try done; destruct Hs as [?|[?|?]]; (congruence || lia)]).
Qed.

(** Adaptive bounds: a block passes iff its gas limit is unreported or within bounds
    and not exceeded by its gas used, and its transaction count is unreported or
    at most the maximum.  The minimum transaction count plays no role. *)
Theorem VerifyAdaptiveBlock_spec (block : L2Block) (bounds : AdaptiveBlockBounds) :
  arValid (VerifyAdaptiveBlock block bounds) = true <->
  (GasLimit block <= 0 \/
     MinGasLimit bounds <= GasLimit block <= MaxGasLimit bounds /\ GasUsed block <= GasLimit block) /\
  TxCount block <= Z.max 0 (MaxMaxTx bounds).
Proof.
  unfold VerifyAdaptiveBlock.
  destruct (Z.ltb_spec 0 (GasLimit block)), (Z.ltb_spec 0 (TxCount block)),
    (Z.ltb_spec (GasLimit block) (GasUsed block)); simpl; rewrite ?andb_true_iff, ?Z.leb_le; try lia.
  all: intuition (done || lia).
Qed.

(** The verdict on a state root depends only on number, timestamp, gas used and claimed
    root: two blocks that differ in hash, parent, gas limit, transaction count or
    sequencer are treated alike. *)
Theorem VerifyBlock_ignores (a b : L2Block) (e : Engine)
  (Hn : Number a = Number b) (Ht : Timestamp a = Timestamp b)
  (Hg : GasUsed a = GasUsed b) (Hs : StateRoot a = StateRoot b) :
  VerifyBlock a e = VerifyBlock b e.
Proof.
  unfold VerifyBlock, computeExpectedStateRoot, root_preimage. by rewrite Hn, Ht, Hg, Hs.
Qed.

End Engine.

(** ** Witnesses, on the toy instance *)

Section Witnesses.
Import ToyEth.

Definition plain (n : Z) : L2Block := mkL2Block n "0x01" "0x00" 1700000000 "" 21000 30000000 1 "seq".
Definition with_root (b : L2Block) (s : string) : L2Block :=
  mkL2Block (Number b) (BHash b) (ParentHash b) (Timestamp b) s (GasUsed b) (GasLimit b) (TxCount b) (Sequencer b).
Definition claimed1 : L2Block := with_root (plain 1) (Hash_Hex (computeExpectedStateRoot NewEngine (plain 1))).

Definition engine1 : Engine := fst (VerifyBlock claimed1 NewEngine).

Lemma verify_all_honest_witness :
  Forall (fun r => rValid r = true) (snd (verify_all [claimed1; plain 2] NewEngine)) /\
  stateRoot (fst (verify_all [claimed1; plain 2] NewEngine)) = derive (stateRoot NewEngine) [claimed1; plain 2].
Proof.
  destruct (verify_all_honest [claimed1; plain 2] NewEngine) as [H1 H2].
  assert (honest (stateRoot NewEngine) [claimed1; plain 2]) as H.
  { split; [discriminate|]. split; [right; vm_compute; reflexivity|].
    split; [discriminate|]. split; [left; reflexivity|exact I]. }
  split; [exact (proj2 H1 H)|exact (H2 H)].
Defined.

Lemma state_root_ambiguous_witness :
  computeExpectedStateRoot NewEngine (mkL2Block 1 "0x01" "0x00" (1 * 256 + 2) "" 3 30000000 1 "seq") =
  computeExpectedStateRoot NewEngine (mkL2Block 1 "0x01" "0x00" 1 "" (2 * 256 ^ Z.of_nat (nbytes 3) + 3) 30000000 1 "seq").
Proof. apply (state_root_ambiguous NewEngine (plain 1) 1 2 3); lia. Defined.

(** A valid block of the sequencer is refused the second time. *)
Lemma reverification_witness :
  rValid (snd (VerifyBlock claimed1 NewEngine)) = true /\
  rValid (snd (VerifyBlock claimed1 engine1)) = false /\
  (rValid (snd (VerifyBlock claimed1 engine1)) = true <->
     computeExpectedStateRoot engine1 claimed1 = stateRoot engine1).
Proof.
  split; [vm_compute; reflexivity|]. split; [vm_compute; reflexivity|].
  unfold engine1. refine (proj1 (reverification claimed1 NewEngine _) _);
    [vm_compute; reflexivity|vm_compute; discriminate].
Defined.

Definition receipt : ComputeReceiptData :=
  mkReceipt "0x0a" 7 0 "0x0b" 21000 1 "0x0c" "0x0d" "0x0e" "0x0f" "0x10" "" true.

(** The same receipt spelled in capitals, with another claimed digest, and one that differs in the status. *)
Definition respelled : ComputeReceiptData :=
  mkReceipt "0x0A" 7 0 "0x0B" 21000 1 "0x0C" "0x0D" "0x0E" "0x0F" "0x10" "0xff" false.
Definition failed : ComputeReceiptData :=
  mkReceipt "0x0a" 7 0 "0x0b" 21000 0 "0x0c" "0x0d" "0x0e" "0x0f" "0x10" "" true.

Lemma receipt_preimage_injective_witness :
  receipt_preimage receipt = receipt_preimage respelled /\ receipt_preimage receipt <> receipt_preimage failed.
Proof.
  split.
  - apply (receipt_preimage_injective receipt respelled); [simpl; unfold is_u64, is_i64; lia..|].
    repeat split; vm_compute; reflexivity.
  - intros H. apply (receipt_preimage_injective receipt failed) in H; [|simpl; unfold is_u64, is_i64; lia..].
    destruct H as (_ & _ & _ & _ & _ & H & _). discriminate.
Defined.

Lemma VerifyBlock_ignores_witness :
  VerifyBlock (plain 1) NewEngine =
  VerifyBlock (mkL2Block 1 "0xff" "0xee" 1700000000 "" 21000 0 99 "other") NewEngine.
Proof.
  apply (VerifyBlock_ignores (plain 1) (mkL2Block 1 "0xff" "0xee" 1700000000 "" 21000 0 99 "other") NewEngine);
    reflexivity.
Defined.

End Witnesses.

End Verification.
