(* ===== verification/Race.v ===== *)
(** * internal/verification: concurrent callers

    The verification engine has no lock. The sync engine's two goroutines and every
    RPC request call [VerifyBlock] on the one engine; a call reads the root when it
    derives the expected one and writes it at the end, and other calls may run in
    between. [Node] takes a call as one step; here it is two, for any number of
    concurrent calls. (A root is read and written as a whole; that the 32 bytes may be
    torn is left out.) *)

From S2P Require Import Prelude Bytes Sha256 Eth Sync Verification.
Import Sync Verification.

Module Race.
Section Calls.
Context {E : EthLib}.

(** A call: before the read, with the root it has read, and returned. *)
Inductive caller :=
| Calling (block : L2Block)
| Derived (block : L2Block) (seen : Hash)
| Returned (block : L2Block) (r : Result).

Record shared := mkShared { root : Hash; callers : list caller }.

(** A call on a root of its own; the metrics pointer plays no role in it. *)
Definition verify_on (seen : Hash) (block : L2Block) : Hash * Result :=
  let '(e, r) := VerifyBlock block (mkEngine seen false) in (stateRoot e, r).

(** The read, which a block numbered 0 does not get to. *)
Definition load (cur : Hash) (block : L2Block) : caller :=
  if Number block =? 0 then Returned block (snd (verify_on cur block)) else Derived block cur.

(** The write, which a rejected block does not get to. *)
Definition store (cur seen : Hash) (block : L2Block) : Hash :=
  let '(new, r) := verify_on seen block in if rValid r then new else cur.

Inductive step (s : shared) : shared -> Prop :=
| step_load i block :
    callers s !! i = Some (Calling block) ->
    step s (mkShared (root s) (<[i := load (root s) block]> (callers s)))
| step_store i block seen :
    callers s !! i = Some (Derived block seen) ->
    step s (mkShared (store (root s) seen block) (<[i := Returned block (snd (verify_on seen block))]> (callers s))).

Definition start (r : Hash) (bs : list L2Block) : shared := mkShared r (Calling <$> bs).

(** The blocks that were accepted so far. *)
Definition accepted_block (c : caller) : option L2Block :=
  match c with Returned b r => if rValid r then Some b else None | _ => None end.
Definition accepted (s : shared) : list L2Block := omap accepted_block (callers s).

(** ** Facts *)

Lemma derive_snoc r l b : derive r (l ++ [b]) = derive (derive r l) [b].
Proof. revert r. induction l as [|a l IH]; intros r; [done|]. apply IH. Qed.

Lemma verify_on_valid seen b :
  rValid (snd (verify_on seen b)) = true -> fst (verify_on seen b) = derive seen [b].
Proof.
  unfold verify_on, VerifyBlock. destruct (Number b =? 0); [done|]. by destruct (_ && _).
Qed.

Lemma store_eq cur seen b :
  store cur seen b = if rValid (snd (verify_on seen b)) then derive seen [b] else cur.
Proof.
  unfold store. pose proof (verify_on_valid seen b) as H. destruct (verify_on seen b) as [new r]. simpl in *.
  destruct (rValid r); [by apply H|done].
Qed.

(** Only a change of the callers from a call under way to its result adds to [accepted]. *)
Lemma omap_insert_none {A B} (f : A -> option B) (l : list A) i x y :
  l !! i = Some x -> f x = None -> omap f (<[i := y]> l) ≡ₚ option_list (f y) ++ omap f l.
Proof.
  revert i. induction l as [|a l IH]; intros [|i] Hl Hx; try done.
  - injection Hl as ->. cbn. rewrite Hx. by destruct (f y).
  - cbn in Hl. cbn. specialize (IH i Hl Hx). destruct (f a) as [b|]; [|done].
    rewrite IH. destruct (f y); cbn; [apply Permutation_swap|done].
Qed.

(** A call between its read and its write holds a derivation from accepted blocks. *)
Record derived (r0 : Hash) (s : shared) : Prop := {
  derived_root : exists l, root s = derive r0 l /\ l ⊆+ accepted s;
  derived_seen i b seen : callers s !! i = Some (Derived b seen) -> exists l, seen = derive r0 l /\ l ⊆+ accepted s;
  derived_result i b r : callers s !! i = Some (Returned b r) -> exists l, r = snd (verify_on (derive r0 l) b) /\ l ⊆+ accepted s
}.

Lemma derived_start r0 bs : derived r0 (start r0 bs).
Proof.
  split; cbn [start root callers].
  - exists []. split; [done|apply submseteq_nil_l].
  - intros i b seen. rewrite list_lookup_fmap. by destruct (bs !! i).
  - intros i b r. rewrite list_lookup_fmap. by destruct (bs !! i).
Qed.

Lemma step_accepted s s' : step s s' -> accepted s ⊆+ accepted s'.
Proof.
  intros [i b H|i b seen H]; unfold accepted; cbn [callers];
    rewrite (omap_insert_none _ _ _ _ _ H) by done; apply submseteq_inserts_l; done.
Qed.

Lemma step_derived r0 s s' : step s s' -> derived r0 s -> derived r0 s'.
Proof.
  intros Hst [Hroot Hseen Hres]. pose proof (step_accepted _ _ Hst) as Hmono.
  assert (forall l, l ⊆+ accepted s -> l ⊆+ accepted s') as Hup by (intros l Hl; by etrans).
  destruct Hst as [i b H|i b seen H].
  - destruct Hroot as (l & Hl & Hsub). split; cbn [root callers] in *.
    + exists l. auto.
    + intros j c seen. destruct (decide (i = j)) as [<-|Hne].
      * rewrite list_lookup_insert_eq by (by eapply lookup_lt_Some). intros Hx.
        assert (seen = root s) as -> by (unfold load in Hx; destruct (Number b =? 0); congruence). exists l. auto.
      * rewrite list_lookup_insert_ne by done. intros Hj. destruct (Hseen _ _ _ Hj) as (k & -> & Hk). exists k. auto.
    + intros j c r. destruct (decide (i = j)) as [<-|Hne].
      * rewrite list_lookup_insert_eq by (by eapply lookup_lt_Some). intros Hx.
        assert (r = snd (verify_on (root s) c)) as -> by (unfold load in Hx; destruct (Number b =? 0); congruence).
        exists l. rewrite <- Hl. auto.
      * rewrite list_lookup_insert_ne by done. intros Hj. destruct (Hres _ _ _ Hj) as (k & -> & Hk). exists k. auto.
  - destruct (Hseen _ _ _ H) as (l & -> & Hsub). split; cbn [root callers] in *.
    + rewrite store_eq. destruct (rValid _) eqn:Hv.
      * exists (l ++ [b]). split; [by rewrite derive_snoc|]. unfold accepted. cbn [callers].
        rewrite (omap_insert_none _ _ _ _ _ H) by done. cbn [accepted_block option_list]. rewrite Hv. cbn.
        rewrite Permutation_app_comm. by apply submseteq_skip.
      * destruct Hroot as (k & -> & Hk). exists k. auto.
    + intros j c seen. destruct (decide (i = j)) as [<-|Hne].
      * rewrite list_lookup_insert_eq by (by eapply lookup_lt_Some). by intros [=].
      * rewrite list_lookup_insert_ne by done. intros Hj. destruct (Hseen _ _ _ Hj) as (k & -> & Hk). exists k. auto.
    + intros j c r. destruct (decide (i = j)) as [<-|Hne].
      * rewrite list_lookup_insert_eq by (by eapply lookup_lt_Some). intros [= <- <-]. exists l. auto.
      * rewrite list_lookup_insert_ne by done. intros Hj. destruct (Hres _ _ _ Hj) as (k & -> & Hk). exists k. auto.
Qed.

Lemma steps_derived r0 s s' : rtc step s s' -> derived r0 s -> derived r0 s'.
Proof. induction 1; eauto using step_derived. Qed.

Lemma verify_on_eq e b : verify_on (stateRoot e) b = (stateRoot (fst (VerifyBlock b e)), snd (VerifyBlock b e)).
Proof. unfold verify_on, VerifyBlock. destruct (Number b =? 0); [done|]. by destruct (_ && _). Qed.

(** A call that nothing comes between. *)
Lemma call_run r pre b post :
  rtc step (mkShared r (pre ++ Calling b :: post))
    (mkShared (fst (verify_on r b)) (pre ++ Returned b (snd (verify_on r b)) :: post)).
Proof.
  assert (forall c d, <[length pre := d]> (pre ++ c :: post) = pre ++ d :: post) as Hins.
  { intros c d. by rewrite insert_app_r_alt, Nat.sub_diag by lia. }
  eapply rtc_l; [apply (step_load _ (length pre) b); cbn; by apply list_lookup_middle|].
  cbn [root callers]. rewrite Hins. unfold load. destruct (Z.eqb_spec (Number b) 0) as [E0|].
  - assert (fst (verify_on r b) = r) as ->; [|done]. unfold verify_on, VerifyBlock. by rewrite E0.
  - eapply rtc_l; [apply (step_store _ (length pre) b r); cbn; by apply list_lookup_middle|].
    cbn [root callers]. rewrite Hins. assert (store r r b = fst (verify_on r b)) as ->; [|done].
    unfold store, verify_on, VerifyBlock. destruct (Number b =? 0); [done|]. by destruct (_ && _).
Qed.

(** Two calls that both read before either writes. *)
Lemma interleaved_run r b1 b2 :
  Number b1 <> 0 -> Number b2 <> 0 ->
  rtc step (start r [b1; b2])
    (mkShared (store (store r r b1) r b2) [Returned b1 (snd (verify_on r b1)); Returned b2 (snd (verify_on r b2))]).
Proof.
  intros Hn1 Hn2. eapply rtc_l; [by apply (step_load _ 0 b1)|]. eapply rtc_l; [by apply (step_load _ 1 b2)|].
  cbn [root callers start fmap list_fmap insert list_insert]. unfold load.
  rewrite (proj2 (Z.eqb_neq (Number b1) 0)), (proj2 (Z.eqb_neq (Number b2) 0)) by done.
  eapply rtc_l; [by apply (step_store _ 0 b1 r)|]. apply rtc_once.
  exact (step_store (mkShared (store r r b1) [Returned b1 (snd (verify_on r b1)); Derived b2 r]) 1 b2 r eq_refl).
Qed.

Context {L : EthLaws E}.

(** ** Properties *)

(** Calls made one after the other are the sequential verification. *)
Theorem serial_calls (bs : list L2Block) (e : Engine) :
  rtc step (start (stateRoot e) bs)
    (mkShared (stateRoot (fst (verify_all bs e))) (zip_with Returned bs (snd (verify_all bs e)))).
Proof.
  enough (forall pre, rtc step (mkShared (stateRoot e) (pre ++ (Calling <$> bs)))
    (mkShared (stateRoot (fst (verify_all bs e))) (pre ++ zip_with Returned bs (snd (verify_all bs e))))) as H
    by apply (H []).
  revert e. induction bs as [|b bs IH]; intros e pre; [done|]. cbn [fmap list_fmap verify_all].
  etrans; [apply call_run|]. rewrite verify_on_eq. destruct (VerifyBlock b e) as [e' r]. cbn [fst snd].
  specialize (IH e' (pre ++ [Returned b r])). destruct (verify_all bs e') as [e'' rs]. cbn [fst snd] in *.
  by rewrite <- !app_assoc in IH.
Qed.

(** C19. However concurrent calls interleave: the engine's root is always the derivation of a
    sequence of accepted blocks, each at most once, and every verdict is the one the block
    gets on such a root. No call invents a root, but accepted blocks may be missing. *)
Theorem concurrent_verdicts (r0 : Hash) (bs : list L2Block) (s : shared) (Hr : rtc step (start r0 bs) s) :
  (exists l, root s = derive r0 l /\ l ⊆+ accepted s) /\
  (forall i b r, callers s !! i = Some (Returned b r) ->
     exists l, r = snd (verify_on (derive r0 l) b) /\ l ⊆+ accepted s).
Proof. destruct (steps_derived r0 _ _ Hr (derived_start r0 bs)) as [H1 _ H3]. split; [exact H1|exact H3]. Qed.

(** C20. An update can be lost. Let [b1], [b2], [b3] be an honest sequence, [b2] without a
    claimed root. Called one after the other, the first two leave the root that [b3] is
    valid on; called concurrently, both may be accepted and the root be as if [b1] had never
    been: then [b3] is rejected, unless its claim happens to fit the other root too. *)
Theorem lost_update (r : Hash) (b1 b2 b3 : L2Block)
  (Hh : honest r [b1; b2; b3]) (He : StateRoot b2 = ""%string)
  (H3 : StateRoot b3 <> ""%string) (Hne : StateRoot b3 <> Hash_Hex (derive r [b2; b3])) :
  let valid_on root b := rValid (snd (verify_on root b)) in
  (exists s, rtc step (start r [b1; b2]) s /\ accepted s = [b1; b2] /\ valid_on (root s) b3 = true) /\
  (exists s, rtc step (start r [b1; b2]) s /\ accepted s = [b1; b2] /\ root s = derive r [b2] /\ valid_on (root s) b3 = false).
Proof.
  destruct Hh as (Hn1 & Hc1 & Hn2 & Hc2 & Hn3 & Hc3 & _). intros valid_on.
  assert (forall root b, Number b <> 0 -> StateRoot b = ""%string \/ StateRoot b = Hash_Hex (derive root [b]) ->
    verify_on root b = (derive root [b], mkResult (Number b) true "" (Hash_Hex (derive root [b])))) as Hok.
  { intros root b Hn Hc. unfold verify_on. by rewrite (VerifyBlock_accepts b (mkEngine root false) Hn Hc). }
  assert (verify_on r b1 = _) as E1 by exact (Hok r b1 Hn1 Hc1).
  assert (verify_on r b2 = _) as E2 by exact (Hok r b2 Hn2 (or_introl He)).
  assert (verify_on (derive r [b1]) b2 = _) as E12 by exact (Hok _ b2 Hn2 Hc2).
  assert (verify_on (derive r [b1; b2]) b3 = _) as E123 by exact (Hok _ b3 Hn3 Hc3).
  split.
  - eexists. split; [|split].
    + etrans; [apply (call_run r [] b1 [Calling b2])|]. apply (call_run _ [Returned b1 _] b2 []).
    + unfold accepted. cbn [callers omap list_omap accepted_block app]. rewrite E1. cbn [fst snd]. by rewrite E12.
    + cbn [root]. unfold valid_on. rewrite E1. cbn [fst]. rewrite E12. cbn [fst].
      change (rValid (snd (verify_on (derive r [b1; b2]) b3)) = true). by rewrite E123.
  - eexists. split; [|split; [|split]].
    + by apply interleaved_run.
    + unfold accepted. cbn [callers insert list_insert omap list_omap accepted_block]. by rewrite E1, E2.
    + cbn [root]. by rewrite !store_eq, E2.
    + cbn [root]. rewrite !store_eq, E2. cbn [snd rValid]. unfold valid_on, verify_on.
      destruct (VerifyBlock_rejects b3 (mkEngine (derive r [b2]) false)) as (err & root & ->); [|done].
      right. intros [H|H]; [done|]. apply Hne. exact H.
Qed.
End Calls.

(** ** Witnesses *)

Section Witnesses.
Import ToyEth.

Definition genesis : Hash := stateRoot NewEngine.

(** The third block of a chain, with the root the chain leads to. *)
Definition third : L2Block :=
  mkL2Block 3 "0xaa" "0xbb" 1700000000 (Hash_Hex (derive genesis [sample_block 1; sample_block 2; sample_block 3]))
    21000 30000000 1 "seq".

Lemma lost_update_witness :
  exists s, rtc step (start genesis [sample_block 1; sample_block 2]) s /\
    accepted s = [sample_block 1; sample_block 2] /\ rValid (snd (verify_on (root s) third)) = false.
Proof.
  destruct (lost_update genesis (sample_block 1) (sample_block 2) third) as [_ (s & H1 & H2 & _ & H3)].
  - split; [done|]. split; [by left|]. split; [done|]. split; [by left|]. split; [done|]. split; [|done].
    right. vm_compute. reflexivity.
  - done.
  - vm_compute. discriminate.
  - vm_compute. discriminate.
  - exists s. split; [exact H1|]. split; [exact H2|exact H3].
Defined.

(** Both calls read the first root before either writes: the first block is accepted; the
    second, which claims the root of the two in order, is rejected. *)
Definition claims_root : L2Block :=
  mkL2Block 2 "0xaa" "0xbb" 1700000000 (Hash_Hex (derive genesis [sample_block 1; sample_block 2])) 21000 30000000 1 "seq".
Definition overlapped : shared :=
  mkShared (store (store genesis genesis (sample_block 1)) genesis claims_root)
    [Returned (sample_block 1) (snd (verify_on genesis (sample_block 1)));
     Returned claims_root (snd (verify_on genesis claims_root))].

Lemma concurrent_verdicts_witness :
  accepted overlapped = [sample_block 1] /\ rValid (snd (verify_on genesis claims_root)) = false /\
  (exists l, root overlapped = derive genesis l /\ l ⊆+ accepted overlapped) /\
  (exists l, snd (verify_on genesis claims_root) = snd (verify_on (derive genesis l) claims_root) /\ l ⊆+ accepted overlapped).
Proof.
  destruct (concurrent_verdicts genesis [sample_block 1; claims_root] overlapped) as [H1 H2].
  - apply interleaved_run; discriminate.
  - split; [vm_compute; reflexivity|]. split; [vm_compute; reflexivity|]. split; [exact H1|].
    apply (H2 1%nat claims_root). reflexivity.
Defined.

End Witnesses.
End Race.
