(* ===== verification/Client.v ===== *)
(** * The sequencer's JSON-RPC interface, client side

    The texts [rpcCall], [fetchLatestBlockNumber], [fetchBlock] (internal/sync),
    [fetchLaneStats] and [fetchComputeReceipt] (internal/verification) send to the
    sequencer, and what they make of its answers. An answer is the outcome of the HTTP
    exchange: the body, or an error. *)

From S2P Require Import Prelude Bytes Fmt Sha256 Eth Json Metrics Wire Sync Verification.
Import Json Wire.

Module Client.

(** ** internal/sync *)

(** [json.Marshal] of the request map: the keys are sorted. *)
Definition request_tree (method : string) (params : list json) : json :=
  JObj [(text "id", JNum (FormatInt 1)); (text "jsonrpc", JStr (text "2.0"));
        (text "method", JStr (text method)); (text "params", JArr params)].
Definition rpcCall_body (method : string) (params : list json) : list byte := encode (request_tree method params).

Definition latest_body : list byte := rpcCall_body "eth_blockNumber" [].
Definition block_body (num : Z) : list byte :=
  rpcCall_body "eth_getBlockByNumber" [JStr (text (Fmt.Sprintf_0x num)); JBool false].

(** The answer: [rpcResult] as received, [rpcError] when not nil. *)
Record rpcResponse := mkResponse { rpcResult : option json; rpcError : option (Z * list byte) }.

Definition dec_raw : decoder (option json) := fun j _ => (Some j, true).

(** A pointer: [null] clears it, anything else is decoded into what it points to, a new
    zero value when it is nil. *)
Definition dec_ptr {A} (zero : A) (d : decoder A) : decoder (option A) := fun j old =>
  match j with
  | JNull => (None, true)
  | _ => let '(a, ok) := d j (default zero old) in (Some a, ok)
  end.

Definition error_fields : list (field (Z * list byte)) := [
  ("code"%string, on fst (fun x e => (x, snd e)) dec_int);
  ("message"%string, on snd (fun x e => (fst e, x)) dec_string) ].

Definition response_fields : list (field rpcResponse) := [
  ("result"%string, on rpcResult (fun x r => mkResponse x (rpcError r)) dec_raw);
  ("error"%string, on rpcError (fun x r => mkResponse (rpcResult r) x) (dec_ptr (0, []) (dec_struct error_fields))) ].

(** [json.NewDecoder(r).Decode(&v)]: the first value of the stream, the rest unread. *)
Definition Decode {A} (fields : list (field A)) (a : A) (stream : list byte) : option A :=
  '(j, _) ← parse_value (S (length stream)) 0 stream;
  let '(v, ok) := dec_struct fields j a in if ok then Some v else None.

Definition rpcCall (resp : outcome (list byte)) : outcome (option json) :=
  match resp with
  | Ok body =>
      match Decode response_fields (mkResponse None None) body with
      | None => Err "decode response"
      | Some r =>
          match rpcError r with
          | Some (code, msg) =>
              Err ("rpc error " +:+ string_of_bytes (FormatInt code) +:+ ": " +:+ string_of_bytes msg)
          | None => Ok (rpcResult r)
          end
      end
  | Err e => Err ("rpc call: " +:+ e)
  | Panic w => Panic w
  end.

(** [rpcCall] and the [Unmarshal] of its result, in the form the engine of [Sync] takes:
    [None] is the JSON [null]. An absent result is no JSON text. *)
Definition height_reply (resp : outcome (list byte)) : outcome (option string) :=
  result ← rpcCall resp;
  match result with
  | Some JNull => Ok None
  | Some (JStr s) => Ok (Some (string_of_bytes s))
  | _ => Err "decode block number"
  end.

(** [L2Block] has the fields and tags of [BlockAnnounce]. *)
Definition dec_block (j : json) : option Sync.L2Block :=
  let '(a, ok) := dec_struct announce_fields j (Sync.mkAnnounce 0 "" "" 0 "" 0 0 0 "") in
  if ok then Some (Sync.block_of_announce a) else None.

Definition block_reply (resp : outcome (list byte)) : outcome (option Sync.L2Block) :=
  result ← rpcCall resp;
  match result with
  | Some JNull => Ok None
  | Some j => match dec_block j with Some b => Ok (Some b) | None => Err "decode block" end
  | None => Err "decode block"
  end.

Definition fetchLatestBlockNumber (resp : outcome (list byte)) : outcome Z :=
  Sync.fetchLatestBlockNumber (height_reply resp).
Definition fetchBlock (resp : outcome (list byte)) : outcome Sync.L2Block := Sync.fetchBlock (block_reply resp).

(** Whatever the sequencer answers, a height and a block have Go's widths. *)
Lemma fetchLatestBlockNumber_typed resp h : fetchLatestBlockNumber resp = Ok h -> is_u64 h.
Proof.
  unfold fetchLatestBlockNumber, Sync.fetchLatestBlockNumber. intros (s & _ & H)%outcome_bind_Ok.
  injection H as <-. destruct (Fmt.Sscanf_0x _) as [n|] eqn:E; [|done]. by apply Fmt.Sscanf_range in E.
Qed.

Lemma fetchBlock_typed resp b : fetchBlock resp = Ok b -> block_typed b.
Proof.
  unfold fetchBlock, Sync.fetchBlock. intros (o & Ho & H)%outcome_bind_Ok. injection H as <-.
  destruct o as [b|]; [|by split_and!]. cbn [default]. unfold block_reply in Ho.
  apply outcome_bind_Ok in Ho as (r & _ & Hr).
  assert (forall j, dec_block j = Some b -> block_typed b) as Hd.
  { intros j. unfold dec_block. pose proof (keeps_struct _ _ announce_fields_typed j _ zero_announce_typed) as Hk.
    destruct (dec_struct announce_fields j _) as [a ok]. destruct ok; [|done]. intros [= <-]. exact Hk. }
  destruct r as [[]|]; try done; (destruct (dec_block _) as [b'|] eqn:E in Hr; [|done]); injection Hr as ->; eauto.
Qed.

(** A sequencer that answers every call; [first] and [again] answer the height queries
    of the loop and of the metrics. *)
Definition env_of (first : outcome (list byte)) (serve : Z -> outcome (list byte))
    (again : Z -> outcome (list byte)) : Sync.rpc_env :=
  Sync.mkRpc (height_reply first) (fun n => block_reply (serve n)) (fun n => height_reply (again n)).

(** ** internal/verification *)

Definition dec_bool : decoder bool := fun j old =>
  match j with JNull => (old, true) | JBool b => (b, true) | _ => (old, false) end.

Import Verification.

Definition lane_body : list byte :=
  quoted "{'jsonrpc':'2.0','id':1,'method':'inso_getLaneStats','params':[]}".

Definition lane_fields : list (field LaneStats) := [
  ("fast"%string, on Fast (fun x s => mkLanes x (Standard s) (Slow s) (Total s) (Enabled s)) dec_int);
  ("standard"%string, on Standard (fun x s => mkLanes (Fast s) x (Slow s) (Total s) (Enabled s)) dec_int);
  ("slow"%string, on Slow (fun x s => mkLanes (Fast s) (Standard s) x (Total s) (Enabled s)) dec_int);
  ("total"%string, on Total (fun x s => mkLanes (Fast s) (Standard s) (Slow s) x (Enabled s)) dec_int);
  ("enabled"%string, on Enabled (fun x s => mkLanes (Fast s) (Standard s) (Slow s) (Total s) x) dec_bool) ].

Definition lane_response : list (field LaneStats) := [("result"%string, dec_struct lane_fields)].

Definition fetchLaneStats (resp : outcome (list byte)) : outcome LaneStats :=
  data ← resp; 
  match Unmarshal lane_response (mkLanes 0 0 0 0 false) data with Some s => Ok s | None => Err "json" end.

(** The transaction hash is put between quotation marks as it is. *)
Definition receipt_body (txHash : list byte) : list byte :=
  quoted "{'jsonrpc':'2.0','id':1,'method':'inso_getComputeReceipt','params':['" ++ txHash ++ quoted "']}".

Definition zero_receipt : ComputeReceiptData := mkReceipt "" 0 0 "" 0 0 "" "" "" "" "" "" false.

Definition receipt_fields : list (field ComputeReceiptData) := [
  ("txHash"%string, str_field TxHash (fun x r => mkReceipt x (rcBlockNumber r) (TxIndex r) (Sender r) (rcGasUsed r)
     (Status r) (PreStateRoot r) (PostStateRoot r) (InputHash r) (OutputHash r) (LogsHash r) (ReceiptHash r) (Verified r)));
  ("blockNumber"%string, on rcBlockNumber (fun x r => mkReceipt (TxHash r) x (TxIndex r) (Sender r) (rcGasUsed r)
     (Status r) (PreStateRoot r) (PostStateRoot r) (InputHash r) (OutputHash r) (LogsHash r) (ReceiptHash r) (Verified r))
     (dec_uint 64));
  ("txIndex"%string, on TxIndex (fun x r => mkReceipt (TxHash r) (rcBlockNumber r) x (Sender r) (rcGasUsed r)
     (Status r) (PreStateRoot r) (PostStateRoot r) (InputHash r) (OutputHash r) (LogsHash r) (ReceiptHash r) (Verified r))
     dec_int);
  ("sender"%string, str_field Sender (fun x r => mkReceipt (TxHash r) (rcBlockNumber r) (TxIndex r) x (rcGasUsed r)
     (Status r) (PreStateRoot r) (PostStateRoot r) (InputHash r) (OutputHash r) (LogsHash r) (ReceiptHash r) (Verified r)));
  ("gasUsed"%string, on rcGasUsed (fun x r => mkReceipt (TxHash r) (rcBlockNumber r) (TxIndex r) (Sender r) x
     (Status r) (PreStateRoot r) (PostStateRoot r) (InputHash r) (OutputHash r) (LogsHash r) (ReceiptHash r) (Verified r))
     (dec_uint 64));
  ("status"%string, on Status (fun x r => mkReceipt (TxHash r) (rcBlockNumber r) (TxIndex r) (Sender r) (rcGasUsed r)
     x (PreStateRoot r) (PostStateRoot r) (InputHash r) (OutputHash r) (LogsHash r) (ReceiptHash r) (Verified r))
     (dec_uint 64));
  ("preStateRoot"%string, str_field PreStateRoot (fun x r => mkReceipt (TxHash r) (rcBlockNumber r) (TxIndex r) (Sender r)
     (rcGasUsed r) (Status r) x (PostStateRoot r) (InputHash r) (OutputHash r) (LogsHash r) (ReceiptHash r) (Verified r)));
  ("postStateRoot"%string, str_field PostStateRoot (fun x r => mkReceipt (TxHash r) (rcBlockNumber r) (TxIndex r) (Sender r)
     (rcGasUsed r) (Status r) (PreStateRoot r) x (InputHash r) (OutputHash r) (LogsHash r) (ReceiptHash r) (Verified r)));
  ("inputHash"%string, str_field InputHash (fun x r => mkReceipt (TxHash r) (rcBlockNumber r) (TxIndex r) (Sender r)
     (rcGasUsed r) (Status r) (PreStateRoot r) (PostStateRoot r) x (OutputHash r) (LogsHash r) (ReceiptHash r) (Verified r)));
  ("outputHash"%string, str_field OutputHash (fun x r => mkReceipt (TxHash r) (rcBlockNumber r) (TxIndex r) (Sender r)
     (rcGasUsed r) (Status r) (PreStateRoot r) (PostStateRoot r) (InputHash r) x (LogsHash r) (ReceiptHash r) (Verified r)));
  ("logsHash"%string, str_field LogsHash (fun x r => mkReceipt (TxHash r) (rcBlockNumber r) (TxIndex r) (Sender r)
     (rcGasUsed r) (Status r) (PreStateRoot r) (PostStateRoot r) (InputHash r) (OutputHash r) x (ReceiptHash r) (Verified r)));
  ("receiptHash"%string, str_field ReceiptHash (fun x r => mkReceipt (TxHash r) (rcBlockNumber r) (TxIndex r) (Sender r)
     (rcGasUsed r) (Status r) (PreStateRoot r) (PostStateRoot r) (InputHash r) (OutputHash r) (LogsHash r) x (Verified r)));
  ("verified"%string, on Verified (fun x r => mkReceipt (TxHash r) (rcBlockNumber r) (TxIndex r) (Sender r) (rcGasUsed r)
     (Status r) (PreStateRoot r) (PostStateRoot r) (InputHash r) (OutputHash r) (LogsHash r) (ReceiptHash r) x) dec_bool) ].

Definition receipt_response : list (field (option ComputeReceiptData)) :=
  [("result"%string, dec_ptr zero_receipt (dec_struct receipt_fields))].

Definition fetchComputeReceipt (resp : outcome (list byte)) : outcome (option ComputeReceiptData) :=
  data ← resp;
  match Unmarshal receipt_response None data with Some r => Ok r | None => Err "json" end.

(** ** Texts *)

(** A successful and a failed answer of the sequencer. *)
Definition reply_tree (result : json) : json :=
  JObj [(text "jsonrpc", JStr (text "2.0")); (text "id", JNum (FormatInt 1)); (text "result", result)].
Definition error_tree (code : Z) (message : list byte) : json :=
  JObj [(text "jsonrpc", JStr (text "2.0")); (text "id", JNum (FormatInt 1));
        (text "error", JObj [(text "code", JNum (FormatInt code)); (text "message", JStr message)])].

Definition block_values (b : Sync.L2Block) : list json :=
  [JNum (FormatInt (Sync.Number b)); JStr (text (Sync.BHash b)); JStr (text (Sync.ParentHash b));
   JNum (FormatInt (Sync.Timestamp b)); JStr (text (Sync.StateRoot b)); JNum (FormatInt (Sync.GasUsed b));
   JNum (FormatInt (Sync.GasLimit b)); JNum (FormatInt (Sync.TxCount b)); JStr (text (Sync.Sequencer b))].
Definition block_tree (b : Sync.L2Block) : json :=
  JObj (zip_with (fun f v => (text (fst f), v)) announce_fields (block_values b)).

(** A block a Go struct can hold, with ASCII strings. *)
Definition block_ok (b : Sync.L2Block) : Prop :=
  is_u64 (Sync.Number b) /\ is_u64 (Sync.Timestamp b) /\ is_u64 (Sync.GasUsed b) /\ is_u64 (Sync.GasLimit b) /\
  is_i64 (Sync.TxCount b) /\ ascii (text (Sync.BHash b)) /\ ascii (text (Sync.ParentHash b)) /\
  ascii (text (Sync.StateRoot b)) /\ ascii (text (Sync.Sequencer b)).

Lemma Decode_encode {A} (fields : list (field A)) a d j tl :
  printable d j -> Z.of_nat d <= maxNestingDepth -> delim tl ->
  Decode fields a (encode j ++ tl) = let '(v, ok) := dec_struct fields j a in if ok then Some v else None.
Proof.
  intros Hj Hd Htl. unfold Decode. rewrite (parse_value_printable d); [done|done|lia|done|].
  rewrite length_app. lia.
Qed.

Lemma Unmarshal_encode {A} (fields : list (field A)) a d j :
  printable d j -> Z.of_nat d <= maxNestingDepth ->
  Unmarshal fields a (encode j) = let '(v, ok) := dec_struct fields j a in if ok then Some v else None.
Proof. intros Hj Hd. unfold Unmarshal. by rewrite (parse_encode d). Qed.

Lemma ascii_words :
  ascii (text "jsonrpc") /\ ascii (text "2.0") /\ ascii (text "id") /\ ascii (text "result") /\
  ascii (text "error") /\ ascii (text "code") /\ ascii (text "message") /\ ascii (text "method") /\ ascii (text "params").
Proof. split_and!; ascii_text. Qed.

Lemma printable_reply d v : printable d v -> printable (S d) (reply_tree v).
Proof.
  intros Hv. destruct ascii_words as (? & ? & ? & ? & _). apply p_obj.
  rewrite !Forall_cons, Forall_nil. cbn [fst snd]. split_and!; try done; apply p_scalar; [done|by apply scalar_int].
Qed.

Lemma printable_error c m : is_i64 c -> ascii m -> printable 2 (error_tree c m).
Proof.
  intros Hc Hm. unfold is_i64 in Hc. destruct ascii_words as (? & ? & ? & ? & ? & ? & ? & _). apply p_obj.
  rewrite !Forall_cons, Forall_nil. cbn [fst snd]. split_and!; try done.
  - by apply p_scalar.
  - by apply p_scalar, scalar_int.
  - apply p_obj. rewrite !Forall_cons, Forall_nil. cbn [fst snd].
    split_and!; try done; apply p_scalar; [apply scalar_int; lia|done].
Qed.

Lemma response_names : distinct_names response_fields.
Proof. apply (bool_decide_unpack _). vm_compute. done. Qed.
Lemma error_names : distinct_names error_fields.
Proof. apply (bool_decide_unpack _). vm_compute. done. Qed.

(** Members whose names are no fields are skipped. *)
Lemma dec_member_skip {A} (fields : list (field A)) acc k v : find_field fields k = None -> dec_member fields acc (k, v) = acc.
Proof. intros H. unfold dec_member. cbn [fst]. by rewrite H. Qed.

Lemma dec_member_field {A} (fields : list (field A)) a ok n d v :
  distinct_names fields -> (n, d) ∈ fields ->
  dec_member fields (a, ok) (text n, v) = let '(a', ok') := d v a in (a', ok && ok').
Proof. intros Hn Hin. unfold dec_member. cbn [fst snd]. by rewrite (find_field_elem fields n d). Qed.

Lemma dec_reply {A} (fields : list (field A)) d a v :
  distinct_names fields -> ("result"%string, d) ∈ fields ->
  find_field fields (text "jsonrpc") = None -> find_field fields (text "id") = None ->
  dec_struct fields (reply_tree v) a = d v a.
Proof.
  intros Hn Hin H1 H2. unfold reply_tree. cbn [dec_struct foldl].
  rewrite (dec_member_skip fields _ (text "jsonrpc")), (dec_member_skip fields _ (text "id")) by done. rewrite (dec_member_field fields a true "result" d) by done.
  by destruct (d v a) as [? []].
Qed.

Lemma rpcCall_reply d v tl :
  printable d v -> Z.of_nat (S d) <= maxNestingDepth -> delim tl ->
  rpcCall (Ok (encode (reply_tree v) ++ tl)) = Ok (Some v).
Proof.
  intros Hv Hd Htl. unfold rpcCall. rewrite (Decode_encode _ _ (S d)) by (done || by apply printable_reply).
  rewrite (dec_reply response_fields (on rpcResult (fun x r => mkResponse x (rpcError r)) dec_raw));
    [done|exact response_names|by left|reflexivity..].
Qed.

Lemma rpcCall_error c m tl :
  is_i64 c -> ascii m -> delim tl ->
  rpcCall (Ok (encode (error_tree c m) ++ tl)) =
    Err ("rpc error " +:+ string_of_bytes (FormatInt c) +:+ ": " +:+ string_of_bytes m).
Proof.
  intros Hc Hm Htl. unfold rpcCall. rewrite (Decode_encode _ _ 2) by (done || by apply printable_error).
  unfold error_tree. cbn [dec_struct foldl]. rewrite (dec_member_skip _ _ (text "jsonrpc")), (dec_member_skip _ _ (text "id")) by reflexivity.
  rewrite (dec_member_field response_fields _ _ "error"
    (on rpcError (fun x r => mkResponse (rpcResult r) x) (dec_ptr (0, []) (dec_struct error_fields))))
    by (exact response_names || (right; left)).
  unfold on, dec_ptr. cbn [dec_struct foldl rpcError default].
  rewrite (dec_member_field error_fields _ _ "code" (on fst (fun x e => (x, snd e)) dec_int))
    by (exact error_names || left).
  unfold on at 1. cbn [dec_int fst snd]. rewrite ParseInt_FormatInt by done. cbn [andb].
  rewrite (dec_member_field error_fields _ _ "message" (on snd (fun x e => (fst e, x)) dec_string))
    by (exact error_names || (right; left)).
  done.
Qed.

Lemma printable_block b : block_ok b -> printable 1 (block_tree b).
Proof.
  unfold block_ok, is_u64, is_i64. intros (H1 & H2 & H3 & H4 & H5 & H6 & H7 & H8 & H9).
  apply flat_printable, flat_zip; [vm_compute; reflexivity|]. unfold block_values.
  repeat constructor; try (apply scalar_int; lia); done.
Qed.

Lemma dec_block_tree b : block_ok b -> dec_block (block_tree b) = Some b.
Proof.
  unfold block_ok, is_u64, is_i64. intros (H1 & H2 & H3 & H4 & H5 & H6 & H7 & H8 & H9).
  unfold dec_block, block_tree. cbn [dec_struct]. rewrite dec_in_order; [|exact announce_names|done].
  unfold block_values, announce_fields, str_field, text. cbn [zip zip_with].
  repeat (rewrite foldl_step; decode_step).
  cbn [foldl]. rewrite !string_of_bytes_of_string. destruct b; reflexivity.
Qed.

(** ASCII texts. *)
Lemma ascii_hex n : 0 <= n < 16 -> forallb (fun b => code b <? 128) (text (String (Fmt.hex_digit n) "")) = true.
Proof.
  intros H. assert (forallb (fun n => forallb (fun b => code b <? 128) (text (String (Fmt.hex_digit n) ""))) (seqZ 0 16) = true)
    as Hall by (vm_compute; reflexivity).
  rewrite forallb_forall in Hall. apply Hall, list_elem_of_In, elem_of_seqZ. lia.
Qed.

Lemma ascii_Sprintf n : 0 <= n -> ascii (text (Fmt.Sprintf_0x n)).
Proof.
  intros Hn. apply text_ascii. change (text (Fmt.Sprintf_0x n)) with (text "0x" ++ text (Fmt.format_hex n)).
  rewrite forallb_app. apply andb_true_iff. split; [vm_compute; reflexivity|]. unfold Fmt.format_hex.
  pose proof (Fmt.hex_digits_range 16 n Hn) as Hr. induction Hr as [|d ds Hd _ IH]; [done|].
  cbn [Fmt.string_of_digits]. change (text (String ?c ?s)) with (text (String c "") ++ text s).
  rewrite forallb_app, IH. rewrite ascii_hex by done. done.
Qed.

(** Quotation marks are the only difference between a text and its JSON string when it has
    no character to escape. *)
Definition plain (s : list byte) : Prop := Forall (fun b => code b < 128 /\ escape b = [b]) s.

Lemma plain_is_ascii s : plain s -> ascii s.
Proof. intros H. eapply Forall_impl; [exact H|]. by intros b [? _]. Qed.

Lemma encode_string_plain s : plain s -> encode_string s = chr 34 :: s ++ [chr 34].
Proof.
  intros H. unfold encode_string. f_equal. f_equal. induction H as [|b s [Hb He] _ IH]; [done|].
  cbn [length encode_chars]. destruct (Z.ltb_spec (code b) 128); [|lia]. by rewrite He, IH.
Qed.

(** The request as it should be, and one that asks for something else. *)
Definition receipt_tree (txHash : list byte) : json :=
  JObj [(text "jsonrpc", JStr (text "2.0")); (text "id", JNum (FormatInt 1));
        (text "method", JStr (text "inso_getComputeReceipt")); (text "params", JArr [JStr txHash])].
Definition injected_tree (method : list byte) : json :=
  JObj [(text "jsonrpc", JStr (text "2.0")); (text "id", JNum (FormatInt 1));
        (text "method", JStr (text "inso_getComputeReceipt")); (text "params", JArr [JStr []]);
        (text "method", JStr method); (text "x", JArr [JStr []])].
Definition injection (method : list byte) : list byte :=
  quoted "'],'method':'" ++ method ++ quoted "','x':['".

Lemma receipt_body_plain h : plain h -> receipt_body h = encode (receipt_tree h).
Proof.
  intros Hh. unfold receipt_body, receipt_tree. cbn [encode List.map commas]. rewrite (encode_string_plain h Hh).
  repeat (rewrite <- app_assoc; cbn [app]). reflexivity.
Qed.

Lemma receipt_body_injection m : plain m -> receipt_body (injection m) = encode (injected_tree m).
Proof.
  intros Hm. unfold receipt_body, injected_tree, injection. cbn [encode List.map commas].
  rewrite (encode_string_plain m Hm). repeat (rewrite <- app_assoc; cbn [app]). reflexivity.
Qed.

Lemma block_reply_text b tl :
  block_ok b -> delim tl -> block_reply (Ok (encode (reply_tree (block_tree b)) ++ tl)) = Ok (Some b).
Proof.
  intros Hb Htl. unfold block_reply. rewrite (rpcCall_reply 1) by (done || by apply printable_block).
  cbn [mbind outcome_bind]. unfold block_tree at 1. fold (block_tree b). by rewrite dec_block_tree.
Qed.

Lemma height_reply_text n tl :
  is_u64 n -> delim tl ->
  height_reply (Ok (encode (reply_tree (JStr (text (Fmt.Sprintf_0x n)))) ++ tl)) = Ok (Some (Fmt.Sprintf_0x n)).
Proof.
  intros Hn Htl. pose proof (ascii_Sprintf n ltac:(unfold is_u64 in Hn; lia)).
  unfold height_reply. rewrite (rpcCall_reply 0) by (done || by apply p_scalar). cbn [mbind outcome_bind].
  unfold text. by rewrite string_of_bytes_of_string.
Qed.

(** ** Properties *)

(** C17. Catching up over the wire. When the sequencer prints its height and its blocks as
    JSON-RPC answers, one [syncFromRPC] parses them all, delivers exactly the missing
    blocks in order and ends at the sequencer's height. *)
Theorem catch_up_texts (blk : Z -> Sync.L2Block) (again : Z -> outcome (list byte)) (remote : Z) (tl : list byte)
  (fuel : nat) (e : Sync.Engine) (m : Metrics.t)
  (Hc : Sync.contiguous e) (Hon : Sync.onNewBlock e = true) (Htl : delim tl)
  (Hremote : Sync.latestBlock e < remote < 2 ^ 64 - 1)
  (Hblk : forall n, Sync.latestBlock e < n <= remote -> block_ok (blk n) /\ Sync.Number (blk n) = n)
  (Hfuel : remote - Sync.latestBlock e <= Z.of_nat fuel) :
  let env := env_of (Ok (encode (reply_tree (JStr (text (Fmt.Sprintf_0x remote)))) ++ tl))
               (fun n => Ok (encode (reply_tree (block_tree (blk n))) ++ tl)) again in
  exists e' m', Sync.syncFromRPC fuel env (e, m) =
      ((e', m'), map blk (seqZ (Sync.latestBlock e + 1) (remote - Sync.latestBlock e)), true) /\
    Sync.contiguous e' /\ Sync.latestBlock e' = remote.
Proof.
  intros env. pose proof (Sync.contiguous_latest e Hc) as Hu. unfold is_u64 in Hu.
  unfold Sync.syncFromRPC, Sync.fetchLatestBlockNumber. cbn [env env_of Sync.latest_reply].
  rewrite height_reply_text by (done || (unfold is_u64; lia)). cbn [mbind outcome_bind from_option id].
  rewrite Fmt.Sscanf_Sprintf by (unfold is_u64; lia). cbn [from_option id]. unfold Sync.LatestBlock. simpl fst.
  destruct (Z.leb_spec remote (Sync.latestBlock e)); [lia|]. rewrite u64_small by (unfold is_u64; lia).
  destruct (Sync.catch_up_serves fuel env blk (Sync.latestBlock e + 1) (remote + 1) remote e m)
    as (e' & m' & H1 & H2 & H3); try done; try lia.
  - split; [|lia]. intros n Hn. destruct (Hblk n ltac:(lia)) as [Hb Hnum]. split; [|done].
    by apply block_reply_text.
  - exists e', m'. fold env. rewrite H1. replace (remote + 1 - (Sync.latestBlock e + 1)) with (remote - Sync.latestBlock e) by lia.
    split; [done|]. split; [done|lia].
Qed.

(** An error answer is read as an error by the sync engine, and as good news by the
    verification engine, which never looks at the error member: lane statistics that
    could not be served count as valid, a receipt that could not be served as absent. *)
Theorem error_reply (c : Z) (m : list byte) `{E : EthLib} (txHash : string) (Hc : is_i64 c) (Hm : ascii m) :
  let resp := Ok (encode (error_tree c m)) in
  let err := ("rpc error " +:+ string_of_bytes (FormatInt c) +:+ ": " +:+ string_of_bytes m)%string in
  fetchBlock resp = Err err /\ fetchLatestBlockNumber resp = Err err /\
  VerifyLaneAllocation (fetchLaneStats resp) = mkLaneResult 0 false 0 0 0 true "" /\
  VerifyComputeReceipt (fetchComputeReceipt resp) txHash = mkReceiptResult txHash 0 false "receipt not found" "" false.
Proof.
  intros resp err. pose proof (rpcCall_error c m [] Hc Hm I) as Hr. rewrite app_nil_r in Hr.
  assert (forall A (fields : list (field A)) a, find_field fields (text "jsonrpc") = None ->
    find_field fields (text "id") = None -> find_field fields (text "error") = None ->
    Unmarshal fields a (encode (error_tree c m)) = Some a) as Hskip.
  { intros A fields a H1 H2 H3. rewrite (Unmarshal_encode _ _ 2) by (done || by apply printable_error).
    unfold error_tree. cbn [dec_struct foldl]. by rewrite !dec_member_skip. }
  unfold resp, fetchBlock, fetchLatestBlockNumber, block_reply, height_reply. rewrite Hr. split; [done|]. split; [done|].
  unfold fetchLaneStats, fetchComputeReceipt. cbn [mbind outcome_bind].
  by rewrite !Hskip by reflexivity.
Qed.

(** The request for a receipt is the intended one for a transaction hash that needs no
    escaping; the hash is not escaped, so that whoever chooses it can make the
    sequencer see any method instead (a later member replaces an earlier one). *)
Theorem receipt_request (txHash method : list byte) (Hh : plain txHash) (Hm : plain method) :
  parse (receipt_body txHash) = Some (receipt_tree txHash) /\
  parse (receipt_body (injection method)) = Some (injected_tree method).
Proof.
  assert (ascii (text "x") /\ ascii (text "inso_getComputeReceipt") /\ ascii []) as (Hx & Hi & Hn)
    by (split_and!; [ascii_text..|constructor]).
  destruct ascii_words as (? & ? & ? & _ & _ & _ & _ & ? & ?).
  apply plain_is_ascii in Hh as Hha. apply plain_is_ascii in Hm as Hma.
  rewrite receipt_body_plain, receipt_body_injection by done.
  split; apply (parse_encode 2); try done; apply p_obj; rewrite !Forall_cons, Forall_nil; cbn [fst snd];
    split_and!; try done; try (by apply p_scalar); try (by apply p_scalar, scalar_int);
    apply p_arr; (apply Forall_cons; split; [by apply p_scalar|constructor]).
Qed.

(** The requests of the sync engine are well formed and say what is meant. *)
Theorem sync_requests (num : Z) (Hn : is_u64 num) :
  parse latest_body = Some (request_tree "eth_blockNumber" []) /\
  parse (block_body num) = Some (request_tree "eth_getBlockByNumber" [JStr (text (Fmt.Sprintf_0x num)); JBool false]).
Proof.
  pose proof (ascii_Sprintf num ltac:(unfold is_u64 in Hn; lia)) as Ha.
  destruct ascii_words as (? & ? & ? & _ & _ & _ & _ & ? & ?).
  assert (ascii (text "eth_blockNumber") /\ ascii (text "eth_getBlockByNumber")) as [H4 H5] by (split; ascii_text).
  split; apply (parse_encode 2); try done; apply p_obj; rewrite !Forall_cons, Forall_nil; cbn [fst snd];
    split_and!; try done; try (by apply p_scalar); try (by apply p_scalar, scalar_int); apply p_arr; [constructor|].
  rewrite !Forall_cons, Forall_nil. split_and!; try done; by apply p_scalar.
Qed.

(** ** Witnesses *)

Lemma catch_up_texts_witness :
  exists e' m', Sync.syncFromRPC 2 (env_of (Ok (encode (reply_tree (JStr (text (Fmt.Sprintf_0x 3)))) ++ [chr 10]))
      (fun n => Ok (encode (reply_tree (block_tree (Sync.sample_block n))) ++ [chr 10])) (fun _ => Err "refused"))
      (Sync.chain1, Metrics.New) = ((e', m'), [Sync.sample_block 2; Sync.sample_block 3], true) /\
    Sync.latestBlock e' = 3.
Proof.
  destruct (catch_up_texts Sync.sample_block (fun _ => Err "refused") 3 [chr 10] 2 Sync.chain1 Metrics.New)
    as (e' & m' & H1 & _ & H2).
  - apply Sync.chain1_contiguous.
  - reflexivity.
  - by vm_compute.
  - simpl; lia.
  - intros n Hn. simpl in Hn. split; [|done]. unfold block_ok, is_u64, is_i64. simpl.
    split_and!; try lia; ascii_text.
  - simpl; lia.
  - exists e', m'. split; [exact H1|exact H2].
Defined.

Lemma error_reply_witness :
  VerifyLaneAllocation (fetchLaneStats (Ok (encode (error_tree (-32601) (text "method not found"))))) =
    mkLaneResult 0 false 0 0 0 true "".
Proof. apply (error_reply (-32601) (text "method not found") (E := ToyEth.toy) ""); [by split|ascii_text]. Defined.

Lemma plain_word (s : list byte) : forallb (fun b => (code b <? 128) && bool_decide (escape b = [b])) s = true -> plain s.
Proof.
  intros H. apply Forall_forall. intros b Hb. rewrite forallb_forall in H.
  specialize (H b ltac:(by apply list_elem_of_In)). apply andb_true_iff in H as [H1 H2].
  split; [by apply Z.ltb_lt|by apply bool_decide_eq_true_1 in H2].
Qed.

Lemma receipt_request_witness :
  parse (receipt_body (injection (text "eth_sendTransaction"))) = Some (injected_tree (text "eth_sendTransaction")).
Proof. apply (receipt_request (text "0xab") (text "eth_sendTransaction")); apply plain_word; vm_compute; reflexivity. Defined.

Lemma sync_requests_witness :
  parse (block_body 26) = Some (request_tree "eth_getBlockByNumber" [JStr (text "0x1a"); JBool false]).
Proof. apply (sync_requests 26). by split. Defined.

End Client.
