(* ===== verification/Rounding.v ===== *)
(** * Round-to-nearest-even, as an order-theoretic fact

    Go's [float64] and [big.Float] round every operation to the nearest
    representable number, ties to even.  The executable specification is the
    Standard Library's [SpecFloat]; this file relates its results to exact
    rational arithmetic.  The outcome used by the components is that the
    operations on non-negative numbers are monotone, exact on representable
    results, and bounded by any representable bound. *)

From Stdlib Require Import Floats.SpecFloat.
From Stdlib Require Import QArith Qpower Lqa.
From S2P Require Import Prelude.
Local Open Scope Z_scope.

(** ** Powers of two and dyadic numbers *)

Definition p2 (e : Z) : Q := Qpower 2 e.
Definition dy (m e : Z) : Q := (inject_Z m * p2 e)%Q.

Lemma p2_pos e : (0 < p2 e)%Q.
Proof. apply Qpower_0_lt. reflexivity. Qed.

Lemma p2_add e f : (p2 (e + f) == p2 e * p2 f)%Q.
Proof. apply Qpower_plus. discriminate. Qed.

Lemma p2_succ e : (p2 (e + 1) == 2 * p2 e)%Q.
Proof. rewrite p2_add. unfold p2 at 2. simpl. ring. Qed.

Lemma p2_pred e : (p2 (e - 1) * 2 == p2 e)%Q.
Proof. replace e with (e - 1 + 1) at 2 by lia. rewrite p2_succ. ring. Qed.

Lemma p2_le e f : e <= f -> (p2 e <= p2 f)%Q.
Proof. intros. apply Qpower_le_compat_l; [done|discriminate]. Qed.

Lemma p2_lt e f : e < f -> (p2 e < p2 f)%Q.
Proof. intros. apply Qpower_lt_compat_l; [done|reflexivity]. Qed.

Lemma p2_lt_inv e f : (p2 e < p2 f)%Q -> e < f.
Proof. intros H. eapply Qpower_lt_compat_l_inv; [exact H|reflexivity]. Qed.

Lemma p2_Z e : 0 <= e -> (inject_Z (2 ^ e) == p2 e)%Q.
Proof. intros. rewrite Zpower_Qpower by done. done. Qed.

Lemma dy_p2 e : (dy 1 e == p2 e)%Q.
Proof. unfold dy. ring. Qed.

Lemma dy_shift m e f : f <= e -> (dy m e == dy (m * 2 ^ (e - f)) f)%Q.
Proof.
  intros. unfold dy. rewrite inject_Z_mult, p2_Z by lia.
  replace e with (e - f + f) at 1 by lia. rewrite p2_add. ring.
Qed.

Lemma dy_le m n e : m <= n -> (dy m e <= dy n e)%Q.
Proof.
  intros. unfold dy. apply Qmult_le_compat_r; [by rewrite <- Zle_Qle|].
  apply Qlt_le_weak, p2_pos.
Qed.

Lemma dy_lt m n e : m < n -> (dy m e < dy n e)%Q.
Proof.
  intros. unfold dy. apply Qmult_lt_compat_r; [apply p2_pos|by rewrite <- Zlt_Qlt].
Qed.

Lemma dy_lt_inv m n e : (dy m e < dy n e)%Q -> m < n.
Proof.
  intros H. destruct (Z_lt_ge_dec m n); [done|].
  pose proof (dy_le n m e ltac:(lia)). lra.
Qed.

Lemma dy_le_inv m n e : (dy m e <= dy n e)%Q -> m <= n.
Proof.
  intros H. destruct (Z_le_gt_dec m n); [done|].
  pose proof (dy_lt n m e ltac:(lia)). lra.
Qed.

Lemma dy_plus m n e : (dy (m + n) e == dy m e + dy n e)%Q.
Proof. unfold dy. rewrite inject_Z_plus. ring. Qed.

Lemma dy_0 e : (dy 0 e == 0)%Q.
Proof. unfold dy. ring. Qed.

Lemma dy_nonneg m e : 0 <= m -> (0 <= dy m e)%Q.
Proof. intros. rewrite <- (dy_0 e). by apply dy_le. Qed.

Lemma dy_pos m e : 0 < m -> (0 < dy m e)%Q.
Proof. intros. rewrite <- (dy_0 e). by apply dy_lt. Qed.

Lemma dy_pow2 k e : 0 <= k -> (dy (2 ^ k) e == p2 (k + e))%Q.
Proof. intros. unfold dy. rewrite p2_Z, p2_add by done. reflexivity. Qed.

Lemma dy_mul m n e f : (dy m e * dy n f == dy (m * n) (e + f))%Q.
Proof. unfold dy. rewrite inject_Z_mult, p2_add. ring. Qed.


(** ** Digits *)

Lemma pow2_half k : 0 < k -> 2 ^ k = 2 * 2 ^ (k - 1).
Proof. intros. rewrite <- Z.pow_succ_r by lia. f_equal. lia. Qed.

Lemma digits2_pos_spec m :
  2 ^ (Z.pos (digits2_pos m) - 1) <= Z.pos m < 2 ^ Z.pos (digits2_pos m).
Proof.
  induction m as [m IH|m IH|]; simpl digits2_pos; [| |done];
    rewrite Pos2Z.inj_succ; unfold Z.succ;
    rewrite (pow2_half (_ + 1)) by lia;
    replace (Z.pos (digits2_pos m) + 1 - 1) with (Z.pos (digits2_pos m)) by lia;
    pose proof (pow2_half (Z.pos (digits2_pos m)) ltac:(lia)); lia.
Qed.

Lemma Zdigits2_spec m :
  0 <= m -> (0 < m -> 2 ^ (Zdigits2 m - 1) <= m) /\ m < 2 ^ Zdigits2 m /\ 0 <= Zdigits2 m.
Proof.
  intros H. destruct m as [|m|m]; simpl; [lia| |lia].
  pose proof (digits2_pos_spec m). lia.
Qed.

Lemma Zdigits2_unique m d : 0 < m -> 2 ^ (d - 1) <= m < 2 ^ d -> Zdigits2 m = d.
Proof.
  intros Hm [Hlo Hhi]. destruct (Zdigits2_spec m ltac:(lia)) as (H1 & H2 & H3).
  specialize (H1 Hm).
  assert (0 <= d) by (destruct (Z_lt_ge_dec d 0); [rewrite Z.pow_neg_r in Hhi; lia|lia]).
  assert (Zdigits2 m - 1 < d) by (apply (Z.pow_lt_mono_r_iff 2); lia).
  assert (d - 1 < Zdigits2 m) by (apply (Z.pow_lt_mono_r_iff 2); lia). lia.
Qed.

(** ** Bracketing

    [bracket m e l x]: the exact value [x] lies in the cell [m * 2^e, (m+1) * 2^e),
    at the position [l] records relative to the cell's midpoint. *)

Definition bracket (m e : Z) (l : location) (x : Q) : Prop :=
  match l with
  | loc_Exact => (x == dy m e)%Q
  | loc_Inexact c =>
      (dy m e < x)%Q /\ (x < dy (m + 1) e)%Q /\
      match c with
      | Lt => (x + x < dy (2 * m + 1) e)%Q
      | Eq => (x + x == dy (2 * m + 1) e)%Q
      | Gt => (dy (2 * m + 1) e < x + x)%Q
      end
  end.

Definition bracket_rec (r : shr_record) (e : Z) (x : Q) : Prop :=
  bracket (shr_m r) e (loc_of_shr_record r) x.

#[export] Instance bracket_proper m e l : Proper (Qeq ==> iff) (bracket m e l).
Proof.
  intros x y E. destruct l as [|[]]; simpl; rewrite E; reflexivity.
Qed.

(** Arithmetic on cells is linear once [2^e] is named. *)
Ltac dyadic :=
  unfold bracket, dy in *;
  repeat (rewrite inject_Z_plus in * || rewrite inject_Z_mult in * || rewrite p2_succ in *);
  change (inject_Z 1) with 1%Q in *; change (inject_Z 2) with 2%Q in *;
  change (inject_Z 0) with 0%Q in *.

Lemma bracket_floor m e l x : bracket m e l x -> (dy m e <= x)%Q /\ (x < dy (m + 1) e)%Q.
Proof.
  pose proof (p2_pos e). destruct l as [|[]]; intros H0; dyadic; split; try lra;
    destruct H0 as (H1 & H2 & H3); nra.
Qed.

Lemma bracket_nonneg m e l x : 0 <= m -> bracket m e l x -> (0 <= x)%Q.
Proof. intros Hm H. apply bracket_floor in H. pose proof (dy_nonneg m e Hm). lra. Qed.

Lemma shr_record_of_loc_bracket m e l x :
  bracket m e l x <-> bracket_rec (shr_record_of_loc m l) e x.
Proof. destruct l as [|[]]; reflexivity. Qed.

(** Dropping one bit keeps the bracket. *)
Lemma shr_1_bracket r e x :
  0 <= shr_m r -> bracket_rec r e x ->
  0 <= shr_m (shr_1 r) /\ bracket_rec (shr_1 r) (e + 1) x.
Proof.
  destruct r as [m b s]. intros Hm H. pose proof (p2_pos e) as Hp.
  assert (forall p, (inject_Z (Z.pos p~0) == 2 * inject_Z (Z.pos p))%Q) as Ev
    by (intros p; unfold inject_Z, Qeq; simpl; lia).
  assert (forall p, (inject_Z (Z.pos p~1) == 2 * inject_Z (Z.pos p) + 1)%Q) as Od
    by (intros p; unfold inject_Z, Qeq; simpl; lia).
  destruct m as [|[p|p|]|]; simpl in Hm; [| | | |lia];
    (split; [simpl; lia|]); destruct b, s; unfold bracket_rec in *; simpl shr_1;
    simpl shr_m in *; simpl loc_of_shr_record in *; dyadic;
    rewrite ?Ev, ?Od in H; try (split; [|split]); lra.
Qed.

Lemma iter_shr_bracket p r e x :
  0 <= shr_m r -> bracket_rec r e x ->
  0 <= shr_m (SpecFloat.iter_pos shr_1 p r) /\ bracket_rec (SpecFloat.iter_pos shr_1 p r) (e + Z.pos p) x.
Proof.
  revert r e. induction p as [p IH|p IH|]; intros r e Hm H; simpl SpecFloat.iter_pos.
  - destruct (shr_1_bracket r e x Hm H) as [H1 H2].
    destruct (IH _ _ H1 H2) as [H3 H4]. destruct (IH _ _ H3 H4) as [H5 H6].
    split; [done|]. by replace (e + Z.pos p~1) with (e + 1 + Z.pos p + Z.pos p) by lia.
  - destruct (IH _ _ Hm H) as [H3 H4]. destruct (IH _ _ H3 H4) as [H5 H6].
    split; [done|]. by replace (e + Z.pos p~0) with (e + Z.pos p + Z.pos p) by lia.
  - by apply shr_1_bracket.
Qed.

Section Format.
Variable prec emax : Z.
Hypothesis prec_gt_1 : 1 < prec.
Hypothesis prec_lt_emax : prec < emax.

Abbreviation emin := (emin prec emax).
Abbreviation fexp := (fexp prec emax).

(** The numbers a format of precision [prec] holds, overflow aside. *)
Definition representable (b : Q) : Prop :=
  exists m e, 0 <= m < 2 ^ prec /\ emin <= e /\ (b == dy m e)%Q.

Lemma shr_fexp_bracket m e l x r e' :
  0 <= m -> bracket m e l x -> e <= fexp (Zdigits2 m + e) ->
  shr_fexp prec emax m e l = (r, e') ->
  e' = fexp (Zdigits2 m + e) /\ 0 <= shr_m r /\ bracket_rec r e' x.
Proof.
  intros Hm H He. unfold shr_fexp, shr.
  apply shr_record_of_loc_bracket in H.
  assert (0 <= shr_m (shr_record_of_loc m l)) as Hm'
    by (destruct l as [|[]]; simpl; done).
  destruct (fexp _ - e) as [|p|p] eqn:E; intros [= <- <-].
  - by replace (fexp (Zdigits2 m + e)) with e by lia.
  - replace (fexp (Zdigits2 m + e)) with (e + Z.pos p) by lia.
    split; [lia|]. by apply iter_shr_bracket.
  - lia.
Qed.

(** ** Rounding as a relation

    [rounds_to x v]: [v] is [x >= 0] rounded to nearest even in the format, with
    unbounded exponent.  [g] is the magnitude of [x]. *)
Definition rounds_to (x v : Q) : Prop :=
  exists m l g,
    0 <= m /\ bracket m (fexp g) l x /\ (x < p2 g)%Q /\ ((p2 (g - 1) <= x)%Q \/ g <= emin) /\
    (v == dy (round_nearest_even m l) (fexp g))%Q.

Lemma round_nearest_even_cases m l :
  round_nearest_even m l = m \/ (round_nearest_even m l = m + 1 /\ l <> loc_Exact).
Proof. destruct l as [|[]]; simpl; [auto|destruct (Z.even m); auto|auto|auto]. Qed.

Lemma magnitude m e l x :
  0 <= m -> bracket m e l x -> e <= fexp (Zdigits2 m + e) ->
  (x < p2 (Zdigits2 m + e))%Q /\
  ((p2 (Zdigits2 m + e - 1) <= x)%Q \/ Zdigits2 m + e <= emin).
Proof.
  intros Hm H He. apply bracket_floor in H as [Hlo Hhi].
  destruct (Zdigits2_spec m Hm) as (H1 & H2 & H3). split.
  - eapply Qlt_le_trans; [exact Hhi|]. rewrite <- dy_pow2 by done. apply dy_le. lia.
  - destruct (decide (m = 0)) as [->|].
    + right. unfold SpecFloat.fexp in He. simpl in *. lia.
    + left. eapply Qle_trans; [|exact Hlo].
      assert (1 <= Zdigits2 m) by (destruct m; simpl in *; lia).
      replace (Zdigits2 m + e - 1) with ((Zdigits2 m - 1) + e) by lia.
      rewrite <- dy_pow2 by lia. apply dy_le. lia.
Qed.

(** A grid point bounds a rounded value as soon as it bounds the exact one. *)
Lemma grid_upper m e l x k :
  bracket m e l x -> (x <= dy k e)%Q -> round_nearest_even m l <= k.
Proof.
  intros H Hk. destruct (round_nearest_even_cases m l) as [->|[-> Hl]].
  - apply bracket_floor in H as [H _]. apply (dy_le_inv _ _ e). lra.
  - destruct l as [|c]; [done|]. destruct H as (H & _ & _).
    assert (m < k) by (apply (dy_lt_inv _ _ e); lra). lia.
Qed.

Lemma grid_lower m e l x k :
  bracket m e l x -> (dy k e <= x)%Q -> k <= round_nearest_even m l.
Proof.
  intros H Hk. apply bracket_floor in H as [_ H].
  assert (k < m + 1) by (apply (dy_lt_inv _ _ e); lra).
  destruct (round_nearest_even_cases m l) as [->|[-> _]]; lia.
Qed.

Lemma fexp_cases g : fexp g = emin \/ (fexp g = g - prec /\ emin < g - prec).
Proof. unfold SpecFloat.fexp. lia. Qed.

(** A representable number either lies on the grid of [fexp g] or below the binade
    of magnitude [g]. *)
Lemma representable_grid b g :
  representable b ->
  (exists k, (b == dy k (fexp g))%Q) \/ ((b < p2 (g - 1))%Q /\ fexp g = g - prec /\ emin < g - prec).
Proof.
  intros (m & e & Hm & He & Hb).
  destruct (Z_le_gt_dec (fexp g) e) as [Hge|Hlt].
  - left. exists (m * 2 ^ (e - fexp g)). rewrite Hb. by apply dy_shift.
  - right. destruct (fexp_cases g) as [?|[E ?]]; [lia|]. split; [|done].
    rewrite Hb. eapply Qlt_le_trans; [apply (dy_lt m (2 ^ prec)); lia|].
    rewrite dy_pow2 by lia. apply p2_le. lia.
Qed.

Lemma rounds_upper x v b : rounds_to x v -> representable b -> (x <= b)%Q -> (v <= b)%Q.
Proof.
  intros (m & l & g & Hm & Hb & Hg & Hbin & Hv) Hrep Hxb. rewrite Hv.
  destruct (representable_grid b g Hrep) as [[k Hk]|(Hlt & E & Hmin)].
  - rewrite Hk in Hxb |- *. apply dy_le. by apply (grid_upper m (fexp g) l x).
  - destruct Hbin; [lra|lia].
Qed.

Lemma rounds_lower x v b : rounds_to x v -> representable b -> (b <= x)%Q -> (b <= v)%Q.
Proof.
  intros (m & l & g & Hm & Hb & Hg & Hbin & Hv) Hrep Hxb. rewrite Hv.
  destruct (representable_grid b g Hrep) as [[k Hk]|(Hlt & E & Hmin)].
  - rewrite Hk in Hxb |- *. apply dy_le. by apply (grid_lower m (fexp g) l x).
  - destruct Hbin as [Hbin|]; [|lia].
    assert ((p2 (g - 1) == dy (2 ^ (prec - 1)) (fexp g))%Q) as Hp
      by (rewrite dy_pow2, E by lia; f_equiv; lia).
    rewrite Hp in Hbin. eapply (grid_lower m (fexp g) l x) in Hbin; [|done].
    apply (dy_le _ _ (fexp g)) in Hbin. rewrite <- Hp in Hbin. lra.
Qed.

Lemma rounds_exact x v : rounds_to x v -> representable x -> (v == x)%Q.
Proof.
  intros H Hx. apply Qle_antisym.
  - by apply (rounds_upper x v x); [| |apply Qle_refl].
  - by apply (rounds_lower x v x); [| |apply Qle_refl].
Qed.

Lemma fexp_mono g h : g <= h -> fexp g <= fexp h.
Proof. unfold SpecFloat.fexp. lia. Qed.

Lemma p2_representable g : emin < g - prec -> representable (p2 (g - 1)).
Proof.
  intros. exists (2 ^ (prec - 1)), (g - prec). split; [|split; [lia|]].
  - split; [lia|]. apply Z.pow_lt_mono_r; lia.
  - rewrite dy_pow2 by lia. f_equiv. lia.
Qed.

Lemma same_cell_mono m e lx ly x y :
  bracket m e lx x -> bracket m e ly y -> (x <= y)%Q ->
  round_nearest_even m lx <= round_nearest_even m ly.
Proof.
  intros Hx Hy Hxy.
  destruct lx as [|cx]; [|destruct ly as [|cy]]; simpl in *.
  - destruct (round_nearest_even_cases m ly) as [->|[-> _]]; lia.
  - destruct Hx as (? & _). lra.
  - destruct Hx as (_ & _ & Hx), Hy as (_ & _ & Hy).
    destruct cx, cy; try lra; destruct (Z.even m); lia.
Qed.

Lemma rounds_mono x y v w :
  rounds_to x v -> rounds_to y w -> (x <= y)%Q -> (v <= w)%Q.
Proof.
  intros Rx Ry Hxy.
  pose proof Rx as (mx & lx & gx & Hmx & Hbx & Hgx & Hbinx & Hv).
  pose proof Ry as (my & ly & gy & Hmy & Hby & Hgy & Hbiny & Hw).
  destruct (Z.lt_trichotomy (fexp gx) (fexp gy)) as [Hlt|[Heq|Hgt]].
  - destruct (fexp_cases gy) as [E|[E Hmin]]; [unfold SpecFloat.fexp in *; lia|].
    pose proof (p2_representable gy Hmin) as Hrep.
    assert ((p2 gx <= p2 (gy - 1))%Q)
      by (apply p2_le; unfold SpecFloat.fexp in *; lia).
    assert ((v <= p2 (gy - 1))%Q) by (apply (rounds_upper x); [done|done|lra]).
    destruct Hbiny as [Hbiny|]; [|lia].
    assert ((p2 (gy - 1) <= w)%Q) by (by apply (rounds_lower y)). lra.
  - rewrite Heq in *. rewrite Hv, Hw. apply dy_le.
    pose proof (bracket_floor _ _ _ _ Hbx) as [Hfx _].
    pose proof (bracket_floor _ _ _ _ Hby) as [Hfy Hcy].
    assert (mx < my + 1) by (apply (dy_lt_inv _ _ (fexp gy)); lra).
    destruct (decide (mx = my)) as [->|].
    + by apply (same_cell_mono my (fexp gy) lx ly x y).
    + destruct (round_nearest_even_cases mx lx) as [->|[-> _]],
        (round_nearest_even_cases my ly) as [->|[-> _]]; lia.
  - destruct (fexp_cases gx) as [E|[E Hmin]]; [unfold SpecFloat.fexp in *; lia|].
    destruct Hbinx as [Hbinx|]; [|lia].
    assert (gx - 1 < gy) by (apply p2_lt_inv; lra).
    pose proof (fexp_mono gx gy ltac:(lia)). lia.
Qed.

Lemma rounds_proper x y v : (x == y)%Q -> rounds_to x v -> rounds_to y v.
Proof.
  intros E (m & l & g & Hm & Hb & Hg & Hbin & Hv). exists m, l, g.
  rewrite <- E. done.
Qed.

Lemma rounds_unique x v w : rounds_to x v -> rounds_to x w -> (v == w)%Q.
Proof.
  intros. apply Qle_antisym; eapply rounds_mono; eauto; apply Qle_refl.
Qed.

Lemma rounds_zero : rounds_to 0 0.
Proof.
  exists 0, loc_Exact, emin. pose proof (p2_pos emin).
  cbn [bracket round_nearest_even]. rewrite !dy_0.
  split; [done|]. split; [reflexivity|]. split; [done|]. split; [by right|reflexivity].
Qed.

(** ** The executable rounding function *)

(** Non-negative finite floats, of either sign of zero, in canonical form. *)
Definition nn (f : spec_float) : Prop :=
  match f with
  | S754_zero _ => True
  | S754_finite false m e => bounded prec emax m e = true
  | _ => False
  end.

Definition qval (f : spec_float) : Q :=
  match f with
  | S754_finite s m e => dy (cond_Zopp s (Z.pos m)) e
  | _ => 0
  end.

(** [fits f v]: the float [f] is the value [v], or infinity when [v] is out of
    the exponent range. *)
Definition fits (f : spec_float) (v : Q) : Prop :=
  ((v < p2 emax)%Q -> nn f /\ (qval f == v)%Q) /\
  ((p2 emax <= v)%Q -> f = S754_infinity false).

Definition result_of (f : spec_float) (x : Q) : Prop := exists v, rounds_to x v /\ fits f v.

Lemma canonical_rounded m g :
  0 < m < 2 ^ prec -> (emin < g - prec -> (p2 (g - 1) <= dy m (fexp g))%Q) ->
  fexp (Zdigits2 m + fexp g) = fexp g.
Proof.
  intros Hm Hbin.
  destruct (Zdigits2_spec m ltac:(lia)) as (H1 & H2 & H3).
  assert (Zdigits2 m <= prec).
  { destruct (Z_le_gt_dec (Zdigits2 m) prec); [done|].
    assert (2 ^ prec <= 2 ^ (Zdigits2 m - 1)) by (apply Z.pow_le_mono_r; lia). lia. }
  destruct (fexp_cases g) as [E|[E Hmin]].
  - rewrite E. unfold SpecFloat.fexp. lia.
  - specialize (Hbin Hmin). rewrite E in *.
    assert (prec <= Zdigits2 m); [|unfold SpecFloat.fexp; lia].
    assert ((p2 (g - 1) < dy (2 ^ Zdigits2 m) (g - prec))%Q) as Hp
      by (eapply Qle_lt_trans; [exact Hbin|]; apply dy_lt; lia).
    rewrite dy_pow2 in Hp by done. apply p2_lt_inv in Hp. lia.
Qed.

Definition finish (m e : Z) : spec_float :=
  match m with
  | Z0 => S754_zero false
  | Z.pos m => if e <=? emax - prec then S754_finite false m e else S754_infinity false
  | _ => S754_nan
  end.

Lemma finish_fits m e v :
  0 <= m -> (0 < m -> fexp (Zdigits2 m + e) = e) -> (v == dy m e)%Q -> fits (finish m e) v.
Proof.
  intros Hm Hc Hv. unfold fits. rewrite Hv. destruct m as [|m|m]; [| |lia]; simpl finish.
  - rewrite dy_0. pose proof (p2_pos emax). split; [done|intros; lra].
  - specialize (Hc ltac:(lia)). destruct (Zdigits2_spec (Z.pos m) ltac:(lia)) as (H1 & H2 & H3).
    specialize (H1 ltac:(lia)). destruct (Z.leb_spec e (emax - prec)) as [He|He].
    + split.
      * intros _. split; [|done]. simpl. unfold bounded, canonical_mantissa.
        apply andb_true_iff. split; [by apply Z.eqb_eq|by apply Z.leb_le].
      * intros Hbig. exfalso.
        assert ((dy (Z.pos m) e < dy (2 ^ Zdigits2 (Z.pos m)) e)%Q) as Hlt by (apply dy_lt; lia).
        rewrite dy_pow2 in Hlt by done.
        assert (emax < Zdigits2 (Z.pos m) + e) by (apply p2_lt_inv; lra).
        unfold SpecFloat.fexp in Hc. lia.
    + split; [|done]. intros Hsmall. exfalso.
      assert ((dy (2 ^ (Zdigits2 (Z.pos m) - 1)) e <= dy (Z.pos m) e)%Q) as Hle by (apply dy_le; lia).
      rewrite dy_pow2 in Hle by (simpl in *; lia).
      assert (Zdigits2 (Z.pos m) - 1 + e < emax) by (apply p2_lt_inv; lra).
      unfold SpecFloat.fexp, SpecFloat.emin in Hc. lia.
Qed.

(** A full mantissa [2^prec] is renormalised by one exact shift. *)
Lemma shr_fexp_full e r e' :
  emin <= e -> shr_fexp prec emax (2 ^ prec) e loc_Exact = (r, e') ->
  shr_m r = 2 ^ (prec - 1) /\ e' = e + 1.
Proof.
  intros He. unfold shr_fexp.
  rewrite (Zdigits2_unique (2 ^ prec) (prec + 1)).
  - replace (fexp (prec + 1 + e) - e) with 1 by (unfold SpecFloat.fexp; lia).
    rewrite (pow2_half prec) by lia. cbn [shr SpecFloat.iter_pos].
    pose proof (Z.pow_pos_nonneg 2 (prec - 1) ltac:(lia) ltac:(lia)).
    destruct (2 ^ (prec - 1)) as [|p|p]; [lia| |lia]. simpl. by intros [= <- <-].
  - apply Z.pow_pos_nonneg; lia.
  - replace (prec + 1 - 1) with prec by lia. split; [done|]. apply Z.pow_lt_mono_r; lia.
Qed.

Lemma round_aux_finish m g r e :
  0 <= m <= 2 ^ prec -> (emin < g - prec -> (p2 (g - 1) <= dy m (fexp g))%Q) ->
  shr_fexp prec emax m (fexp g) loc_Exact = (r, e) ->
  fits (finish (shr_m r) e) (dy m (fexp g)).
Proof.
  intros Hm Hbin Hr. pose proof (Z.pow_pos_nonneg 2 prec ltac:(lia) ltac:(lia)).
  assert (emin <= fexp g) as Hg by (unfold SpecFloat.fexp; lia).
  destruct (decide (m = 2 ^ prec)) as [->|Hne]; [|destruct (decide (m = 0)) as [->|]].
  - destruct (shr_fexp_full _ _ _ Hg Hr) as [-> ->].
    pose proof (Z.pow_pos_nonneg 2 (prec - 1) ltac:(lia) ltac:(lia)). apply finish_fits; [lia| |].
    + intros _. rewrite (Zdigits2_unique _ prec); [unfold SpecFloat.fexp; lia|lia|].
      split; [done|]. apply Z.pow_lt_mono_r; lia.
    + rewrite !dy_pow2 by lia. f_equiv. lia.
  - assert (shr_m r = 0) as ->.
    { unfold shr_fexp, shr in Hr. cbn [shr_record_of_loc Zdigits2] in Hr.
      destruct (fexp (0 + fexp g) - fexp g) as [|p|p]; injection Hr as <- _; [done| |done].
      destruct (iter_shr_bracket p (Build_shr_record 0 false false) 0 0) as [H1 H2]; [done| |].
      - unfold bracket_rec. simpl. by rewrite dy_0.
      - apply bracket_floor in H2 as [H2 _]. rewrite <- (dy_0 (0 + Z.pos p)) in H2.
        apply dy_le_inv in H2. lia. }
    apply finish_fits; [done|lia|]. by rewrite !dy_0.
  - pose proof (canonical_rounded m g ltac:(lia) Hbin) as Hc.
    unfold shr_fexp in Hr. rewrite Hc, Z.sub_diag in Hr. injection Hr as <- <-.
    by apply finish_fits; [simpl; lia|simpl..].
Qed.

Lemma binary_round_aux_finish m e l r e' r2 e2 :
  shr_fexp prec emax m e l = (r, e') ->
  shr_fexp prec emax (round_nearest_even (shr_m r) (loc_of_shr_record r)) e' loc_Exact = (r2, e2) ->
  binary_round_aux prec emax false m e l = finish (shr_m r2) e2.
Proof. intros E1 E2. unfold binary_round_aux, finish. by rewrite E1, E2. Qed.

Theorem round_aux_result m e l x :
  0 <= m -> bracket m e l x -> e <= fexp (Zdigits2 m + e) ->
  result_of (binary_round_aux prec emax false m e l) x.
Proof.
  intros Hm Hb He. destruct (magnitude m e l x Hm Hb He) as [Hhi Hlo].
  destruct (shr_fexp prec emax m e l) as [r e'] eqn:E1.
  destruct (shr_fexp_bracket m e l x r e' Hm Hb He E1) as (-> & Hr & Hbr).
  set (g := Zdigits2 m + e) in *.
  set (m1 := round_nearest_even (shr_m r) (loc_of_shr_record r)).
  assert (rounds_to x (dy m1 (fexp g))) as Hround
    by (exists (shr_m r), (loc_of_shr_record r), g; auto with qarith).
  destruct (shr_fexp prec emax m1 (fexp g) loc_Exact) as [r2 e2] eqn:E2.
  rewrite (binary_round_aux_finish _ _ _ _ _ _ _ E1 E2).
  exists (dy m1 (fexp g)). split; [done|]. apply (round_aux_finish m1 g r2 e2); [|..|done].
  - split.
    + unfold m1. destruct (round_nearest_even_cases (shr_m r) (loc_of_shr_record r)) as [->|[-> _]]; lia.
    + apply (grid_upper (shr_m r) (fexp g) (loc_of_shr_record r) x); [done|].
      apply Qlt_le_weak. eapply Qlt_le_trans; [exact Hhi|].
      rewrite dy_pow2 by lia. apply p2_le. unfold SpecFloat.fexp. lia.
  - intros Hmin. apply (rounds_lower x); [done|by apply p2_representable|].
    destruct Hlo; [done|lia].
Qed.

(** ** Consequences for results of operations *)

Lemma fits_nn f v : fits f v -> nn f -> (v < p2 emax)%Q /\ (qval f == v)%Q.
Proof.
  intros [H1 H2] Hn. destruct (Qlt_le_dec v (p2 emax)) as [Hlt|Hge].
  - by destruct (H1 Hlt).
  - by rewrite (H2 Hge) in Hn.
Qed.

Lemma result_mono f h x y :
  result_of f x -> result_of h y -> (x <= y)%Q -> nn h -> nn f /\ (qval f <= qval h)%Q.
Proof.
  intros (v & Rv & Fv) (w & Rw & Fw) Hxy Hh.
  pose proof (rounds_mono _ _ _ _ Rv Rw Hxy).
  destruct (fits_nn _ _ Fw Hh) as [Hw ->].
  destruct (proj1 Fv) as [Hf ->]; [lra|done].
Qed.

Lemma result_upper f x b :
  result_of f x -> representable b -> (b < p2 emax)%Q -> (x <= b)%Q -> nn f /\ (qval f <= b)%Q.
Proof.
  intros (v & Rv & Fv) Hb Hlt Hxb. pose proof (rounds_upper _ _ _ Rv Hb Hxb).
  destruct (proj1 Fv) as [Hf ->]; [lra|done].
Qed.

Lemma result_lower f x b :
  result_of f x -> representable b -> (b <= x)%Q -> nn f -> (b <= qval f)%Q.
Proof.
  intros (v & Rv & Fv) Hb Hxb Hf. destruct (fits_nn _ _ Fv Hf) as [_ ->].
  by apply (rounds_lower x).
Qed.

Lemma result_exact f x :
  result_of f x -> representable x -> (x < p2 emax)%Q -> nn f /\ (qval f == x)%Q.
Proof.
  intros (v & Rv & Fv) Hx Hlt. pose proof (rounds_exact _ _ Rv Hx) as E.
  destruct (proj1 Fv) as [Hf ->]; [lra|done].
Qed.

Lemma result_proper f x y : (x == y)%Q -> result_of f x -> result_of f y.
Proof. intros E (v & Rv & Fv). exists v. split; [by apply (rounds_proper x)|done]. Qed.

Lemma result_not_nan f x : result_of f x -> nn f \/ f = S754_infinity false.
Proof.
  intros (v & _ & H1 & H2). destruct (Qlt_le_dec v (p2 emax)) as [Hlt|Hge]; [left|right; auto].
  by apply H1.
Qed.

Lemma result_zero s : result_of (S754_zero s) 0.
Proof.
  exists 0%Q. split; [apply rounds_zero|]. pose proof (p2_pos emax).
  split; [done|]. intros. lra.
Qed.

(** ** Canonical floats *)

Lemma bounded_spec m e :
  bounded prec emax m e = true <-> fexp (Zdigits2 (Z.pos m) + e) = e /\ e <= emax - prec.
Proof.
  unfold bounded, canonical_mantissa. rewrite andb_true_iff, Z.eqb_eq, Z.leb_le. done.
Qed.

Lemma canonical_digits m e :
  fexp (Zdigits2 (Z.pos m) + e) = e ->
  Z.pos m < 2 ^ prec /\ emin <= e /\ (emin < e -> Zdigits2 (Z.pos m) = prec).
Proof.
  intros H. destruct (Zdigits2_spec (Z.pos m) ltac:(lia)) as (_ & H2 & _).
  unfold SpecFloat.fexp in H. split; [|lia].
  eapply Z.lt_le_trans; [exact H2|]. apply Z.pow_le_mono_r; lia.
Qed.

Lemma nn_representable f : nn f -> representable (qval f).
Proof.
  destruct f as [s| | |[] m e]; try done; intros H.
  - exists 0, emin. split; [|split; [lia|by rewrite dy_0]].
    split; [done|]. apply Z.pow_pos_nonneg; lia.
  - apply bounded_spec in H as [H _]. apply canonical_digits in H as (H1 & H2 & _).
    exists (Z.pos m), e. split; [lia|]. done.
Qed.

Lemma nn_nonneg f : nn f -> (0 <= qval f)%Q.
Proof.
  destruct f as [s| | |[] m e]; try done; intros H. by apply dy_nonneg.
Qed.

Lemma nn_lt_emax f : nn f -> (qval f < p2 emax)%Q.
Proof.
  destruct f as [s| | |[] m e]; try done; intros H.
  - apply p2_pos.
  - apply bounded_spec in H as [H He]. apply canonical_digits in H as (H1 & H2 & _).
    simpl. eapply Qlt_le_trans; [apply dy_lt, H1|]. rewrite dy_pow2 by lia. apply p2_le. lia.
Qed.

Lemma representable_rounds x : (0 <= x)%Q -> representable x -> rounds_to x x.
Proof.
  intros Hx (m & e & Hm & He & E).
  apply (rounds_proper (dy m e)); [by symmetry|].
  assert (rounds_to (dy m e) x); [|eapply rounds_proper; [|done]; reflexivity].
  destruct (decide (m = 0)) as [->|Hm0].
  { destruct rounds_zero as (m' & l' & g' & H1 & H2 & H3 & H4 & H5).
    apply (rounds_proper 0); [by rewrite dy_0|].
    exists m', l', g'. rewrite E, dy_0. done. }
  destruct (Zdigits2_spec m ltac:(lia)) as (H1 & H2 & H3). specialize (H1 ltac:(lia)).
  set (g := Zdigits2 m + e).
  assert (Zdigits2 m <= prec).
  { destruct (Z_le_gt_dec (Zdigits2 m) prec); [done|].
    assert (2 ^ prec <= 2 ^ (Zdigits2 m - 1)) by (apply Z.pow_le_mono_r; lia). lia. }
  assert (fexp g <= e) as Hg by (unfold SpecFloat.fexp, g; lia).
  exists (m * 2 ^ (e - fexp g)), loc_Exact, g. cbn [bracket round_nearest_even].
  rewrite <- (dy_shift m e (fexp g)) by done.
  split; [apply Z.mul_nonneg_nonneg; [lia|apply Z.pow_nonneg; lia]|].
  split; [reflexivity|]. split; [|split; [left|done]].
  - unfold g. rewrite <- dy_pow2 by lia. apply dy_lt. lia.
  - replace (g - 1) with (Zdigits2 m - 1 + e) by (unfold g; lia).
    rewrite <- dy_pow2; [by apply dy_le|]. destruct m; simpl in *; lia.
Qed.

Lemma nn_result f : nn f -> result_of f (qval f).
Proof.
  intros H. exists (qval f). split.
  - apply representable_rounds; [by apply nn_nonneg|by apply nn_representable].
  - pose proof (nn_lt_emax f H). split; [done|]. intros. lra.
Qed.

(** ** Operations on non-negative floats *)

Lemma iter_xO m d : Z.pos (Pos.iter xO m d) = Z.pos m * 2 ^ Z.pos d.
Proof.
  induction d as [|d IH] using Pos.peano_ind; simpl; [lia|].
  rewrite Pos.iter_succ, Pos2Z.inj_succ, Z.pow_succ_r by lia.
  change (Z.pos (Pos.iter xO m d)~0) with (2 * Z.pos (Pos.iter xO m d)). rewrite IH. lia.
Qed.

Lemma shl_align_fst m e f : f <= e -> Z.pos (fst (shl_align m e f)) = Z.pos m * 2 ^ (e - f).
Proof.
  intros H. unfold shl_align. destruct (f - e) as [|d|d] eqn:E; [| lia |]; simpl fst.
  - replace (e - f) with 0 by lia. lia.
  - rewrite iter_xO. by replace (e - f) with (Z.pos d) by lia.
Qed.

Lemma Zdigits2_shift m k : 0 < m -> 0 <= k -> Zdigits2 (m * 2 ^ k) = Zdigits2 m + k.
Proof.
  intros Hm Hk. destruct (Zdigits2_spec m ltac:(lia)) as (H1 & H2 & H3). specialize (H1 Hm).
  pose proof (Z.pow_pos_nonneg 2 k ltac:(lia) Hk).
  apply Zdigits2_unique; [lia|]. destruct m as [|m|]; [lia| |lia].
  replace (Zdigits2 (Z.pos m) + k - 1) with (Zdigits2 (Z.pos m) - 1 + k) by lia.
  rewrite !Z.pow_add_r by (simpl in *; lia). nia.
Qed.

Lemma binary_round_result m e :
  result_of (binary_round prec emax false m e) (dy (Z.pos m) e).
Proof.
  unfold binary_round, shl_align.
  change (Z.pos (digits2_pos m)) with (Zdigits2 (Z.pos m)).
  set (f := fexp (Zdigits2 (Z.pos m) + e)).
  destruct (f - e) as [|d|d] eqn:E.
  - apply round_aux_result; [lia|reflexivity|]. fold f. lia.
  - apply round_aux_result; [lia|reflexivity|]. fold f. lia.
  - apply round_aux_result; [lia| |].
    + cbn [bracket]. rewrite iter_xO. replace (Z.pos d) with (e - f) by lia. apply dy_shift. lia.
    + rewrite iter_xO, Zdigits2_shift by lia.
      replace (Zdigits2 (Z.pos m) + Z.pos d + f) with (Zdigits2 (Z.pos m) + e) by lia. fold f. lia.
Qed.

Lemma binary_normalize_result m e s :
  0 <= m -> result_of (binary_normalize prec emax m e s) (dy m e).
Proof.
  intros Hm. destruct m as [|m|m]; [| |lia]; simpl.
  - apply (result_proper _ 0); [by rewrite dy_0|]. apply result_zero.
  - apply binary_round_result.
Qed.

Lemma SFadd_result f h : nn f -> nn h -> result_of (SFadd prec emax f h) (qval f + qval h).
Proof.
  intros Hf Hh. pose proof (nn_result f Hf) as Rf. pose proof (nn_result h Hh) as Rh.
  destruct f as [sf| | |[] mf ef]; try done; destruct h as [sh| | |[] mh eh]; try done; simpl SFadd.
  - destruct sf, sh; apply (result_proper _ 0); simpl; try reflexivity; apply result_zero.
  - eapply result_proper; [|exact Rh]. simpl. ring.
  - eapply result_proper; [|exact Rf]. simpl. ring.
  - cbn [qval cond_Zopp]. set (ez := Z.min ef eh).
    eapply result_proper; [|apply binary_round_result].
    rewrite Pos2Z.inj_add, !shl_align_fst, dy_plus, <- !dy_shift by lia. reflexivity.
Qed.

Lemma digits_mul m n :
  0 < m -> 0 < n -> Zdigits2 m + Zdigits2 n - 1 <= Zdigits2 (m * n).
Proof.
  intros Hm Hn. destruct (Zdigits2_spec m ltac:(lia)) as (H1 & _ & _).
  destruct (Zdigits2_spec n ltac:(lia)) as (H2 & _ & _).
  destruct (Zdigits2_spec (m * n) ltac:(lia)) as (_ & H3 & H4).
  specialize (H1 Hm). specialize (H2 Hn).
  assert (1 <= Zdigits2 m) by (destruct m; simpl in *; lia).
  assert (1 <= Zdigits2 n) by (destruct n; simpl in *; lia).
  assert (2 ^ (Zdigits2 m - 1 + (Zdigits2 n - 1)) < 2 ^ Zdigits2 (m * n)) as Hpow
    by (rewrite Z.pow_add_r by lia; nia).
  apply Z.pow_lt_mono_r_iff in Hpow; lia.
Qed.

Lemma SFmul_result f h : nn f -> nn h -> result_of (SFmul prec emax f h) (qval f * qval h).
Proof.
  intros Hf Hh.
  destruct f as [sf| | |[] mf ef]; try done; destruct h as [sh| | |[] mh eh]; try done; simpl SFmul;
    try (apply (result_proper _ 0); [simpl; ring|apply result_zero]).
  cbn [qval cond_Zopp]. apply round_aux_result; [lia| |].
  - cbn [bracket]. rewrite dy_mul. reflexivity.
  - change (Z.pos (mf * mh)) with (Z.pos mf * Z.pos mh).
    pose proof (digits_mul (Z.pos mf) (Z.pos mh) ltac:(lia) ltac:(lia)).
    apply bounded_spec in Hf as [Hf _]. apply bounded_spec in Hh as [Hh _].
    apply canonical_digits in Hf as (_ & Hef & Hf). apply canonical_digits in Hh as (_ & Heh & Hh).
    unfold SpecFloat.fexp, SpecFloat.emin in *. simpl Zdigits2 in *. lia.
Qed.

Lemma quotient_lt a e x n M :
  0 < n -> (x * inject_Z n == dy M e)%Q ->
  (a * n < M -> (dy a e < x)%Q) /\ (M < a * n -> (x < dy a e)%Q) /\ (M = a * n -> (x == dy a e)%Q).
Proof.
  intros Hn HM. assert (0 < inject_Z n)%Q as Hq by (change 0%Q with (inject_Z 0); by rewrite <- Zlt_Qlt).
  assert ((dy a e * inject_Z n == dy (a * n) e)%Q) as Ha
    by (unfold dy; rewrite inject_Z_mult; ring).
  split; [|split]; intros H.
  - apply (Qmult_lt_r _ _ (inject_Z n)); [done|]. rewrite Ha, HM. by apply dy_lt.
  - apply (Qmult_lt_r _ _ (inject_Z n)); [done|]. rewrite Ha, HM. by apply dy_lt.
  - apply (Qmult_inj_r _ _ (inject_Z n)); [lra|]. by rewrite Ha, HM, H.
Qed.

(** [new_location] with the arithmetic of [BinInt]. *)
Lemma new_location_eq n r :
  new_location n r =
  if r =? 0 then loc_Exact
  else loc_Inexact
    (if Z.even n then 2 * r ?= n else match 2 * r + 1 ?= n with Gt => Gt | _ => Lt end).
Proof.
  unfold new_location, new_location_even, new_location_odd.
  destruct n as [|[n|n|]|[n|n|]]; cbn [Z.even Corelib.BinNums.IntDef.Z.even];
    destruct (r =? 0); try reflexivity;
    match goal with |- context [Z.compare ?a ?b] => destruct (Z.compare a b) end; reflexivity.
Qed.

Lemma new_location_bracket q r n e x :
  0 < n -> 0 <= r < n -> (x * inject_Z n == dy (q * n + r) e)%Q ->
  bracket q e (new_location n r) x.
Proof.
  intros Hn Hr Hx.
  assert (((x + x) * inject_Z n == dy (2 * (q * n + r)) e)%Q) as Hxx.
  { unfold dy in *. rewrite inject_Z_mult. change (inject_Z 2) with 2%Q.
    assert (((x + x) * inject_Z n == 2 * (x * inject_Z n))%Q) as -> by ring.
    rewrite Hx. ring. }
  pose proof (quotient_lt q e x n _ Hn Hx) as (L1 & _ & L3).
  pose proof (quotient_lt (q + 1) e x n _ Hn Hx) as (_ & L4 & _).
  pose proof (quotient_lt (2 * q + 1) e (x + x) n _ Hn Hxx) as (M1 & M2 & M3).
  rewrite new_location_eq. destruct (Z.eqb_spec r 0) as [->|Hr0]; cbn [bracket]; [apply L3; lia|].
  split; [apply L1; nia|]. split; [apply L4; nia|]. destruct (Z.even n) eqn:Ev.
  - destruct (Z.compare_spec (2 * r) n); [apply M3|apply M2|apply M1]; nia.
  - assert (n <> 2 * r) by (intros ->; rewrite Z.even_mul in Ev; done).
    destruct (Z.compare_spec (2 * r + 1) n); [apply M2|apply M2|apply M1]; nia.
Qed.

Lemma SFdiv_core_result m1 e1 m2 e2 m e l :
  SFdiv_core_binary prec emax (Z.pos m1) e1 (Z.pos m2) e2 = (m, e, l) ->
  0 <= m /\ bracket m e l (dy (Z.pos m1) e1 / dy (Z.pos m2) e2) /\ e <= fexp (Zdigits2 m + e).
Proof.
  unfold SFdiv_core_binary.
  set (d1 := Zdigits2 (Z.pos m1)). set (d2 := Zdigits2 (Z.pos m2)).
  set (e' := Z.min _ _). set (s := e1 - e2 - e').
  assert (0 <= s) as Hs by lia.
  assert ((match s with 0 => Z.pos m1 | Z.pos _ => Z.shiftl (Z.pos m1) s | Z.neg _ => 0 end)
    = Z.pos m1 * 2 ^ s) as -> by (destruct s; [lia|apply Z.shiftl_mul_pow2; lia|lia]).
  set (M := Z.pos m1 * 2 ^ s).
  pose proof (Z_div_mod M (Z.pos m2) ltac:(lia)) as Hdiv.
  destruct (Z.div_eucl M (Z.pos m2)) as [q r]. destruct Hdiv as [HM Hr]. intros [= <- <- <-].
  assert (0 < 2 ^ s) by (apply Z.pow_pos_nonneg; lia).
  assert (0 < M) by (unfold M; lia). assert (0 <= q) as Hq by nia.
  split; [done|]. split.
  - apply new_location_bracket; [lia|lia|].
    replace (q * Z.pos m2 + r) with M by lia. unfold M. unfold Qdiv.
    pose proof (dy_pos (Z.pos m2) e2 ltac:(lia)) as Hpos.
    assert ((dy (Z.pos m1) e1 == dy (Z.pos m1 * 2 ^ s) e' * p2 e2)%Q) as ->.
    { rewrite (dy_shift _ e1 (e' + e2)) by lia. unfold dy. rewrite p2_add, Qmult_assoc.
      by replace (e1 - (e' + e2)) with s by lia. }
    assert (~ p2 e2 == 0)%Q by (pose proof (p2_pos e2); lra).
    assert (~ inject_Z (Z.pos m2) == 0)%Q by (unfold Qeq; simpl; lia).
    unfold dy. field. done.
  - destruct (Zdigits2_spec q Hq) as (_ & Hq2 & Hq3).
    destruct (Zdigits2_spec (Z.pos m1) ltac:(lia)) as (Hm1 & _ & _).
    destruct (Zdigits2_spec (Z.pos m2) ltac:(lia)) as (_ & Hm2 & Hm2').
    specialize (Hm1 ltac:(lia)). fold d1 in Hm1. fold d2 in Hm2, Hm2'.
    assert (1 <= d1) by (unfold d1; simpl; lia).
    assert (2 ^ (d1 - 1 + s) < 2 ^ (d2 + Zdigits2 q)) as Hlt.
    { rewrite !Z.pow_add_r by lia. unfold M in HM. nia. }
    apply Z.pow_lt_mono_r_iff in Hlt; [|lia|lia].
    etransitivity; [apply Z.le_min_l|]. apply fexp_mono. lia.
Qed.

Lemma SFdiv_result f h :
  nn f -> nn h -> (0 < qval h)%Q -> result_of (SFdiv prec emax f h) (qval f / qval h).
Proof.
  intros Hf Hh Hpos.
  destruct f as [sf| | |[] mf ef]; try done; destruct h as [sh| | |[] mh eh]; try done;
    simpl SFdiv; try (simpl in Hpos; lra).
  - apply (result_proper _ 0); [simpl; unfold Qdiv; ring|apply result_zero].
  - destruct (SFdiv_core_binary prec emax (Z.pos mf) ef (Z.pos mh) eh) as [[m e] l] eqn:E.
    apply SFdiv_core_result in E as (Hm & Hb & He). by apply round_aux_result.
Qed.

(** ** Comparison *)

Lemma canonical_exp_lt m1 e1 m2 e2 :
  fexp (Zdigits2 (Z.pos m1) + e1) = e1 -> fexp (Zdigits2 (Z.pos m2) + e2) = e2 -> e1 < e2 ->
  (dy (Z.pos m1) e1 < dy (Z.pos m2) e2)%Q.
Proof.
  intros H1 H2 Hlt. apply canonical_digits in H1 as (H1 & He1 & _).
  apply canonical_digits in H2 as (_ & _ & H2). specialize (H2 ltac:(lia)).
  destruct (Zdigits2_spec (Z.pos m2) ltac:(lia)) as (H3 & _ & _). specialize (H3 ltac:(lia)).
  rewrite H2 in H3.
  assert ((dy (Z.pos m1) e1 < dy (2 ^ prec) e1)%Q) by (by apply dy_lt).
  assert ((dy (2 ^ (prec - 1)) e2 <= dy (Z.pos m2) e2)%Q) by (by apply dy_le).
  assert ((dy (2 ^ prec) e1 <= dy (2 ^ (prec - 1)) e2)%Q); [|lra].
  rewrite !dy_pow2 by lia. apply p2_le. lia.
Qed.

Lemma SFcompare_nn f h : nn f -> nn h -> SFcompare f h = Some (qval f ?= qval h)%Q.
Proof.
  intros Hf Hh. symmetry.
  destruct f as [sf| | |[] m1 e1]; try done; destruct h as [sh| | |[] m2 e2]; try done;
    cbn [SFcompare qval cond_Zopp]; f_equal.
  - apply Qlt_alt. by apply dy_pos.
  - apply Qgt_alt. by apply dy_pos.
  - apply bounded_spec in Hf as [Hf _], Hh as [Hh _].
    destruct (Z.compare_spec e1 e2) as [->|Hlt|Hgt].
    + change (PosDef.Pos.compare_cont Eq m1 m2) with (Z.pos m1 ?= Z.pos m2).
      destruct (Z.compare_spec (Z.pos m1) (Z.pos m2)) as [->|Hlt|Hgt].
      * by apply Qeq_alt.
      * apply Qlt_alt. by apply dy_lt.
      * apply Qgt_alt. by apply dy_lt.
    + apply Qlt_alt. by apply canonical_exp_lt.
    + apply Qgt_alt. by apply canonical_exp_lt.
Qed.

Lemma SFltb_nn f h : nn f -> nn h -> SFltb f h = true <-> (qval f < qval h)%Q.
Proof.
  intros Hf Hh. unfold SFltb. rewrite SFcompare_nn by done. rewrite Qlt_alt.
  by destruct (qval f ?= qval h)%Q.
Qed.

Lemma SFleb_nn f h : nn f -> nn h -> SFleb f h = true <-> (qval f <= qval h)%Q.
Proof.
  intros Hf Hh. unfold SFleb. rewrite SFcompare_nn by done. rewrite Qle_alt.
  by destruct (qval f ?= qval h)%Q.
Qed.

(** ** Monotonicity of the operations *)

Lemma SFadd_mono f f' h h' :
  nn f -> nn f' -> nn h -> nn h' -> (qval f <= qval f')%Q -> (qval h <= qval h')%Q ->
  nn (SFadd prec emax f' h') ->
  nn (SFadd prec emax f h) /\ (qval (SFadd prec emax f h) <= qval (SFadd prec emax f' h'))%Q.
Proof.
  intros. eapply result_mono; [by apply SFadd_result|by apply SFadd_result|lra|done].
Qed.

Lemma SFmul_mono f f' h h' :
  nn f -> nn f' -> nn h -> nn h' -> (qval f <= qval f')%Q -> (qval h <= qval h')%Q ->
  nn (SFmul prec emax f' h') ->
  nn (SFmul prec emax f h) /\ (qval (SFmul prec emax f h) <= qval (SFmul prec emax f' h'))%Q.
Proof.
  intros. eapply result_mono; [by apply SFmul_result|by apply SFmul_result| |done].
  apply Qmult_le_compat_nonneg; split; auto using nn_nonneg.
Qed.

Lemma SFdiv_mono f f' h :
  nn f -> nn f' -> nn h -> (0 < qval h)%Q -> (qval f <= qval f')%Q ->
  nn (SFdiv prec emax f' h) ->
  nn (SFdiv prec emax f h) /\ (qval (SFdiv prec emax f h) <= qval (SFdiv prec emax f' h))%Q.
Proof.
  intros. eapply result_mono; [by apply SFdiv_result|by apply SFdiv_result| |done].
  apply Qmult_le_compat_r; [done|]. apply Qlt_le_weak. by apply Qinv_lt_0_compat.
Qed.

Lemma normalize_mono m n s :
  0 <= m <= n -> nn (binary_normalize prec emax n 0 s) ->
  nn (binary_normalize prec emax m 0 s) /\
  (qval (binary_normalize prec emax m 0 s) <= qval (binary_normalize prec emax n 0 s))%Q.
Proof.
  intros Hmn Hn. eapply result_mono;
    [apply binary_normalize_result; lia|apply binary_normalize_result; lia| |done].
  apply dy_le. lia.
Qed.

Lemma integer_representable n : 0 <= n < 2 ^ prec -> representable (inject_Z n).
Proof.
  intros Hn. exists n, 0. split; [done|]. split; [unfold SpecFloat.emin; lia|].
  unfold dy. change (p2 0) with 1%Q. ring.
Qed.

(** Integers of at most [prec] bits are exact. *)
Lemma normalize_exact n s :
  0 <= n < 2 ^ prec ->
  nn (binary_normalize prec emax n 0 s) /\
  (qval (binary_normalize prec emax n 0 s) == inject_Z n)%Q.
Proof.
  intros Hn.
  assert ((dy n 0 == inject_Z n)%Q) as E by (unfold dy; change (p2 0) with 1%Q; ring).
  apply result_exact.
  - apply (result_proper _ (dy n 0)); [done|]. apply binary_normalize_result. lia.
  - by apply integer_representable.
  - apply Qlt_le_trans with (p2 prec); [|apply p2_le; lia].
    rewrite <- p2_Z by lia. rewrite <- Zlt_Qlt. lia.
Qed.

End Format.
