(* ===== verification/Float.v ===== *)
(** * Go's float64

    Executable models of the float64 operations the validator uses, on
    the [spec_float] data of the Standard Library, and the bounds and
    monotonicity facts the components rely on (from [Rounding]).

    [float64] follows the amd64 code generator: every operation is rounded
    separately (no fused multiply-add). *)

From Stdlib Require Export Floats.SpecFloat.
From Stdlib Require Import QArith Lqa.
From S2P Require Import Prelude Rounding.
Local Open Scope Z_scope.

(** ** float64 *)

Abbreviation f64 := spec_float.

Definition f64_add : f64 -> f64 -> f64 := SFadd 53 1024.
Definition f64_mul : f64 -> f64 -> f64 := SFmul 53 1024.
Definition f64_div : f64 -> f64 -> f64 := SFdiv 53 1024.
Definition f64_ltb : f64 -> f64 -> bool := SFltb.
Definition f64_leb : f64 -> f64 -> bool := SFleb.
Definition f64_eqb : f64 -> f64 -> bool := SFeqb.

(** [float64(n)] of an integer, and an integer constant in a float context. *)
Definition f64_of_Z (n : Z) : f64 := binary_normalize 53 1024 n 0 false.

(** The decimal constant [n/d]: the compiler rounds the exact rational once, as does
    the division of two exactly represented integers. *)
Definition f64_const (n d : Z) : f64 := f64_div (f64_of_Z n) (f64_of_Z d).

Definition f64_zero : f64 := S754_zero false.
Definition f64_nan : f64 := S754_nan.
Definition f64_inf : f64 := S754_infinity false.

(** [math.Min]. *)
Definition f64_min (x y : f64) : f64 :=
  match x, y with
  | S754_infinity true, _ | _, S754_infinity true => S754_infinity true
  | S754_nan, _ | _, S754_nan => S754_nan
  | S754_zero sx, S754_zero sy => S754_zero (sx || sy)
  | _, _ => if f64_ltb x y then x else y
  end.

(** Truncation toward zero of a finite number. *)
Definition trunc (f : spec_float) : option Z :=
  match f with
  | S754_zero _ => Some 0
  | S754_finite s m e =>
      let a := if 0 <=? e then Z.shiftl (Z.pos m) e else Z.shiftr (Z.pos m) (- e) in
      Some (cond_Zopp s a)
  | _ => None
  end.

(** [uint64(f)]: the language leaves the result for values outside the range to the
    implementation; [oob] is that choice. *)
Definition f64_to_u64 (oob : f64 -> Z) (f : f64) : Z :=
  match trunc f with
  | Some t => if (0 <=? t) && (t <? 2 ^ 64) then t else oob f
  | None => oob f
  end.

Definition wei_per_inso : Z := 10 ^ 18.

Lemma f64_1e18_exact : trunc (f64_of_Z wei_per_inso) = Some wei_per_inso.
Proof. vm_compute. reflexivity. Qed.

(** ** Non-negative float64 values *)

Abbreviation nn64 := (nn 53 1024).

(** [f64le x y]: two non-negative finite floats in this order. *)
Definition f64le (x y : f64) : Prop := nn64 x /\ nn64 y /\ (qval x <= qval y)%Q.

Definition nnb (f : f64) : bool :=
  match f with
  | S754_zero _ => true
  | S754_finite false m e => bounded 53 1024 m e
  | _ => false
  end.

Lemma nnb_spec f : nnb f = true <-> nn64 f.
Proof. by destruct f as [| | |[]]. Qed.

Lemma nnb_nn f : nnb f = true -> nn64 f.
Proof. apply nnb_spec. Qed.

(** A closed term denotes a non-negative number. *)
Ltac nn_compute := apply nnb_nn; vm_compute; reflexivity.

#[export] Instance nn64_dec f : Decision (nn64 f).
Proof. refine (cast_if (decide (nnb f = true))); by rewrite <- nnb_spec. Defined.

Lemma prec64 : 1 < 53 /\ 53 < 1024.
Proof. lia. Qed.

(** Decide an instance of the order on closed terms. *)
Lemma f64le_compute x y : nnb x && nnb y && f64_leb x y = true -> f64le x y.
Proof.
  rewrite !andb_true_iff, !nnb_spec. intros [[Hx Hy] Hle].
  split; [done|split; [done|]]. by apply (SFleb_nn 53 1024) in Hle.
Qed.

Ltac f64_compute := apply f64le_compute; vm_compute; reflexivity.

Lemma f64le_leb x y : nn64 x -> nn64 y -> f64_leb x y = true <-> f64le x y.
Proof.
  intros Hx Hy. unfold f64_leb. rewrite (SFleb_nn 53 1024) by done.
  unfold f64le. tauto.
Qed.

Lemma f64_ltb_nn x y : nn64 x -> nn64 y -> f64_ltb x y = true <-> (qval x < qval y)%Q.
Proof. intros Hx Hy. by apply (SFltb_nn 53 1024). Qed.

Lemma f64le_refl x : nn64 x -> f64le x x.
Proof. intros. split; [done|split; [done|lra]]. Qed.

Lemma f64le_trans x y z : f64le x y -> f64le y z -> f64le x z.
Proof. intros (? & ? & ?) (? & ? & ?). split; [done|split; [done|lra]]. Qed.

#[export] Instance f64le_transitive : Transitive f64le := f64le_trans.

Lemma f64le_nn_l x y : f64le x y -> nn64 x.
Proof. by intros (? & ? & ?). Qed.

Lemma f64le_nn_r x y : f64le x y -> nn64 y.
Proof. by intros (? & ? & ?). Qed.

Lemma f64_zero_le x : nn64 x -> f64le f64_zero x.
Proof. intros. split; [done|split; [done|]]. simpl. by apply (nn_nonneg 53 1024). Qed.

Lemma f64_add_le x x' y y' :
  f64le x x' -> f64le y y' -> nn64 (f64_add x' y') -> f64le (f64_add x y) (f64_add x' y').
Proof.
  intros (? & ? & ?) (? & ? & ?) Hn.
  destruct (SFadd_mono 53 1024 ltac:(lia) ltac:(lia) x x' y y') as [? ?]; try done.
Qed.

Lemma f64_mul_le x x' y y' :
  f64le x x' -> f64le y y' -> nn64 (f64_mul x' y') -> f64le (f64_mul x y) (f64_mul x' y').
Proof.
  intros (? & ? & ?) (? & ? & ?) Hn.
  destruct (SFmul_mono 53 1024 ltac:(lia) ltac:(lia) x x' y y') as [? ?]; try done.
Qed.

Lemma f64_div_le x x' y :
  f64le x x' -> nn64 y -> (0 < qval y)%Q -> nn64 (f64_div x' y) ->
  f64le (f64_div x y) (f64_div x' y).
Proof.
  intros (? & ? & ?) ? ? Hn.
  destruct (SFdiv_mono 53 1024 ltac:(lia) ltac:(lia) x x' y) as [? ?]; try done.
Qed.

Lemma f64_of_Z_le m n : 0 <= m <= n -> nn64 (f64_of_Z n) -> f64le (f64_of_Z m) (f64_of_Z n).
Proof.
  intros H Hn. destruct (normalize_mono 53 1024 ltac:(lia) ltac:(lia) m n false H) as [? ?]; done.
Qed.

Lemma f64_of_Z_exact n : 0 <= n < 2 ^ 53 -> nn64 (f64_of_Z n) /\ (qval (f64_of_Z n) == inject_Z n)%Q.
Proof. intros. by apply (normalize_exact 53 1024). Qed.

(** A float64 that holds an unsigned 64-bit integer is finite. *)
Lemma f64_of_u64_nn n : is_u64 n -> nn64 (f64_of_Z n).
Proof.
  intros [H0 H1]. apply (f64le_nn_l _ (f64_of_Z (2 ^ 64 - 1))).
  apply f64_of_Z_le; [lia|]. by apply nnb_spec.
Qed.

(** [Rounding]'s results at the binary64 format. *)
Abbreviation result64 := (result_of 53 1024).
Abbreviation representable64 := (representable 53 1024).

Lemma result64_upper f x b :
  result64 f x -> representable64 b -> (b < p2 1024)%Q -> (x <= b)%Q -> nn64 f /\ (qval f <= b)%Q.
Proof. apply result_upper. lia. Qed.
Lemma result64_lower f x b : result64 f x -> representable64 b -> (b <= x)%Q -> nn64 f -> (b <= qval f)%Q.
Proof. apply result_lower. lia. Qed.
Lemma result64_exact f x :
  result64 f x -> representable64 x -> (x < p2 1024)%Q -> nn64 f /\ (qval f == x)%Q.
Proof. apply result_exact. lia. Qed.
Lemma nn64_representable f : nn64 f -> representable64 (qval f).
Proof. apply nn_representable. lia. Qed.
Lemma nn64_lt_emax f : nn64 f -> (qval f < p2 1024)%Q.
Proof. apply nn_lt_emax. lia. Qed.
Lemma nn64_nonneg f : nn64 f -> (0 <= qval f)%Q.
Proof. apply nn_nonneg. Qed.
Lemma f64_add_result x y : nn64 x -> nn64 y -> result64 (f64_add x y) (qval x + qval y).
Proof. apply SFadd_result; lia. Qed.
Lemma f64_mul_result x y : nn64 x -> nn64 y -> result64 (f64_mul x y) (qval x * qval y).
Proof. apply SFmul_result; lia. Qed.
Lemma f64_div_result x y : nn64 x -> nn64 y -> (0 < qval y)%Q -> result64 (f64_div x y) (qval x / qval y).
Proof. apply SFdiv_result; lia. Qed.

Lemma f64_of_Z_one : (qval (f64_of_Z 1) == 1)%Q.
Proof. vm_compute. reflexivity. Qed.

Lemma f64_of_Z_ge1 n : 1 <= n -> is_u64 n -> nn64 (f64_of_Z n) /\ (1 <= qval (f64_of_Z n))%Q.
Proof.
  intros H1 Hn. pose proof (f64_of_u64_nn n Hn) as Hnn.
  destruct (f64_of_Z_le 1 n) as (_ & _ & Hle); [lia|done|].
  rewrite f64_of_Z_one in Hle. done.
Qed.

(** Dividing by at least one does not increase a number. *)
Lemma f64_div_shrink x y : nn64 x -> nn64 y -> (1 <= qval y)%Q -> f64le (f64_div x y) x.
Proof.
  intros Hx Hy H1. pose proof (nn_nonneg 53 1024 x Hx).
  destruct (result64_upper (f64_div x y) (qval x / qval y) (qval x))
    as [Hn Hle]; [|by apply nn64_representable|by apply nn64_lt_emax| |by split].
  - apply f64_div_result; [done|done|lra].
  - apply Qle_shift_div_r; [lra|].
    assert (qval x * 1 <= qval x * qval y)%Q by (apply Qmult_le_compat_nonneg; split; lra). lra.
Qed.

(** Division by a number at least one is monotone. *)
Lemma f64_div_mono x x' y : f64le x x' -> nn64 y -> (1 <= qval y)%Q -> f64le (f64_div x y) (f64_div x' y).
Proof.
  intros Hx Hy H1. apply f64_div_le; [done|done|lra|].
  eapply f64le_nn_l, f64_div_shrink; [by eapply f64le_nn_r|done|done].
Qed.

(** Sums of small integers are exact. *)
Lemma f64_add_Z_exact m n :
  0 <= m -> 0 <= n -> m + n < 2 ^ 53 ->
  nn64 (f64_add (f64_of_Z m) (f64_of_Z n)) /\
  (qval (f64_add (f64_of_Z m) (f64_of_Z n)) == inject_Z (m + n))%Q.
Proof.
  intros Hm Hn Hs. destruct (f64_of_Z_exact m ltac:(lia)) as [Hm1 Hm2].
  destruct (f64_of_Z_exact n ltac:(lia)) as [Hn1 Hn2].
  apply result64_exact.
  - eapply result_proper; [|apply f64_add_result; [exact Hm1|exact Hn1]].
    by rewrite Hm2, Hn2, inject_Z_plus.
  - apply integer_representable; lia.
  - apply Qlt_trans with (inject_Z (2 ^ 53)); [by rewrite <- Zlt_Qlt|].
    rewrite p2_Z by lia. by apply p2_lt.
Qed.

Lemma f64le_of_qval x y : nn64 x -> nn64 y -> (qval x <= qval y)%Q -> f64le x y.
Proof. intros. by split. Qed.

(** Clipping at a bound [b], as the code writes it and as [math.Min] does. *)
Definition clip (b x : f64) : f64 := if f64_ltb b x then b else x.

Lemma clip_spec b x : nn64 b -> nn64 x ->
  nn64 (clip b x) /\ (qval (clip b x) <= qval b)%Q /\ (qval (clip b x) <= qval x)%Q /\
  ((qval (clip b x) == qval b)%Q \/ (qval (clip b x) == qval x)%Q).
Proof.
  intros Hb Hx. unfold clip. pose proof (f64_ltb_nn b x Hb Hx) as H.
  destruct (f64_ltb b x).
  - assert (qval b < qval x)%Q by (by apply H). repeat split; try done; lra || (left; lra).
  - assert (~ (qval b < qval x)%Q) by (intros ?; apply H in H0; done).
    repeat split; try done; lra || (right; lra).
Qed.

Lemma clip_bound b x : nn64 b -> nn64 x -> f64le (clip b x) b.
Proof. intros Hb Hx. destruct (clip_spec b x Hb Hx) as (? & ? & _). by apply f64le_of_qval. Qed.

Lemma clip_mono b x y : nn64 b -> f64le x y -> f64le (clip b x) (clip b y).
Proof.
  intros Hb (Hx & Hy & Hxy). destruct (clip_spec b x Hb Hx) as (? & ? & ? & _).
  destruct (clip_spec b y Hb Hy) as (? & ? & ? & [?|?]); apply f64le_of_qval; try done; lra.
Qed.

Lemma f64_min_nn x y : nn64 x -> nn64 y ->
  nn64 (f64_min x y) /\ (qval (f64_min x y) <= qval x)%Q /\ (qval (f64_min x y) <= qval y)%Q /\
  ((qval (f64_min x y) == qval x)%Q \/ (qval (f64_min x y) == qval y)%Q).
Proof.
  intros Hx Hy. pose proof (f64_ltb_nn x y Hx Hy) as H.
  assert ((exists sx sy, x = S754_zero sx /\ y = S754_zero sy) \/
          f64_min x y = if f64_ltb x y then x else y) as [(sx & sy & -> & ->)| ->].
  { destruct x as [| | |[]]; try done; destruct y as [| | |[]]; try done; [left; eauto|right; done..]. }
  - simpl. repeat split; try done; lra || (left; lra).
  - destruct (f64_ltb x y).
    + assert (qval x < qval y)%Q by (by apply H). repeat split; try done; lra || (left; lra).
    + assert (~ (qval x < qval y)%Q) by (intros ?; apply H in H0; done).
      repeat split; try done; lra || (right; lra).
Qed.

Lemma f64_min_mono x x' y : nn64 y -> f64le x x' -> f64le (f64_min x y) (f64_min x' y).
Proof.
  intros Hy (Hx & Hx' & Hxy). destruct (f64_min_nn x y Hx Hy) as (? & ? & ? & _).
  destruct (f64_min_nn x' y Hx' Hy) as (? & ? & ? & [?|?]); apply f64le_of_qval; try done; lra.
Qed.

Lemma f64_min_bound x y : nn64 x -> nn64 y -> f64le (f64_min x y) y.
Proof. intros Hx Hy. destruct (f64_min_nn x y Hx Hy) as (? & _ & ? & _). by apply f64le_of_qval. Qed.

(** Truncation of a non-negative float. *)
Lemma trunc_nn p em f : nn p em f -> exists t, trunc f = Some t /\ 0 <= t.
Proof.
  destruct f as [s| | |[] m e]; try done; intros _; simpl; [by exists 0|].
  eexists. split; [done|]. destruct (0 <=? e); [apply Z.shiftl_nonneg|apply Z.shiftr_nonneg]; lia.
Qed.

Lemma trunc_floor p em f t :
  trunc f = Some t -> nn p em f -> (inject_Z t <= qval f)%Q /\ (qval f < inject_Z (t + 1))%Q.
Proof.
  destruct f as [s| | |[] m e]; try done; intros H _; injection H as <-; [by split|].
  cbn [cond_Zopp qval]. destruct (Z.leb_spec 0 e).
  - rewrite Z.shiftl_mul_pow2 by done. unfold dy. rewrite <- p2_Z, <- inject_Z_mult by done.
    rewrite <- Zle_Qle, <- Zlt_Qlt. lia.
  - rewrite Z.shiftr_div_pow2 by lia.
    assert (forall n, (dy (n * 2 ^ (- e)) e == inject_Z n)%Q) as Hd.
    { intros n. rewrite <- (Z.sub_0_l e), <- dy_shift by lia. unfold dy. change (p2 0) with 1%Q. ring. }
    pose proof (Z.pow_pos_nonneg 2 (- e) ltac:(lia) ltac:(lia)).
    pose proof (Z.div_mod (Z.pos m) (2 ^ (- e)) ltac:(lia)).
    pose proof (Z.mod_pos_bound (Z.pos m) (2 ^ (- e)) ltac:(lia)).
    split; [rewrite <- Hd; apply dy_le; nia|rewrite <- Hd; apply dy_lt; nia].
Qed.

(** ** Monotone expressions with a known top

    [between x y t]: [x <= y <= t].  The arithmetic operations preserve it as
    long as the operation on the tops does not overflow, which is checked by
    evaluation. *)
Definition between (x y t : f64) : Prop := f64le x y /\ f64le y t.

Lemma between_add x y t x' y' t' :
  between x y t -> between x' y' t' -> nn64 (f64_add t t') ->
  between (f64_add x x') (f64_add y y') (f64_add t t').
Proof.
  intros [H1 H2] [H3 H4] Hn.
  assert (f64le (f64_add y y') (f64_add t t')) as Htop by (by apply f64_add_le).
  split; [|done]. apply f64_add_le; [done|done|by eapply f64le_nn_l].
Qed.

Lemma between_mul x y t x' y' t' :
  between x y t -> between x' y' t' -> nn64 (f64_mul t t') ->
  between (f64_mul x x') (f64_mul y y') (f64_mul t t').
Proof.
  intros [H1 H2] [H3 H4] Hn.
  assert (f64le (f64_mul y y') (f64_mul t t')) as Htop by (by apply f64_mul_le).
  split; [|done]. apply f64_mul_le; [done|done|by eapply f64le_nn_l].
Qed.

Lemma between_refl x : nn64 x -> between x x x.
Proof. intros. split; by apply f64le_refl. Qed.

Lemma between_clip b x y : nn64 b -> f64le x y -> between (clip b x) (clip b y) b.
Proof. intros Hb H. split; [by apply clip_mono|]. apply clip_bound; [done|by eapply f64le_nn_r]. Qed.

Lemma between_min b x y : nn64 b -> f64le x y -> between (f64_min x b) (f64_min y b) b.
Proof. intros Hb H. split; [by apply f64_min_mono|]. apply f64_min_bound; [by eapply f64le_nn_r|done]. Qed.

(** ** A non-negative float as an integer *)

Lemma f64_to_u64_floor oob f t :
  nn64 f -> (inject_Z t <= qval f)%Q -> (qval f < inject_Z (t + 1))%Q -> 0 <= t < 2 ^ 64 ->
  f64_to_u64 oob f = t.
Proof.
  intros Hf Hl Hu Ht. destruct (trunc_nn _ _ f Hf) as (u & Hu1 & _).
  destruct (trunc_floor _ _ f u Hu1 Hf) as [Hl' Hu'].
  assert (u < t + 1) by (rewrite Zlt_Qlt; lra). assert (t < u + 1) by (rewrite Zlt_Qlt; lra).
  assert (u = t) as -> by lia. unfold f64_to_u64. rewrite Hu1.
  destruct (Z.leb_spec 0 t), (Z.ltb_spec t (2 ^ 64)); simpl; lia.
Qed.

(** A rounded number keeps its distance to the integers around it. *)
Lemma result64_floor f x q :
  result64 f x -> 0 <= q < 2 ^ 40 -> (inject_Z q <= x)%Q -> (x <= inject_Z q + (1023 # 1024))%Q ->
  nn64 f /\ (inject_Z q <= qval f)%Q /\ (qval f < inject_Z (q + 1))%Q.
Proof.
  intros Hr Hq Hl Hu. set (b := dy (q * 1024 + 1023) (-10)).
  assert (b == inject_Z q + (1023 # 1024))%Q as Hb.
  { unfold b, dy. change (p2 (-10)) with (1 # 1024)%Q. rewrite inject_Z_plus, inject_Z_mult. ring. }
  assert (inject_Z (q + 1) == inject_Z q + 1)%Q as Hq1 by (rewrite inject_Z_plus; reflexivity).
  destruct (result64_upper f x b) as [Hn Hle]; [done| | |lra|].
  - exists (q * 1024 + 1023), (-10). split; [lia|]. split; [unfold SpecFloat.emin; lia|done].
  - apply Qlt_trans with (inject_Z (2 ^ 41)); [|rewrite p2_Z by lia; by apply p2_lt].
    assert (inject_Z (q + 1) < inject_Z (2 ^ 41))%Q by (rewrite <- Zlt_Qlt; lia). lra.
  - split; [done|]. split; [|lra].
    apply (result64_lower f x); [done|apply integer_representable; lia|done|done].
Qed.

(** Dividing an integer by 200 through the float constant 0.005: the constant is a
    little above 1/200, but the product never reaches the next integer. *)
Lemma f64_const_5_1000 :
  nn64 (f64_const 5 1000) /\ (1 # 200 <= qval (f64_const 5 1000))%Q /\
  (qval (f64_const 5 1000) <= (1 # 200) + (1 # 100000000000000000))%Q.
Proof. split; [nn_compute|]. split; vm_compute; discriminate. Qed.

Lemma Q_div200 n c :
  0 <= n <= 2 ^ 40 -> (1 # 200 <= c)%Q -> (c <= (1 # 200) + (1 # 100000000000000000))%Q ->
  (inject_Z (n / 200) <= inject_Z n * c)%Q /\
  (inject_Z n * c <= inject_Z (n / 200) + (1023 # 1024))%Q.
Proof.
  intros Hn Hc1 Hc2. set (q := n / 200).
  assert (200 * q <= n <= 200 * q + 199) as [Hq1 Hq2].
  { pose proof (Z.div_mod n 200 ltac:(lia)). pose proof (Z.mod_pos_bound n 200 ltac:(lia)). lia. }
  rewrite Zle_Qle in Hq1, Hq2. rewrite inject_Z_mult in Hq1. rewrite inject_Z_plus, inject_Z_mult in Hq2.
  change (inject_Z 200) with 200%Q in *. change (inject_Z 199) with 199%Q in *.
  assert (0 <= inject_Z n)%Q by (change 0%Q with (inject_Z 0); rewrite <- Zle_Qle; lia).
  assert (inject_Z n <= inject_Z (2 ^ 40))%Q as Hmax by (rewrite <- Zle_Qle; lia).
  assert (inject_Z n * (1 # 200) <= inject_Z n * c)%Q by (apply Qmult_le_compat_nonneg; split; lra).
  assert (inject_Z n * c <= inject_Z n * ((1 # 200) + (1 # 100000000000000000)))%Q
    by (apply Qmult_le_compat_nonneg; split; lra).
  assert (inject_Z n * (1 # 100000000000000000) <= 1 # 80000)%Q.
  { apply Qle_trans with (inject_Z (2 ^ 40) * (1 # 100000000000000000))%Q.
    - apply Qmult_le_compat_nonneg; split; lra || done.
    - done. }
  split; lra.
Qed.

Lemma f64_div200 oob n : 0 <= n <= 2 ^ 40 -> f64_to_u64 oob (f64_mul (f64_of_Z n) (f64_const 5 1000)) = n / 200.
Proof.
  intros Hn. destruct (f64_of_Z_exact n ltac:(lia)) as [Hnn Hv].
  destruct f64_const_5_1000 as (Hc & Hc1 & Hc2).
  destruct (Q_div200 n _ Hn Hc1 Hc2) as [Hl Hu].
  assert (0 <= n / 200 < 2 ^ 40) by (split; [apply Z.div_pos|apply Z.div_lt_upper_bound]; lia).
  pose proof (f64_mul_result _ _ Hnn Hc) as Hr.
  eapply result_proper in Hr; [|by rewrite Hv].
  destruct (result64_floor _ _ _ Hr ltac:(done) Hl Hu) as (? & ? & ?).
  apply f64_to_u64_floor; [done..|lia].
Qed.
