(* ===== verification/Value.v ===== *)
(** * encoding/json: values of type interface{}

    What [json.Unmarshal] stores in an [interface{}] and what the server hands to
    [json.Marshal], as trees; numbers in an [interface{}] are float64s. *)

From Stdlib Require Import QArith.
From S2P Require Import Prelude Bytes Json Rounding Float.
Local Open Scope Z_scope.
Import Json.

Module Value.

(** An instant is kept as such; its text is the library's. The members of an object are
    in the order they are printed in. *)
Inductive value :=
| VNull
| VBool (b : bool)
| VInt (n : Z)
| VFloat (f : f64)
| VStr (s : list byte)
| VTime (t : Z)
| VList (elems : list value)
| VObj (members : list (list byte * value)).

(** ** strconv.ParseFloat *)

(** The parts of a number literal: sign, digits before and after the point, exponent. *)
Definition split_number (l : list byte) : bool * list byte * list byte * Z :=
  let '(neg, l1) := match l with b :: l' => if code b =? 45 then (true, l') else (false, l) | [] => (false, l) end in
  let '(int, l2) := scan_digits l1 in
  let '(frac, l3) := match l2 with
    | b :: l' => if code b =? 46 then scan_digits l' else ([], l2)
    | [] => ([], []) end in
  let exp := match l3 with
    | _ :: b :: l' => if code b =? 45 then - dec_value (fst (scan_digits l'))
                      else if code b =? 43 then dec_value (fst (scan_digits l'))
                      else dec_value (fst (scan_digits (b :: l')))
    | _ => 0 end in
  (neg, int, frac, exp).

(** The float64 nearest to [m * 10^e]. *)
Definition decimal (neg : bool) (m e : Z) : f64 :=
  if 0 <=? e then binary_normalize 53 1024 (if neg then - (m * 10 ^ e) else m * 10 ^ e) 0 neg
  else f64_div (S754_finite neg (Z.to_pos m) 0) (S754_finite false (Z.to_pos (10 ^ (- e))) 0).

(** [None] when the number is out of range. Magnitudes outside 10^-400 .. 10^400 are
    settled by their number of digits. *)
Definition ParseFloat (l : list byte) : option f64 :=
  let '(neg, int, frac, exp) := split_number l in
  let m := dec_value (int ++ frac) in
  let e := exp - Z.of_nat (length frac) in
  let magnitude := Z.of_nat (length (int ++ frac)) + e in
  if (m =? 0) || (magnitude <? -400) then Some (S754_zero neg)
  else if 400 <? e then None
  else
    match decimal neg m e with
    | S754_infinity _ => None
    | f => Some f
    end.

(** ** Unmarshal into an interface{} *)

(** Keys are sorted and a later duplicate replaces an earlier member. *)
Fixpoint bytes_leb (a b : list byte) : bool :=
  match a, b with
  | [], _ => true
  | _, [] => false
  | x :: a', y :: b' => if code x =? code y then bytes_leb a' b' else code x <? code y
  end.

Fixpoint insert_member (k : list byte) (v : value) (ms : list (list byte * value)) : list (list byte * value) :=
  match ms with
  | [] => [(k, v)]
  | (k', v') :: ms' =>
      if decide (k = k') then (k, v) :: ms'
      else if bytes_leb k k' then (k, v) :: ms
      else (k', v') :: insert_member k v ms'
  end.

(** The value and whether every number in it was in range; one that is not is left nil. *)
Fixpoint of_json (j : json) : value * bool :=
  match j with
  | JNull => (VNull, true)
  | JBool b => (VBool b, true)
  | JNum l => match ParseFloat l with Some f => (VFloat f, true) | None => (VNull, false) end
  | JStr s => (VStr s, true)
  | JArr es =>
      let rs := List.map of_json es in (VList (List.map fst rs), forallb snd rs)
  | JObj ms =>
      let rs := List.map (fun '(k, v) => (k, of_json v)) ms in
      (VObj (foldl (fun acc r => insert_member (fst r) (fst (snd r)) acc) [] rs), forallb (fun r => snd (snd r)) rs)
  end.

(** ** Marshal *)

Definition finite (f : f64) : bool :=
  match f with S754_zero _ | S754_finite _ _ _ => true | _ => false end.

(** [json.Marshal] refuses infinities and NaN. *)
Fixpoint marshalable (v : value) : bool :=
  match v with
  | VFloat f => finite f
  | VList es => forallb marshalable es
  | VObj ms => forallb (fun '(_, v) => marshalable v) ms
  | _ => true
  end.

(** ** Integers *)

Lemma scan_digits_all ds :
  Forall (fun d => is_digit d = true) ds -> scan_digits ds = (ds, []).
Proof. intros H. pose proof (scan_digits_app ds [] H I) as E. by rewrite app_nil_r in E. Qed.

Lemma split_FormatInt n : - 10 ^ 20 < n < 10 ^ 20 ->
  exists ds, split_number (FormatInt n) = (n <? 0, ds, [], 0) /\ dec_value ds = Z.abs n.
Proof.
  intros Hn. destruct (FormatInt_shape n Hn) as (d & ds & Hd & _ & Hv & ->). exists (d :: ds).
  split; [|done]. unfold split_number.
  assert ((code d =? 45) = false) as Hm by (inversion Hd; by apply digit_not_minus).
  destruct (n <? 0); cbn [app].
  - change (code (chr 45) =? 45) with true. cbv iota. by rewrite scan_digits_all.
  - rewrite Hm. by rewrite scan_digits_all.
Qed.

(** An unsigned integer becomes the nearest float64. *)
Lemma ParseFloat_uint n : is_u64 n -> ParseFloat (FormatInt n) = Some (f64_of_Z n).
Proof.
  intros Hn. unfold is_u64 in Hn. destruct (split_FormatInt n ltac:(lia)) as (ds & E & Hv).
  unfold ParseFloat. rewrite E, app_nil_r, Hv, Z.abs_eq by lia. destruct (Z.ltb_spec n 0); [lia|].
  destruct (Z.eqb_spec n 0) as [->|Hz]; [vm_compute; reflexivity|].
  cbn [length orb]. destruct (Z.ltb_spec (Z.of_nat (length ds) + (0 - Z.of_nat 0)) (-400)); [lia|].
  change (400 <? 0 - Z.of_nat 0) with false. cbv iota. unfold decimal.
  change (0 <=? 0 - Z.of_nat 0) with true. cbv iota. change (10 ^ (0 - Z.of_nat 0)) with 1. rewrite Z.mul_1_r.
  change (binary_normalize 53 1024 n 0 false) with (f64_of_Z n).
  pose proof (f64_of_u64_nn n Hn) as Hnn. destruct (f64_of_Z n); [reflexivity|destruct Hnn|destruct Hnn|reflexivity].
Qed.

(** An [interface{}] holds a JSON integer as a float64: every integer below [2^53] is kept,
    and [2^53] and [2^53 + 1] become the same value. *)
Theorem interface_integers (n m : Z) (Hn : 0 <= n < 2 ^ 53) (Hm : 0 <= m < 2 ^ 53) :
  (of_json (JNum (FormatInt n)) = of_json (JNum (FormatInt m)) -> n = m) /\
  of_json (JNum (FormatInt (2 ^ 53 + 1))) = of_json (JNum (FormatInt (2 ^ 53))).
Proof.
  split; [|vm_compute; reflexivity]. cbn [of_json]. rewrite !ParseFloat_uint by (unfold is_u64; lia).
  intros [= E]. destruct (f64_of_Z_exact n Hn) as [_ Hvn]. destruct (f64_of_Z_exact m Hm) as [_ Hvm].
  rewrite E, Hvm in Hvn. exact (eq_sym (proj1 (inject_Z_injective m n) Hvn)).
Qed.

Lemma interface_integers_witness :
  of_json (JNum (FormatInt 7)) <> of_json (JNum (FormatInt 8)).
Proof. intros H. apply (interface_integers 7 8) in H; [|by split..]. discriminate. Defined.

(** Literals with fractions and exponents. *)
Example floats :
  ParseFloat (text "0.5") = Some (f64_const 1 2) /\ ParseFloat (text "-25e-1") = Some (f64_const (-5) 2) /\
  ParseFloat (text "1e400") = None /\ ParseFloat (text "1e999999999") = None /\
  ParseFloat (text "4.9e-324") = Some (S754_finite false 1 (-1074)) /\ ParseFloat (text "-0.0e5") = Some (S754_zero true).
Proof. vm_compute. split_and!; reflexivity. Qed.

End Value.
