(* ===== verification/Payloads.v ===== *)
(** * internal/p2p: the other gossip payloads

    The payload types of protocol.go besides the block announcement, and their decoders.
    The validator announcement is what a node sends on every new connection. *)

From Stdlib Require Import QArith.
From S2P Require Import Prelude Bytes Base64 Json P2P Framing Sync Wire Network Rounding Float Value.
Local Open Scope Z_scope.
Import Json Wire Value.

Module Payloads.

Record AttestationMsg := mkAttestation {
  atBlockNumber : Z; atBlockHash : string; atValidator : string; atTasteScore : f64; atSignature : slice; atTimestamp : Z
}.
Record SyncRequestMsg := mkSyncRequest { FromBlock : Z; ToBlock : Z }.
Record SyncResponseMsg := mkSyncResponse { Blocks : option (list Sync.BlockAnnounce) }.
Record ValidatorAnnounceMsg := mkValidatorAnnounce {
  vaAddress : string; vaPort : Z; vaVersion : string; vaChainID : Z; vaStake : string
}.
Record SlashReportMsg := mkSlashReport { srValidator : string; srReason : string; srEvidence : slice }.

Definition dec_float : decoder f64 := fun j old =>
  match j with
  | JNull => (old, true)
  | JNum l => match ParseFloat l with Some f => (f, true) | None => (old, false) end
  | _ => (old, false)
  end.

Definition attestation_fields : list (field AttestationMsg) := [
  ("blockNumber"%string, on atBlockNumber (fun x a => mkAttestation x (atBlockHash a) (atValidator a) (atTasteScore a)
     (atSignature a) (atTimestamp a)) (dec_uint 64));
  ("blockHash"%string, str_field atBlockHash (fun x a => mkAttestation (atBlockNumber a) x (atValidator a)
     (atTasteScore a) (atSignature a) (atTimestamp a)));
  ("validator"%string, str_field atValidator (fun x a => mkAttestation (atBlockNumber a) (atBlockHash a) x
     (atTasteScore a) (atSignature a) (atTimestamp a)));
  ("tasteScore"%string, on atTasteScore (fun x a => mkAttestation (atBlockNumber a) (atBlockHash a) (atValidator a) x
     (atSignature a) (atTimestamp a)) dec_float);
  ("signature"%string, on atSignature (fun x a => mkAttestation (atBlockNumber a) (atBlockHash a) (atValidator a)
     (atTasteScore a) x (atTimestamp a)) dec_bytes);
  ("timestamp"%string, on atTimestamp (fun x a => mkAttestation (atBlockNumber a) (atBlockHash a) (atValidator a)
     (atTasteScore a) (atSignature a) x) dec_int) ].

Definition DecodeAttestationMsg (data : list byte) : outcome AttestationMsg :=
  match Unmarshal attestation_fields (mkAttestation 0 "" "" f64_zero None 0) data with
  | Some a => Ok a
  | None => Err "decode AttestationMsg"
  end.

Definition sync_request_fields : list (field SyncRequestMsg) := [
  ("fromBlock"%string, on FromBlock (fun x a => mkSyncRequest x (ToBlock a)) (dec_uint 64));
  ("toBlock"%string, on ToBlock (fun x a => mkSyncRequest (FromBlock a) x) (dec_uint 64)) ].

Definition DecodeSyncRequest (data : list byte) : outcome SyncRequestMsg :=
  match Unmarshal sync_request_fields (mkSyncRequest 0 0) data with
  | Some a => Ok a
  | None => Err "decode SyncRequestMsg"
  end.

Definition validator_announce_fields : list (field ValidatorAnnounceMsg) := [
  ("address"%string, str_field vaAddress (fun x a => mkValidatorAnnounce x (vaPort a) (vaVersion a) (vaChainID a) (vaStake a)));
  ("port"%string, on vaPort (fun x a => mkValidatorAnnounce (vaAddress a) x (vaVersion a) (vaChainID a) (vaStake a)) dec_int);
  ("version"%string, str_field vaVersion (fun x a => mkValidatorAnnounce (vaAddress a) (vaPort a) x (vaChainID a) (vaStake a)));
  ("chainId"%string, on vaChainID (fun x a => mkValidatorAnnounce (vaAddress a) (vaPort a) (vaVersion a) x (vaStake a)) (dec_uint 64));
  ("stake"%string, str_field vaStake (fun x a => mkValidatorAnnounce (vaAddress a) (vaPort a) (vaVersion a) (vaChainID a) x)) ].

Definition DecodeValidatorAnnounce (data : list byte) : outcome ValidatorAnnounceMsg :=
  match Unmarshal validator_announce_fields (mkValidatorAnnounce "" 0 "" 0 "") data with
  | Some a => Ok a
  | None => Err "decode ValidatorAnnounceMsg"
  end.

(** [EncodePayload] of the payloads that hold no float64. *)
Definition EncodeSyncRequest (r : SyncRequestMsg) : list byte :=
  encode (JObj [(text "fromBlock", JNum (FormatInt (FromBlock r))); (text "toBlock", JNum (FormatInt (ToBlock r)))]).
Definition EncodeValidatorAnnounce (a : ValidatorAnnounceMsg) : list byte :=
  encode (JObj [(text "address", JStr (text (vaAddress a))); (text "port", JNum (FormatInt (vaPort a)));
    (text "version", JStr (text (vaVersion a))); (text "chainId", JNum (FormatInt (vaChainID a)));
    (text "stake", JStr (text (vaStake a)))]).

(** ** Round trips *)

Lemma sync_request_names : distinct_names sync_request_fields.
Proof. apply (bool_decide_unpack _). vm_compute. done. Qed.
Lemma validator_announce_names : distinct_names validator_announce_fields.
Proof. apply (bool_decide_unpack _). vm_compute. done. Qed.

Definition announce_ok (a : ValidatorAnnounceMsg) : Prop :=
  is_i64 (vaPort a) /\ is_u64 (vaChainID a) /\ ascii (text (vaAddress a)) /\ ascii (text (vaVersion a)) /\
  ascii (text (vaStake a)).

(** One member of these records. *)
Ltac decode_member :=
  match goal with |- context [foldl _ ?acc _] =>
    let H := fresh in
    eassert (acc = (_, true)) as H;
      [unfold on; cbn [fst snd dec_int dec_uint dec_string];
       rewrite ?ParseInt_FormatInt, ?ParseUint_FormatInt by (unfold is_i64; lia);
       cbn [andb vaAddress vaPort vaVersion vaChainID vaStake FromBlock ToBlock];
       reflexivity
      |rewrite H; clear H]
  end.

(** Sync requests and validator announcements survive their JSON encoding. *)
Theorem payload_roundtrip (r : SyncRequestMsg) (a : ValidatorAnnounceMsg)
  (Hf : is_u64 (FromBlock r)) (Ht : is_u64 (ToBlock r)) (Ha : announce_ok a) :
  DecodeSyncRequest (EncodeSyncRequest r) = Ok r /\ DecodeValidatorAnnounce (EncodeValidatorAnnounce a) = Ok a.
Proof.
  unfold announce_ok, is_u64, is_i64 in *. destruct Ha as (H1 & H2 & H3 & H4 & H5). split.
  - unfold DecodeSyncRequest.
    change (EncodeSyncRequest r) with (encode (JObj (zip_with (fun f v => (text (fst f), v)) sync_request_fields
      [JNum (FormatInt (FromBlock r)); JNum (FormatInt (ToBlock r))]))).
    rewrite Unmarshal_flat; [|exact sync_request_names|].
    + unfold sync_request_fields. cbn [zip zip_with]. repeat (rewrite foldl_step; decode_member).
      by destruct r.
    + apply flat_zip; [vm_compute; reflexivity|]. repeat constructor; apply scalar_int; lia.
  - unfold DecodeValidatorAnnounce.
    change (EncodeValidatorAnnounce a) with (encode (JObj (zip_with (fun f v => (text (fst f), v)) validator_announce_fields
      [JStr (text (vaAddress a)); JNum (FormatInt (vaPort a)); JStr (text (vaVersion a));
       JNum (FormatInt (vaChainID a)); JStr (text (vaStake a))]))).
    rewrite Unmarshal_flat; [|exact validator_announce_names|].
    + unfold validator_announce_fields, str_field, text. cbn [zip zip_with].
      repeat (rewrite foldl_step; decode_member). cbn [foldl]. rewrite !string_of_bytes_of_string. by destruct a.
    + apply flat_zip; [vm_compute; reflexivity|].
      repeat constructor; try (apply scalar_int; lia); done.
Qed.

Lemma payload_roundtrip_witness :
  DecodeSyncRequest (EncodeSyncRequest (mkSyncRequest 5 (2 ^ 64 - 1))) = Ok (mkSyncRequest 5 (2 ^ 64 - 1)).
Proof.
  apply (payload_roundtrip (mkSyncRequest 5 (2 ^ 64 - 1)) (mkValidatorAnnounce "0xab" 30303 "inso/1.0" 1 "10000"));
    [by split|by split|]. unfold announce_ok. split_and!; try (by split); ascii_text.
Defined.

(** A peer's attestation, were it ever decoded. *)
Example attestation_sample :
  DecodeAttestationMsg (quoted "{'blockNumber':7,'tasteScore':0.5,'signature':'AQI=','timestamp':-1}") =
    Ok (mkAttestation 7 "" "" (f64_const 1 2) (Some ([Byte.x01; Byte.x02], [])) (-1)).
Proof. vm_compute. reflexivity. Qed.

End Payloads.
