(* ===== verification/Config.v ===== *)
(** * internal/config: settings

    The configuration structs, the development defaults, and the loading of a file:
    environment expansion as package [os] does it, then the YAML library, which is a
    parameter. Durations are nanosecond counts. *)

From S2P Require Import Prelude Bytes Float.

Module Config.

Record ValidatorConfig := mkValidator {
  DataDir : string; ListenAddr : string; P2PPort : Z; MinStake : Z; KeyFile : string; Bootnodes : list string
}.
Record SequencerConfig := mkSequencer { seqRPCURL : string; WSURL : string }.
Record L1Config := mkL1 { l1RPCURL : string; ChainID : Z; StakingContract : string }.
Record TasteScoreConfig := mkTaste { tsEnabled : bool; APIURL : string; APIKey : string }.
Record ConsensusConfig := mkConsensus {
  BlockTimeout : Z; AttestationDelay : Z; SlashingEnabled : bool; MinValidators : Z
}.
Record LoggingConfig := mkLogging { Level : string; Format : string }.
Record MetricsConfig := mkMetrics { mEnabled : bool; Addr : string }.
Record SovereigntyConfig := mkSovereignty {
  sEnabled : bool; XPDecayRate : f64; AttestationXP : Z; UptimeBonusXP : Z; SlashPenaltyXP : Z
}.
Record AdaptiveBlockConfig := mkAdaptiveBlock {
  aEnabled : bool; MinGasLimit : Z; MaxGasLimit : Z; MinMaxTx : Z; MaxMaxTx : Z
}.

Record t := mk {
  Validator : ValidatorConfig; Sequencer : SequencerConfig; L1 : L1Config; TasteScore : TasteScoreConfig;
  Consensus : ConsensusConfig; Sovereignty : SovereigntyConfig; AdaptiveBlock : AdaptiveBlockConfig;
  Logging : LoggingConfig; Metrics : MetricsConfig
}.

Definition second : Z := 10 ^ 9.
Definition millisecond : Z := 10 ^ 6.

Definition DefaultConfig : t := mk
  (mkValidator "/data" "0.0.0.0:8547" 30303 10000 "" [])
  (mkSequencer "http://localhost:8545" "ws://localhost:8546")
  (mkL1 "http://localhost:8551" 1 "")
  (mkTaste true "https://api.insoblokai.io" "")
  (mkConsensus (2 * second) (200 * millisecond) true 1)
  (mkSovereignty true (f64_const 5 1000) 10 5 500)
  (mkAdaptiveBlock true 15000000 60000000 1000 10000)
  (mkLogging "info" "json")
  (mkMetrics true "0.0.0.0:6061").

(** ** os.ExpandEnv *)

Definition in_range (lo hi : Z) (b : byte) : bool := (lo <=? byte_to_Z b) && (byte_to_Z b <=? hi).
Definition is_code (c : Z) (b : byte) : bool := byte_to_Z b =? c.

(** [isShellSpecialVar]: one of [*#$@!?-] or a digit. *)
Definition is_special (b : byte) : bool :=
  is_code 42 b || is_code 35 b || is_code 36 b || is_code 64 b || is_code 33 b || is_code 63 b ||
  is_code 45 b || in_range 48 57 b.

Definition is_alnum (b : byte) : bool :=
  is_code 95 b || in_range 48 57 b || in_range 97 122 b || in_range 65 90 b.

(** Up to the closing brace; [None] when there is none. *)
Fixpoint scan_brace (s : list byte) : option (list byte) :=
  match s with
  | [] => None
  | b :: s' => if is_code 125 b then Some [] else (b ::.) <$> scan_brace s'
  end.

Fixpoint scan_alnum (s : list byte) : list byte :=
  match s with b :: s' => if is_alnum b then b :: scan_alnum s' else [] | [] => [] end.

(** [getShellName] on the non-empty text after a dollar sign: the name and the number of
    bytes it takes. *)
Definition getShellName (s : list byte) : list byte * nat :=
  match s with
  | [] => ([], 0%nat)
  | a :: s1 =>
      if is_code 123 a then
        match s1 with
        | b :: c :: _ =>
            if is_special b && is_code 125 c then ([b], 3%nat)
            else match scan_brace s1 with
                 | Some [] => ([], 2%nat)
                 | Some name => (name, (length name + 2)%nat)
                 | None => ([], 1%nat)
                 end
        | _ => match scan_brace s1 with
               | Some [] => ([], 2%nat)
               | Some name => (name, (length name + 2)%nat)
               | None => ([], 1%nat)
               end
        end
      else if is_special a then ([a], 1%nat)
      else let name := scan_alnum s in (name, length name)
  end.

(** [os.Expand]; [fuel] bounds the length of the text. *)
Fixpoint expand (fuel : nat) (getenv : list byte -> list byte) (s : list byte) : list byte :=
  match fuel with
  | O => s
  | S f =>
      match s with
      | [] => []
      | b :: s' =>
          if is_code 36 b && negb (bool_decide (s' = [])) then
            let '(name, w) := getShellName s' in
            match name with
            | [] => if (0 <? w)%nat then expand f getenv (drop w s') else b :: expand f getenv s'
            | _ => getenv name ++ expand f getenv (drop w s')
            end
          else b :: expand f getenv s'
      end
  end.

Definition ExpandEnv (getenv : list byte -> list byte) (s : list byte) : list byte := expand (length s) getenv s.

(** [Load]: [file] is the outcome of reading it, [yaml] the decoder, which updates the
    configuration it is given. *)
Definition Load (file : outcome (list byte)) (getenv : list byte -> list byte)
    (yaml : list byte -> t -> outcome t) : outcome t :=
  match file with
  | Ok data =>
      match yaml (ExpandEnv getenv data) DefaultConfig with
      | Ok cfg => Ok cfg
      | Err e => Err ("parse config: " +:+ e)
      | Panic w => Panic w
      end
  | Err e => Err ("read config: " +:+ e)
  | Panic w => Panic w
  end.

(** A text without dollar signs is unchanged. *)
Lemma ExpandEnv_plain getenv s : Forall (fun b => is_code 36 b = false) s -> ExpandEnv getenv s = s.
Proof.
  intros H. unfold ExpandEnv. induction H as [|b s Hb _ IH]; [done|]. cbn [length expand]. by rewrite Hb, IH.
Qed.

Example expand_sample :
  string_of_bytes (ExpandEnv (fun n => bytes_of_string "<" ++ n ++ bytes_of_string ">")
    (bytes_of_string "a${HOME}b$x-$ c${}d$1$")) = "a<HOME>b<x>-$ cd<1>$"%string.
Proof. vm_compute. reflexivity. Qed.

End Config.
