(* ===== verification/BigFloat.v ===== *)
(** * Go's math/big.Float

    Executable models of the arbitrary-precision operations on stakes, on the
    [spec_float] data of the Standard Library at the precision each operation picks,
    and their error bounds (from [Rounding]). *)

From Stdlib Require Import QArith Lqa Qround.
From stdpp Require Import pretty.
From S2P Require Import Prelude Rounding Float.
Local Open Scope Z_scope.

(** A value with its own precision; the exponent range is that of a 32-bit
    exponent. *)

Record bigfloat := BigFloat { bf_prec : Z; bf_val : spec_float }.

Definition bf_emax : Z := 2 ^ 31 - 1.

Definition bit_len (n : Z) : Z := if n =? 0 then 0 else Z.log2 (Z.abs n) + 1.

(** [SetInt] on a zero-precision receiver picks [max(x.BitLen(), 64)] bits. *)
Definition BigFloat_SetInt (n : Z) : bigfloat :=
  let p := Z.max (bit_len n) 64 in
  BigFloat p (binary_normalize p bf_emax n 0 false).

(** Re-express a value at precision [p]. *)
Definition bf_cast (p : Z) (f : spec_float) : spec_float :=
  match f with
  | S754_finite s m e => binary_normalize p bf_emax (cond_Zopp s (Z.pos m)) e s
  | _ => f
  end.

(** [SetFloat64] uses 53 bits and panics on NaN. *)
Definition BigFloat_SetFloat64 (f : f64) : outcome bigfloat :=
  match f with
  | S754_nan => Panic "ErrNaN: Float.SetFloat64(NaN)"
  | _ => Ok (BigFloat 53 (bf_cast 53 f))
  end.

(** [Mul] and [Quo] on a zero-precision receiver use the larger operand precision
    and panic where IEEE arithmetic would produce NaN. *)
Definition bf_op (op : Z -> Z -> spec_float -> spec_float -> spec_float)
    (x y : bigfloat) : outcome bigfloat :=
  let p := Z.max (bf_prec x) (bf_prec y) in
  match op p bf_emax (bf_cast p (bf_val x)) (bf_cast p (bf_val y)) with
  | S754_nan => Panic "ErrNaN"
  | v => Ok (BigFloat p v)
  end.

Definition BigFloat_Mul : bigfloat -> bigfloat -> outcome bigfloat := bf_op SFmul.
Definition BigFloat_Quo : bigfloat -> bigfloat -> outcome bigfloat := bf_op SFdiv.

(** [Int(nil)]: [None] is the nil pointer returned for an infinity. *)
Definition BigFloat_Int (x : bigfloat) : option Z := trunc (bf_val x).

(** [Float64()]: the nearest float64. *)
Definition BigFloat_Float64 (x : bigfloat) : f64 :=
  match bf_val x with
  | S754_finite s m e => binary_normalize 53 1024 (cond_Zopp s (Z.pos m)) e s
  | f => f
  end.

(** [Sprintf("%.2f", x)]: the exact value in hundredths, a tie to the even one. *)
Definition hundredths (m : positive) (e : Z) : Z :=
  if 0 <=? e then 100 * Z.pos m * 2 ^ e
  else
    let d := 2 ^ (- e) in
    let q := 100 * Z.pos m / d in
    match 2 * (100 * Z.pos m mod d) ?= d with
    | Lt => q
    | Gt => q + 1
    | Eq => if Z.even q then q else q + 1
    end.

Definition BigFloat_Text2 (x : bigfloat) : string :=
  let sign (s : bool) := if s then "-" else "" in
  match bf_val x with
  | S754_zero s => sign s +:+ "0.00"
  | S754_infinity s => if s then "-Inf" else "+Inf"
  | S754_finite s m e =>
      let h := hundredths m e in
      sign s +:+ pretty (h / 100) +:+ "." +:+ pretty (h / 10 mod 10) +:+ pretty (h mod 10)
  | S754_nan => "NaN"
  end.

(** ** big.Float on non-negative values *)

Lemma bit_len_spec n : 0 <= n -> 0 <= bit_len n /\ n < 2 ^ bit_len n.
Proof.
  intros Hn. unfold bit_len. destruct (Z.eqb_spec n 0) as [->|]; [by split|].
  rewrite Z.abs_eq by done. pose proof (Z.log2_nonneg n). pose proof (Z.log2_spec n ltac:(lia)).
  rewrite Z.add_1_r. lia.
Qed.

Lemma bit_len_bound n k : 0 <= n < 2 ^ k -> k < bf_emax -> bit_len n < bf_emax.
Proof.
  intros [H0 Hn] Hk. destruct (Z.eq_dec n 0) as [->|]; [by vm_compute|].
  unfold bit_len. destruct (Z.eqb_spec n 0); [done|]. rewrite Z.abs_eq by done.
  assert (Z.log2 n < k) by (apply Z.log2_lt_pow2; lia). lia.
Qed.

Lemma representable_weaken p e p' e' b :
  0 < p -> p <= p' -> SpecFloat.emin p' e' <= SpecFloat.emin p e ->
  representable p e b -> representable p' e' b.
Proof.
  intros Hp Hpp He (m & k & Hm & Hk & Hb). exists m, k. split; [|split; [lia|done]].
  pose proof (Z.pow_le_mono_r 2 p p' ltac:(lia) Hpp). lia.
Qed.

(** Re-expressing a value at a precision and range that hold it is exact. *)
Lemma bf_cast_exact p e p' f :
  1 < p < e -> e <= bf_emax -> p <= p' < bf_emax -> nn p e f ->
  nn p' bf_emax (bf_cast p' f) /\ (qval (bf_cast p' f) == qval f)%Q.
Proof.
  intros Hp He Hp' Hf. pose proof (nn_representable p e ltac:(lia) f Hf) as Hr.
  pose proof (nn_lt_emax p e ltac:(lia) f Hf) as Hlt.
  destruct f as [s| | |[] m k]; try done. apply result_exact; [lia| | |].
  - apply (binary_normalize_result p' bf_emax); simpl; lia.
  - apply (representable_weaken p e); [lia|lia| |exact Hr]. unfold SpecFloat.emin. lia.
  - eapply Qlt_le_trans; [exact Hlt|]. by apply p2_le.
Qed.

Lemma BigFloat_SetInt_exact n :
  0 <= n -> bit_len n < bf_emax ->
  nn (bf_prec (BigFloat_SetInt n)) bf_emax (bf_val (BigFloat_SetInt n)) /\
  (qval (bf_val (BigFloat_SetInt n)) == inject_Z n)%Q.
Proof.
  intros Hn Hb. simpl. apply (normalize_exact _ bf_emax); [lia|unfold bf_emax in *; lia|].
  destruct (bit_len_spec n Hn). split; [done|]. eapply Z.lt_le_trans; [done|].
  apply Z.pow_le_mono_r; lia.
Qed.

(** The product of an integer and a float64, at the precision of the integer. *)
Lemma BigFloat_Mul_SetInt n f :
  0 <= n -> bit_len n < bf_emax -> nn64 f ->
  exists y v, BigFloat_SetFloat64 f = Ok y /\
    result_of (Z.max (bit_len n) 64) bf_emax v (inject_Z n * qval f) /\
    (nn (Z.max (bit_len n) 64) bf_emax v ->
     BigFloat_Mul (BigFloat_SetInt n) y = Ok (BigFloat (Z.max (bit_len n) 64) v)).
Proof.
  intros Hn Hb Hf. set (p := Z.max (bit_len n) 64).
  assert (64 <= p < bf_emax) as Hp by (unfold p, bf_emax in *; lia).
  destruct (BigFloat_SetInt_exact n Hn Hb) as [Hx Hxv]. simpl in Hx, Hxv. fold p in Hx, Hxv.
  destruct (bf_cast_exact 53 1024 53 f) as [Hy Hyv]; [lia|done|unfold bf_emax; lia|done|].
  destruct (bf_cast_exact p bf_emax p _ ltac:(lia) ltac:(lia) ltac:(lia) Hx) as [Hx' Hxv'].
  destruct (bf_cast_exact 53 bf_emax p _ ltac:(unfold bf_emax; lia) ltac:(lia) ltac:(lia) Hy) as [Hy' Hyv'].
  eexists _, _. split; [|split].
  - unfold BigFloat_SetFloat64. destruct f as [s| | |[] m e]; try done.
  - eapply result_proper; [|apply (SFmul_result p bf_emax); [lia|lia|exact Hx'|exact Hy']].
    by rewrite Hxv', Hxv, Hyv', Hyv.
  - intros Hv. unfold BigFloat_Mul, bf_op. simpl bf_prec. simpl bf_val. fold p.
    replace (Z.max p 53) with p by lia.
    destruct (SFmul p bf_emax _ _) as [s| | |[] m e]; done.
Qed.

Lemma Q_floor_ceiling_range x n :
  (0 <= x)%Q -> (x <= inject_Z n)%Q -> 0 <= Qfloor x <= n /\ 0 <= Qceiling x <= n.
Proof.
  intros H0 Hn. pose proof (Qfloor_resp_le _ _ H0). pose proof (Qfloor_resp_le _ _ Hn) as Hf.
  pose proof (Qceiling_resp_le _ _ H0). pose proof (Qceiling_resp_le _ _ Hn) as Hc.
  rewrite Qfloor_Z in Hf. rewrite Qceiling_Z in Hc. by repeat split.
Qed.

(** Rounding a number of at most [n] at a precision that holds [n] moves it by less
    than one, and so does truncating the result. *)
Lemma result_trunc p v x n :
  1 < p < bf_emax -> 0 <= n < 2 ^ p -> result_of p bf_emax v x -> (0 <= x)%Q -> (x <= inject_Z n)%Q ->
  exists t, nn p bf_emax v /\ trunc v = Some t /\ 0 <= t <= n /\
    (x - 1 < inject_Z t)%Q /\ (inject_Z t < x + 1)%Q.
Proof.
  intros Hp Hn Hr Hx0 Hxn.
  assert (forall k, 0 <= k <= n -> representable p bf_emax (inject_Z k) /\ (inject_Z k < p2 bf_emax)%Q) as Hint.
  { intros k Hk. split; [apply integer_representable; lia|].
    apply Qlt_le_trans with (inject_Z (2 ^ p)); [rewrite <- Zlt_Qlt; lia|].
    rewrite p2_Z by lia. apply p2_le. lia. }
  destruct (Hint n ltac:(lia)) as [Hrn Hln].
  destruct (result_upper p bf_emax ltac:(lia) v x (inject_Z n) Hr Hrn Hln Hxn) as [Hv Hvn].
  destruct (trunc_nn p bf_emax v Hv) as (t & Ht & Ht0).
  destruct (trunc_floor p bf_emax v t Ht Hv) as [Htl Htu].
  assert (t <= n) by (rewrite Zle_Qle; lra).
  pose proof (Q_floor_ceiling_range x n Hx0 Hxn) as [Hfl Hce].
  pose proof (Qfloor_le x). pose proof (Qlt_floor x).
  pose proof (Qle_ceiling x). pose proof (Qceiling_lt x).
  destruct (Hint _ Hfl) as [Hrf _]. destruct (Hint _ Hce) as [Hrc Hlc].
  pose proof (result_lower p bf_emax ltac:(lia) v x _ Hr Hrf ltac:(done) Hv).
  destruct (result_upper p bf_emax ltac:(lia) v x _ Hr Hrc Hlc ltac:(done)) as [_ Hup].
  assert (Qfloor x < t + 1) by (rewrite Zlt_Qlt; lra).
  assert (inject_Z (Qfloor x) <= inject_Z t)%Q by (rewrite <- Zle_Qle; lia).
  unfold Z.sub in *. rewrite inject_Z_plus in *. change (inject_Z 1) with 1%Q in *.
  change (inject_Z (- (1))) with (- (1))%Q in *.
  exists t. split_and!; done || lra.
Qed.

(** Scaling an integer by a float of at most 1: the truncated product lies strictly
    within one unit of the exact one. *)
Lemma BigFloat_scale n f :
  0 <= n -> bit_len n < bf_emax -> nn64 f -> (qval f <= 1)%Q ->
  exists y p t, BigFloat_SetFloat64 f = Ok y /\ BigFloat_Mul (BigFloat_SetInt n) y = Ok p /\
    BigFloat_Int p = Some t /\ 0 <= t <= n /\
    (inject_Z n * qval f - 1 < inject_Z t)%Q /\ (inject_Z t < inject_Z n * qval f + 1)%Q.
Proof.
  intros Hn Hb Hf H1. destruct (BigFloat_Mul_SetInt n f Hn Hb Hf) as (y & v & Hy & Hr & HM).
  destruct (bit_len_spec n Hn) as [_ Hbits].
  pose proof (Z.pow_le_mono_r 2 (bit_len n) (Z.max (bit_len n) 64) ltac:(lia) ltac:(lia)).
  pose proof (nn64_nonneg f Hf) as Hf0.
  assert (0 <= inject_Z n)%Q as Hn0 by (change 0%Q with (inject_Z 0); rewrite <- Zle_Qle; lia).
  destruct (result_trunc (Z.max (bit_len n) 64) v (inject_Z n * qval f) n)
    as (t & Hv & Ht & Htn & Hl & Hu);
    [unfold bf_emax in *; lia|lia|exact Hr|by apply Qmult_le_0_compat| |].
  - assert (inject_Z n * qval f <= inject_Z n * 1)%Q by (apply Qmult_le_compat_nonneg; split; lra || done). lra.
  - exists y, (BigFloat (Z.max (bit_len n) 64) v), t. split_and!; try done; try lia. by apply HM.
Qed.

(** ** Division and conversion to float64 *)

(** The quotient of an integer by a float64 of at least 1. *)
Lemma BigFloat_Quo_SetInt n f :
  0 <= n -> bit_len n < bf_emax -> nn64 f -> (1 <= qval f)%Q ->
  exists y v, BigFloat_SetFloat64 f = Ok y /\
    nn (Z.max (bit_len n) 64) bf_emax v /\
    result_of (Z.max (bit_len n) 64) bf_emax v (inject_Z n / qval f) /\
    BigFloat_Quo (BigFloat_SetInt n) y = Ok (BigFloat (Z.max (bit_len n) 64) v).
Proof.
  intros Hn Hb Hf Hf1. set (p := Z.max (bit_len n) 64).
  assert (64 <= p < bf_emax) as Hp by (unfold p, bf_emax in *; lia).
  destruct (BigFloat_SetInt_exact n Hn Hb) as [Hx Hxv]. simpl in Hx, Hxv. fold p in Hx, Hxv.
  destruct (bf_cast_exact 53 1024 53 f) as [Hy Hyv]; [lia|done|unfold bf_emax; lia|done|].
  destruct (bf_cast_exact p bf_emax p _ ltac:(lia) ltac:(lia) ltac:(lia) Hx) as [Hx' Hxv'].
  destruct (bf_cast_exact 53 bf_emax p _ ltac:(unfold bf_emax; lia) ltac:(lia) ltac:(lia) Hy) as [Hy' Hyv'].
  pose proof (SFdiv_result p bf_emax ltac:(lia) ltac:(lia) _ _ Hx' Hy' ltac:(lra)) as Hr.
  eapply (result_proper _ _ _ _ (inject_Z n / qval f)) in Hr; [|by rewrite Hxv', Hxv, Hyv', Hyv].
  set (v := SFdiv p bf_emax _ _) in Hr.
  assert (nn p bf_emax v) as Hv.
  { eapply (result_upper p bf_emax ltac:(lia)); [exact Hr|eapply nn_representable; [lia|exact Hx]| |].
    - apply (nn_lt_emax p); [lia|exact Hx].
    - rewrite Hxv. apply Qle_shift_div_r; [lra|].
      assert (0 <= inject_Z n)%Q by (change 0%Q with (inject_Z 0); rewrite <- Zle_Qle; lia).
      assert (inject_Z n * 1 <= inject_Z n * qval f)%Q by (apply Qmult_le_compat_nonneg; split; lra || done). lra. }
  eexists _, v. split; [unfold BigFloat_SetFloat64; destruct f as [s| | |[] m e]; done|].
  split; [exact Hv|]. split; [exact Hr|].
  unfold BigFloat_Quo, bf_op. cbn [bf_prec bf_val BigFloat_SetInt]. fold p.
  replace (Z.max p 53) with p by lia. fold v. by destruct v as [s| | |[] m e].
Qed.

(** [Float64] rounds to the nearest float64. *)
Lemma BigFloat_Float64_result p v :
  nn p bf_emax v -> result64 (BigFloat_Float64 (BigFloat p v)) (qval v).
Proof.
  intros Hv. destruct v as [s| | |[] m e]; try done; simpl.
  - apply (result_zero 53 1024); lia.
  - apply (binary_normalize_result 53 1024); simpl; lia.
Qed.

(** A whole number of units divides exactly. *)
Lemma BigFloat_Quo_units k n f :
  0 <= k < 2 ^ 53 -> nn64 f -> (1 <= qval f)%Q -> (inject_Z n == inject_Z k * qval f)%Q -> 0 <= n ->
  bit_len n < bf_emax ->
  exists y v, BigFloat_SetFloat64 f = Ok y /\
    BigFloat_Quo (BigFloat_SetInt n) y = Ok (BigFloat (Z.max (bit_len n) 64) v) /\
    nn (Z.max (bit_len n) 64) bf_emax v /\ (qval v == inject_Z k)%Q.
Proof.
  intros Hk Hf Hf1 Hnk Hn Hb.
  destruct (BigFloat_Quo_SetInt n f Hn Hb Hf Hf1) as (y & v & Hy & Hv & Hr & HQ).
  set (p := Z.max (bit_len n) 64) in *.
  assert (64 <= p < bf_emax) as Hp by (unfold p, bf_emax in *; lia).
  exists y, v. split; [done|]. split; [done|]. split; [done|].
  eapply (result_proper _ _ _ _ (inject_Z k)) in Hr; [|rewrite Hnk; field; lra].
  pose proof (Z.pow_le_mono_r 2 53 p ltac:(lia) ltac:(lia)).
  eapply (result_exact p bf_emax ltac:(lia)); [exact Hr|apply integer_representable; lia|].
  apply Qlt_le_trans with (inject_Z (2 ^ 53)); [rewrite <- Zlt_Qlt; lia|].
  rewrite p2_Z by lia. apply p2_le. lia.
Qed.

(** A whole number of units converts exactly. *)
Lemma BigFloat_units k n f :
  0 <= k < 2 ^ 53 -> nn64 f -> (1 <= qval f)%Q -> (inject_Z n == inject_Z k * qval f)%Q -> 0 <= n ->
  bit_len n < bf_emax ->
  exists y q, BigFloat_SetFloat64 f = Ok y /\ BigFloat_Quo (BigFloat_SetInt n) y = Ok q /\
    nn64 (BigFloat_Float64 q) /\ (qval (BigFloat_Float64 q) == inject_Z k)%Q.
Proof.
  intros Hk Hf Hf1 Hnk Hn Hb.
  destruct (BigFloat_Quo_units k n f Hk Hf Hf1 Hnk Hn Hb) as (y & v & Hy & HQ & Hv & Hval).
  set (p := Z.max (bit_len n) 64) in *.
  exists y, (BigFloat p v). split; [done|]. split; [done|].
  destruct (f64_of_Z_exact k Hk) as [Hkn Hkv].
  pose proof (BigFloat_Float64_result p v Hv) as Hr64.
  eapply (result_proper _ _ _ _ (qval (f64_of_Z k))) in Hr64; [|by rewrite Hval, Hkv].
  destruct (result64_exact _ _ Hr64) as [Hn64 Hv64];
    [exact (nn64_representable _ Hkn)|exact (nn64_lt_emax _ Hkn)|].
  split; [exact Hn64|]. by rewrite Hv64.
Qed.

(** ** Printing *)

(** A whole number has no hundredths but a hundred times itself. *)
Lemma hundredths_integer m e k : (dy (Z.pos m) e == inject_Z k)%Q -> hundredths m e = 100 * k.
Proof.
  unfold dy, hundredths. intros H. destruct (Z.leb_spec 0 e) as [He|He].
  - rewrite <- p2_Z, <- inject_Z_mult in H by done. apply (proj1 (inject_Z_injective _ _)) in H. by rewrite <- H, Z.mul_assoc.
  - assert (Z.pos m = k * 2 ^ (- e)) as Hm.
    { apply inject_Z_injective. rewrite inject_Z_mult, p2_Z, <- H by lia.
      rewrite <- Qmult_assoc, <- p2_add. replace (e + - e) with 0 by lia. change (p2 0) with 1%Q. ring. }
    pose proof (Z.pow_pos_nonneg 2 (- e) ltac:(lia) ltac:(lia)) as Hd.
    rewrite Hm. rewrite Z.mul_assoc.
    rewrite Z.div_mul, Z.mod_mul by (intros E; rewrite E in Hd; done). by rewrite (proj2 (Z.compare_lt_iff (2 * 0) (2 ^ (- e))) Hd).
Qed.

Lemma BigFloat_Text2_integer p p' v k :
  0 < k -> nn p bf_emax v -> (qval v == inject_Z k)%Q -> BigFloat_Text2 (BigFloat p' v) = pretty k +:+ ".00".
Proof.
  intros Hpos Hv Hk. destruct v as [s| | |[] m e]; try done.
  - assert (0 = k) as <- by (apply (proj1 (inject_Z_injective 0 k)); rewrite <- Hk; reflexivity). lia.
  - unfold BigFloat_Text2. cbn [bf_val]. rewrite (hundredths_integer m e k Hk).
    replace (100 * k) with (k * 100) by lia. rewrite Z.div_mul by lia.
    replace (k * 100 / 10) with (k * 10) by (replace (k * 100) with (k * 10 * 10) by lia; by rewrite Z.div_mul).
    replace (k * 100 mod 10) with 0 by (replace (k * 100) with (k * 10 * 10) by lia; by rewrite Z.mod_mul).
    by rewrite Z.mod_mul.
Qed.
