(* ===== verification/Quorum.v ===== *)
(** * The two-thirds test in float64 arithmetic

    [attested/total > 2.0/3.0] as the consensus engine evaluates it, against the exact
    inequality on the numbers the two floats hold. *)

From Stdlib Require Import QArith Lqa.
From S2P Require Import Prelude Rounding Float.
Local Open Scope Z_scope.

Definition two_thirds : f64 := f64_const 2 3.
Definition quorum (attested total : f64) : bool := f64_ltb two_thirds (f64_div attested total).

Lemma two_thirds_nn : nn64 two_thirds.
Proof. nn_compute. Qed.

(** The constant is just below 2/3: three times it misses 2 by [2^-53]. *)
Lemma two_thirds_value : (3 * qval two_thirds == 2 - (1 # 9007199254740992))%Q.
Proof. vm_compute. reflexivity. Qed.

(** The quotient of finite non-negative floats, the divisor at least 1. *)
Lemma quotient_nn a t : nn64 a -> nn64 t -> (1 <= qval t)%Q -> nn64 (f64_div a t).
Proof. intros Ha Ht H1. exact (f64le_nn_l _ _ (f64_div_shrink a t Ha Ht H1)). Qed.

(** A passed test means that the attested power exceeds the constant's share of the
    total, whatever was rounded in the quotient. *)
Lemma quorum_sound a t :
  nn64 a -> nn64 t -> (0 < qval t)%Q -> quorum a t = true ->
  ((2 - (1 # 9007199254740992)) * qval t < 3 * qval a)%Q.
Proof.
  intros Ha Ht Hpos H. unfold quorum in H.
  pose proof (f64_div_result a t Ha Ht Hpos) as Hr.
  destruct (Qlt_le_dec (qval two_thirds * qval t) (qval a)) as [Hlt|Hle].
  - assert (3 * (qval two_thirds * qval t) < 3 * qval a)%Q as Hlt3 by lra.
    rewrite Qmult_assoc, two_thirds_value in Hlt3. exact Hlt3.
  - exfalso. assert (qval a / qval t <= qval two_thirds)%Q as Hx by (by apply Qle_shift_div_r).
    destruct (result64_upper _ _ _ Hr (nn64_representable _ two_thirds_nn)
      (nn64_lt_emax _ two_thirds_nn) Hx) as [Hn Hq].
    apply (f64_ltb_nn _ _ two_thirds_nn Hn) in H. lra.
Qed.

(** The quotient closest to 2/3 from above among integers below [2^53]. *)
Definition worst_attested : Z := 6004799503160661.
Definition worst_total : Z := 2 ^ 53 - 1.

Lemma worst_passes : f64_ltb two_thirds (f64_div (f64_of_Z worst_attested) (f64_of_Z worst_total)) = true.
Proof. vm_compute. reflexivity. Qed.

Lemma worst_nn : nn64 (f64_div (f64_of_Z worst_attested) (f64_of_Z worst_total)).
Proof. nn_compute. Qed.

Lemma worst_below A T :
  0 < T < 2 ^ 53 -> 2 * T < 3 * A ->
  (inject_Z worst_attested / inject_Z worst_total <= inject_Z A / inject_Z T)%Q.
Proof.
  intros HT HA. assert (0 < inject_Z T)%Q by (change 0%Q with (inject_Z 0); rewrite <- Zlt_Qlt; lia).
  apply Qle_shift_div_l; [done|].
  assert (inject_Z worst_attested / inject_Z worst_total * inject_Z T
    == inject_Z (worst_attested * T) / inject_Z worst_total)%Q as ->.
  { rewrite inject_Z_mult. field. unfold worst_total. discriminate. }
  apply Qle_shift_div_r; [reflexivity|]. rewrite <- inject_Z_mult, <- Zle_Qle.
  unfold worst_attested, worst_total. lia.
Qed.

(** On integers below [2^53] the test is exact. *)
Lemma quorum_exact a t A T :
  nn64 a -> (qval a == inject_Z A)%Q -> nn64 t -> (qval t == inject_Z T)%Q ->
  0 <= A < 2 ^ 53 -> 0 < T < 2 ^ 53 -> quorum a t = (2 * T <? 3 * A).
Proof.
  intros Ha HaA Ht HtT HA HT.
  assert (1 <= qval t)%Q as H1 by (rewrite HtT; change 1%Q with (inject_Z 1); rewrite <- Zle_Qle; lia).
  pose proof (quotient_nn a t Ha Ht H1) as Hq.
  pose proof (f64_div_result a t Ha Ht ltac:(lra)) as Hr.
  eapply result_proper in Hr; [|by rewrite HaA, HtT].
  destruct (Z.ltb_spec (2 * T) (3 * A)) as [Hlt|Hge].
  - apply (f64_ltb_nn _ _ two_thirds_nn Hq).
    assert (result64 (f64_div (f64_of_Z worst_attested) (f64_of_Z worst_total))
      (inject_Z worst_attested / inject_Z worst_total)) as Hw.
    { destruct (f64_of_Z_exact worst_attested) as [Hwn Hwv]; [by split|].
      destruct (f64_of_Z_exact worst_total) as [Htn Htv]; [by split|].
      eapply result_proper; [|apply (f64_div_result _ _ Hwn Htn); rewrite Htv; reflexivity].
      by rewrite Hwv, Htv. }
    destruct (result_mono 53 1024 ltac:(lia) _ _ _ _ Hw Hr (worst_below A T HT Hlt) Hq) as [_ Hle].
    pose proof worst_passes as Hp. apply (f64_ltb_nn _ _ two_thirds_nn worst_nn) in Hp. lra.
  - destruct (quorum a t) eqn:E; [|done]. exfalso.
    apply (f64_ltb_nn _ _ two_thirds_nn Hq) in E.
    assert (result64 two_thirds (inject_Z 2 / inject_Z 3)) as H23.
    { destruct (f64_of_Z_exact 2) as [H2 H2v]; [by split|]. destruct (f64_of_Z_exact 3) as [H3 H3v]; [by split|].
      eapply result_proper; [|apply (f64_div_result _ _ H2 H3); rewrite H3v; reflexivity].
      by rewrite H2v, H3v. }
    assert (inject_Z A / inject_Z T <= inject_Z 2 / inject_Z 3)%Q as Hle.
    { assert (0 < inject_Z T)%Q by (change 0%Q with (inject_Z 0); rewrite <- Zlt_Qlt; lia).
      apply Qle_shift_div_r; [done|]. apply (Qmult_le_l _ _ 3); [reflexivity|].
      assert (3 * (inject_Z 2 / inject_Z 3 * inject_Z T) == inject_Z (2 * T))%Q as ->
        by (rewrite inject_Z_mult; field).
      change 3%Q with (inject_Z 3). rewrite <- inject_Z_mult, <- Zle_Qle. lia. }
    destruct (result_mono 53 1024 ltac:(lia) _ _ _ _ Hr H23 Hle two_thirds_nn) as [_ Hq2]. lra.
Qed.

(** ** Sums of floats that hold integers *)

(** [whole f n]: the float holds the integer [n >= 0]. *)
Definition whole (f : f64) (n : Z) : Prop := nn64 f /\ (qval f == inject_Z n)%Q.

Lemma whole_of_Z n : 0 <= n < 2 ^ 53 -> whole (f64_of_Z n) n.
Proof. apply f64_of_Z_exact. Qed.

Lemma whole_zero : whole f64_zero 0.
Proof. by split. Qed.

Lemma whole_add f g m n :
  whole f m -> whole g n -> 0 <= m -> 0 <= n -> m + n < 2 ^ 53 -> whole (f64_add f g) (m + n).
Proof.
  intros [Hf Hfm] [Hg Hgn] Hm Hn Hs. destruct (f64_of_Z_exact (m + n) ltac:(lia)) as [Hsn Hsv].
  pose proof (f64_add_result f g Hf Hg) as Hr.
  eapply (result_proper _ _ _ _ (qval (f64_of_Z (m + n)))) in Hr;
    [|by rewrite Hfm, Hgn, Hsv, inject_Z_plus].
  destruct (result64_exact _ _ Hr (nn64_representable _ Hsn) (nn64_lt_emax _ Hsn)) as [Hn' Hv].
  split; [exact Hn'|]. by rewrite Hv.
Qed.

(** Adding up optional contributions, as the two loops of the finality test do. *)
Lemma whole_sum {A} (step : f64 -> A -> f64) (w : A -> Z) (l : list A) f n :
  (forall p k a, a ∈ l -> whole p k -> 0 <= k -> k + w a < 2 ^ 53 -> whole (step p a) (k + w a)) ->
  (forall a, a ∈ l -> 0 <= w a) ->
  whole f n -> 0 <= n -> n + sum_list_Z w l < 2 ^ 53 ->
  whole (foldl step f l) (n + sum_list_Z w l).
Proof.
  revert f n. induction l as [|a l IH]; intros f n Hstep Hw Hf Hn Hs; simpl in *.
  - by rewrite Z.add_0_r.
  - assert (0 <= w a) by (apply Hw; left).
    assert (0 <= sum_list_Z w l) by (apply sum_list_Z_nonneg; intros; apply Hw; by right).
    rewrite Z.add_assoc. apply IH; [| |apply Hstep; [left|done|done|lia]|lia|lia].
    + intros p k b Hb. apply Hstep. by right.
    + intros b Hb. apply Hw. by right.
Qed.

Lemma f64_eqb_zero f n : whole f n -> f64_eqb f f64_zero = (n =? 0).
Proof.
  intros [Hf Hv]. unfold f64_eqb, SFeqb. rewrite (SFcompare_nn 53 1024) by done.
  change (qval f64_zero) with (inject_Z 0).
  destruct (Qcompare_spec (qval f) (inject_Z 0)) as [H|H|H]; rewrite Hv in H.
  - rewrite inject_Z_injective in H. by subst.
  - rewrite <- Zlt_Qlt in H. symmetry. apply Z.eqb_neq. lia.
  - rewrite <- Zlt_Qlt in H. symmetry. apply Z.eqb_neq. lia.
Qed.

(** A sole validator passes the test against itself. *)
Lemma f64_add_zero_l a : nn64 a -> nn64 (f64_add f64_zero a) /\ (qval (f64_add f64_zero a) == qval a)%Q.
Proof.
  intros Ha. assert (nn64 f64_zero) as Hz by nn_compute.
  pose proof (f64_add_result f64_zero a Hz Ha) as Hr.
  eapply (result_proper _ _ _ _ (qval a)) in Hr; [|change (qval f64_zero) with 0%Q; ring].
  exact (result64_exact _ _ Hr (nn64_representable _ Ha) (nn64_lt_emax _ Ha)).
Qed.

Lemma quorum_self a : nn64 a -> (0 < qval a)%Q -> quorum a a = true /\ f64_eqb a f64_zero = false.
Proof.
  intros Ha Hp. split.
  - pose proof (f64_div_result a a Ha Ha Hp) as Hr.
    assert (nn64 (f64_of_Z 1)) as H1 by nn_compute.
    eapply (result_proper _ _ _ _ (qval (f64_of_Z 1))) in Hr; [|rewrite f64_of_Z_one; field; lra].
    destruct (result64_exact _ _ Hr (nn64_representable _ H1) (nn64_lt_emax _ H1)) as [Hn Hv].
    apply (f64_ltb_nn _ _ two_thirds_nn Hn). rewrite Hv. vm_compute. reflexivity.
  - unfold f64_eqb, SFeqb. rewrite (SFcompare_nn 53 1024) by (done || nn_compute).
    assert (qval a ?= qval f64_zero = Gt)%Q as -> by (apply Qgt_alt; exact Hp). done.
Qed.
