(* ===== verification/Reputation.v ===== *)
(** * internal/reputation: XP, uptime and the sovereignty score

    The manager's map of reputations as a finite map; every method locks the
    manager for its whole duration, so a method is one atomic transition.
    Instants are nanosecond counts. *)

From S2P Require Import Prelude Bytes Eth Float.

Module Reputation.

(** ** Data *)

Record XPConfig := mkConfig {
  MaxXP : Z; BlockAttestationXP : Z; UptimeBonusXP : Z; SlashPenaltyXP : Z; DecayRatePerDay : f64
}.

Definition DefaultXPConfig : XPConfig := mkConfig 100000 10 5 500 (f64_const 5 1000).

Record ValidatorReputation := mkRep {
  rAddress : Address; XP : Z; UptimeBps : Z; BlocksAttested : Z; BlocksMissed : Z; SlashCount : Z;
  SovereigntyScore : f64; Tier : Z; LastActive : Z; JoinedAt : Z
}.

Record Manager := mkManager { cfg : XPConfig; reps : gmap Address ValidatorReputation }.

Definition NewManager (c : option XPConfig) : Manager := mkManager (default DefaultXPConfig c) ∅.

(** Field updates. *)
Definition set_XP (x : Z) (r : ValidatorReputation) : ValidatorReputation :=
  mkRep (rAddress r) x (UptimeBps r) (BlocksAttested r) (BlocksMissed r) (SlashCount r)
        (SovereigntyScore r) (Tier r) (LastActive r) (JoinedAt r).
Definition set_UptimeBps (u : Z) (r : ValidatorReputation) : ValidatorReputation :=
  mkRep (rAddress r) (XP r) u (BlocksAttested r) (BlocksMissed r) (SlashCount r)
        (SovereigntyScore r) (Tier r) (LastActive r) (JoinedAt r).
Definition set_BlocksAttested (n : Z) (r : ValidatorReputation) : ValidatorReputation :=
  mkRep (rAddress r) (XP r) (UptimeBps r) n (BlocksMissed r) (SlashCount r)
        (SovereigntyScore r) (Tier r) (LastActive r) (JoinedAt r).
Definition set_BlocksMissed (n : Z) (r : ValidatorReputation) : ValidatorReputation :=
  mkRep (rAddress r) (XP r) (UptimeBps r) (BlocksAttested r) n (SlashCount r)
        (SovereigntyScore r) (Tier r) (LastActive r) (JoinedAt r).
Definition set_SlashCount (n : Z) (r : ValidatorReputation) : ValidatorReputation :=
  mkRep (rAddress r) (XP r) (UptimeBps r) (BlocksAttested r) (BlocksMissed r) n
        (SovereigntyScore r) (Tier r) (LastActive r) (JoinedAt r).
Definition set_Score (s : f64) (t : Z) (r : ValidatorReputation) : ValidatorReputation :=
  mkRep (rAddress r) (XP r) (UptimeBps r) (BlocksAttested r) (BlocksMissed r) (SlashCount r)
        s t (LastActive r) (JoinedAt r).
Definition set_LastActive (t : Z) (r : ValidatorReputation) : ValidatorReputation :=
  mkRep (rAddress r) (XP r) (UptimeBps r) (BlocksAttested r) (BlocksMissed r) (SlashCount r)
        (SovereigntyScore r) (Tier r) t (JoinedAt r).

(** ** Helpers *)

Definition addXP (c : XPConfig) (amount : Z) (r : ValidatorReputation) : ValidatorReputation :=
  let xp := XP r +[u64] amount in
  set_XP (if MaxXP c <? xp then MaxXP c else xp) r.

Definition removeXP (amount : Z) (r : ValidatorReputation) : ValidatorReputation :=
  set_XP (if XP r <=? amount then 0 else XP r -[u64] amount) r.

Definition updateUptime (r : ValidatorReputation) : ValidatorReputation :=
  let total := BlocksAttested r +[u64] BlocksMissed r in
  if total =? 0 then set_UptimeBps 10000 r
  else set_UptimeBps (u16 ((BlocksAttested r *[u64] 10000) / total)) r.

Definition scoreTier (score : f64) : Z :=
  if f64_leb (f64_const 85 100) score then 4
  else if f64_leb (f64_const 65 100) score then 3
  else if f64_leb (f64_const 40 100) score then 2
  else if f64_leb (f64_const 15 100) score then 1
  else 0.

Definition tierName (tier : Z) : string :=
  if tier =? 1 then "Bronze" else if tier =? 2 then "Silver"
  else if tier =? 3 then "Gold" else if tier =? 4 then "Platinum" else "None".

(** ** Methods

    A method that finds no entry for its address returns without effect. *)

Definition on_rep (addr : Address) (f : ValidatorReputation -> ValidatorReputation) (m : Manager) : Manager :=
  match reps m !! addr with
  | None => m
  | Some rep => mkManager (cfg m) (<[addr := f rep]> (reps m))
  end.

Definition Register (addr : Address) (now1 now2 : Z) (m : Manager) : Manager :=
  match reps m !! addr with
  | Some _ => m
  | None => mkManager (cfg m)
      (<[addr := mkRep addr 0 10000 0 0 0 f64_zero 0 now2 now1]> (reps m))
  end.

Definition RecordAttestation (addr : Address) (now : Z) (m : Manager) : Manager :=
  on_rep addr (fun rep =>
    addXP (cfg m) (BlockAttestationXP (cfg m))
      (set_LastActive now (set_BlocksAttested (BlocksAttested rep +[u64] 1) rep))) m.

Definition RecordMissedBlock (addr : Address) (m : Manager) : Manager :=
  on_rep addr (fun rep => updateUptime (set_BlocksMissed (BlocksMissed rep +[u64] 1) rep)) m.

Definition RecordSlash (addr : Address) (m : Manager) : Manager :=
  on_rep addr (fun rep =>
    removeXP (SlashPenaltyXP (cfg m)) (set_SlashCount (SlashCount rep +[u64] 1) rep)) m.

Definition RecordUptimeCheck (addr : Address) (now : Z) (m : Manager) : Manager :=
  on_rep addr (fun rep => addXP (cfg m) (UptimeBonusXP (cfg m)) (set_LastActive now rep)) m.

(** [time.Since]: the difference, saturated to the range of [Duration]. *)
Definition since (t now : Z) : Z := Z.max (- 2 ^ 63) (Z.min (2 ^ 63 - 1) (now - t)).

(** [Duration.Hours]. *)
Definition ns_per_hour : Z := 60 * 60 * 10 ^ 9.
Definition Hours (d : Z) : f64 :=
  f64_add (f64_of_Z (Z.quot d ns_per_hour)) (f64_div (f64_of_Z (Z.rem d ns_per_hour)) (f64_of_Z ns_per_hour)).

Definition clip1 (x : f64) : f64 := if f64_ltb (f64_of_Z 1) x then f64_of_Z 1 else x.

Definition xp_norm (c : XPConfig) (r : ValidatorReputation) : f64 :=
  clip1 (f64_div (f64_of_Z (XP r)) (f64_of_Z (MaxXP c))).
Definition uptime_norm (r : ValidatorReputation) : f64 :=
  f64_div (f64_of_Z (UptimeBps r)) (f64_of_Z 10000).
Definition longevity (r : ValidatorReputation) (now : Z) : f64 :=
  let daysSinceJoin := f64_div (Hours (since (JoinedAt r) now)) (f64_of_Z 24) in
  f64_min (f64_div daysSinceJoin (f64_of_Z 365)) (f64_of_Z 1).

Definition weighted_sum (xpNorm uptimeNorm longevity tsNorm : f64) : f64 :=
  f64_add (f64_add (f64_add (f64_mul (f64_const 4 10) xpNorm) (f64_mul (f64_const 3 10) uptimeNorm))
                   (f64_mul (f64_const 2 10) longevity))
          (f64_mul (f64_const 1 10) tsNorm).

(** [stakeWei] is a parameter of the method that its body never reads. *)
Definition sovereignty (c : XPConfig) (r : ValidatorReputation) (stakeWei tasteScore : f64) (now : Z) : f64 :=
  weighted_sum (xp_norm c r) (uptime_norm r) (longevity r now) (clip1 tasteScore).

Definition ComputeSovereignty (addr : Address) (stakeWei tasteScore : f64) (now : Z) (m : Manager) :
    Manager * (f64 * Z) :=
  match reps m !! addr with
  | None => (m, (f64_zero, 0))
  | Some rep =>
      let score := sovereignty (cfg m) rep stakeWei tasteScore now in
      let tier := scoreTier score in
      (mkManager (cfg m) (<[addr := set_Score score tier rep]> (reps m)), (score, tier))
  end.

(** Copies of the entries; the order of the list is that of the map iteration. *)
Definition GetReputation (addr : Address) (m : Manager) : option ValidatorReputation := reps m !! addr.
(** The entries in the order the run-time visits them. *)
Definition AllReputations (order : list (Address * ValidatorReputation)) : list ValidatorReputation := order.*2.

Section Decay.
(** The implementation's conversion of out-of-range floats to [uint64]. *)
Variable oob : f64 -> Z.

Definition decay_one (c : XPConfig) (r : ValidatorReputation) : ValidatorReputation :=
  let decay := f64_to_u64 oob (f64_mul (f64_of_Z (XP r)) (DecayRatePerDay c)) in
  set_XP (if XP r <? decay then 0 else XP r -[u64] decay) r.

Definition ApplyDecay (m : Manager) : Manager := mkManager (cfg m) (decay_one (cfg m) <$> reps m).

(** ** The manager as a transition system *)

Inductive op :=
| ORegister (addr : Address) (now1 now2 : Z)
| OAttest (addr : Address) (now : Z)
| OMiss (addr : Address)
| OSlash (addr : Address)
| OUptime (addr : Address) (now : Z)
| OCompute (addr : Address) (stakeWei tasteScore : f64) (now : Z)
| ODecay.

Definition exec (o : op) (m : Manager) : Manager :=
  match o with
  | ORegister a t1 t2 => Register a t1 t2 m
  | OAttest a t => RecordAttestation a t m
  | OMiss a => RecordMissedBlock a m
  | OSlash a => RecordSlash a m
  | OUptime a t => RecordUptimeCheck a t m
  | OCompute a s ts t => fst (ComputeSovereignty a s ts t m)
  | ODecay => ApplyDecay m
  end.

Definition run (ops : list op) (m : Manager) : Manager := foldl (fun m o => exec o m) m ops.
End Decay.

(** ** The invariant *)

(** [n] bounds the number of attested and missed blocks. *)
Record rep_ok (c : XPConfig) (n : Z) (r : ValidatorReputation) : Prop := {
  ok_XP : 0 <= XP r <= MaxXP c;
  ok_uptime : 0 <= UptimeBps r <= 10000;
  ok_attested : 0 <= BlocksAttested r;
  ok_missed : 0 <= BlocksMissed r;
  ok_blocks : BlocksAttested r + BlocksMissed r <= n;
  ok_tier : 0 <= Tier r <= 4
}.

Definition cfg_ok (c : XPConfig) : Prop := is_u64 (MaxXP c) /\ is_u64 (SlashPenaltyXP c).

Definition mgr_ok (n : Z) (m : Manager) : Prop :=
  cfg_ok (cfg m) /\
  forall a r, reps m !! a = Some r -> rAddress r = a /\ rep_ok (cfg m) n r.

Lemma rep_ok_weaken c n n' r : n <= n' -> rep_ok c n r -> rep_ok c n' r.
Proof. intros Hn []. split; try done. lia. Qed.

Lemma mgr_ok_weaken n n' m : n <= n' -> mgr_ok n m -> mgr_ok n' m.
Proof.
  intros Hn [Hc H]. split; [done|]. intros a r Hr. destruct (H a r Hr). split; [done|].
  by eapply rep_ok_weaken.
Qed.

Lemma on_rep_ok a f n n' m :
  n <= n' -> mgr_ok n m ->
  (forall r, rep_ok (cfg m) n r -> rAddress (f r) = rAddress r /\ rep_ok (cfg m) n' (f r)) ->
  mgr_ok n' (on_rep a f m).
Proof.
  intros Hn Hm Hf. unfold on_rep. destruct (reps m !! a) as [rep|] eqn:E; [|by eapply mgr_ok_weaken].
  destruct Hm as [Hc H]. split; [done|]. simpl. intros b r Hr.
  apply lookup_insert_Some in Hr as [[<- <-]|[Hne Hr]].
  - destruct (H _ _ E) as [Ha Ho]. destruct (Hf _ Ho). split; [congruence|done].
  - destruct (H _ _ Hr). split; [done|]. by eapply rep_ok_weaken.
Qed.

Lemma addXP_XP c amount r : XP (addXP c amount r) = Z.min (MaxXP c) (XP r +[u64] amount).
Proof. unfold addXP. simpl. destruct (Z.ltb_spec (MaxXP c) (XP r +[u64] amount)); lia. Qed.

Lemma addXP_ok c n amount r : 0 <= MaxXP c -> rep_ok c n r -> rep_ok c n (addXP c amount r).
Proof.
  intros Hc [? ? ? ? ? ?]. split; try done. rewrite addXP_XP.
  pose proof (u64_range (XP r + amount)) as Hu. unfold is_u64 in Hu. lia.
Qed.

Lemma removeXP_XP amount r : 0 <= amount -> is_u64 (XP r) -> XP (removeXP amount r) = Z.max 0 (XP r - amount).
Proof.
  intros Ha Hx. unfold removeXP, is_u64 in *. simpl. destruct (Z.leb_spec (XP r) amount); [lia|].
  rewrite u64_small by (unfold is_u64; lia). lia.
Qed.

Lemma updateUptime_bps r :
  0 <= BlocksAttested r -> 0 <= BlocksMissed r -> 0 < BlocksAttested r + BlocksMissed r ->
  (BlocksAttested r + BlocksMissed r) * 10000 < 2 ^ 64 ->
  UptimeBps (updateUptime r) = BlocksAttested r * 10000 / (BlocksAttested r + BlocksMissed r) /\
  0 <= UptimeBps (updateUptime r) <= 10000.
Proof.
  intros Ha Hm Ht Hb. unfold updateUptime.
  rewrite (u64_small (_ + _)), (u64_small (_ * _)) by (unfold is_u64; nia).
  destruct (Z.eqb_spec (BlocksAttested r + BlocksMissed r) 0); [lia|]. simpl.
  assert (0 <= BlocksAttested r * 10000 / (BlocksAttested r + BlocksMissed r) <= 10000).
  { split; [apply Z.div_pos; lia|]. apply Z.div_le_upper_bound; nia. }
  unfold u16. rewrite Z.mod_small by lia. done.
Qed.

Lemma scoreTier_range score : 0 <= scoreTier score <= 4.
Proof. unfold scoreTier. repeat case_match; lia. Qed.

Section Oob.
Variable oob : f64 -> Z.
Hypothesis oob_u64 : forall f, is_u64 (oob f).

Lemma f64_to_u64_range f : is_u64 (f64_to_u64 oob f).
Proof.
  unfold f64_to_u64. destruct (trunc f) as [t|]; [|done].
  destruct (Z.leb_spec 0 t), (Z.ltb_spec t (2 ^ 64)); simpl; done.
Qed.

Lemma decay_one_XP c r :
  is_u64 (XP r) ->
  XP (decay_one oob c r) = Z.max 0 (XP r - f64_to_u64 oob (f64_mul (f64_of_Z (XP r)) (DecayRatePerDay c))).
Proof.
  intros Hx. unfold decay_one. simpl.
  pose proof (f64_to_u64_range (f64_mul (f64_of_Z (XP r)) (DecayRatePerDay c))) as Hd.
  set (d := f64_to_u64 oob _) in *. unfold is_u64 in *.
  destruct (Z.ltb_spec (XP r) d); [lia|]. rewrite u64_small by (unfold is_u64; lia). lia.
Qed.

(** An entry written by a method. *)
Lemma insert_ok a r n m :
  mgr_ok n m -> rAddress r = a -> rep_ok (cfg m) (n + 1) r ->
  mgr_ok (n + 1) (mkManager (cfg m) (<[a := r]> (reps m))).
Proof.
  intros [Hc Hreps] Ha Hr. split; [done|]. simpl. intros b r'.
  rewrite lookup_insert_Some. intros [[<- <-]|[Hne Hr']]; [done|].
  destruct (Hreps _ _ Hr'). split; [done|]. apply (rep_ok_weaken _ n); [lia|done].
Qed.

Ltac rep_crush := split; simpl in *; try done; try lia.

Lemma miss_ok c n r :
  (n + 1) * 10000 < 2 ^ 64 -> rep_ok c n r ->
  rep_ok c (n + 1) (updateUptime (set_BlocksMissed (BlocksMissed r +[u64] 1) r)).
Proof.
  intros Hn []. rewrite (u64_small (BlocksMissed r + 1)) by (unfold is_u64; lia).
  destruct (updateUptime_bps (set_BlocksMissed (BlocksMissed r + 1) r)) as [_ Hu]; simpl; [lia..|].
  unfold updateUptime in *. case_match; rep_crush.
Qed.

Lemma slash_ok c n r :
  cfg_ok c -> rep_ok c n r ->
  rep_ok c (n + 1) (removeXP (SlashPenaltyXP c) (set_SlashCount (SlashCount r +[u64] 1) r)).
Proof.
  intros [Hm Hs] []. unfold is_u64 in *.
  pose proof (removeXP_XP (SlashPenaltyXP c) (set_SlashCount (SlashCount r +[u64] 1) r)) as Hx.
  simpl in Hx. unfold is_u64 in Hx. rep_crush.
Qed.

Lemma decay_ok c n r : cfg_ok c -> rep_ok c n r -> rep_ok c (n + 1) (decay_one oob c r).
Proof.
  intros [Hm _] []. pose proof (decay_one_XP c r) as Hx.
  pose proof (f64_to_u64_range (f64_mul (f64_of_Z (XP r)) (DecayRatePerDay c))) as Hd.
  unfold is_u64 in *. rep_crush.
Qed.

Lemma exec_ok o n m : 0 <= n -> (n + 1) * 10000 < 2 ^ 64 -> mgr_ok n m -> mgr_ok (n + 1) (exec oob o m).
Proof.
  intros H0 Hn Hm. pose proof Hm as [Hc Hreps]. pose proof Hc as [HM _]. unfold is_u64 in HM.
  assert (mgr_ok (n + 1) m) as Hw by (apply (mgr_ok_weaken n); [lia|done]).
  destruct o as [a t1 t2|a t|a|a|a t|a s ts t|]; simpl.
  - unfold Register. destruct (reps m !! a) eqn:E; [done|]. apply insert_ok; [done|done|]. rep_crush.
  - apply (on_rep_ok a _ n); [lia|done|]. intros r Hr. split; [done|]. apply addXP_ok; [lia|].
    destruct Hr. rewrite u64_small by (unfold is_u64; lia). rep_crush.
  - apply (on_rep_ok a _ n); [lia|done|]. intros r Hr.
    split; [unfold updateUptime; by case_match|by apply miss_ok].
  - apply (on_rep_ok a _ n); [lia|done|]. intros r Hr. split; [done|by apply slash_ok].
  - apply (on_rep_ok a _ n); [lia|done|]. intros r Hr. split; [done|]. apply addXP_ok; [lia|].
    destruct Hr. rep_crush.
  - unfold ComputeSovereignty. destruct (reps m !! a) as [rep|] eqn:E; [|done].
    destruct (Hreps _ _ E) as [Ha []]. apply insert_ok; [done|done|].
    pose proof (scoreTier_range (sovereignty (cfg m) rep s ts t)). rep_crush.
  - split; [done|]. simpl. intros b r Hr. rewrite lookup_fmap in Hr.
    destruct (reps m !! b) as [r0|] eqn:E; simplify_eq/=. destruct (Hreps _ _ E) as [Ha Ho].
    split; [done|by apply decay_ok].
Qed.

Lemma run_cfg ops m : cfg (run oob ops m) = cfg m.
Proof.
  revert m. induction ops as [|o ops IH]; intros m; simpl; [done|]. rewrite IH.
  destruct o; simpl; try unfold Register, RecordAttestation, RecordMissedBlock, RecordSlash,
    RecordUptimeCheck, ComputeSovereignty, on_rep; try by case_match.
  done.
Qed.

Lemma run_ok ops n m :
  0 <= n -> (n + Z.of_nat (length ops)) * 10000 < 2 ^ 64 -> mgr_ok n m ->
  mgr_ok (n + Z.of_nat (length ops)) (run oob ops m).
Proof.
  revert n m. induction ops as [|o ops IH]; intros n m H0 Hn Hm; simpl in *; [by rewrite Z.add_0_r|].
  replace (n + Z.of_nat (S (length ops))) with (n + 1 + Z.of_nat (length ops)) in * by lia.
  apply IH; [lia|lia|]. apply exec_ok; [done|lia|done].
Qed.

End Oob.

(** ** Monotonicity of the score *)

Lemma one_nn : nn64 (f64_of_Z 1).
Proof. nn_compute. Qed.

(** One term of the sum. *)
Lemma weighted_term w x y :
  nn64 w -> nn64 (f64_mul w (f64_of_Z 1)) -> between x y (f64_of_Z 1) ->
  between (f64_mul w x) (f64_mul w y) (f64_mul w (f64_of_Z 1)).
Proof. intros Hw H1 Hxy. apply between_mul; [by apply between_refl|exact Hxy|exact H1]. Qed.

Lemma weighted_sum_between a a' b b' l l' t t' :
  between a a' (f64_of_Z 1) -> between b b' (f64_of_Z 1) -> between l l' (f64_of_Z 1) ->
  between t t' (f64_of_Z 1) ->
  between (weighted_sum a b l t) (weighted_sum a' b' l' t')
    (weighted_sum (f64_of_Z 1) (f64_of_Z 1) (f64_of_Z 1) (f64_of_Z 1)).
Proof.
  intros Ha Hb Hl Ht. unfold weighted_sum.
  apply between_add; [apply between_add; [apply between_add|..]|..].
  - apply weighted_term; [nn_compute|nn_compute|exact Ha].
  - apply weighted_term; [nn_compute|nn_compute|exact Hb].
  - nn_compute.
  - apply weighted_term; [nn_compute|nn_compute|exact Hl].
  - nn_compute.
  - apply weighted_term; [nn_compute|nn_compute|exact Ht].
  - nn_compute.
Qed.

Lemma weighted_sum_top : f64le (weighted_sum (f64_of_Z 1) (f64_of_Z 1) (f64_of_Z 1) (f64_of_Z 1)) (f64_of_Z 1).
Proof. f64_compute. Qed.

Lemma one_hour : f64_of_Z 1 = f64_div (f64_of_Z ns_per_hour) (f64_of_Z ns_per_hour).
Proof. vm_compute. reflexivity. Qed.

Lemma one_bps : f64_of_Z 1 = f64_div (f64_of_Z 10000) (f64_of_Z 10000).
Proof. vm_compute. reflexivity. Qed.

(** [Hours] of a non-negative duration lies between the whole hours and one more. *)
Lemma Hours_fraction d : 0 <= d ->
  f64le (f64_div (f64_of_Z (Z.rem d ns_per_hour)) (f64_of_Z ns_per_hour)) (f64_of_Z 1).
Proof.
  intros Hd. rewrite Z.rem_mod_nonneg by done.
  pose proof (Z.mod_pos_bound d ns_per_hour ltac:(done)).
  rewrite one_hour.
  apply f64_div_mono; [apply f64_of_Z_le; [lia|nn_compute]|nn_compute|].
  apply f64_of_Z_ge1; [done|by split].
Qed.

Lemma whole_hours_range d : 0 <= d < 2 ^ 63 -> 0 <= d / ns_per_hour < 2 ^ 40.
Proof.
  intros Hd. unfold ns_per_hour. split; [apply Z.div_pos; lia|apply Z.div_lt_upper_bound; lia].
Qed.

Lemma Hours_bounds d : 0 <= d < 2 ^ 63 ->
  f64le (f64_of_Z (d / ns_per_hour)) (Hours d) /\ f64le (Hours d) (f64_of_Z (d / ns_per_hour + 1)).
Proof.
  intros Hd. pose proof (Hours_fraction d ltac:(lia)) as Hf.
  pose proof (whole_hours_range d Hd) as Hh.
  unfold Hours. rewrite Z.quot_div_nonneg by (lia || done). set (h := d / ns_per_hour) in *.
  destruct (f64_of_Z_exact h ltac:(lia)) as [Hn Hv].
  destruct (f64_of_Z_exact (h + 1) ltac:(lia)) as [Hn1 Hv1].
  destruct (f64_add_Z_exact h 1 ltac:(lia) ltac:(lia) ltac:(lia)) as [Ha Hav].
  destruct (f64_add_Z_exact h 0 ltac:(lia) ltac:(lia) ltac:(lia)) as [Hz Hzv].
  assert (f64le (f64_add (f64_of_Z h) (f64_div (f64_of_Z (Z.rem d ns_per_hour)) (f64_of_Z ns_per_hour)))
                (f64_add (f64_of_Z h) (f64_of_Z 1))) as Hup
    by (apply f64_add_le; [by apply f64le_refl|done|done]).
  split.
  - apply (f64le_trans _ (f64_add (f64_of_Z h) (f64_of_Z 0))).
    + apply f64le_of_qval; [done|done|]. rewrite Hv, Hzv, Z.add_0_r. apply QArith_base.Qle_refl.
    + apply f64_add_le; [by apply f64le_refl| |by eapply f64le_nn_l].
      apply f64_zero_le. by eapply f64le_nn_l.
  - apply (f64le_trans _ _ _ Hup). apply f64le_of_qval; [done|done|].
    rewrite Hav, Hv1. apply QArith_base.Qle_refl.
Qed.

Lemma Hours_mono d d' : 0 <= d -> d <= d' -> d' < 2 ^ 63 -> f64le (Hours d) (Hours d').
Proof.
  intros H0 Hdd H63. destruct (Hours_bounds d ltac:(lia)) as [_ Hup].
  destruct (Hours_bounds d' ltac:(lia)) as [Hlow Hup'].
  pose proof (Z.div_le_mono d d' ns_per_hour ltac:(done) Hdd).
  pose proof (whole_hours_range d ltac:(lia)). pose proof (whole_hours_range d' ltac:(lia)).
  destruct (decide (d / ns_per_hour = d' / ns_per_hour)) as [E|E].
  - unfold Hours in *. rewrite !Z.quot_div_nonneg in * by (lia || done). rewrite E.
    apply f64_add_le; [| |by eapply f64le_nn_l].
    + apply f64le_refl. apply f64_of_Z_exact. lia.
    + rewrite !Z.rem_mod_nonneg by (lia || done).
      pose proof (Z.mod_pos_bound d ns_per_hour ltac:(done)).
      pose proof (Z.mod_pos_bound d' ns_per_hour ltac:(done)).
      pose proof (Z.div_mod d ns_per_hour ltac:(done)). pose proof (Z.div_mod d' ns_per_hour ltac:(done)).
      assert (d' mod ns_per_hour < 2 ^ 53) by (unfold ns_per_hour in *; lia).
      apply f64_div_mono; [apply f64_of_Z_le; [rewrite E in *; lia|]|nn_compute|].
      * apply f64_of_Z_exact. lia.
      * apply f64_of_Z_ge1; [done|by split].
  - apply (f64le_trans _ _ _ Hup). apply (f64le_trans _ (f64_of_Z (d' / ns_per_hour))); [|done].
    apply f64_of_Z_le; [lia|]. apply f64_of_Z_exact. lia.
Qed.

Lemma clip1_clip x : clip1 x = clip (f64_of_Z 1) x.
Proof. done. Qed.

Lemma since_range t now : t <= now -> 0 <= since t now < 2 ^ 63.
Proof. unfold since. lia. Qed.

Lemma longevity_between r r' now now' :
  JoinedAt r <= now -> JoinedAt r' <= now' -> now - JoinedAt r <= now' - JoinedAt r' ->
  between (longevity r now) (longevity r' now') (f64_of_Z 1).
Proof.
  intros H1 H2 H3. unfold longevity.
  pose proof (since_range _ _ H1). pose proof (since_range _ _ H2).
  assert (since (JoinedAt r) now <= since (JoinedAt r') now') by (unfold since; lia).
  destruct (f64_of_Z_ge1 24) as [? ?]; [lia|by split|].
  destruct (f64_of_Z_ge1 365) as [? ?]; [lia|by split|].
  apply between_min; [apply one_nn|].
  apply f64_div_mono; [|done|done]. apply f64_div_mono; [|done|done]. apply Hours_mono; lia.
Qed.

Lemma xp_norm_between c r r' :
  is_u64 (MaxXP c) -> 1 <= MaxXP c -> 0 <= XP r <= XP r' -> is_u64 (XP r') ->
  between (xp_norm c r) (xp_norm c r') (f64_of_Z 1).
Proof.
  intros Hm H1 Hx Hu. unfold xp_norm. rewrite !clip1_clip. apply between_clip; [apply one_nn|].
  destruct (f64_of_Z_ge1 (MaxXP c)) as [? ?]; [done|done|].
  apply f64_div_mono; [|done|done]. apply f64_of_Z_le; [done|by apply f64_of_u64_nn].
Qed.

Lemma uptime_norm_between r r' :
  0 <= UptimeBps r <= UptimeBps r' -> UptimeBps r' <= 10000 ->
  between (uptime_norm r) (uptime_norm r') (f64_of_Z 1).
Proof.
  intros H1 H2. unfold uptime_norm.
  destruct (f64_of_Z_ge1 10000) as [? ?]; [lia|by split|].
  assert (forall a b, 0 <= a <= b -> b <= 10000 ->
    f64le (f64_div (f64_of_Z a) (f64_of_Z 10000)) (f64_div (f64_of_Z b) (f64_of_Z 10000))) as Hm.
  { intros a b Ha Hb. apply f64_div_mono; [|done|done]. apply f64_of_Z_le; [done|].
    apply f64_of_Z_exact. lia. }
  split; [by apply Hm|].
  rewrite one_bps. apply Hm; lia.
Qed.

Lemma sovereignty_between c r r' s s' ts ts' now now' :
  is_u64 (MaxXP c) -> 1 <= MaxXP c -> 0 <= XP r <= XP r' -> is_u64 (XP r') ->
  0 <= UptimeBps r <= UptimeBps r' -> UptimeBps r' <= 10000 ->
  JoinedAt r <= now -> JoinedAt r' <= now' -> now - JoinedAt r <= now' - JoinedAt r' ->
  f64le ts ts' ->
  f64le (sovereignty c r s ts now) (sovereignty c r' s' ts' now') /\
  f64le (sovereignty c r' s' ts' now') (f64_of_Z 1).
Proof.
  intros. destruct (weighted_sum_between (xp_norm c r) (xp_norm c r') (uptime_norm r) (uptime_norm r')
    (longevity r now) (longevity r' now') (clip1 ts) (clip1 ts')) as [Hle Htop].
  - by apply xp_norm_between.
  - by apply uptime_norm_between.
  - by apply longevity_between.
  - rewrite !clip1_clip. apply between_clip; [apply one_nn|done].
  - split; [done|]. eapply f64le_trans; [exact Htop|apply weighted_sum_top].
Qed.

Lemma scoreTier_mono x y : f64le x y -> scoreTier x <= scoreTier y.
Proof.
  intros Hxy. pose proof (f64le_nn_l _ _ Hxy) as Hx. pose proof (f64le_nn_r _ _ Hxy) as Hy.
  assert (forall k, nn64 k -> f64_leb k x = true -> f64_leb k y = true) as Hm.
  { intros k Hk H. apply f64le_leb in H; [|done|done]. apply f64le_leb; [done|done|].
    by eapply f64le_trans. }
  unfold scoreTier.
  pose proof (Hm (f64_const 85 100) ltac:(nn_compute)). pose proof (Hm (f64_const 65 100) ltac:(nn_compute)).
  pose proof (Hm (f64_const 40 100) ltac:(nn_compute)). pose proof (Hm (f64_const 15 100) ltac:(nn_compute)).
  clear Hm. repeat case_match; try lia; exfalso; intuition congruence.
Qed.

(** ** Properties *)

Section Properties.
Variable oob : f64 -> Z.
Hypothesis oob_u64 : forall f, is_u64 (oob f).

Lemma NewManager_ok c : cfg_ok c -> mgr_ok 0 (NewManager (Some c)).
Proof. intros Hc. split; [done|]. intros a r. simpl. by rewrite lookup_empty. Qed.

(** C30. From a new manager, whatever sequence of registrations, attestations, misses,
    slashes, uptime checks, score computations and decays runs (as long as the block
    counters times 10000 stay within 64 bits), every entry is keyed by its own
    address, its XP is within [MaxXP], its uptime within 10000 basis points and its
    tier within 0..4. *)
Theorem reachable_entries (c : XPConfig) (ops : list op) (a : Address) (r : ValidatorReputation)
  (Hc : cfg_ok c) (Hn : Z.of_nat (length ops) * 10000 < 2 ^ 64)
  (Hr : GetReputation a (run oob ops (NewManager (Some c))) = Some r) :
  rAddress r = a /\ 0 <= XP r <= MaxXP c /\ 0 <= UptimeBps r <= 10000 /\ 0 <= Tier r <= 4.
Proof.
  destruct (run_ok oob oob_u64 ops 0 (NewManager (Some c))) as [Hc' H]; [lia|lia|by apply NewManager_ok|].
  assert (cfg (run oob ops (NewManager (Some c))) = c) as Hcfg by apply run_cfg.
  destruct (H a r Hr) as [Ha []]. by rewrite Hcfg in *.
Qed.

(** C38. With the default decay rate of 0.005 per day, a decay removes exactly
    [XP/200] (rounded down) from every entry of at most [2^40] XP: the float
    arithmetic of the conversion never loses or gains a point, and nothing else of
    the entry changes. *)
Theorem ApplyDecay_exact (m : Manager) (a : Address) (r : ValidatorReputation)
  (Hrate : DecayRatePerDay (cfg m) = f64_const 5 1000) (Hr : GetReputation a m = Some r)
  (Hxp : 0 <= XP r <= 2 ^ 40) :
  GetReputation a (ApplyDecay oob m) = Some (set_XP (XP r - XP r / 200) r).
Proof.
  unfold GetReputation, ApplyDecay in *. simpl. rewrite lookup_fmap, Hr. simpl. f_equal.
  assert (XP (decay_one oob (cfg m) r) = XP r - XP r / 200) as H.
  { rewrite decay_one_XP by (done || unfold is_u64; lia). rewrite Hrate, f64_div200 by done.
    assert (0 <= XP r / 200 <= XP r) by (split; [apply Z.div_pos|apply Z.div_le_upper_bound]; lia). lia. }
  unfold decay_one in *. simpl in *. by rewrite H.
Qed.

End Properties.

Section Updates.
Context (a : Address) (m : Manager) (r : ValidatorReputation) (Hr : GetReputation a m = Some r).

Lemma on_rep_lookup f b :
  GetReputation b (on_rep a f m) = if decide (b = a) then Some (f r) else GetReputation b m.
Proof.
  unfold GetReputation, on_rep in *. rewrite Hr. simpl.
  case_decide as E; [subst; by rewrite lookup_insert_eq|by rewrite lookup_insert_ne].
Qed.

End Updates.

(** The effect of the recorders on a registered validator: an attestation counts
    one block and adds the configured XP up to [MaxXP], a slash counts one and removes
    the penalty down to 0, a miss counts one and recomputes the uptime as the exact
    floor of attested/(attested+missed) in basis points; the XP of a miss, and the
    uptime of an attestation or slash, and every other validator, are untouched. *)
Theorem recorders_effect (a b : Address) (m : Manager) (r : ValidatorReputation) (now : Z)
  (Hr : GetReputation a m = Some r) (Hne : b <> a)
  (Hxp : 0 <= XP r) (Hadd : 0 <= BlockAttestationXP (cfg m) /\ XP r + BlockAttestationXP (cfg m) < 2 ^ 64)
  (Hpen : 0 <= SlashPenaltyXP (cfg m)) (Hatt : 0 <= BlocksAttested r) (Hmiss : 0 <= BlocksMissed r)
  (Hcount : (BlocksAttested r + BlocksMissed r + 1) * 10000 < 2 ^ 64) (Hsl : is_u64 (SlashCount r + 1)) :
  GetReputation a (RecordAttestation a now m) =
    Some (set_XP (Z.min (MaxXP (cfg m)) (XP r + BlockAttestationXP (cfg m)))
           (set_LastActive now (set_BlocksAttested (BlocksAttested r + 1) r))) /\
  GetReputation a (RecordSlash a m) =
    Some (set_XP (Z.max 0 (XP r - SlashPenaltyXP (cfg m))) (set_SlashCount (SlashCount r + 1) r)) /\
  GetReputation a (RecordMissedBlock a m) =
    Some (set_UptimeBps (BlocksAttested r * 10000 / (BlocksAttested r + BlocksMissed r + 1))
           (set_BlocksMissed (BlocksMissed r + 1) r)) /\
  GetReputation b (RecordAttestation a now m) = GetReputation b m /\
  GetReputation b (RecordSlash a m) = GetReputation b m /\
  GetReputation b (RecordMissedBlock a m) = GetReputation b m.
Proof.
  unfold RecordAttestation, RecordSlash, RecordMissedBlock.
  rewrite !(on_rep_lookup a m r Hr), !decide_True, !decide_False by done.
  rewrite (u64_small (BlocksAttested r + 1)), (u64_small (BlocksMissed r + 1)), (u64_small (SlashCount r + 1))
    by (unfold is_u64 in *; lia).
  split_and!; try done; f_equal.
  - rewrite <- (u64_small (XP r + _)) by (unfold is_u64; lia).
    rewrite <- (addXP_XP (cfg m) (BlockAttestationXP (cfg m))). done.
  - rewrite <- (removeXP_XP (SlashPenaltyXP (cfg m)) r) by (unfold is_u64; lia). done.
  - destruct (updateUptime_bps (set_BlocksMissed (BlocksMissed r + 1) r)) as [H _]; simpl in *; [lia..|].
    rewrite Z.add_assoc in H. rewrite <- H. unfold updateUptime. by case_match.
Qed.

(** The recorded uptime is refreshed only by misses: a validator that misses its
    first block keeps an uptime of 0 through any number of later attestations. *)
Theorem uptime_stale (a : Address) (m : Manager) (r : ValidatorReputation) (times : list Z)
  (Hr : GetReputation a m = Some r) (Hatt : BlocksAttested r = 0) (Hmiss : is_u64 (BlocksMissed r + 1))
  (Hpos : 0 <= BlocksMissed r) :
  UptimeBps <$> GetReputation a (foldl (fun m t => RecordAttestation a t m) (RecordMissedBlock a m) times)
    = Some 0.
Proof.
  assert (forall m', UptimeBps <$> GetReputation a m' = Some 0 ->
    UptimeBps <$> GetReputation a (foldl (fun m t => RecordAttestation a t m) m' times) = Some 0) as Hstep.
  { induction times as [|t times IH]; intros m' Hm'; [done|]. simpl. apply IH.
    destruct (GetReputation a m') as [r'|] eqn:E; [|done].
    unfold RecordAttestation. rewrite (on_rep_lookup a m' r' E), decide_True by done. exact Hm'. }
  apply Hstep. unfold RecordMissedBlock. rewrite (on_rep_lookup a m r Hr), decide_True by done. simpl.
  f_equal. unfold updateUptime. simpl. rewrite Hatt, Z.add_0_l.
  rewrite (u64_small (BlocksMissed r + 1)) by done. rewrite (u64_small (BlocksMissed r + 1)) by done.
  destruct (Z.eqb_spec (BlocksMissed r + 1) 0); [lia|]. simpl. done.
Qed.

(** C15. The sovereignty score of a well-formed entry lies in [0,1] and grows with XP,
    uptime, time since joining and taste score, in the rounded float arithmetic of the
    code and not only over the reals; the stake passed in is irrelevant, and the
    stored tier grows with the score. *)
Theorem sovereignty_monotone (m m' : Manager) (a : Address) (r r' : ValidatorReputation)
  (stake stake' taste taste' : f64) (now now' : Z)
  (Hc : cfg m' = cfg m) (Hmax : is_u64 (MaxXP (cfg m)) /\ 1 <= MaxXP (cfg m))
  (Hr : GetReputation a m = Some r) (Hr' : GetReputation a m' = Some r')
  (Hxp : 0 <= XP r <= XP r' /\ XP r' <= MaxXP (cfg m))
  (Hup : 0 <= UptimeBps r <= UptimeBps r' /\ UptimeBps r' <= 10000)
  (Hjoin : JoinedAt r <= now /\ now - JoinedAt r <= now' - JoinedAt r')
  (Htaste : f64le taste taste') :
  let '(score, tier) := snd (ComputeSovereignty a stake taste now m) in
  let '(score', tier') := snd (ComputeSovereignty a stake' taste' now' m') in
  f64le f64_zero score /\ f64le score score' /\ f64le score' (f64_of_Z 1) /\
  0 <= tier <= tier' /\ tier' <= 4 /\
  GetReputation a (fst (ComputeSovereignty a stake taste now m)) = Some (set_Score score tier r).
Proof.
  unfold ComputeSovereignty, GetReputation in *. rewrite Hr, Hr'. simpl. rewrite Hc.
  destruct (sovereignty_between (cfg m) r r' stake stake' taste taste' now now') as [Hle Htop];
    [tauto|tauto|tauto|unfold is_u64 in *; lia|tauto|tauto|lia|lia|lia|done|].
  pose proof (scoreTier_range (sovereignty (cfg m) r stake taste now)).
  pose proof (scoreTier_range (sovereignty (cfg m) r' stake' taste' now')).
  pose proof (scoreTier_mono _ _ Hle).
  split; [exact (f64_zero_le _ (f64le_nn_l _ _ Hle))|]. split; [exact Hle|]. split; [exact Htop|].
  split; [lia|]. split; [lia|]. by rewrite lookup_insert_eq.
Qed.

(** ** Witnesses *)

Definition addr0 : Address := vreplicate 20 Byte.x00.
Definition addr1 : Address := vreplicate 20 Byte.x01.
Definition sample_ops : list op :=
  [ORegister addr0 0 0; OAttest addr0 5; OMiss addr0; OAttest addr0 7; OUptime addr0 8;
   OCompute addr0 f64_zero (f64_const 1 2) (10 ^ 15); ODecay; OSlash addr0].
Definition sample_rep : ValidatorReputation :=
  default (mkRep addr0 0 0 0 0 0 f64_zero 0 0 0)
    (GetReputation addr0 (run (fun _ => 0) (take 5 sample_ops) (NewManager None))).
Definition sample : Manager := run (fun _ => 0) (take 5 sample_ops) (NewManager None).

Lemma sample_lookup : GetReputation addr0 sample = Some sample_rep.
Proof. vm_compute. reflexivity. Qed.

Lemma reachable_entries_witness :
  exists r, GetReputation addr0 (run (fun _ => 0) sample_ops (NewManager (Some DefaultXPConfig))) = Some r /\
  rAddress r = addr0 /\ 0 <= XP r <= 100000 /\ 0 <= UptimeBps r <= 10000 /\ 0 <= Tier r <= 4.
Proof.
  eexists. split; [vm_compute; reflexivity|].
  apply (reachable_entries (fun _ => 0)) with (c := DefaultXPConfig) (ops := sample_ops);
    [by intros|by split|done|vm_compute; reflexivity].
Defined.

Lemma ApplyDecay_exact_witness :
  GetReputation addr0 (ApplyDecay (fun _ => 0) sample) = Some (set_XP 25 sample_rep).
Proof.
  refine (ApplyDecay_exact (fun _ => 0) _ sample addr0 sample_rep _ sample_lookup _);
    [by intros|vm_compute; reflexivity|vm_compute; split; discriminate].
Defined.

Lemma recorders_effect_witness :
  UptimeBps <$> GetReputation addr0 (RecordMissedBlock addr0 sample) = Some 5000 /\
  XP <$> GetReputation addr0 (RecordSlash addr0 sample) = Some 0.
Proof.
  destruct (recorders_effect addr0 addr1 sample sample_rep 9 sample_lookup) as (_ & -> & -> & _);
    [discriminate|vm_compute; try split; discriminate || reflexivity..|].
  split; vm_compute; reflexivity.
Defined.

Definition fresh : Manager := Register addr0 1 1 (NewManager None).

Lemma uptime_stale_witness :
  UptimeBps <$> GetReputation addr0
    (foldl (fun m t => RecordAttestation addr0 t m) (RecordMissedBlock addr0 fresh) [2; 3; 4; 5]) = Some 0.
Proof.
  refine (uptime_stale addr0 fresh (mkRep addr0 0 10000 0 0 0 f64_zero 0 1 1) _ _ _ _ _);
    [vm_compute; reflexivity|reflexivity|by split|done].
Defined.

Definition attested : Manager := RecordAttestation addr0 9 fresh.

Lemma sovereignty_monotone_witness :
  f64le (fst (snd (ComputeSovereignty addr0 f64_zero (f64_const 3 10) (10 ^ 15) fresh)))
        (fst (snd (ComputeSovereignty addr0 f64_inf (f64_const 5 10) (10 ^ 15) attested))).
Proof.
  assert (f64le (f64_const 3 10) (f64_const 5 10)) as Hts by f64_compute.
  pose proof (sovereignty_monotone fresh attested addr0 (mkRep addr0 0 10000 0 0 0 f64_zero 0 1 1)
    (mkRep addr0 10 10000 1 0 0 f64_zero 0 9 1) f64_zero f64_inf _ _ (10 ^ 15) (10 ^ 15)
    eq_refl ltac:(split; [by split|vm_compute; discriminate]) ltac:(vm_compute; reflexivity)
    ltac:(vm_compute; reflexivity) ltac:(vm_compute; split; try split; discriminate) ltac:(vm_compute; split; try split; discriminate) ltac:(vm_compute; split; try split; discriminate) Hts) as H.
  destruct (ComputeSovereignty addr0 f64_zero _ _ fresh) as [m1 [s1 t1]].
  destruct (ComputeSovereignty addr0 f64_inf _ _ attested) as [m2 [s2 t2]].
  exact (proj1 (proj2 H)).
Defined.

End Reputation.
