(* ===== verification/Staking.v ===== *)
(** * internal/staking: stakes, delegations and slashing

    Every method locks the manager for its whole duration, so a method is one atomic
    transition. Stakes are updated in place behind pointers that the manager owns
    ([Register] and [Delegate] copy the amounts they are given). *)

From stdpp Require Import pretty.
From Stdlib Require Import QArith.
From S2P Require Import Prelude Bytes Eth Rounding Float BigFloat.
Local Open Scope Z_scope.

Module Staking.

(** ** Data *)

Record Stake := mkStake {
  Validator : Address; Amount : Z; StakedAt : Z; IsActive : bool; Rewards : Z; SlashCount : Z
}.

Record Delegation := mkDelegation {
  dDelegator : Address; dValidator : Address; dAmount : Z; DelegatedAt : Z
}.

Record Manager := mkManager {
  stakes : gmap Address Stake; delegations : gmap Address (list Delegation); minStake : Z
}.

Definition NewManager (minStakeINSO : Z) : Manager := mkManager ∅ ∅ (minStakeINSO * wei_per_inso).

Definition with_stake (v : Address) (s : Stake) (m : Manager) : Manager :=
  mkManager (<[v := s]> (stakes m)) (delegations m) (minStake m).

(** ** Operations *)

Section Ops.
Context {E : EthLib}.

Definition Register (validator : Address) (amount now : Z) (m : Manager) : outcome Manager :=
  if amount <? minStake m then
    Err ("stake " +:+ pretty amount +:+ " below minimum " +:+ pretty (minStake m))
  else match stakes m !! validator with
  | Some _ => Err ("validator " +:+ Address_Hex validator +:+ " already registered")
  | None => Ok (with_stake validator (mkStake validator amount now true 0 0) m)
  end.

Definition set_Amount (a : Z) (s : Stake) : Stake :=
  mkStake (Validator s) a (StakedAt s) (IsActive s) (Rewards s) (SlashCount s).

Definition Delegate (delegator validator : Address) (amount now : Z) (m : Manager) : outcome Manager :=
  let inactive := Err ("validator " +:+ Address_Hex validator +:+ " not active") in
  match stakes m !! validator with
  | None => inactive
  | Some stake =>
      if negb (IsActive stake) then inactive
      else
        let list := default [] (delegations m !! validator) ++
                    [mkDelegation delegator validator amount now] in
        Ok (mkManager (<[validator := set_Amount (Amount stake + amount) stake]> (stakes m))
                      (<[validator := list]> (delegations m)) (minStake m))
  end.

(** The product of the stake and [percentage/100] in [big.Float] arithmetic,
    truncated: [NaN] panics in [SetFloat64], infinity times zero in [Mul], and an
    infinite product gives a nil [*big.Int] that [Sub] dereferences. *)
Definition slash_amount (amount : Z) (percentage : f64) : outcome Z :=
  y ← BigFloat_SetFloat64 (f64_div percentage (f64_of_Z 100));
  p ← BigFloat_Mul (BigFloat_SetInt amount) y;
  match BigFloat_Int p with
  | Some slashInt => Ok slashInt
  | None => Panic "nil pointer dereference"
  end.

Definition slashed (min slashInt : Z) (s : Stake) : Stake :=
  let amount := Amount s - slashInt in
  mkStake (Validator s) amount (StakedAt s)
    (if amount <? min then false else IsActive s) (Rewards s) (SlashCount s +[int] 1).

Definition Slash (validator : Address) (percentage : f64) (reason : string) (m : Manager) : outcome Manager :=
  match stakes m !! validator with
  | None => Err ("validator " +:+ Address_Hex validator +:+ " not found")
  | Some stake =>
      slashInt ← slash_amount (Amount stake) percentage;
      Ok (with_stake validator (slashed (minStake m) slashInt stake) m)
  end.

Definition GetStake (validator : Address) (m : Manager) : option Stake := stakes m !! validator.

(** The two iterations over the map: [order] is the sequence of entries the run-time
    happens to visit. *)
Definition TotalStaked (order : list (Address * Stake)) : Z :=
  foldl (fun total '(_, s) => if IsActive s then total + Amount s else total) 0 order.

Definition ActiveValidators (order : list (Address * Stake)) : list Stake :=
  foldl (fun active '(_, s) => if IsActive s then active ++ [s] else active) [] order.

Definition iterates (order : list (Address * Stake)) (m : Manager) : Prop :=
  order ≡ₚ map_to_list (stakes m).

(** Amounts as the log shows them. *)
Definition formatINSO (wei : Z) : outcome string :=
  d ← BigFloat_SetFloat64 (f64_of_Z wei_per_inso);
  inso ← BigFloat_Quo (BigFloat_SetInt wei) d;
  Ok (BigFloat_Text2 inso +:+ " INSO").

(** ** The manager as a step relation

    Calls that return an error leave the state as it is and are no steps. *)

Inductive step (m : Manager) : Manager -> Prop :=
| step_register v amount now m' : Register v amount now m = Ok m' -> step m m'
| step_delegate d v amount now m' : 0 <= amount -> Delegate d v amount now m = Ok m' -> step m m'
| step_slash v pct reason m' : Slash v pct reason m = Ok m' -> step m m'.

Lemma Register_Ok v amount now m m' :
  Register v amount now m = Ok m' <->
  minStake m <= amount /\ stakes m !! v = None /\
  m' = with_stake v (mkStake v amount now true 0 0) m.
Proof.
  unfold Register. destruct (Z.ltb_spec amount (minStake m)); [naive_solver lia|].
  destruct (stakes m !! v); naive_solver.
Qed.

Lemma Delegate_Ok d v amount now m m' :
  Delegate d v amount now m = Ok m' <->
  exists s, stakes m !! v = Some s /\ IsActive s = true /\
  m' = mkManager (<[v := set_Amount (Amount s + amount) s]> (stakes m))
         (<[v := default [] (delegations m !! v) ++ [mkDelegation d v amount now]]> (delegations m))
         (minStake m).
Proof.
  unfold Delegate. destruct (stakes m !! v) as [s|]; [|naive_solver].
  destruct (IsActive s) eqn:Ha; naive_solver congruence.
Qed.

Lemma Slash_Ok v pct reason m m' :
  Slash v pct reason m = Ok m' <->
  exists s cut, stakes m !! v = Some s /\ slash_amount (Amount s) pct = Ok cut /\
  m' = with_stake v (slashed (minStake m) cut s) m.
Proof.
  unfold Slash. destruct (stakes m !! v) as [s|]; [|naive_solver].
  rewrite outcome_bind_Ok. naive_solver.
Qed.

(** ** Invariant *)

Record stake_ok (min : Z) (v : Address) (s : Stake) : Prop := {
  ok_key : Validator s = v;
  ok_active : IsActive s = true -> min <= Amount s
}.

Definition mgr_ok (m : Manager) : Prop :=
  map_Forall (stake_ok (minStake m)) (stakes m) /\
  forall v ds, delegations m !! v = Some ds -> is_Some (stakes m !! v) /\ Forall (fun d => dValidator d = v) ds.

Lemma slashed_ok min v cut s : stake_ok min v s -> stake_ok min v (slashed min cut s).
Proof.
  intros [Hk Ha]. split; [done|]. unfold slashed. simpl.
  destruct (Z.ltb_spec (Amount s - cut) min); [done|]. lia.
Qed.

Lemma mgr_ok_insert v s m : mgr_ok m -> stake_ok (minStake m) v s -> mgr_ok (with_stake v s m).
Proof.
  intros [Hs Hd] Hok. split; simpl; [by apply map_Forall_insert_2|].
  intros w ds Hw. destruct (Hd w ds Hw) as [? ?]. split; [|done].
  destruct (decide (w = v)) as [->|]; [by rewrite lookup_insert_eq|by rewrite lookup_insert_ne].
Qed.

Lemma step_ok m m' : step m m' -> mgr_ok m -> mgr_ok m'.
Proof.
  intros Hst Hok. pose proof Hok as [Hs Hd].
  destruct Hst as [v amount now m' H|d v amount now m' Hpos H|v pct reason m' H].
  - apply Register_Ok in H as (Hmin & _ & ->). by apply mgr_ok_insert.
  - apply Delegate_Ok in H as (s & Hv & Ha & ->).
    pose proof (map_Forall_lookup_1 _ _ _ _ Hs Hv) as [Hk Hm].
    destruct (mgr_ok_insert v (set_Amount (Amount s + amount) s) m Hok) as [Hs' Hd'];
      [split; simpl; [done|intros; specialize (Hm Ha); lia]|].
    split; [done|]. simpl in *. intros w ds. rewrite lookup_insert_Some.
    intros [[<- <-]|[Hne Hw]]; [|by apply Hd'].
    split; [by rewrite lookup_insert_eq|]. apply Forall_app. split; [|by repeat constructor].
    destruct (delegations m !! v) as [ds|] eqn:Eds; [|constructor]. by apply (Hd v).
  - apply Slash_Ok in H as (s & cut & Hv & _ & ->). apply mgr_ok_insert; [done|].
    apply slashed_ok. by apply (map_Forall_lookup_1 _ _ _ _ Hs).
Qed.

Lemma NewManager_stakes_ok n : mgr_ok (NewManager n).
Proof.
  split; simpl; [apply map_Forall_empty|]. intros v ds. by rewrite lookup_empty.
Qed.

Lemma steps_ok m m' : rtc step m m' -> mgr_ok m -> mgr_ok m'.
Proof. induction 1; eauto using step_ok. Qed.

Lemma step_minStake m m' : step m m' -> minStake m' = minStake m.
Proof.
  destruct 1 as [v a now m' H|d v a now m' _ H|v pct r m' H].
  - by apply Register_Ok in H as (_ & _ & ->).
  - by apply Delegate_Ok in H as (s & _ & _ & ->).
  - by apply Slash_Ok in H as (s & cut & _ & _ & ->).
Qed.

(** An entry persists, keeps its key, and never turns active again. *)
Lemma step_persists m m' v s :
  step m m' -> stakes m !! v = Some s ->
  exists s', stakes m' !! v = Some s' /\ (IsActive s = false -> IsActive s' = false).
Proof.
  intros Hst Hv. destruct Hst as [w a now m' H|d w a now m' _ H|w pct r m' H].
  - apply Register_Ok in H as (_ & Hn & ->). exists s. split; [|done].
    simpl. rewrite lookup_insert_ne; [done|congruence].
  - apply Delegate_Ok in H as (t & Ht & _ & ->). simpl.
    destruct (decide (w = v)) as [->|]; [|rewrite lookup_insert_ne by done; eauto].
    rewrite lookup_insert_eq. eexists. split; [done|]. simpl. congruence.
  - apply Slash_Ok in H as (t & cut & Ht & _ & ->). simpl.
    destruct (decide (w = v)) as [->|]; [|rewrite lookup_insert_ne by done; eauto].
    rewrite lookup_insert_eq. eexists. split; [done|]. simpl.
    rewrite Hv in Ht. injection Ht as <-. intros ->. by case_match.
Qed.

(** ** Slashing *)

Lemma pct_fraction pct :
  f64le pct (f64_of_Z 100) -> nn64 (f64_div pct (f64_of_Z 100)) /\ (qval (f64_div pct (f64_of_Z 100)) <= 1)%Q.
Proof.
  intros Hp. destruct (f64_of_Z_ge1 100) as [Hn H1]; [lia|by split|].
  pose proof (f64_div_mono _ _ _ Hp Hn H1) as (H & _ & Hle). split; [exact H|].
  eapply Qle_trans; [exact Hle|]. vm_compute. discriminate.
Qed.

(** C14. Slashing a registered validator by a percentage between 0 and 100 succeeds; the
    amount cut is between 0 and the stake and less than one wei away from the stake
    times percentage/100 (as a float64), the slash is counted, and the validator is
    deactivated exactly when the rest falls below the minimum. *)
Theorem Slash_bounds (v : Address) (pct : f64) (reason : string) (m : Manager) (s : Stake)
  (Hs : GetStake v m = Some s) (Hamt : 0 <= Amount s) (Hbits : bit_len (Amount s) < bf_emax)
  (Hpct : f64le pct (f64_of_Z 100)) :
  exists cut, 0 <= cut <= Amount s /\
    (inject_Z (Amount s) * qval (f64_div pct (f64_of_Z 100)) - 1 < inject_Z cut)%Q /\
    (inject_Z cut < inject_Z (Amount s) * qval (f64_div pct (f64_of_Z 100)) + 1)%Q /\
    Slash v pct reason m = Ok (with_stake v
      (mkStake (Validator s) (Amount s - cut) (StakedAt s)
        (if Amount s - cut <? minStake m then false else IsActive s)
        (Rewards s) (SlashCount s +[int] 1)) m).
Proof.
  destruct (pct_fraction pct Hpct) as [Hn H1].
  destruct (BigFloat_scale (Amount s) _ Hamt Hbits Hn H1) as (y & p & t & Hy & Hp & Ht & Htn & Hl & Hu).
  exists t. split; [done|]. split; [done|]. split; [done|].
  unfold Slash, GetStake in *. rewrite Hs. unfold slash_amount. rewrite Hy. simpl. rewrite Hp. simpl.
  by rewrite Ht.
Qed.

(** The percentage is not validated: a NaN or an infinite one brings the process
    down, whatever the stake. *)
Theorem Slash_panics (v : Address) (pct : f64) (reason : string) (m : Manager) (s : Stake)
  (Hs : GetStake v m = Some s) (Hamt : 0 <= Amount s) (Hbits : bit_len (Amount s) < bf_emax)
  (Hpct : pct = f64_nan \/ pct = f64_inf) :
  exists why, Slash v pct reason m = Panic why.
Proof.
  destruct (BigFloat_SetInt_exact (Amount s) Hamt Hbits) as [Hn _].
  unfold Slash, GetStake in *. rewrite Hs. unfold slash_amount. destruct Hpct as [-> | ->]; [by eexists|].
  unfold BigFloat_Mul, bf_op. simpl in *. rewrite Z.max_l by lia.
  destruct (bf_cast_exact (Z.max (bit_len (Amount s)) 64) bf_emax (Z.max (bit_len (Amount s)) 64) _ ltac:(unfold bf_emax in *; lia)
    ltac:(lia) ltac:(unfold bf_emax in *; lia) Hn) as [Hc _].
  by destruct (bf_cast _ _) as [sx| | |[] mx ex]; eexists.
Qed.

(** ** Reachable states *)

(** C29. In every state reachable from a new manager through the API (with non-negative
    delegations), each stake is filed under its own validator, an active validator
    has at least the minimum stake, and delegations name registered validators. *)
Theorem reachable_stakes (n : Z) (m : Manager) (v : Address) (s : Stake)
  (Hm : rtc step (NewManager n) m) (Hs : GetStake v m = Some s) :
  Validator s = v /\ (IsActive s = true -> n * wei_per_inso <= Amount s) /\
  forall w d, d ∈ default [] (delegations m !! w) -> dValidator d = w /\ is_Some (GetStake w m).
Proof.
  destruct (steps_ok _ _ Hm (NewManager_stakes_ok n)) as [Hst Hd].
  assert (minStake m = n * wei_per_inso) as Hmin.
  { assert (forall m1 m2, rtc step m1 m2 -> minStake m2 = minStake m1) as Hc
      by (induction 1; [done|by erewrite IHrtc, step_minStake by eassumption]).
    by rewrite (Hc _ _ Hm). }
  pose proof (map_Forall_lookup_1 _ _ _ _ Hst Hs) as [Hk Ha]. rewrite Hmin in Ha.
  split; [done|]. split; [done|]. intros w d.
  destruct (delegations m !! w) as [ds|] eqn:Ew; simpl; [|set_solver].
  destruct (Hd w ds Ew) as [? Hds]. rewrite Forall_forall in Hds. intros Hin. split; [by apply Hds|done].
Qed.

(** Deactivation is final: after a slash below the minimum, whatever calls follow,
    the validator stays inactive, can not register again and can not be delegated to. *)
Theorem deactivation_permanent (m m' : Manager) (v d : Address) (s : Stake) (amount now : Z)
  (Hs : GetStake v m = Some s) (Hina : IsActive s = false) (Hm : rtc step m m') :
  exists s', GetStake v m' = Some s' /\ IsActive s' = false /\
    is_ok (Register v amount now m') = false /\ is_ok (Delegate d v amount now m') = false.
Proof.
  unfold GetStake in *. revert s Hs Hina. induction Hm as [m|m m1 m' Hst _ IH]; intros s Hs Hina.
  - exists s. split; [done|]. split; [done|]. unfold Register, Delegate. rewrite Hs, Hina.
    split; [by case_match|done].
  - destruct (step_persists m m1 v s Hst Hs) as (s1 & Hs1 & Hina1). eauto.
Qed.

(** ** The total *)

Definition active_amount (e : Address * Stake) : Z := if IsActive e.2 then Amount e.2 else 0.

Lemma TotalStaked_sum order : TotalStaked order = sum_list_Z active_amount order.
Proof.
  unfold TotalStaked. rewrite <- (Z.add_0_l (sum_list_Z _ _)). generalize 0. unfold active_amount.
  induction order as [|[a s] l IH]; intros z; simpl; [lia|]. rewrite IH.
  destruct (IsActive s); lia.
Qed.

Lemma TotalStaked_insert m v s order order' :
  iterates order m -> iterates order' (with_stake v s m) ->
  TotalStaked order' = TotalStaked order
    - (if stakes m !! v is Some s0 then if IsActive s0 then Amount s0 else 0 else 0)
    + (if IsActive s then Amount s else 0).
Proof.
  unfold iterates. intros H H'. rewrite !TotalStaked_sum, H, H'. unfold with_stake. cbn [stakes].
  destruct (stakes m !! v) as [s0|] eqn:Ev.
  - rewrite <- (insert_delete_eq (stakes m)), map_to_list_insert by apply lookup_delete_eq.
    rewrite <- (insert_id (stakes m) v s0 Ev) at 2. rewrite <- (insert_delete_eq (stakes m) v s0).
    rewrite (map_to_list_insert _ v s0) by apply lookup_delete_eq. unfold active_amount, sum_list_Z. cbn. lia.
  - rewrite map_to_list_insert by done. unfold active_amount, sum_list_Z. cbn. lia.
Qed.

(** C39. The total is independent of the map's iteration order and the calls account for
    it: registering and delegating add exactly the amount, and slashing removes the
    amount cut while the validator stays active and its whole stake otherwise. *)
Theorem TotalStaked_accounts (m m' : Manager) (order order' : list (Address * Stake))
  (Ho : iterates order m) (Ho' : iterates order' m') :
  (forall v amount now, Register v amount now m = Ok m' ->
     TotalStaked order' = TotalStaked order + amount) /\
  (forall d v amount now, Delegate d v amount now m = Ok m' ->
     TotalStaked order' = TotalStaked order + amount) /\
  (forall v pct reason s s', GetStake v m = Some s -> IsActive s = true ->
     Slash v pct reason m = Ok m' -> GetStake v m' = Some s' ->
     TotalStaked order' = TotalStaked order - Amount s + (if IsActive s' then Amount s' else 0)).
Proof.
  split; [|split].
  - intros v amount now H. apply Register_Ok in H as (_ & Hn & ->).
    rewrite (TotalStaked_insert _ _ _ _ _ Ho Ho'), Hn. simpl. lia.
  - intros d v amount now H. apply Delegate_Ok in H as (s & Hs & Ha & ->).
    rewrite (TotalStaked_insert m v (set_Amount (Amount s + amount) s) _ _ Ho Ho'), Hs. simpl. rewrite Ha. lia.
  - intros v pct reason s s' Hs Ha H Hs'. apply Slash_Ok in H as (s0 & cut & Hs0 & _ & ->).
    unfold GetStake in *. simpl in Hs'. rewrite lookup_insert_eq in Hs'. simplify_eq.
    rewrite (TotalStaked_insert _ _ _ _ _ Ho Ho'), Hs, Ha. lia.
Qed.

(** The log shows whole amounts exactly. *)
Theorem formatINSO_whole (k : Z) (Hk : 0 <= k < 2 ^ 53) :
  formatINSO (k * wei_per_inso) = Ok (pretty k +:+ ".00 INSO").
Proof.
  destruct (decide (k = 0)) as [->|Hne]; [vm_compute; reflexivity|].
  assert (is_u64 wei_per_inso) as Hw by by split.
  destruct (f64_of_Z_ge1 wei_per_inso ltac:(done) Hw) as [Hn H1].
  assert (qval (f64_of_Z wei_per_inso) == inject_Z wei_per_inso)%Q as Hv by (vm_compute; reflexivity).
  destruct (BigFloat_Quo_units k (k * wei_per_inso) _ Hk Hn H1) as (y & v & Hy & HQ & Hnn & Hval).
  - by rewrite Hv, inject_Z_mult.
  - unfold wei_per_inso. lia.
  - apply (bit_len_bound _ 128); [unfold wei_per_inso; lia|done].
  - unfold formatINSO. rewrite Hy. cbn [mbind outcome_bind]. rewrite HQ. cbn [mbind outcome_bind].
    rewrite (BigFloat_Text2_integer _ _ v k ltac:(lia) Hnn Hval). by rewrite <- string_app_assoc.
Qed.

(** Amounts of delegations are not checked: delegating the negated stake of an
    active validator is accepted and leaves it active with nothing at stake. *)
Theorem negative_delegation (m : Manager) (d v : Address) (s : Stake) (now : Z)
  (Hs : GetStake v m = Some s) (Ha : IsActive s = true) :
  exists m' s', Delegate d v (- Amount s) now m = Ok m' /\ GetStake v m' = Some s' /\
    IsActive s' = true /\ Amount s' = 0.
Proof.
  unfold Delegate, GetStake in *. rewrite Hs, Ha. simpl. eexists _, _. split; [done|].
  simpl. rewrite lookup_insert_eq. split; [done|]. simpl. split; [done|lia].
Qed.

End Ops.

(** ** Witnesses *)

Section Witnesses.
Import ToyEth.

Definition alice : Address := vreplicate 20 Byte.x0a.
Definition bob : Address := vreplicate 20 Byte.x0b.
Definition inso (n : Z) : Z := n * wei_per_inso.
Definition m0 : Manager :=
  match Register alice (inso 150) 7 (NewManager 100) with Ok m => m | _ => NewManager 100 end.
Definition s0 : Stake := mkStake alice (inso 150) 7 true 0 0.

Lemma m0_alice : GetStake alice m0 = Some s0.
Proof. vm_compute. reflexivity. Qed.

Lemma m0_reachable : rtc step (NewManager 100) m0.
Proof. eapply rtc_l; [apply (step_register _ alice (inso 150) 7); vm_compute; reflexivity|apply rtc_refl]. Qed.

(** The float64 nearest to 0.1 is a little above it: ten percent of 150 INSO comes
    out 832 wei too high. *)
Example slash_ten_percent : slash_amount (inso 150) (f64_of_Z 10) = Ok (inso 15 + 832).
Proof. vm_compute. reflexivity. Qed.

Lemma formatINSO_whole_witness : formatINSO (100000 * wei_per_inso) = Ok "100000.00 INSO".
Proof. exact (formatINSO_whole 100000 ltac:(lia)). Defined.

Lemma Slash_bounds_witness : exists cut m', 0 <= cut <= inso 150 /\ Slash alice (f64_of_Z 10) "" m0 = Ok m'.
Proof.
  assert (f64le (f64_of_Z 10) (f64_of_Z 100)) as Hp by f64_compute.
  destruct (Slash_bounds alice (f64_of_Z 10) "" m0 s0 m0_alice ltac:(vm_compute; discriminate)
    ltac:(vm_compute; reflexivity) Hp) as (cut & H & _ & _ & HS).
  exists cut. eexists. split; [exact H|exact HS].
Defined.

Lemma Slash_panics_witness : exists why, Slash alice f64_inf "" m0 = Panic why.
Proof.
  apply (Slash_panics alice f64_inf "" m0 s0 m0_alice); [vm_compute; discriminate|vm_compute; reflexivity|by right].
Defined.

Lemma reachable_stakes_witness : Validator s0 = alice /\ inso 100 <= Amount s0.
Proof.
  destruct (reachable_stakes 100 m0 alice s0 m0_reachable m0_alice) as (H1 & H2 & _).
  split; [exact H1|exact (H2 eq_refl)].
Defined.

(** The same validator after a slash of half its stake. *)
Definition m1 : Manager := match Slash alice (f64_of_Z 50) "" m0 with Ok m => m | _ => m0 end.

Lemma deactivation_permanent_witness : is_ok (Register alice (inso 500) 9 m1) = false.
Proof.
  destruct (deactivation_permanent m1 m1 alice bob (mkStake alice (inso 75) 7 false 0 1) (inso 500) 9)
    as (s & _ & _ & H & _); [vm_compute; reflexivity|reflexivity|apply rtc_refl|exact H].
Defined.

Lemma TotalStaked_accounts_witness :
  TotalStaked (map_to_list (stakes m0)) = TotalStaked (map_to_list (stakes (NewManager 100))) + inso 150.
Proof.
  destruct (TotalStaked_accounts (NewManager 100) m0 _ _ (Permutation_refl _) (Permutation_refl _)) as (H & _).
  apply (H alice (inso 150) 7). vm_compute. reflexivity.
Defined.

Lemma negative_delegation_witness :
  exists m' s', Delegate bob alice (- inso 150) 8 m0 = Ok m' /\ GetStake alice m' = Some s' /\
    IsActive s' = true /\ Amount s' = 0.
Proof. apply (negative_delegation m0 bob alice s0 8 m0_alice). reflexivity. Defined.

End Witnesses.

End Staking.
