(* ===== verification/Consensus.v ===== *)
(** * internal/consensus: attestations and finality

    The engine with the objects it shares by pointer: the reputation manager (or nil),
    the network and the metrics collector. Every method holds the engine's lock while
    it touches the maps, so a method is one atomic transition. The network is any
    implementation of [P2P.Transport], the cryptography any [EthLib]. *)

From Stdlib Require Import QArith.
From S2P Require Import Prelude Bytes Eth Metrics P2P Rounding Float BigFloat Quorum Reputation.
Local Open Scope Z_scope.
Import P2P.

Module Consensus.

(** ** Data *)

(** A nil signature is [None]. *)
Record Attestation := mkAttestation {
  BlockNumber : Z; BlockHash : Hash; Validator : Address; aTasteScore : f64;
  Signature : option (list byte); Timestamp : Z
}.

Record ValidatorInfo := mkInfo {
  vAddress : Address; vStake : Z; vTasteScore : f64; VotePower : f64;
  SovereigntyScore : f64; SovereigntyTier : Z; IsActive : bool; SlashCount : Z; JoinedAt : Z
}.

Section Engine.
Context {E : EthLib} {N : Type} {T : Transport N}.

Record Engine := mkEngine {
  SlashingEnabled : bool; privateKey : PrivateKey; localAddr : Address; metrics : bool;
  validators : gmap Address ValidatorInfo; attestations : gmap Z (list Attestation)
}.

Definition NewEngine (slashing : bool) (addr : Address) (key : PrivateKey) : Engine :=
  mkEngine slashing key addr false ∅ ∅.

(** The engine and what its pointers lead to. *)
Record State := mkState {
  eng : Engine; repMgr : option Reputation.Manager; network : N; met : Metrics.t
}.

Definition set_validators (vs : gmap Address ValidatorInfo) (e : Engine) : Engine :=
  mkEngine (SlashingEnabled e) (privateKey e) (localAddr e) (metrics e) vs (attestations e).
Definition set_attestations (atts : gmap Z (list Attestation)) (e : Engine) : Engine :=
  mkEngine (SlashingEnabled e) (privateKey e) (localAddr e) (metrics e) (validators e) atts.
Definition SetMetrics (e : Engine) : Engine :=
  mkEngine (SlashingEnabled e) (privateKey e) (localAddr e) true (validators e) (attestations e).

(** ** RegisterValidator *)

(** The stake in INSO as a float64. *)
Definition stake_float (stake : Z) : outcome f64 :=
  d ← BigFloat_SetFloat64 (f64_of_Z wei_per_inso);
  stakeFloat ← BigFloat_Quo (BigFloat_SetInt stake) d;
  Ok (BigFloat_Float64 stakeFloat).

Definition vote_power (stakeF64 sovereigntyScore : f64) : f64 :=
  f64_mul stakeF64 (f64_add (f64_of_Z 1) (f64_mul (f64_const 1 2) sovereigntyScore)).

(** [now1] is the clock in [ComputeSovereignty], [now2] the one of [JoinedAt]. *)
Definition RegisterValidator (addr : Address) (stake : Z) (tasteScore : f64) (now1 now2 : Z) (s : State) :
    outcome State :=
  stakeF64 ← stake_float stake;
  let '(rep, (sovereigntyScore, tier)) :=
    match repMgr s with
    | None => (None, (f64_zero, 0))
    | Some m =>
        let '(m', r) := Reputation.ComputeSovereignty addr stakeF64 tasteScore now1 m in (Some m', r)
    end in
  let info := mkInfo addr stake tasteScore (vote_power stakeF64 sovereigntyScore)
                sovereigntyScore tier true 0 now2 in
  Ok (mkState (set_validators (<[addr := info]> (validators (eng s))) (eng s)) rep (network s) (met s)).

(** ** Attestations *)

Definition attestation_preimage (num : Z) (hash : Hash) (validator : Address) : list byte :=
  BigInt_Bytes num ++ Hash_Bytes hash ++ Address_Bytes validator.

Definition attestationHash (att : Attestation) : Hash :=
  Keccak256Hash (attestation_preimage (BlockNumber att) (BlockHash att) (Validator att)).

Definition signAttestation (att : Attestation) (e : Engine) : option (list byte) :=
  Sign (Hash_Bytes (attestationHash att)) (privateKey e).

(** [now1] stamps the attestation, [now2] is the clock of the reputation manager. The
    broadcast's error is dropped. *)
Definition AttestBlock (blockNum : Z) (blockHash : Hash) (now1 now2 : Z) (s : State) : State * Attestation :=
  let e := eng s in
  let unsigned := mkAttestation blockNum blockHash (localAddr e) f64_zero None now1 in
  let att := mkAttestation blockNum blockHash (localAddr e) f64_zero (signAttestation unsigned e) now1 in
  let atts := default [] (attestations e !! blockNum) ++ [att] in
  let e' := set_attestations (<[blockNum := atts]> (attestations e)) e in
  let rep := Reputation.RecordAttestation (localAddr e) now2 <$> repMgr s in
  let net := fst (Broadcast MsgAttestation (Signature att) (network s)) in
  let met' := if metrics e then Metrics.add_AttestationsCreated (met s) else met s in
  (mkState e' rep net met', att).

Inductive attestation_error := ErrInvalidSignature | ErrUnknownValidator.

(** [None] is the nil error. *)
Definition VerifyAttestation (att : Attestation) (e : Engine) : option attestation_error :=
  let sig := default [] (Signature att) in
  if negb (length sig =? 65)%nat then Some ErrInvalidSignature
  else
    match SigToPub (Hash_Bytes (attestationHash att)) sig with
    | None => Some ErrInvalidSignature
    | Some pubKey =>
        if decide (PubkeyToAddress pubKey = Validator att) then
          match validators e !! Validator att with
          | None => Some ErrUnknownValidator
          | Some _ => None
          end
        else Some ErrInvalidSignature
    end.

(** ** Finality *)

(** The entries of the validator map in the order the run-time visits them. *)
Definition iterates (order : list (Address * ValidatorInfo)) (e : Engine) : Prop :=
  order ≡ₚ map_to_list (validators e).

Definition total_power (order : list (Address * ValidatorInfo)) : f64 :=
  foldl (fun p '(_, v) => if IsActive v then f64_add p (VotePower v) else p) f64_zero order.

Definition attested_power (e : Engine) (atts : list Attestation) : f64 :=
  foldl (fun p att =>
    match validators e !! Validator att with
    | Some v => if IsActive v then f64_add p (VotePower v) else p
    | None => p
    end) f64_zero atts.

Definition IsFinalized (order : list (Address * ValidatorInfo)) (blockNum : Z) (s : State) : State * bool :=
  let e := eng s in
  let atts := default [] (attestations e !! blockNum) in
  if (length atts =? 0)%nat then (s, false)
  else
    let totalPower := total_power order in
    let attestedPower := attested_power e atts in
    if f64_eqb totalPower f64_zero then (s, false)
    else
      let finalized := f64_ltb (f64_const 2 3) (f64_div attestedPower totalPower) in
      (if finalized && metrics e
       then mkState e (repMgr s) (network s) (Metrics.add_BlocksFinalized (met s)) else s,
       finalized).

Definition ValidatorCount (e : Engine) : Z :=
  Z.of_nat (length (filter (fun '(_, v) => IsActive v = true) (map_to_list (validators e)))).

Definition Validators (order : list (Address * ValidatorInfo)) : list ValidatorInfo := order.*2.

(** ** The message loop *)

Inductive log_event :=
| ReceivedAttestation (from : list byte) | ReceivedNewBlock (from : list byte)
| ReceivedSlashReport (from : list byte).

(** The three handlers log the message and do nothing else. *)
Definition handleAttestation (msg : Message) : list log_event := [ReceivedAttestation (From msg)].
Definition handleNewBlock (msg : Message) : list log_event := [ReceivedNewBlock (From msg)].
Definition handleSlashReport (e : Engine) (msg : Message) : list log_event :=
  if negb (SlashingEnabled e) then [] else [ReceivedSlashReport (From msg)].

Definition dispatch (e : Engine) (msg : Message) : list log_event :=
  if Type_ msg =? MsgAttestation then handleAttestation msg
  else if Type_ msg =? MsgNewBlock then handleNewBlock msg
  else if Type_ msg =? MsgSlashReport then handleSlashReport e msg
  else [].

(** One iteration of [processMessages]; [None] when the channel is empty. *)
Definition processMessages (s : State) : option (State * list log_event) :=
  match take_message (network s) with
  | None => None
  | Some (msg, net) => Some (mkState (eng s) (repMgr s) net (met s), dispatch (eng s) msg)
  end.

(** ** Finality *)

(** The exact counterparts of the two sums, for vote powers that are the integers
    [power]: what a validator counts for, the total over the registered validators, and
    the sum over a list of attestations. *)
Definition active_power (e : Engine) (power : Address -> Z) (a : Address) : Z :=
  match validators e !! a with Some v => if IsActive v then power a else 0 | None => 0 end.

Definition total (e : Engine) (power : Address -> Z) : Z :=
  sum_list_Z (active_power e power) (map_to_list (validators e)).*1.

Definition attested (e : Engine) (power : Address -> Z) (atts : list Attestation) : Z :=
  sum_list_Z (active_power e power) (Validator <$> atts).

Definition whole_powers (e : Engine) (power : Address -> Z) : Prop :=
  forall a v, validators e !! a = Some v -> 0 <= power a /\ whole (VotePower v) (power a).

Section Whole.
Context (e : Engine) (power : Address -> Z) (Hpower : whole_powers e power).

Lemma active_power_nonneg a : 0 <= active_power e power a.
Proof.
  unfold active_power. destruct (validators e !! a) as [v|] eqn:Ev; [|done].
  destruct (Hpower a v Ev). by case_match.
Qed.

Lemma active_power_total a : active_power e power a <= total e power.
Proof.
  pose proof (active_power_nonneg a). unfold total.
  destruct (validators e !! a) as [v|] eqn:Ev.
  - apply elem_of_map_to_list in Ev. apply (list_elem_of_fmap_2 fst) in Ev. simpl in Ev.
    apply elem_of_Permutation in Ev as [l ->]. simpl.
    pose proof (sum_list_Z_nonneg (active_power e power) l ltac:(intros; apply active_power_nonneg)). lia.
  - unfold active_power. rewrite Ev. apply sum_list_Z_nonneg. intros. apply active_power_nonneg.
Qed.

Lemma total_power_whole order :
  iterates order e -> total e power < 2 ^ 53 -> whole (total_power order) (total e power).
Proof.
  intros Ho Ht. assert (total e power = sum_list_Z (fun en => active_power e power en.1) order) as Heq.
  { unfold total. by rewrite <- Ho, sum_list_Z_fmap. }
  rewrite Heq in *. rewrite <- (Z.add_0_l (sum_list_Z _ _)). apply whole_sum; [| |apply whole_zero|done|lia].
  - intros p k [a v] Hin Hp Hk Hs. simpl in *. rewrite Ho, elem_of_map_to_list in Hin.
    destruct (Hpower a v Hin) as [H0 Hw]. unfold active_power in *. rewrite Hin in *.
    destruct (IsActive v); [by apply whole_add|by rewrite Z.add_0_r].
  - intros. apply active_power_nonneg.
Qed.

Lemma attested_power_whole atts :
  attested e power atts < 2 ^ 53 -> whole (attested_power e atts) (attested e power atts).
Proof.
  intros Ht. assert (attested e power atts = sum_list_Z (fun att => active_power e power (Validator att)) atts) as Heq.
  { apply sum_list_Z_fmap. }
  rewrite Heq in *. rewrite <- (Z.add_0_l (sum_list_Z _ _)). apply whole_sum; [| |apply whole_zero|done|lia].
  - intros p k att Hin Hp Hk Hs. simpl in *. unfold active_power in *.
    destruct (validators e !! Validator att) as [v|] eqn:Ev; [|by rewrite Z.add_0_r].
    destruct (Hpower _ v Ev) as [H0 Hw]. destruct (IsActive v); [by apply whole_add|by rewrite Z.add_0_r].
  - intros. apply active_power_nonneg.
Qed.

Lemma attested_le_total_zero atts : total e power = 0 -> attested e power atts = 0.
Proof.
  intros H0. unfold attested. induction (Validator <$> atts) as [|a l IH]; simpl; [done|].
  pose proof (active_power_nonneg a). pose proof (active_power_total a). lia.
Qed.

Lemma finalized_whole s order n :
  eng s = e -> iterates order e -> total e power < 2 ^ 53 ->
  attested e power (default [] (attestations e !! n)) < 2 ^ 53 ->
  snd (IsFinalized order n s) =
    (2 * total e power <? 3 * attested e power (default [] (attestations e !! n))).
Proof.
  intros Hs Ho Ht Ha. pose proof (total_power_whole order Ho Ht) as Hwt.
  pose proof (attested_power_whole _ Ha) as Hwa.
  assert (0 <= total e power) by (apply sum_list_Z_nonneg; intros; apply active_power_nonneg).
  unfold IsFinalized. rewrite Hs. destruct (default [] (attestations e !! n)) as [|att atts] eqn:Eatts.
  - simpl. symmetry. apply Z.ltb_ge. unfold attested. simpl. lia.
  - cbn [length Nat.eqb]. rewrite (f64_eqb_zero _ _ Hwt).
    destruct (Z.eqb_spec (total e power) 0) as [E0|].
    + simpl. rewrite attested_le_total_zero by done. rewrite E0. done.
    + assert (0 <= attested e power (att :: atts))
        by (apply sum_list_Z_nonneg; intros; apply active_power_nonneg).
      destruct Hwt as [Htn Htv], Hwa as [Han Hav]. simpl.
      apply (quorum_exact _ _ _ _ Han Hav Htn Htv); lia.
Qed.

End Whole.

(** C1. When the vote powers are integers whose sums stay below [2^53], a block is
    finalized exactly when three times the attested power exceeds twice the total:
    the float additions, division and comparison with 2.0/3.0 decide the two-thirds
    majority without rounding error and whatever the map's iteration order. *)
Theorem IsFinalized_exact (s : State) (order : list (Address * ValidatorInfo)) (n : Z) (power : Address -> Z)
  (Hw : whole_powers (eng s) power) (Ho : iterates order (eng s))
  (Ht : total (eng s) power < 2 ^ 53)
  (Ha : attested (eng s) power (default [] (attestations (eng s) !! n)) < 2 ^ 53) :
  snd (IsFinalized order n s) = true <->
  2 * total (eng s) power < 3 * attested (eng s) power (default [] (attestations (eng s) !! n)).
Proof. rewrite (finalized_whole (eng s) power Hw s order n) by done. apply Z.ltb_lt. Qed.

(** C9. For arbitrary vote powers whose float sums are finite, a finalized block has an
    attestation, a positive total, and attested power above the total's share
    [2/3 - 2^-53/3]: the rounding of the quotient never finalizes below it. *)
Theorem IsFinalized_sound (s : State) (order : list (Address * ValidatorInfo)) (n : Z)
  (atts : list Attestation) (Hatts : atts = default [] (attestations (eng s) !! n))
  (Ht : nn64 (total_power order)) (Ha : nn64 (attested_power (eng s) atts))
  (Hf : snd (IsFinalized order n s) = true) :
  atts <> [] /\ (0 < qval (total_power order))%Q /\
  ((2 - (1 # 9007199254740992)) * qval (total_power order) < 3 * qval (attested_power (eng s) atts))%Q.
Proof.
  unfold IsFinalized in Hf. rewrite <- Hatts in Hf. destruct atts as [|att l]; [done|].
  cbn [length Nat.eqb] in Hf. destruct (f64_eqb (total_power order) f64_zero) eqn:Ez; [done|].
  assert (0 < qval (total_power order))%Q as Hpos.
  { pose proof (nn64_nonneg _ Ht) as H0. apply Qle_lteq in H0 as [H0|H0]; [done|].
    unfold f64_eqb, SFeqb in Ez. rewrite (SFcompare_nn 53 1024) in Ez by done.
    assert (qval (total_power order) ?= qval f64_zero = Eq)%Q as Hc by (apply Qeq_alt; by rewrite <- H0).
    by rewrite Hc in Ez. }
  split; [done|]. split; [exact Hpos|]. exact (quorum_sound _ _ Ha Ht Hpos Hf).
Qed.

(** ** Vote power *)

Lemma stake_float_whole k : 0 <= k < 2 ^ 53 -> exists f, stake_float (k * wei_per_inso) = Ok f /\ whole f k.
Proof.
  intros Hk. assert (is_u64 wei_per_inso) as Hw by by split.
  destruct (f64_of_Z_ge1 wei_per_inso ltac:(done) Hw) as [Hn H1].
  assert (qval (f64_of_Z wei_per_inso) == inject_Z wei_per_inso)%Q as Hv by (vm_compute; reflexivity).
  destruct (BigFloat_units k (k * wei_per_inso) _ Hk Hn H1) as (y & q & Hy & Hq & Hqn & Hqv).
  - by rewrite Hv, inject_Z_mult.
  - unfold wei_per_inso. lia.
  - apply (bit_len_bound _ 128); [unfold wei_per_inso; lia|done].
  - exists (BigFloat_Float64 q). split; [|by split].
    unfold stake_float. rewrite Hy. simpl. rewrite Hq. done.
Qed.

(** Division by [1e18] never fails, whatever the stake. *)
Lemma stake_float_total n : 0 <= n < 2 ^ 128 -> exists f, stake_float n = Ok f.
Proof.
  intros Hn. assert (is_u64 wei_per_inso) as Hw by by split.
  destruct (f64_of_Z_ge1 wei_per_inso ltac:(done) Hw) as [Hnn H1].
  destruct (BigFloat_Quo_SetInt n (f64_of_Z wei_per_inso)) as (y & v & Hy & _ & _ & HQ);
    [lia|exact (bit_len_bound n 128 Hn ltac:(done))|exact Hnn|exact H1|].
  eexists. unfold stake_float. rewrite Hy. simpl. rewrite HQ. reflexivity.
Qed.

Lemma RegisterValidator_shape addr stake taste now1 now2 s f :
  stake_float stake = Ok f ->
  exists s' info, RegisterValidator addr stake taste now1 now2 s = Ok s' /\
    eng s' = set_validators (<[addr := info]> (validators (eng s))) (eng s) /\
    vAddress info = addr /\ vStake info = stake /\ IsActive info = true.
Proof.
  intros Hf. unfold RegisterValidator. rewrite Hf. simpl.
  destruct (repMgr s) as [m|]; [destruct (Reputation.ComputeSovereignty _ _ _ _ _) as [m' [x t]]|];
    (eexists _, _; split; [reflexivity|]; split; [reflexivity|]; split; [reflexivity|]; split; reflexivity).
Qed.

Lemma bonus_between s :
  f64le f64_zero s -> f64le s (f64_of_Z 1) ->
  f64le (f64_of_Z 1) (f64_add (f64_of_Z 1) (f64_mul (f64_const 1 2) s)) /\
  f64le (f64_add (f64_of_Z 1) (f64_mul (f64_const 1 2) s)) (f64_const 3 2).
Proof.
  intros H0 H1. assert (nn64 (f64_const 1 2)) as Hh by nn_compute.
  assert (nn64 (f64_of_Z 1)) as H1n by nn_compute.
  assert (f64le (f64_mul (f64_const 1 2) s) (f64_mul (f64_const 1 2) (f64_of_Z 1))) as Hm
    by (apply f64_mul_le; [exact (f64le_refl _ Hh)|exact H1|nn_compute]).
  assert (f64le (f64_add (f64_of_Z 1) (f64_mul (f64_const 1 2) s))
            (f64_add (f64_of_Z 1) (f64_mul (f64_const 1 2) (f64_of_Z 1)))) as Ha
    by (apply f64_add_le; [exact (f64le_refl _ H1n)|exact Hm|nn_compute]).
  split.
  - assert (f64_of_Z 1 = f64_add (f64_of_Z 1) f64_zero) as Eq by (vm_compute; reflexivity).
    rewrite Eq at 1. apply f64_add_le; [exact (f64le_refl _ H1n)| |exact (f64le_nn_l _ _ Ha)].
    exact (f64_zero_le _ (f64le_nn_l _ _ Hm)).
  - assert (f64_const 3 2 = f64_add (f64_of_Z 1) (f64_mul (f64_const 1 2) (f64_of_Z 1))) as Eq
      by (vm_compute; reflexivity).
    rewrite Eq. exact Ha.
Qed.

Lemma vote_power_between f k s :
  whole f k -> 0 <= k < 2 ^ 51 -> f64le f64_zero s -> f64le s (f64_of_Z 1) ->
  nn64 (vote_power f s) /\ (inject_Z k <= qval (vote_power f s))%Q /\
  (qval (vote_power f s) <= inject_Z k * (3 # 2))%Q.
Proof.
  intros [Hf Hk] Hr H0 H1. destruct (bonus_between s H0 H1) as [Hlo Hhi].
  assert (qval (f64_const 3 2) == 3 # 2)%Q as H32 by (vm_compute; reflexivity).
  pose proof (f64_mul_result f (f64_const 3 2) Hf ltac:(nn_compute)) as Hr32.
  eapply (result_proper _ _ _ _ (dy (3 * k) (-1))) in Hr32; [|rewrite Hk, H32; unfold dy;
    change (p2 (-1)) with (1 # 2)%Q; rewrite inject_Z_mult; field].
  assert (dy (3 * k) (-1) == inject_Z k * (3 # 2))%Q as Hdy
    by (unfold dy; change (p2 (-1)) with (1 # 2)%Q; rewrite inject_Z_mult; field).
  destruct (result64_exact _ _ Hr32) as [Hn32 Hv32].
  { exists (3 * k), (-1). split; [lia|]. split; [unfold SpecFloat.emin; lia|done]. }
  { apply Qle_lt_trans with (dy (2 ^ 53) (-1)); [apply dy_le; lia|]. rewrite dy_pow2 by lia. by apply p2_lt. }
  pose proof (f64_mul_le f f _ _ (f64le_refl _ Hf) Hhi Hn32) as (Hn & _ & Hle).
  fold (vote_power f s) in Hn, Hle. split; [exact Hn|]. split.
  - pose proof (f64_mul_result f (f64_of_Z 1) Hf ltac:(nn_compute)) as Hr1.
    eapply (result_proper _ _ _ _ (qval f)) in Hr1; [|rewrite f64_of_Z_one; ring].
    destruct (result64_exact _ _ Hr1 (nn64_representable _ Hf) (nn64_lt_emax _ Hf)) as [Hn1 Hv1].
    pose proof (f64_mul_le f f _ _ (f64le_refl _ Hf) Hlo Hn) as (_ & _ & Hle1).
    fold (vote_power f s) in Hle1. rewrite Hv1, Hk in Hle1. exact Hle1.
  - rewrite Hv32, Hdy in Hle. exact Hle.
Qed.

(** The entry a reputation manager must hold for the score to be in range. *)
Definition rep_in_range (m : Reputation.Manager) (now : Z) (r : Reputation.ValidatorReputation) : Prop :=
  is_u64 (Reputation.MaxXP (Reputation.cfg m)) /\ 1 <= Reputation.MaxXP (Reputation.cfg m) /\
  0 <= Reputation.XP r /\ is_u64 (Reputation.XP r) /\
  0 <= Reputation.UptimeBps r <= 10000 /\ Reputation.JoinedAt r <= now.

Lemma score_in_range m addr stake taste now :
  nn64 taste -> (forall r, Reputation.GetReputation addr m = Some r -> rep_in_range m now r) ->
  let score := fst (snd (Reputation.ComputeSovereignty addr stake taste now m)) in
  f64le f64_zero score /\ f64le score (f64_of_Z 1).
Proof.
  intros Ht Hr. unfold Reputation.ComputeSovereignty, Reputation.GetReputation in *.
  destruct (Reputation.reps m !! addr) as [r|] eqn:Er; simpl.
  - destruct (Hr r eq_refl) as (? & ? & ? & ? & ? & ?).
    destruct (Reputation.sovereignty_between (Reputation.cfg m) r r stake stake taste taste now now)
      as [Hle Htop];
      [done|lia|lia|done|lia|lia|lia|lia|lia|exact (f64le_refl _ Ht)|].
    split; [|exact Htop]. exact (f64_zero_le _ (f64le_nn_l _ _ Hle)).
  - split; [exact (f64le_refl f64_zero ltac:(nn_compute))|f64_compute].
Qed.

Lemma vote_power_plain f k : whole f k -> whole (vote_power f f64_zero) k.
Proof.
  intros [Hf Hk]. unfold vote_power.
  assert (f64_add (f64_of_Z 1) (f64_mul (f64_const 1 2) f64_zero) = f64_of_Z 1) as -> by (vm_compute; reflexivity).
  pose proof (f64_mul_result f (f64_of_Z 1) Hf ltac:(nn_compute)) as Hr.
  eapply (result_proper _ _ _ _ (qval f)) in Hr; [|rewrite f64_of_Z_one; ring].
  destruct (result64_exact _ _ Hr (nn64_representable _ Hf) (nn64_lt_emax _ Hf)) as [Hn Hv].
  split; [exact Hn|by rewrite Hv].
Qed.

Lemma RegisterValidator_stores (addr : Address) (k : Z) (taste : f64) (now1 now2 : Z) (s : State)
  (Hk : 0 <= k < 2 ^ 51) (Ht : nn64 taste)
  (Hr : forall m r, repMgr s = Some m -> Reputation.GetReputation addr m = Some r -> rep_in_range m now1 r) :
  exists s' info, RegisterValidator addr (k * wei_per_inso) taste now1 now2 s = Ok s' /\
    eng s' = set_validators (<[addr := info]> (validators (eng s))) (eng s) /\
    vAddress info = addr /\ IsActive info = true /\ nn64 (VotePower info) /\
    (inject_Z k <= qval (VotePower info) /\ qval (VotePower info) <= inject_Z k * (3 # 2))%Q /\
    (repMgr s = None -> whole (VotePower info) k).
Proof.
  destruct (stake_float_whole k ltac:(lia)) as (f & Hf & Hw).
  unfold RegisterValidator. rewrite Hf. simpl. destruct (repMgr s) as [m|] eqn:Em.
  - pose proof (score_in_range m addr f taste now1 Ht (fun r => Hr m r eq_refl)) as [H0 H1].
    destruct (Reputation.ComputeSovereignty addr f taste now1 m) as [m' [score tier]].
    destruct (vote_power_between f k score Hw Hk H0 H1) as (Hn & Hlo & Hhi).
    eexists _, _. split; [reflexivity|]. split; [reflexivity|]. by split_and!.
  - assert (f64le f64_zero f64_zero) as H0 by f64_compute. assert (f64le f64_zero (f64_of_Z 1)) as H1 by f64_compute.
    destruct (vote_power_between f k f64_zero Hw Hk H0 H1) as (Hn & Hlo & Hhi).
    eexists _, _. split; [reflexivity|]. split; [reflexivity|]. split; [done|]. split; [done|].
    split; [exact Hn|]. split; [split; [exact Hlo|exact Hhi]|]. intros _. exact (vote_power_plain f k Hw).
Qed.

(** C35. Registering a stake of [k] whole INSO, [k] below [2^51], with a finite taste score
    that is not negative and, if there is a reputation manager, an entry within its ranges
    or none: it never fails and stores an active entry whose vote power lies between the
    stake and one and a half times the stake; without a reputation manager it is exactly
    the stake. *)
Theorem RegisterValidator_power (addr : Address) (k : Z) (taste : f64) (now1 now2 : Z) (s : State)
  (Hk : 0 <= k < 2 ^ 51) (Ht : nn64 taste)
  (Hr : forall m r, repMgr s = Some m -> Reputation.GetReputation addr m = Some r -> rep_in_range m now1 r) :
  exists s' info, RegisterValidator addr (k * wei_per_inso) taste now1 now2 s = Ok s' /\
    eng s' = set_validators (<[addr := info]> (validators (eng s))) (eng s) /\
    vAddress info = addr /\ IsActive info = true /\ nn64 (VotePower info) /\
    (inject_Z k <= qval (VotePower info) /\ qval (VotePower info) <= inject_Z k * (3 # 2))%Q /\
    (repMgr s = None -> whole (VotePower info) k).
Proof. exact (RegisterValidator_stores addr k taste now1 now2 s Hk Ht Hr). Qed.

(** ** Attestations *)

(** The bytes under the attestation digest determine the block number, the block
    hash and the validator, although the number is written without padding. *)
Theorem attestation_preimage_injective `{L : !EthLaws E} (n1 n2 : Z) (h1 h2 : Hash) (a1 a2 : Address)
  (H1 : is_u64 n1) (H2 : is_u64 n2)
  (Heq : attestation_preimage n1 h1 a1 = attestation_preimage n2 h2 a2) :
  n1 = n2 /\ h1 = h2 /\ a1 = a2.
Proof.
  unfold attestation_preimage in Heq. apply app_inj_suffix in Heq as [Hn Hrest];
    [|by rewrite !length_app, !length_Hash_Bytes, !length_Address_Bytes].
  apply app_inj_suffix in Hrest as [Hh Ha]; [|by rewrite !length_Address_Bytes].
  apply Hash_Bytes_inj in Hh. apply Address_Bytes_inj in Ha. unfold is_u64 in *.
  apply BigInt_Bytes_inj in Hn; [done|lia|lia].
Qed.

(** C26. The attestation produced for a block: it is appended to the block's list, the
    other blocks' lists and the validators are untouched; its signature, or nothing if
    signing failed, is broadcast to the peers as an attestation message, which is all that
    happens to the network, the incoming messages untouched; the reputation manager
    records it for the local address; and it verifies against its own engine when that
    address is the one of the key and is registered, the only failure being a failed
    signature: then an unsigned attestation has been recorded and broadcast. *)
Theorem AttestBlock_verifies `{L : !EthLaws E} `{TL : !TransportLaws N T} (num : Z) (hash : Hash) (now1 now2 : Z)
  (s s' : State) (att : Attestation)
  (Hkey : localAddr (eng s) = PubkeyToAddress (public_key (privateKey (eng s))))
  (Hreg : is_Some (validators (eng s) !! localAddr (eng s)))
  (Hs : AttestBlock num hash now1 now2 s = (s', att)) :
  attestations (eng s') = <[num := default [] (attestations (eng s) !! num) ++ [att]]> (attestations (eng s)) /\
  validators (eng s') = validators (eng s) /\ inbox (network s') = inbox (network s) /\
  network s' = fst (Broadcast MsgAttestation (Signature att) (network s)) /\
  repMgr s' = Reputation.RecordAttestation (localAddr (eng s)) now2 <$> repMgr s /\
  BlockNumber att = num /\ BlockHash att = hash /\ Validator att = localAddr (eng s) /\
  VerifyAttestation att (eng s') =
    match Signature att with Some _ => None | None => Some ErrInvalidSignature end.
Proof.
  unfold AttestBlock in Hs. injection Hs as <- <-. simpl.
  split; [done|]. split; [done|]. split; [apply Broadcast_inbox|]. do 5 (split; [done|]).
  unfold VerifyAttestation. simpl. unfold signAttestation, attestationHash. simpl.
  set (d := Hash_Bytes _). destruct (Sign d (privateKey (eng s))) as [sig|] eqn:Es; simpl; [|done].
  rewrite (Sign_length _ _ _ Es). simpl. rewrite (Sign_recover _ _ _ Es).
  rewrite decide_True by done. by destruct Hreg as [v ->].
Qed.

(** [signed att]: the signature is 65 bytes long and recovers to the claimed validator. *)
Definition signed (att : Attestation) : Prop :=
  exists sig pk, Signature att = Some sig /\ length sig = 65%nat /\
    SigToPub (Hash_Bytes (attestationHash att)) sig = Some pk /\ PubkeyToAddress pk = Validator att.

Lemma VerifyAttestation_cases att e :
  (signed att /\ VerifyAttestation att e =
     match validators e !! Validator att with None => Some ErrUnknownValidator | Some _ => None end) \/
  (~ signed att /\ VerifyAttestation att e = Some ErrInvalidSignature).
Proof.
  unfold VerifyAttestation, signed. destruct (Signature att) as [sig|]; [|right; naive_solver].
  simpl. destruct (Nat.eqb_spec (length sig) 65) as [Hl|Hl]; [|right; naive_solver].
  simpl. destruct (SigToPub _ sig) as [pk|] eqn:Ep; [|right; naive_solver].
  case_decide; [left|right; naive_solver]. split; [by exists sig, pk|done].
Qed.

(** Verification accepts exactly the 65-byte signatures that recover, over the
    digest of number, hash and validator, to the claimed validator, provided it is
    registered; an unregistered but correctly signing validator is reported as
    unknown, and everything else as an invalid signature. *)
Theorem VerifyAttestation_spec (att : Attestation) (e : Engine) :
  (VerifyAttestation att e = None <-> signed att /\ is_Some (validators e !! Validator att)) /\
  (VerifyAttestation att e = Some ErrUnknownValidator <-> signed att /\ validators e !! Validator att = None) /\
  (VerifyAttestation att e = Some ErrInvalidSignature <-> ~ signed att).
Proof.
  destruct (VerifyAttestation_cases att e) as [[Hs ->]|[Hs ->]]; [|naive_solver].
  unfold is_Some. destruct (validators e !! Validator att); naive_solver.
Qed.

(** ** The engine as a step relation *)

Inductive step (s : State) : State -> Prop :=
| step_register addr stake taste now1 now2 s' :
    RegisterValidator addr stake taste now1 now2 s = Ok s' -> step s s'
| step_attest num hash now1 now2 : step s (fst (AttestBlock num hash now1 now2 s))
| step_finalized order num : step s (fst (IsFinalized order num s))
| step_message s' log : processMessages s = Some (s', log) -> step s s'
| step_network net : step s (mkState (eng s) (repMgr s) net (met s)).

(** Every recorded attestation is the local validator's own. *)
Definition own_attestations (addr : Address) (s : State) : Prop :=
  localAddr (eng s) = addr /\
  forall n att, att ∈ default [] (attestations (eng s) !! n) -> BlockNumber att = n /\ Validator att = addr.

Lemma RegisterValidator_attestations addr stake taste now1 now2 s s' :
  RegisterValidator addr stake taste now1 now2 s = Ok s' ->
  attestations (eng s') = attestations (eng s) /\ localAddr (eng s') = localAddr (eng s).
Proof.
  unfold RegisterValidator. intros H. apply outcome_bind_Ok in H as (f & _ & H).
  destruct (repMgr s) as [m|]; [destruct (Reputation.ComputeSovereignty _ _ _ _ _) as [m' [x t]]|];
    by injection H as <-.
Qed.

Lemma step_own addr s s' : step s s' -> own_attestations addr s -> own_attestations addr s'.
Proof.
  intros Hst [Hl Ha]. destruct Hst as [a st t n1 n2 s' H|num hash n1 n2|order num|s' log H|net].
  - apply RegisterValidator_attestations in H as [Hat Hla]. split; [by rewrite Hla|by rewrite Hat].
  - split; [done|]. simpl. intros n att Hin. destruct (decide (num = n)) as [->|Hne].
    + rewrite lookup_insert_eq in Hin. simpl in Hin. apply elem_of_app in Hin as [Hin|Hin]; [by apply Ha|].
      by apply list_elem_of_singleton in Hin as ->.
    + rewrite lookup_insert_ne in Hin by done. by apply Ha.
  - unfold IsFinalized. by repeat case_match.
  - unfold processMessages in H. destruct (take_message (network s)) as [[msg net]|]; [|done].
    by injection H as <- _.
  - done.
Qed.

Lemma steps_own addr s s' : rtc step s s' -> own_attestations addr s -> own_attestations addr s'.
Proof. induction 1; eauto using step_own. Qed.

Lemma attested_own addr s power n :
  own_attestations addr s ->
  attested (eng s) power (default [] (attestations (eng s) !! n)) =
    Z.of_nat (length (default [] (attestations (eng s) !! n))) * active_power (eng s) power addr.
Proof.
  intros [_ Ha]. specialize (Ha n). unfold attested.
  induction (default [] (attestations (eng s) !! n)) as [|att l IH]; [done|].
  rewrite fmap_cons. cbn [sum_list_Z foldr length]. change (foldr _ 0 ?l) with (sum_list_Z (active_power (eng s) power) l).
  rewrite IH by (intros; apply Ha; by right).
  destruct (Ha att) as [_ ->]; [left|]. lia.
Qed.

(** The vote of [addr] added to a sum, if it is registered and active. *)
Definition add_vote (e : Engine) (addr : Address) (sum : f64) : f64 :=
  match validators e !! addr with Some v => if IsActive v then f64_add sum (VotePower v) else sum | None => sum end.

Lemma attested_power_own addr s n :
  own_attestations addr s ->
  let atts := default [] (attestations (eng s) !! n) in
  attested_power (eng s) atts = Nat.iter (length atts) (add_vote (eng s) addr) f64_zero.
Proof.
  intros [_ Ha]. specialize (Ha n). cbv zeta. unfold attested_power. generalize f64_zero.
  induction (default [] (attestations (eng s) !! n)) as [|att l IH]; intros p; [done|].
  cbn [foldl length]. rewrite IH by (intros; apply Ha; by right). rewrite Nat.iter_succ_r.
  destruct (Ha att) as [_ ->]; [left|]. done.
Qed.

(** C34. Attestations of other validators never count. Whatever messages the engine receives:
    in every reachable state the power that counts for a block is this node's own vote,
    added once for each attestation of its own, and nothing else. So, when the vote powers
    are integers that sum up to less than [2^53] (no rounding), a block attested once by
    this node is finalized exactly when this node alone holds more than two thirds of the
    voting power; a quorum of peers that includes it does not finalize anything. *)
Theorem peers_never_count (s0 s : State) (n : Z) (H0 : attestations (eng s0) = ∅) (Hs : rtc step s0 s) :
  let atts := default [] (attestations (eng s) !! n) in
  attested_power (eng s) atts = Nat.iter (length atts) (add_vote (eng s) (localAddr (eng s0))) f64_zero /\
  (forall (order : list (Address * ValidatorInfo)) (power : Address -> Z),
     whole_powers (eng s) power -> iterates order (eng s) -> total (eng s) power < 2 ^ 53 -> length atts = 1%nat ->
     (snd (IsFinalized order n s) = true <->
      2 * total (eng s) power < 3 * active_power (eng s) power (localAddr (eng s0)))).
Proof.
  assert (own_attestations (localAddr (eng s0)) s) as Hown.
  { apply (steps_own _ s0 s Hs). split; [done|]. intros m att. rewrite H0, lookup_empty. set_solver. }
  split; [by apply attested_power_own|]. intros order power Hw Ho Ht Hone.
  pose proof (attested_own _ s power n Hown) as Ha. rewrite Hone in Ha.
  pose proof (active_power_total (eng s) power Hw (localAddr (eng s0))).
  rewrite (finalized_whole (eng s) power Hw s order n) by (done || lia). rewrite Ha, Z.ltb_lt. lia.
Qed.

(** Attestations are not deduplicated: a validator holding more than a third of
    the voting power, but not two thirds, finalizes a block alone by attesting to it
    twice. *)
Theorem duplicate_attestations_finalize (s : State) (order : list (Address * ValidatorInfo)) (n : Z)
  (h1 h2 : Hash) (t1 t2 t3 t4 : Z) (power : Address -> Z)
  (Hnone : attestations (eng s) !! n = None)
  (Hw : whole_powers (eng s) power) (Ho : iterates order (eng s)) (Ht : total (eng s) power < 2 ^ 52)
  (Hthird : total (eng s) power < 3 * active_power (eng s) power (localAddr (eng s)))
  (Hminor : 3 * active_power (eng s) power (localAddr (eng s)) <= 2 * total (eng s) power) :
  let once := fst (AttestBlock n h1 t1 t2 s) in
  snd (IsFinalized order n once) = false /\
  snd (IsFinalized order n (fst (AttestBlock n h2 t3 t4 once))) = true.
Proof.
  intros once. set (p := active_power (eng s) power (localAddr (eng s))) in *.
  assert (forall s' k, validators (eng s') = validators (eng s) ->
    attested (eng s') power (default [] (attestations (eng s') !! n)) = k * p -> k * p < 2 ^ 53 ->
    snd (IsFinalized order n s') = (2 * total (eng s) power <? 3 * (k * p))) as Hfin.
  { intros s' k Hv Ha Hk.
    assert (total (eng s') power = total (eng s) power) as Htot by (unfold total, active_power; by rewrite Hv).
    rewrite (finalized_whole (eng s') power) with (s := s'); [by rewrite Htot, Ha| |done| |lia|lia].
    - unfold whole_powers. by rewrite Hv.
    - unfold iterates. by rewrite Hv. }
  pose proof (active_power_total (eng s) power Hw (localAddr (eng s))) as Hle. fold p in Hle.
  split.
  - rewrite (Hfin once 1); [apply Z.ltb_ge; lia|done| |lia].
    simpl. rewrite Hnone, lookup_insert_eq. simpl. unfold attested. simpl.
    change (active_power _ power (localAddr (eng s))) with p. lia.
  - rewrite (Hfin _ 2); [apply Z.ltb_lt; lia|done| |lia].
    simpl. rewrite Hnone, !lookup_insert_eq. simpl. unfold attested. simpl.
    change (active_power _ power (localAddr (eng s))) with p. lia.
Qed.

End Engine.
(** ** Witnesses *)

Section Witnesses.
Import ToyEth Loopback.

Definition alice : Address := vreplicate 20 Byte.x0a.
Definition bob : Address := vreplicate 20 Byte.x0b.
Definition block_hash : Hash := vreplicate 32 Byte.x07.
Definition info (a : Address) (k : Z) : ValidatorInfo :=
  mkInfo a (k * wei_per_inso) f64_zero (f64_of_Z k) f64_zero 0 true 0 0.

(** Alice, whose node this is, with [k] INSO, and Bob with one. *)
Definition duo (k : Z) : State (N := list Message) :=
  mkState (set_validators (<[alice := info alice k]> {[bob := info bob 1]}) (NewEngine true alice alice))
    None [mkMessage MsgAttestation [] (Some [])] Metrics.New.
Definition duo_power (k : Z) (a : Address) : Z := if decide (a = alice) then k else 1.

Lemma duo_whole k : 0 <= k < 2 ^ 53 -> whole_powers (eng (duo k)) (duo_power k).
Proof.
  intros Hk a v. simpl. rewrite lookup_insert_Some, lookup_singleton_Some. unfold duo_power.
  intros [[<- <-]|[Hne [<- <-]]]; [rewrite decide_True by done|rewrite decide_False by done];
    (split; [lia|apply whole_of_Z; lia]).
Qed.

Definition attested_once (k : Z) : State := fst (AttestBlock 7 block_hash 0 0 (duo k)).
Definition order (k : Z) : list (Address * ValidatorInfo) := map_to_list (validators (eng (duo k))).

Lemma attested_once_whole k : 0 <= k < 2 ^ 53 -> whole_powers (eng (attested_once k)) (duo_power k).
Proof. apply duo_whole. Qed.

Lemma IsFinalized_exact_witness : snd (IsFinalized (order 3) 7 (attested_once 3)) = true.
Proof.
  apply (proj2 (IsFinalized_exact (attested_once 3) (order 3) 7 (duo_power 3)
    (attested_once_whole 3 ltac:(lia)) (Permutation_refl _) ltac:(vm_compute; reflexivity)
    ltac:(vm_compute; reflexivity))).
  vm_compute. reflexivity.
Defined.

Lemma IsFinalized_sound_witness :
  ((2 - (1 # 9007199254740992)) * qval (total_power (order 3)) <
   3 * qval (attested_power (eng (attested_once 3)) (default [] (attestations (eng (attested_once 3)) !! 7%Z))))%Q.
Proof.
  refine (proj2 (proj2 (IsFinalized_sound (attested_once 3) (order 3) 7 _ eq_refl _ _ _)));
    [nn_compute|nn_compute|vm_compute; reflexivity].
Defined.

Definition reps : Reputation.Manager := Reputation.Register alice 0 0 (Reputation.NewManager None).

Lemma reps_lookup : Reputation.GetReputation alice reps =
  Some (Reputation.mkRep alice 0 10000 0 0 0 f64_zero 0 0 0).
Proof. vm_compute. reflexivity. Qed.

Lemma RegisterValidator_power_witness :
  exists s', RegisterValidator alice (100 * wei_per_inso) (f64_const 8 10) 5 5
    (mkState (eng (duo 3)) (Some reps) (network (duo 3)) Metrics.New) = Ok s'.
Proof.
  destruct (RegisterValidator_power alice 100 (f64_const 8 10) 5 5
    (mkState (eng (duo 3)) (Some reps) (network (duo 3)) Metrics.New)) as (s' & i & H & _).
  - lia.
  - nn_compute.
  - intros m r [= <-] Hr. rewrite reps_lookup in Hr. injection Hr as <-.
    repeat split; vm_compute; discriminate || reflexivity.
  - exists s'. exact H.
Defined.

Lemma attestation_preimage_injective_witness :
  exists n h a, is_u64 n /\ (attestation_preimage n h a = attestation_preimage 7 block_hash alice -> n = 7).
Proof.
  exists 300, block_hash, alice. split; [by split|]. intros H.
  apply (attestation_preimage_injective 300 7 block_hash block_hash alice alice ltac:(by split) ltac:(by split) H).
Defined.

Lemma AttestBlock_verifies_witness :
  VerifyAttestation (snd (AttestBlock 7 block_hash 0 0 (duo 3))) (eng (attested_once 3)) = None.
Proof.
  destruct (AttestBlock_verifies 7 block_hash 0 0 (duo 3) (attested_once 3) (snd (AttestBlock 7 block_hash 0 0 (duo 3))))
    as (_ & _ & _ & _ & _ & _ & _ & _ & H); [reflexivity|vm_compute; by eexists|reflexivity|].
  rewrite H. vm_compute. reflexivity.
Defined.

Lemma attested_once_reachable k : rtc step (duo k) (attested_once k).
Proof. eapply rtc_l; [apply step_attest|apply rtc_refl]. Qed.

Lemma peers_never_count_witness : snd (IsFinalized (order 2) 7 (attested_once 2)) = false.
Proof.
  apply not_true_is_false. intros H.
  destruct (peers_never_count (duo 2) (attested_once 2) 7 eq_refl (attested_once_reachable 2)) as [_ Hp].
  apply (Hp (order 2) (duo_power 2) (attested_once_whole 2 ltac:(lia)) (Permutation_refl _)
    ltac:(vm_compute; reflexivity) ltac:(vm_compute; reflexivity)) in H.
  vm_compute in H. discriminate.
Defined.

Lemma duplicate_attestations_finalize_witness :
  snd (IsFinalized (order 2) 7 (fst (AttestBlock 7 block_hash 0 0 (attested_once 2)))) = true.
Proof.
  apply (duplicate_attestations_finalize (duo 2) (order 2) 7 block_hash block_hash 0 0 0 0 (duo_power 2)
    eq_refl (duo_whole 2 ltac:(lia)) (Permutation_refl _)); vm_compute; first [reflexivity|discriminate].
Defined.

End Witnesses.

End Consensus.
