(* ===== verification/Node.v ===== *)
(** * cmd/validator: the node

    How [main] puts the components together, starts and stops them, and the node as a
    transition system: [main] itself, the sync engine's two goroutines (the P2P listener
    and the RPC loop), the consensus engine's message loop, the network's goroutines and
    the RPC server run concurrently. The sync and the consensus engine receive from one
    channel, and [processBlock] releases its lock before it calls back: accepting a
    block, verifying it and attesting to it are separate steps of the goroutine that
    accepted it. *)

From Stdlib Require Import QArith.
From S2P Require Import Prelude Bytes Fmt Eth Metrics P2P Framing Json Sync Wire Network Overlay Verification Client Rounding Float Config BigFloat Quorum Reputation Staking Consensus.
Local Open Scope Z_scope.
Import P2P.

Module Node.

#[local] Existing Instance Network.transport.
#[local] Existing Instance Network.transport_laws.

Section Steps.
Context {E : EthLib}.

Abbreviation L2Block := Sync.L2Block.
Abbreviation NState := (Consensus.State (N := Network.Network)).

(** The two goroutines that call [processBlock], and how far each is with the block it
    has in hand: accepted into the chain, or verified as well. *)
Inductive goroutine := P2PListener | RPCLoop.
Inductive job := Idle | Accepted (block : L2Block) | Verified (block : L2Block).

(** Where the RPC loop is: at its ticker, or in a catch-up with block [num] to be asked
    for next and [remote] the height it was told. *)
Inductive poller := AtTick | Fetching (num remote : Z) | PollerGone.

(** The RPC server: [Start] has spawned the goroutine that listens, it listens, it could
    not or no longer (which is only logged), [Stop] was called. *)
Inductive http_server := NoServer | Launched | Listening | ServerFailed | ServerClosed.

(** The contexts of the two engines ([None] before [Start], then whether they are done),
    the loops that run under them, and the RPC server. *)
Record Loops := mkLoops {
  sync_ctx : option bool; cons_ctx : option bool;
  listener_gone : bool; poller_at : poller; consumer_gone : bool; httpServer : http_server
}.

(** What [main] does from the start of the services on. *)
Inductive action :=
| StartNetwork | StartSync | StartConsensus | StartRPC | ServeMetrics | WireMetrics (minStake : Z)
| AwaitSignal | CancelContext
| CancelNetwork | CloseListener | ClosePeers   (* [network.Stop] *)
| StopSync | StopConsensus | ShutdownRPC.

Record Node := mkNode {
  sync : Sync.Engine; ver : Verification.Engine; cons : NState;
  staking : Staking.Manager; bounds : Verification.AdaptiveBlockBounds;
  p2p_job : job; rpc_job : job;
  pool : list Overlay.task; loops : Loops; todo : list action
}.

Definition set_sync (s : Sync.Engine) (n : Node) : Node :=
  mkNode s (ver n) (cons n) (staking n) (bounds n) (p2p_job n) (rpc_job n) (pool n) (loops n) (todo n).
Definition set_ver (v : Verification.Engine) (n : Node) : Node :=
  mkNode (sync n) v (cons n) (staking n) (bounds n) (p2p_job n) (rpc_job n) (pool n) (loops n) (todo n).
Definition set_cons (c : NState) (n : Node) : Node :=
  mkNode (sync n) (ver n) c (staking n) (bounds n) (p2p_job n) (rpc_job n) (pool n) (loops n) (todo n).
Definition set_pool (ts : list Overlay.task) (n : Node) : Node :=
  mkNode (sync n) (ver n) (cons n) (staking n) (bounds n) (p2p_job n) (rpc_job n) ts (loops n) (todo n).
Definition set_loops (l : Loops) (n : Node) : Node :=
  mkNode (sync n) (ver n) (cons n) (staking n) (bounds n) (p2p_job n) (rpc_job n) (pool n) l (todo n).
Definition set_todo (acts : list action) (n : Node) : Node :=
  mkNode (sync n) (ver n) (cons n) (staking n) (bounds n) (p2p_job n) (rpc_job n) (pool n) (loops n) acts.

Definition job_of (g : goroutine) (n : Node) : job :=
  match g with P2PListener => p2p_job n | RPCLoop => rpc_job n end.
Definition set_job (g : goroutine) (j : job) (n : Node) : Node :=
  match g with
  | P2PListener => mkNode (sync n) (ver n) (cons n) (staking n) (bounds n) j (rpc_job n) (pool n) (loops n) (todo n)
  | RPCLoop => mkNode (sync n) (ver n) (cons n) (staking n) (bounds n) (p2p_job n) j (pool n) (loops n) (todo n)
  end.

Definition set_poller (p : poller) (n : Node) : Node :=
  let l := loops n in
  set_loops (mkLoops (sync_ctx l) (cons_ctx l) (listener_gone l) p (consumer_gone l) (httpServer l)) n.
Definition listener_leaves (n : Node) : Node :=
  let l := loops n in
  set_loops (mkLoops (sync_ctx l) (cons_ctx l) true (poller_at l) (consumer_gone l) (httpServer l)) n.
Definition consumer_leaves (n : Node) : Node :=
  let l := loops n in
  set_loops (mkLoops (sync_ctx l) (cons_ctx l) (listener_gone l) (poller_at l) true (httpServer l)) n.
Definition set_http (h : http_server) (n : Node) : Node :=
  let l := loops n in
  set_loops (mkLoops (sync_ctx l) (cons_ctx l) (listener_gone l) (poller_at l) (consumer_gone l) h) n.

Definition set_network (net : Network.Network) (c : NState) : NState :=
  Consensus.mkState (Consensus.eng c) (Consensus.repMgr c) net (Consensus.met c).
Definition set_met (m : Metrics.t) (c : NState) : NState :=
  Consensus.mkState (Consensus.eng c) (Consensus.repMgr c) (Consensus.network c) m.

(** The network with its goroutines, as one part of the node. *)
Definition overlay (n : Node) : Overlay.Overlay := Overlay.mkOverlay (Consensus.network (cons n)) (pool n).
Definition set_overlay (o : Overlay.Overlay) (n : Node) : Node :=
  set_pool (Overlay.tasks o) (set_cons (set_network (Overlay.net o) (cons n)) n).
Definition on_network (f : Network.Network -> Network.Network) (n : Node) : Node :=
  set_cons (set_network (f (Consensus.network (cons n))) (cons n)) n.

(** ** Start-up *)

Definition initial_stake (minStake : Z) : Z := i64 minStake * wei_per_inso.

Definition xp_config (s : Config.SovereigntyConfig) : Reputation.XPConfig :=
  Reputation.mkConfig 100000 (Config.AttestationXP s) (Config.UptimeBonusXP s) (Config.SlashPenaltyXP s)
    (Config.XPDecayRate s).

Definition adaptive_bounds (a : Config.AdaptiveBlockConfig) : Verification.AdaptiveBlockBounds :=
  if negb (Config.aEnabled a) then Verification.DefaultAdaptiveBounds
  else Verification.mkBounds (Config.MinGasLimit a) (Config.MaxGasLimit a) (Config.MinMaxTx a) (Config.MaxMaxTx a).

(** The order in which [main] starts the services, and stops them after the signal. *)
Definition main_actions (minStake : Z) : list action :=
  [StartNetwork; StartSync; StartConsensus; StartRPC; ServeMetrics; WireMetrics minStake;
   AwaitSignal; CancelContext; CancelNetwork; CloseListener; ClosePeers; StopSync; StopConsensus; ShutdownRPC].

(** The components up to the start of the services; an error makes the process exit.
    [clock k] is the [k]-th reading of the clock. *)
Definition setup (cfg : Config.t) (key : PrivateKey) (clock : nat -> Z) : outcome Node :=
  let v := Config.Validator cfg in
  let addr := PubkeyToAddress (public_key key) in
  let net := Network.NewNetwork (Config.P2PPort v) (Config.Bootnodes v) in
  let rep := Reputation.Register addr (clock 0%nat) (clock 1%nat)
               (Reputation.NewManager (Some (xp_config (Config.Sovereignty cfg)))) in
  let eng := Consensus.NewEngine (Config.SlashingEnabled (Config.Consensus cfg)) addr key in
  let stake := initial_stake (Config.MinStake v) in
  stakingMgr ← Staking.Register addr stake (clock 2%nat) (Staking.NewManager (Config.MinStake v));
  cons ← Consensus.RegisterValidator addr stake (f64_const 8 10) (clock 3%nat) (clock 4%nat)
           (Consensus.mkState eng (Some rep) net Metrics.New);
  Ok (mkNode (Sync.OnNewBlock Sync.NewEngine) Verification.NewEngine cons stakingMgr
        (adaptive_bounds (Config.AdaptiveBlock cfg)) Idle Idle
        [] (mkLoops None None false AtTick false NoServer) (main_actions (Config.MinStake v))).

(** [hex.DecodeString]: pairs of digits of either case. *)
Fixpoint hex_DecodeString (s : list byte) : option (list byte) :=
  match s with
  | [] => Some []
  | [_] => None
  | a :: b :: s' => x ← Json.hex_code a; y ← Json.hex_code b; r ← hex_DecodeString s'; Some (byte_of_Z (16 * x + y) :: r)
  end.

Definition default_key_hex : list byte :=
  Json.text "7c852118294e51e653712a81e05800f419141751be58f605c371e15141b007a6".

(** The key from the environment variable [INSO_VALIDATOR_KEY], one [0x] prefix allowed;
    the development key when it is empty. *)
Definition load_key (getenv : list byte) : outcome PrivateKey :=
  let keyHex := match getenv with [] => default_key_hex | _ => getenv end in
  let keyHex := match keyHex with
    | a :: b :: k => if (byte_to_Z a =? 48) && (byte_to_Z b =? 120) then k else keyHex
    | _ => keyHex end in
  match hex_DecodeString keyHex with
  | None => Err "Invalid validator private key hex"
  | Some keyBytes => match ToECDSA keyBytes with Some k => Ok k | None => Err "Failed to parse validator private key" end
  end.

(** [main] up to the start of the services. *)
Definition boot (cfg : outcome Config.t) (getenv : list byte) (clock : nat -> Z) : outcome Node :=
  c ← cfg; key ← load_key getenv; setup c key clock.

(** After the services have started: the collector is handed to the engines and seeded. *)
Definition wire_metrics (minStake : Z) (n : Node) : Node :=
  let c := cons n in
  let peers := Network.PeerCount (Consensus.network c) in
  set_sync (Sync.SetMetrics (sync n)) (set_ver (Verification.SetMetrics (ver n))
    (set_cons (Consensus.mkState (Consensus.SetMetrics (Consensus.eng c)) (Consensus.repMgr c)
      (Consensus.network c) (Metrics.seed (i32 peers) (i64 minStake) (Consensus.met c))) n)).

Definition start_network (err : option string) (n : Node) : Node :=
  let net := Consensus.network (cons n) in
  match Network.Start false err net with
  | (_, None) => set_overlay (Overlay.launch false net) n
  | (net', Some _) => set_todo [] (set_cons (set_network net' (cons n)) n)
  end.

Definition set_ctx (s c : option bool) (n : Node) : Node :=
  let l := loops n in
  set_loops (mkLoops s c (listener_gone l) (poller_at l) (consumer_gone l) (httpServer l)) n.

Definition done_ctx (c : option bool) : option bool := (fun _ => true) <$> c.

(** [Start] and [Stop] of the engines; the goroutines are in the pool of loops from the
    beginning and take steps once the context is there. *)
Definition Sync_Start (n : Node) : Node := set_ctx (Some false) (cons_ctx (loops n)) n.
Definition Sync_Stop (n : Node) : Node := set_ctx (done_ctx (sync_ctx (loops n))) (cons_ctx (loops n)) n.
Definition Consensus_Start (n : Node) : Node := set_ctx (sync_ctx (loops n)) (Some false) n.
Definition Consensus_Stop (n : Node) : Node := set_ctx (sync_ctx (loops n)) (done_ctx (cons_ctx (loops n))) n.

Definition Rpc_Start (n : Node) : Node := set_http Launched n.

(** [Shutdown] of a server that never started to listen keeps it from doing so; requests
    that are under way may still be served. *)
Definition shut_down (h : http_server) : http_server :=
  match h with Launched | Listening => ServerClosed | _ => h end.
Definition Rpc_Stop (n : Node) : Node := set_http (shut_down (httpServer (loops n))) n.

(** One action. When the network cannot listen the process exits ([err]: what
    [net.Listen] reports; [order]: the iteration over the peers). The RPC and the metrics
    server only start a goroutine that listens, and an error of theirs is logged: [main]
    never sees one. [CancelContext] ends the context all others derive from. *)
Definition perform (err : option string) (order : list string) (a : action) (n : Node) : Node :=
  match a with
  | StartNetwork => start_network err n
  | StartSync => Sync_Start n
  | StartConsensus => Consensus_Start n
  | StartRPC => Rpc_Start n
  | ShutdownRPC => Rpc_Stop n
  | ServeMetrics | AwaitSignal => n
  | WireMetrics minStake => wire_metrics minStake n
  | CancelContext => on_network Network.cancel (Consensus_Stop (Sync_Stop n))
  | CancelNetwork => on_network Network.cancel n
  | CloseListener => on_network Network.close_listener n
  | ClosePeers => on_network (Network.close_peers order) n
  | StopSync => Sync_Stop n
  | StopConsensus => Consensus_Stop n
  end.

(** ** The callback *)

Inductive log_event :=
| BlockVerificationFailed (number : Z) (error : string)
| AdaptiveBlockCheckFailed (number : Z) (error : string).

(** Up to the verdict on the state root. *)
Definition verify_block (block : L2Block) (n : Node) : Node * option string :=
  let '(v, result) := Verification.VerifyBlock block (ver n) in
  (set_ver v n, if Verification.rValid result then None else Some (Verification.rError result)).

(** The rest: the adaptive bounds are checked but only logged, the block is attested. *)
Definition attest_block (now1 now2 : Z) (block : L2Block) (n : Node) : Node * list log_event :=
  let adaptive := Verification.VerifyAdaptiveBlock block (bounds n) in
  let log := if negb (Verification.arValid adaptive)
             then [AdaptiveBlockCheckFailed (Sync.Number block) (Verification.arError adaptive)] else [] in
  let blockHash := HexToHash (Sync.BHash block) in
  (set_cons (fst (Consensus.AttestBlock (Sync.Number block) blockHash now1 now2 (cons n))) n, log).

Definition callback (now1 now2 : Z) (block : L2Block) (n : Node) : Node * list log_event :=
  match verify_block block n with
  | (n', Some err) => (n', [BlockVerificationFailed (Sync.Number block) err])
  | (n', None) => attest_block now1 now2 block n'
  end.

(** ** Steps *)

(** The first half of [processBlock]. *)
Definition start_block (g : goroutine) (block : L2Block) (n : Node) : Node :=
  match Sync.accept block (sync n) with
  | None => n
  | Some s => set_job g (Accepted block) (set_sync s n)
  end.

(** The P2P listener takes a message: an announcement is decoded and offered to the
    engine, everything else is discarded. *)
Definition listen (msg : Message) (n : Node) : Node :=
  if Type_ msg =? MsgNewBlock then
    match Wire.DecodeBlockAnnounce (default [] (Payload msg)) with
    | Ok a => start_block P2PListener (Sync.block_of_announce a) n
    | _ => n
    end
  else n.

(** The second half of [processBlock] up to the verdict: metrics, then the callback, if
    there is one. [reply] answers the height query of the metrics. *)
Definition run_verify (g : goroutine) (reply : outcome (option string)) (block : L2Block) (n : Node) : Node :=
  match Sync.notify reply block (sync n) (Consensus.met (cons n)) with
  | (m, []) => set_job g Idle (set_cons (set_met m (cons n)) n)
  | (m, b :: _) =>
      match verify_block b (set_cons (set_met m (cons n)) n) with
      | (n', Some _) => set_job g Idle n'
      | (n', None) => set_job g (Verified b) n'
      end
  end.

Definition run_attest (g : goroutine) (now1 now2 : Z) (block : L2Block) (n : Node) : Node :=
  set_job g Idle (fst (attest_block now1 now2 block n)).

(** A tick of the RPC loop: the height is asked for; if it is ahead a catch-up begins. *)
Definition poll (resp : outcome (list byte)) (n : Node) : Node :=
  match Client.fetchLatestBlockNumber resp with
  | Ok remote =>
      let local := Sync.LatestBlock (sync n) in
      if remote <=? local then n else set_poller (Fetching (local +[u64] 1) remote) n
  | _ => n
  end.

(** A round of the catch-up loop, up to the acceptance of the block. *)
Definition fetch (num remote : Z) (resp : outcome (list byte)) (n : Node) : Node :=
  if remote <? num then set_poller AtTick n
  else
    match Client.fetchBlock resp with
    | Ok block => start_block RPCLoop block (set_poller (Fetching (num +[u64] 1) remote) n)
    | _ => set_poller AtTick n
    end.

(** Whether an RPC request can be under way. *)
Definition answers (n : Node) : bool :=
  match httpServer (loops n) with Listening | ServerClosed => true | _ => false end.

(** One step of one of the concurrent activities. A loop whose context is done may leave
    or, as [select] chooses freely among what is ready, go on. [step_request] and
    [step_rpc_verify] are what an RPC request writes. *)
Inductive step (n : Node) : Node -> Prop :=
| step_main err order a rest :
    todo n = a :: rest -> Network.iterates order (Consensus.network (cons n)) -> step n (perform err order a (set_todo rest n))
| step_network o : Overlay.sched (overlay n) o -> step n (set_overlay o n)
| step_listen msg net :
    is_Some (sync_ctx (loops n)) -> listener_gone (loops n) = false -> p2p_job n = Idle ->
    take_message (Consensus.network (cons n)) = Some (msg, net) ->
    step n (listen msg (set_cons (set_network net (cons n)) n))
| step_listener_leaves :
    sync_ctx (loops n) = Some true -> p2p_job n = Idle -> step n (listener_leaves n)
| step_poll resp :
    is_Some (sync_ctx (loops n)) -> poller_at (loops n) = AtTick -> rpc_job n = Idle -> step n (poll resp n)
| step_fetch num remote resp :
    poller_at (loops n) = Fetching num remote -> rpc_job n = Idle -> step n (fetch num remote resp n)
| step_poller_leaves :
    sync_ctx (loops n) = Some true -> poller_at (loops n) = AtTick -> rpc_job n = Idle -> step n (set_poller PollerGone n)
| step_verify g block reply : job_of g n = Accepted block -> step n (run_verify g reply block n)
| step_attest g block now1 now2 : job_of g n = Verified block -> step n (run_attest g now1 now2 block n)
| step_consensus c log :
    is_Some (cons_ctx (loops n)) -> consumer_gone (loops n) = false ->
    Consensus.processMessages (cons n) = Some (c, log) -> step n (set_cons c n)
| step_consumer_leaves :
    cons_ctx (loops n) = Some true -> step n (consumer_leaves n)
| step_rpc_listens : httpServer (loops n) = Launched -> step n (set_http Listening n)
| step_rpc_fails :
    httpServer (loops n) = Launched \/ httpServer (loops n) = Listening -> step n (set_http ServerFailed n)
| step_request :
    answers n = true ->
    step n (set_cons (set_met (Metrics.add_RPCRequests (Consensus.met (cons n))) (cons n)) n)
| step_rpc_verify num block :
    answers n = true ->
    Sync.GetBlock num (sync n) = Some block ->
    step n (set_ver (fst (Verification.VerifyBlock block (ver n))) n).

(** ** Accounting

    [held k] counts the block numbered [k] in the chain, [claims k] the attestations to
    it and the goroutines that have it in hand. Every step moves [claims] up at most as
    much as it moves [held]. *)

Definition is_some {A} (o : option A) : nat := match o with Some _ => 1 | None => 0 end.

Definition job_block (j : job) : option L2Block :=
  match j with Idle => None | Accepted b | Verified b => Some b end.
Definition holds (k : Z) (j : job) : nat :=
  match job_block j with Some b => if Sync.Number b =? k then 1 else 0 | None => 0 end.

Definition attestations (k : Z) (n : Node) : list Consensus.Attestation :=
  default [] (Consensus.attestations (Consensus.eng (cons n)) !! k).
Definition held (k : Z) (n : Node) : nat := is_some (Sync.GetBlock k (sync n)).
Definition claims (k : Z) (n : Node) : nat :=
  length (attestations k n) + holds k (p2p_job n) + holds k (rpc_job n).

Lemma set_job_other g j n :
  sync (set_job g j n) = sync n /\ cons (set_job g j n) = cons n /\ ver (set_job g j n) = ver n /\
  bounds (set_job g j n) = bounds n.
Proof. by destruct g. Qed.

Lemma job_of_set_job g j n : job_of g (set_job g j n) = j.
Proof. by destruct g. Qed.

Lemma held_set_job k g j n : held k (set_job g j n) = held k n.
Proof. by destruct g. Qed.

Lemma claims_set_job k g j n : (claims k (set_job g j n) + holds k (job_of g n) = claims k n + holds k j)%nat.
Proof. destruct g; unfold claims, attestations; simpl; lia. Qed.

Lemma start_block_claims k g block n :
  job_of g n = Idle ->
  (held k n <= held k (start_block g block n))%nat /\
  (claims k (start_block g block n) + held k n <= claims k n + held k (start_block g block n))%nat.
Proof.
  intros Hj. unfold start_block. destruct (Sync.accept block (sync n)) as [s|] eqn:Ea; [|lia].
  apply Sync.accept_Some in Ea as (Hnew & _ & ->).
  rewrite held_set_job. pose proof (claims_set_job k g (Accepted block)
    (set_sync (Sync.mkEngine (Sync.Number block) (<[Sync.Number block := block]> (Sync.blocks (sync n)))
      (Sync.onNewBlock (sync n)) (Sync.metrics (sync n))) n)) as Hc.
  set (n' := set_sync _ n) in *.
  assert (job_of g n' = Idle) as Hj' by (by destruct g). rewrite Hj' in Hc.
  change (claims k n') with (claims k n) in Hc.
  assert (held k n' = (if (Sync.Number block =? k)%Z then 1 else held k n)%nat) as Hh.
  { unfold held, Sync.GetBlock. simpl. destruct (Z.eqb_spec (Sync.Number block) k) as [<-|Hne].
    - by rewrite lookup_insert_eq.
    - by rewrite lookup_insert_ne. }
  unfold holds in Hc. simpl in Hc. rewrite Hh.
  destruct (Z.eqb_spec (Sync.Number block) k) as [<-|]; [|lia].
  unfold held, Sync.GetBlock. rewrite Hnew. simpl. lia.
Qed.

Lemma verify_block_shape block n :
  exists v, fst (verify_block block n) = set_ver v n.
Proof. unfold verify_block. destruct (Verification.VerifyBlock block (ver n)) as [v r]. by exists v. Qed.

Lemma run_verify_shape g reply block n :
  exists j v m, job_block j ∈ [None; Some block] /\
    run_verify g reply block n = set_job g j (set_ver v (set_cons (set_met m (cons n)) n)).
Proof.
  unfold run_verify, Sync.notify. set (m := if Sync.metrics (sync n) then _ else _).
  destruct (Sync.onNewBlock (sync n)).
  - destruct (verify_block_shape block (set_cons (set_met m (cons n)) n)) as [v Hv].
    destruct (verify_block block _) as [n' [err|]]; simpl in Hv; subst n'.
    + exists Idle, v, m. split; [set_solver|done].
    + exists (Verified block), v, m. split; [set_solver|done].
  - exists Idle, (ver n), m. split; [set_solver|]. by destruct g.
Qed.

Lemma attest_block_shape now1 now2 block n :
  exists att, fst (attest_block now1 now2 block n) =
      set_cons (fst (Consensus.AttestBlock (Sync.Number block) (HexToHash (Sync.BHash block)) now1 now2 (cons n))) n /\
    (Consensus.Validator att = Consensus.localAddr (Consensus.eng (cons n)) /\ Consensus.BlockNumber att = Sync.Number block) /\
    Consensus.eng (cons (fst (attest_block now1 now2 block n))) =
      Consensus.set_attestations (<[Sync.Number block := attestations (Sync.Number block) n ++ [att]]>
        (Consensus.attestations (Consensus.eng (cons n)))) (Consensus.eng (cons n)).
Proof. eexists. split; [done|]. split; [|reflexivity]. done. Qed.

(** Most steps leave the chain, the jobs and the consensus engine's tables alone. *)
Record same_core (n n' : Node) : Prop := {
  sc_blocks : Sync.blocks (sync n') = Sync.blocks (sync n);
  sc_latest : Sync.latestBlock (sync n') = Sync.latestBlock (sync n);
  sc_callback : Sync.onNewBlock (sync n') = Sync.onNewBlock (sync n);
  sc_p2p : p2p_job n' = p2p_job n;
  sc_rpc : rpc_job n' = rpc_job n;
  sc_attestations : Consensus.attestations (Consensus.eng (cons n')) = Consensus.attestations (Consensus.eng (cons n));
  sc_validators : Consensus.validators (Consensus.eng (cons n')) = Consensus.validators (Consensus.eng (cons n));
  sc_addr : Consensus.localAddr (Consensus.eng (cons n')) = Consensus.localAddr (Consensus.eng (cons n))
}.

Lemma same_core_refl n : same_core n n.
Proof. done. Qed.

Lemma same_core_job g n n' : same_core n n' -> job_of g n' = job_of g n.
Proof. intros []. by destruct g. Qed.

Lemma perform_core err order a n : same_core n (perform err order a n).
Proof. destruct a; try done. cbn [perform]. unfold start_network. destruct (Network.Start _ _ _) as [net' [e|]]; done. Qed.

(** What a step does to the rest: it starts the processing of a block with Go's widths, or
    takes a block in hand one stage further. *)
Inductive change (n : Node) : Node -> Prop :=
| change_none n' : same_core n n' -> change n n'
| change_start g block n0 : same_core n n0 -> job_of g n = Idle -> Wire.block_typed block -> change n (start_block g block n0)
| change_verify g block reply : job_of g n = Accepted block -> change n (run_verify g reply block n)
| change_attest g block now1 now2 : job_of g n = Verified block -> change n (run_attest g now1 now2 block n).

Lemma step_change n n' : step n n' -> change n n'.
Proof.
  intros [err order a rest Ht _|o Ho|msg net Hs Hg Hj Hm|Hs Hj|resp Hs Hp Hj|num remote resp Hp Hj|Hs Hp Hj
    |g block reply Hj|g block now1 now2 Hj|c log Hs Hg Hc|Hs|Hw|Hw|Hw|num block Hw Hb];
    try (apply change_none; done); try (by constructor).
  - apply change_none. destruct (perform_core err order a (set_todo rest n)). by split.
  - unfold listen. destruct (Type_ msg =? MsgNewBlock); [|by apply change_none].
    destruct (Wire.DecodeBlockAnnounce _) as [a|err|w] eqn:Ea; [|by apply change_none..].
    apply change_start; [done|done|]. exact (Wire.DecodeBlockAnnounce_typed _ _ Ea).
  - apply change_none. unfold poll. destruct (Client.fetchLatestBlockNumber resp); [|done..]. by destruct (_ <=? _).
  - unfold fetch. destruct (remote <? num); [by apply change_none|].
    destruct (Client.fetchBlock resp) as [b|err|w] eqn:Eb; [|by apply change_none..].
    apply change_start; [done|done|]. exact (Client.fetchBlock_typed _ _ Eb).
  - apply change_none. unfold Consensus.processMessages in Hc. destruct (take_message _) as [[msg net]|]; [|done].
    by injection Hc as <- _.
Qed.

Lemma same_core_claims k n n' : same_core n n' -> held k n' = held k n /\ claims k n' = claims k n.
Proof.
  intros [Hb _ _ Hp Hr Ha _ _]. unfold held, claims, attestations, Sync.GetBlock. by rewrite Hb, Hp, Hr, Ha.
Qed.

Lemma step_claims k n n' :
  step n n' ->
  (held k n <= held k n')%nat /\ (claims k n' + held k n <= claims k n + held k n')%nat.
Proof.
  intros [n1 H1|g block n0 H0 Hj _|g block reply Hj|g block now1 now2 Hj]%step_change.
  - destruct (same_core_claims k _ _ H1) as [-> ->]. lia.
  - destruct (same_core_claims k _ _ H0) as [<- <-]. apply start_block_claims. by rewrite (same_core_job g n).
  - destruct (run_verify_shape g reply block n) as (j & v & m & Hjb & ->). set (n1 := set_ver v _).
    pose proof (claims_set_job k g j n1) as Hcl. rewrite held_set_job.
    assert (job_of g n1 = Accepted block) as Hj' by (by destruct g). rewrite Hj' in Hcl.
    assert (holds k j <= holds k (Accepted block))%nat.
    { apply list_elem_of_In in Hjb. unfold holds. destruct Hjb as [<-|[<-|[]]]; simpl; lia. }
    assert (claims k n1 = claims k n /\ held k n1 = held k n) as [??] by done. lia.
  - unfold run_attest. destruct (attest_block_shape now1 now2 block n) as (att & Hsh & _ & Heng).
    set (n1 := fst _) in *. pose proof (claims_set_job k g Idle n1) as Hcl. rewrite held_set_job.
    assert (job_of g n1 = Verified block) as Hj' by (rewrite Hsh; by destruct g). rewrite Hj' in Hcl.
    assert (held k n1 = held k n) as -> by (by rewrite Hsh).
    assert (claims k n1 = claims k n + holds k (Verified block))%nat; [|unfold holds in *; simpl in *; lia].
    assert (p2p_job n1 = p2p_job n /\ rpc_job n1 = rpc_job n) as [Hp Hr] by (by rewrite Hsh).
    unfold claims, attestations. rewrite Hp, Hr, Heng.
    change (holds k (Verified block)) with (if (Sync.Number block =? k)%Z then 1%nat else 0%nat). simpl.
    destruct (Z.eqb_spec (Sync.Number block) k) as [<-|].
    + rewrite lookup_insert_eq. simpl. rewrite length_app. simpl. unfold attestations. lia.
    + rewrite lookup_insert_ne by done. lia.
Qed.

Lemma steps_claims k n n' :
  rtc step n n' ->
  (held k n <= held k n')%nat /\ (claims k n' + held k n <= claims k n + held k n')%nat.
Proof. induction 1 as [n|n n1 n2 H _ [IH1 IH2]]; [lia|]. apply (step_claims k) in H. lia. Qed.

(** ** A node on its own *)

(** The only validator is the node's own, and so are all attestations. *)
Record solo (addr : Address) (info : Consensus.ValidatorInfo) (n : Node) : Prop := {
  solo_addr : Consensus.localAddr (Consensus.eng (cons n)) = addr;
  solo_validators : Consensus.validators (Consensus.eng (cons n)) = {[addr := info]};
  solo_attestations k att : att ∈ attestations k n -> Consensus.Validator att = addr
}.

Lemma solo_same addr info n n' :
  Consensus.localAddr (Consensus.eng (cons n')) = Consensus.localAddr (Consensus.eng (cons n)) ->
  Consensus.validators (Consensus.eng (cons n')) = Consensus.validators (Consensus.eng (cons n)) ->
  Consensus.attestations (Consensus.eng (cons n')) = Consensus.attestations (Consensus.eng (cons n)) ->
  solo addr info n -> solo addr info n'.
Proof.
  intros H1 H2 H3 [Ha Hv Hat]. split; [by rewrite H1|by rewrite H2|]. unfold attestations in *. by rewrite H3.
Qed.

Lemma start_block_cons g b n : cons (start_block g b n) = cons n.
Proof. unfold start_block. destruct (Sync.accept b (sync n)); [by destruct g|done]. Qed.

Lemma step_solo addr info n n' : step n n' -> solo addr info n -> solo addr info n'.
Proof.
  intros [n1 []|g block n0 [] Hj _|g block reply Hj|g block now1 now2 Hj]%step_change Hs.
  - by apply (solo_same addr info n).
  - apply (solo_same addr info n); by rewrite ?start_block_cons.
  - destruct (run_verify_shape g reply block n) as (j & v & m & _ & ->). refine (solo_same _ _ n _ _ _ _ Hs); by destruct g.
  - unfold run_attest. destruct (attest_block_shape now1 now2 block n) as (att & _ & [Hval _] & Heng).
    destruct (set_job_other g Idle (fst (attest_block now1 now2 block n))) as (_ & Hcons & _).
    destruct Hs as [Ha Hv Hat]. split; [by rewrite Hcons, Heng|by rewrite Hcons, Heng|].
    intros k a. unfold attestations at 1. rewrite Hcons, Heng. simpl.
    destruct (decide (Sync.Number block = k)) as [<-|Hne].
    + rewrite lookup_insert_eq. simpl. rewrite elem_of_app, list_elem_of_singleton.
      intros [Hin| ->]; [by apply Hat in Hin|congruence].
    + rewrite lookup_insert_ne by done. apply Hat.
Qed.

Lemma steps_solo addr info n n' : rtc step n n' -> solo addr info n -> solo addr info n'.
Proof. induction 1; eauto using step_solo. Qed.

(** An active validator with positive power is a quorum of one. *)
Lemma finalized_alone addr info n order k :
  solo addr info n -> Consensus.IsActive info = true ->
  nn64 (Consensus.VotePower info) -> (0 < qval (Consensus.VotePower info))%Q ->
  Consensus.iterates order (Consensus.eng (cons n)) -> (length (attestations k n) <= 1)%nat ->
  snd (Consensus.IsFinalized order k (cons n)) = negb (length (attestations k n) =? 0)%nat.
Proof.
  intros [Ha Hv Hat] Hact Hnn Hpos Ho Hlen. specialize (Hat k).
  unfold Consensus.iterates in Ho. rewrite Hv, map_to_list_singleton in Ho. apply Permutation_singleton_r in Ho as ->.
  unfold Consensus.IsFinalized. fold (attestations k n).
  destruct (attestations k n) as [|att [|]]; [done| |simpl in Hlen; lia]. cbn [length Nat.eqb].
  assert (Consensus.total_power [(addr, info)] = f64_add f64_zero (Consensus.VotePower info)) as ->
    by (unfold Consensus.total_power; cbn [foldl]; by rewrite Hact).
  assert (Consensus.attested_power (Consensus.eng (cons n)) [att] = f64_add f64_zero (Consensus.VotePower info)) as ->.
  { unfold Consensus.attested_power. cbn [foldl]. rewrite Hv, (Hat att) by left.
    by rewrite lookup_singleton_eq, Hact. }
  destruct (f64_add_zero_l _ Hnn) as [Hn Hq].
  destruct (quorum_self (f64_add f64_zero (Consensus.VotePower info)) Hn) as [H1 H2];
    [rewrite Hq; exact Hpos|]. rewrite H2. exact H1.
Qed.

(** ** Start-up *)

Definition own_address (key : PrivateKey) : Address := PubkeyToAddress (public_key key).

Lemma setup_ok cfg key clock :
  0 <= Config.MinStake (Config.Validator cfg) < 2 ^ 51 -> clock 0%nat <= clock 3%nat ->
  exists n info, setup cfg key clock = Ok n /\ solo (own_address key) info n /\
    Consensus.IsActive info = true /\ nn64 (Consensus.VotePower info) /\
    (inject_Z (Config.MinStake (Config.Validator cfg)) <= qval (Consensus.VotePower info))%Q /\
    Staking.stakes (staking n) =
      {[own_address key := Staking.mkStake (own_address key)
          (Config.MinStake (Config.Validator cfg) * wei_per_inso) (clock 2%nat) true 0 0]} /\
    sync n = Sync.OnNewBlock Sync.NewEngine /\ p2p_job n = Idle /\ rpc_job n = Idle /\
    Consensus.attestations (Consensus.eng (cons n)) = ∅.
Proof.
  intros Hk Hclock. unfold setup, initial_stake. fold (own_address key). set (addr := own_address key).
  set (k := Config.MinStake (Config.Validator cfg)) in *.
  rewrite i64_small by (unfold is_i64; lia).
  assert (forall now, Staking.Register addr (k * wei_per_inso) now (Staking.NewManager k) =
    Ok (Staking.with_stake addr (Staking.mkStake addr (k * wei_per_inso) now true 0 0) (Staking.NewManager k))) as ->.
  { intros now. apply Staking.Register_Ok. split; [simpl; lia|]. by split. }
  cbn [mbind outcome_bind]. set (s := Consensus.mkState _ _ _ _).
  destruct (Consensus.RegisterValidator_stores addr k (f64_const 8 10) (clock 3%nat) (clock 4%nat) s Hk
    ltac:(nn_compute)) as (s' & info & -> & Heng & _ & Hact & Hnn & [Hlo _] & _).
  { intros m r [= <-] Hr. unfold Reputation.GetReputation, Reputation.Register in Hr. simpl in Hr.
    rewrite lookup_empty in Hr. simpl in Hr. rewrite lookup_insert_eq in Hr. injection Hr as <-.
    repeat split; simpl; (lia || done). }
  cbn [mbind outcome_bind]. eexists _, info. split; [reflexivity|].
  split; [|by split_and!; [exact Hact|exact Hnn|exact Hlo|simpl; rewrite ?Heng..]].
  split; simpl; [by rewrite Heng|by rewrite Heng|].
  intros j att. unfold attestations. simpl. rewrite Heng. simpl. rewrite lookup_empty. set_solver.
Qed.

Lemma setup_claims cfg key clock n k :
  0 <= Config.MinStake (Config.Validator cfg) < 2 ^ 51 -> clock 0%nat <= clock 3%nat ->
  setup cfg key clock = Ok n -> claims k n = 0%nat /\ held k n = 0%nat.
Proof.
  intros Hk Hc Hs. destruct (setup_ok cfg key clock Hk Hc) as (n' & info & Hn & _ & _ & _ & _ & _ & Hsy & Hp & Hr & Ha).
  rewrite Hs in Hn. injection Hn as <-. unfold claims, held, attestations, Sync.GetBlock.
  rewrite Hp, Hr, Ha, Hsy. simpl. by rewrite !lookup_empty.
Qed.

(** ** The second half of [processBlock] *)

Lemma start_block_callback g b n : Sync.onNewBlock (sync (start_block g b n)) = Sync.onNewBlock (sync n).
Proof.
  unfold start_block. destruct (Sync.accept b (sync n)) as [s|] eqn:Ea; [|done].
  apply Sync.accept_Some in Ea as (_ & _ & ->). by destruct g.
Qed.

Lemma step_sync_callback n n' : step n n' -> Sync.onNewBlock (sync n') = Sync.onNewBlock (sync n).
Proof.
  intros [n1 []|g block n0 [] Hj _|g block reply Hj|g block now1 now2 Hj]%step_change.
  - done.
  - by rewrite start_block_callback.
  - destruct (run_verify_shape g reply block n) as (j & v & m & _ & ->). by destruct g.
  - by destruct g.
Qed.

Lemma steps_sync_callback n n' : rtc step n n' -> Sync.onNewBlock (sync n') = Sync.onNewBlock (sync n).
Proof. induction 1 as [|? ? ? H _ IH]; [done|]. by rewrite IH, (step_sync_callback _ _ H). Qed.

(** The outcome of the verdict: the job moves on exactly when the block is valid. *)
Lemma run_verify_verdict g reply block n :
  Sync.onNewBlock (sync n) = true ->
  exists m, run_verify g reply block n =
    set_job g (if Verification.rValid (snd (Verification.VerifyBlock block (ver n))) then Verified block else Idle)
      (set_ver (fst (Verification.VerifyBlock block (ver n))) (set_cons (set_met m (cons n)) n)).
Proof.
  intros Hcb. unfold run_verify, Sync.notify. rewrite Hcb. eexists.
  unfold verify_block. simpl. destruct (Verification.VerifyBlock block (ver n)) as [v r]. simpl.
  by destruct (Verification.rValid r).
Qed.

Lemma run_attest_attestations k g now1 now2 block n :
  length (attestations k (run_attest g now1 now2 block n)) =
    (length (attestations k n) + (if (Sync.Number block =? k)%Z then 1 else 0))%nat.
Proof.
  unfold run_attest. destruct (attest_block_shape now1 now2 block n) as (att & _ & _ & Heng).
  destruct (set_job_other g Idle (fst (attest_block now1 now2 block n))) as (_ & Hcons & _).
  unfold attestations at 1. rewrite Hcons, Heng. simpl. destruct (Z.eqb_spec (Sync.Number block) k) as [<-|].
  - rewrite lookup_insert_eq. simpl. by rewrite length_app.
  - rewrite lookup_insert_ne by done. fold (attestations k n). lia.
Qed.

Lemma held_le_1 k n : (held k n <= 1)%nat.
Proof. unfold held. destruct (Sync.GetBlock k (sync n)); simpl; lia. Qed.

Lemma claims_le_held cfg key clock n0 n k :
  0 <= Config.MinStake (Config.Validator cfg) < 2 ^ 51 -> clock 0%nat <= clock 3%nat ->
  setup cfg key clock = Ok n0 -> rtc step n0 n -> (claims k n <= held k n)%nat.
Proof.
  intros Hk Hc Hs Hr. destruct (setup_claims cfg key clock n0 k Hk Hc Hs).
  destruct (steps_claims k n0 n Hr). lia.
Qed.

Definition other (g : goroutine) : goroutine := match g with P2PListener => RPCLoop | RPCLoop => P2PListener end.

(** What a goroutine's step leaves alone. *)
Record same_but (g : goroutine) (n n' : Node) : Prop := {
  sb_step : step n n';
  sb_sync : sync n' = sync n;
  sb_job : job_of (other g) n' = job_of (other g) n
}.

Lemma verify_step g b n :
  job_of g n = Accepted b -> Sync.onNewBlock (sync n) = true ->
  exists n', same_but g n n' /\ (forall k, attestations k n' = attestations k n) /\
    ver n' = fst (Verification.VerifyBlock b (ver n)) /\
    job_of g n' = if Verification.rValid (snd (Verification.VerifyBlock b (ver n))) then Verified b else Idle.
Proof.
  intros Hj Hcb. exists (run_verify g (Err ""%string) b n). split.
  - destruct (run_verify_shape g (Err ""%string) b n) as (j & v & m & _ & Heq).
    split; [by apply step_verify|rewrite Heq; by destruct g..].
  - destruct (run_verify_verdict g (Err ""%string) b n Hcb) as [m ->].
    split; [intros k; by destruct g|]. by destruct g.
Qed.

Lemma attest_step g b n :
  job_of g n = Verified b ->
  exists n', same_but g n n' /\ ver n' = ver n /\ job_of g n' = Idle /\
    forall k, length (attestations k n') = (length (attestations k n) + (if (Sync.Number b =? k)%Z then 1 else 0))%nat.
Proof.
  intros Hj. exists (run_attest g 0 0 b n). split; [|split; [|split]].
  - split; [by apply step_attest|by destruct g..].
  - by destruct g.
  - by destruct g.
  - intros k. apply run_attest_attestations.
Qed.

(** A block in hand is in the chain, not attested, and has a callback to run. *)
Lemma in_hand cfg key clock n0 n g b :
  0 <= Config.MinStake (Config.Validator cfg) < 2 ^ 51 -> clock 0%nat <= clock 3%nat ->
  setup cfg key clock = Ok n0 -> rtc step n0 n -> job_of g n = Accepted b ->
  length (attestations (Sync.Number b) n) = 0%nat /\ held (Sync.Number b) n = 1%nat /\
  Sync.onNewBlock (sync n) = true.
Proof.
  intros Hstake Hclock H0 Hr Hj.
  pose proof (claims_le_held cfg key clock n0 n (Sync.Number b) Hstake Hclock H0 Hr) as Hc.
  pose proof (held_le_1 (Sync.Number b) n).
  assert (holds (Sync.Number b) (job_of g n) = 1%nat) as Hh by (rewrite Hj; unfold holds; simpl; by rewrite Z.eqb_refl).
  assert (Sync.onNewBlock (sync n) = true) as Hcb.
  { rewrite (steps_sync_callback _ _ Hr). destruct (setup_ok cfg key clock Hstake Hclock) as (n' & i & Hn & Hx).
    rewrite H0 in Hn. injection Hn as <-. by destruct Hx as (_ & _ & _ & _ & _ & -> & _). }
  unfold claims in Hc. destruct g; simpl in Hh; (split; [lia|split; [lia|done]]).
Qed.

(** A block of the chain that nobody has in hand and nobody attested stays so. *)
Lemma lost_forever k n :
  held k n = 1%nat -> claims k n = 0%nat -> forall n', rtc step n n' -> attestations k n' = [].
Proof.
  intros Hh Hc n' Hr. destruct (steps_claims k n n' Hr) as [_ Hcl]. pose proof (held_le_1 k n').
  rewrite Hh, Hc in Hcl. unfold claims in Hcl. destruct (attestations k n'); [done|simpl in Hcl; lia].
Qed.

(** ** Runs *)

Lemma set_overlay_self n : set_overlay (overlay n) n = n.
Proof. by destruct n as [? ? [? ? ? ?] ? ? ? ? ? ? ?]. Qed.

Lemma sched_lift n o : rtc Overlay.sched (overlay n) o -> rtc step n (set_overlay o n).
Proof.
  enough (forall o1, rtc Overlay.sched o1 o -> rtc step (set_overlay o1 n) (set_overlay o n)) as H.
  { intros Hr%H. by rewrite set_overlay_self in Hr. }
  induction 1 as [o1|o1 o2 o3 H _ IH]; [done|].
  eapply rtc_l; [|exact IH]. apply (step_network (set_overlay o1 n) o2). by destruct o1.
Qed.

(** A frame arrives on a connection that is read from. *)
Lemma frame_arrives id c i i' data rest n :
  pool n = Overlay.ReadTop id c i :: rest -> Network.cancelled (Consensus.network (cons n)) = false ->
  Overlay.is_open (Consensus.network (cons n)) c -> Framing.readFrame i = (i', inl data) ->
  rtc step n (set_overlay (Overlay.mkOverlay (Network.on_frame data (Consensus.network (cons n)))
    (Overlay.ReadTop id c i' :: rest)) n).
Proof. intros Hp Hc Ho Hr. apply sched_lift. unfold overlay. rewrite Hp. by apply Overlay.frame_run. Qed.

(** [main] goes on, nothing failing. *)
Definition advance (n : Node) : Node :=
  match todo n with
  | [] => n
  | a :: rest => perform None (Network.order_of (Consensus.network (cons n))) a (set_todo rest n)
  end.

Lemma advance_run k n : rtc step n (Nat.iter k advance n).
Proof.
  induction k as [|k IH]; [done|]. change (Nat.iter (S k) advance n) with (advance (Nat.iter k advance n)).
  etrans; [exact IH|]. generalize (Nat.iter k advance n). clear IH.
  intros m. unfold advance. destruct (todo m) as [|a rest] eqn:Et; [apply rtc_refl|]. apply rtc_once. exact (step_main m None _ a rest Et (Permutation_refl _)).
Qed.

(** The node is its own quorum. *)
Lemma own_quorum cfg key clock n0 n k order :
  1 <= Config.MinStake (Config.Validator cfg) < 2 ^ 51 -> clock 0%nat <= clock 3%nat ->
  setup cfg key clock = Ok n0 -> rtc step n0 n -> Consensus.iterates order (Consensus.eng (cons n)) ->
  snd (Consensus.IsFinalized order k (cons n)) = negb (length (attestations k n) =? 0)%nat.
Proof.
  intros Hstake Hclock H0 Hr Ho.
  destruct (setup_ok cfg key clock ltac:(lia) Hclock) as (n' & info & Hn & Hsolo & Hact & Hnn & Hlo & _).
  rewrite H0 in Hn. injection Hn as <-.
  pose proof (claims_le_held cfg key clock n0 n k ltac:(lia) Hclock H0 Hr) as Hc. pose proof (held_le_1 k n).
  assert (0 < qval (Consensus.VotePower info))%Q as Hpos.
  { eapply Qlt_le_trans; [|exact Hlo]. change 0%Q with (inject_Z 0). rewrite <- Zlt_Qlt. lia. }
  apply (finalized_alone (own_address key) info); [|done..|unfold claims in Hc; lia].
  by apply (steps_solo _ _ _ _ Hr).
Qed.

(** ** Properties *)

(** C2. However the concurrent activities interleave, a block is attested at most once,
    and only if it is in the chain; while a goroutine has it in hand it is not attested
    at all. *)
Theorem attested_once (cfg : Config.t) (key : PrivateKey) (clock : nat -> Z) (n0 n : Node) (k : Z)
  (Hstake : 0 <= Config.MinStake (Config.Validator cfg) < 2 ^ 51) (Hclock : clock 0%nat <= clock 3%nat)
  (H0 : setup cfg key clock = Ok n0) (Hr : rtc step n0 n) :
  (length (attestations k n) <= 1)%nat /\
  (attestations k n <> [] -> is_Some (Sync.GetBlock k (sync n)) /\
     holds k (p2p_job n) = 0%nat /\ holds k (rpc_job n) = 0%nat).
Proof.
  pose proof (claims_le_held cfg key clock n0 n k Hstake Hclock H0 Hr) as Hc. pose proof (held_le_1 k n).
  unfold claims in Hc. split; [lia|]. destruct (attestations k n); [done|]. intros _. simpl in Hc.
  unfold held, is_some in *. destruct (Sync.GetBlock k (sync n)); [|lia]. split; [by eexists|lia].
Qed.

(** C11. A node configured like the shipped one is its own quorum: in every reachable state a
    block counts as finalized exactly when this node has attested to it, whatever its
    peers sent. *)
Theorem self_finality (cfg : Config.t) (key : PrivateKey) (clock : nat -> Z) (n0 n : Node) (k : Z)
  (order : list (Address * Consensus.ValidatorInfo))
  (Hstake : 1 <= Config.MinStake (Config.Validator cfg) < 2 ^ 51) (Hclock : clock 0%nat <= clock 3%nat)
  (H0 : setup cfg key clock = Ok n0) (Hr : rtc step n0 n)
  (Ho : Consensus.iterates order (Consensus.eng (cons n))) :
  snd (Consensus.IsFinalized order k (cons n)) = true <-> attestations k n <> [].
Proof.
  rewrite (own_quorum cfg key clock n0 n k order Hstake Hclock H0 Hr Ho). by destruct (attestations k n).
Qed.

(** C36. Starting up: the process exits exactly when the configured minimum stake does not fit
    an [int64] (the product then is negative, below the minimum itself); otherwise it
    is the only validator, active with that stake, and has nothing synced or in hand. *)
Theorem setup_outcome (cfg : Config.t) (key : PrivateKey) (clock : nat -> Z)
  (Hu : is_u64 (Config.MinStake (Config.Validator cfg))) :
  let stake := Config.MinStake (Config.Validator cfg) * wei_per_inso in
  if decide (Config.MinStake (Config.Validator cfg) < 2 ^ 63) then
    exists n info, setup cfg key clock = Ok n /\
      Staking.stakes (staking n) =
        {[own_address key := Staking.mkStake (own_address key) stake (clock 2%nat) true 0 0]} /\
      Consensus.validators (Consensus.eng (cons n)) = {[own_address key := info]} /\
      Consensus.vStake info = stake /\ Consensus.IsActive info = true /\
      Sync.LatestBlock (sync n) = 0 /\ p2p_job n = Idle /\ rpc_job n = Idle
  else exists err, setup cfg key clock = Err err.
Proof.
  intros stake. unfold setup, initial_stake. fold (own_address key). set (addr := own_address key).
  subst stake. set (k := Config.MinStake (Config.Validator cfg)) in *. unfold is_u64 in Hu. case_decide as Hk.
  - rewrite i64_small by (unfold is_i64; lia).
    assert (forall now, Staking.Register addr (k * wei_per_inso) now (Staking.NewManager k) =
      Ok (Staking.with_stake addr (Staking.mkStake addr (k * wei_per_inso) now true 0 0) (Staking.NewManager k))) as ->.
    { intros now. apply Staking.Register_Ok. split; [simpl; lia|]. by split. }
    cbn [mbind outcome_bind]. set (s := Consensus.mkState _ _ _ _).
    destruct (Consensus.stake_float_total (k * wei_per_inso)) as [f Hf]; [unfold wei_per_inso; lia|].
    destruct (Consensus.RegisterValidator_shape addr (k * wei_per_inso) (f64_const 8 10) (clock 3%nat) (clock 4%nat) s f Hf)
      as (s' & info & -> & Heng & _ & Hst & Hact).
    cbn [mbind outcome_bind]. eexists _, info. split; [reflexivity|]. simpl. rewrite Heng. by split_and!.
  - assert (i64 k * wei_per_inso < k * wei_per_inso) as Hlt.
    { unfold i64. replace ((k + 2 ^ 63) mod 2 ^ 64) with (k + 2 ^ 63 - 2 ^ 64); [unfold wei_per_inso; lia|].
      apply Z.mod_unique with (q := 1); lia. }
    unfold Staking.Register. destruct (Z.ltb_spec (i64 k * wei_per_inso) (Staking.minStake (Staking.NewManager k))) as [|Hge];
      [by eexists|]. simpl in Hge. lia.
Qed.

(** C21. Verification follows the order of the callbacks, not of the chain. Let the P2P
    listener hold [b1] and the RPC loop [b2], both just accepted, under different numbers,
    and honestly derived in this order; and let [b2] claim a root, which is not the one it
    would have on the root before [b1] (a block that claims none is accepted on any root).
    If the callbacks run in the order of the chain both are attested; if the RPC loop is
    faster, [b2] is rejected and is never attested in any continuation, although it stays
    in the chain. *)
Theorem out_of_order_callbacks (cfg : Config.t) (key : PrivateKey) (clock : nat -> Z) (n0 n : Node)
  (b1 b2 : L2Block)
  (Hstake : 0 <= Config.MinStake (Config.Validator cfg) < 2 ^ 51) (Hclock : clock 0%nat <= clock 3%nat)
  (H0 : setup cfg key clock = Ok n0) (Hr : rtc step n0 n)
  (H1 : p2p_job n = Accepted b1) (H2 : rpc_job n = Accepted b2)
  (Hne : Sync.Number b1 <> Sync.Number b2)
  (Hhonest : Verification.honest (Verification.stateRoot (ver n)) [b1; b2])
  (Hbad : ~ Verification.claim_ok (ver n) b2) :
  (exists n1, rtc step n n1 /\
     length (attestations (Sync.Number b1) n1) = 1%nat /\ length (attestations (Sync.Number b2) n1) = 1%nat) /\
  (exists n2, rtc step n n2 /\ length (attestations (Sync.Number b1) n2) = 1%nat /\
     forall n3, rtc step n2 n3 ->
       attestations (Sync.Number b2) n3 = [] /\ is_Some (Sync.GetBlock (Sync.Number b2) (sync n3))).
Proof.
  destruct (in_hand cfg key clock n0 n P2PListener b1 Hstake Hclock H0 Hr H1) as (Ha1 & Hh1 & Hcb).
  destruct (in_hand cfg key clock n0 n RPCLoop b2 Hstake Hclock H0 Hr H2) as (Ha2 & Hh2 & _).
  destruct Hhonest as (Hz1 & Hc1 & Hz2 & Hc2 & _).
  pose proof (Verification.VerifyBlock_accepts b1 (ver n) Hz1 Hc1) as Hv1.
  assert ((Sync.Number b1 =? Sync.Number b2) = false) as He12 by (by apply Z.eqb_neq).
  assert ((Sync.Number b2 =? Sync.Number b1) = false) as He21 by (apply Z.eqb_neq; congruence).
  split.
  - destruct (verify_step P2PListener b1 n H1 Hcb) as (m1 & [S1 Y1 J1] & A1 & V1 & K1).
    rewrite Hv1 in V1, K1. simpl in V1, K1, J1.
    destruct (attest_step P2PListener b1 m1 K1) as (m2 & [S2 Y2 J2] & V2 & _ & A2). simpl in J2.
    destruct (verify_step RPCLoop b2 m2 ltac:(simpl; congruence) ltac:(congruence)) as (m3 & [S3 Y3 J3] & A3 & V3 & K3).
    rewrite (Verification.VerifyBlock_accepts b2 (ver m2) Hz2) in K3 by (rewrite V2, V1; exact Hc2). simpl in K3.
    destruct (attest_step RPCLoop b2 m3 K3) as (m4 & [S4 _ _] & _ & _ & A4).
    exists m4. split; [by repeat (eapply rtc_l; [eassumption|])|].
    rewrite !A4, !A3, !A2, !A1, Ha1, Ha2, !Z.eqb_refl, He12, He21. done.
  - destruct (verify_step RPCLoop b2 n H2 Hcb) as (m1 & [S1 Y1 J1] & A1 & V1 & K1).
    destruct (Verification.VerifyBlock_rejects b2 (ver n) (or_intror Hbad)) as (err & root & Hv2).
    rewrite Hv2 in V1, K1. simpl in V1, K1, J1.
    destruct (verify_step P2PListener b1 m1 ltac:(simpl; congruence) ltac:(congruence)) as (m2 & [S2 Y2 J2] & A2 & V2 & K2).
    rewrite V1, Hv1 in K2. simpl in K2, J2.
    destruct (attest_step P2PListener b1 m2 K2) as (m3 & [S3 Y3 J3] & _ & K3 & A3). simpl in J3.
    assert (rtc step n m3) as Hm3 by (by repeat (eapply rtc_l; [eassumption|])).
    exists m3. split; [done|]. split; [by rewrite A3, A2, A1, Ha1, Z.eqb_refl|].
    assert (held (Sync.Number b2) m3 = 1%nat) as Hm by (unfold held; by rewrite Y3, Y2, Y1).
    assert (claims (Sync.Number b2) m3 = 0%nat) as Hm0.
    { simpl in K3. unfold claims. rewrite A3, A2, A1, Ha2, He12, K3, J3, J2, K1. done. }
    intros n3 Hn3. split; [by apply (lost_forever _ m3)|].
    destruct (steps_claims (Sync.Number b2) m3 n3 Hn3) as [Hheld _]. rewrite Hm in Hheld. unfold held, is_some in Hheld.
    destruct (Sync.GetBlock (Sync.Number b2) (sync n3)); [by eexists|lia].
Qed.

(** The two engines receive from one channel, so each message reaches one of them. From
    any state with an acceptable announcement at its head there is a step that takes
    the block into the chain, and one that hands the announcement to the consensus
    engine, which logs it: the message is gone and the chain has not moved. *)
Theorem announcement_lost (n : Node) (msg : Message) (net : Network.Network) (a : Sync.BlockAnnounce)
  (Hsync : is_Some (sync_ctx (loops n))) (Hl : listener_gone (loops n) = false)
  (Hc : is_Some (cons_ctx (loops n))) (Hg : consumer_gone (loops n) = false) (Hidle : p2p_job n = Idle)
  (Hm : take_message (Consensus.network (cons n)) = Some (msg, net)) (Ht : Type_ msg = MsgNewBlock)
  (Ha : Wire.DecodeBlockAnnounce (default [] (Payload msg)) = Ok a)
  (Hacc : is_Some (Sync.accept (Sync.block_of_announce a) (sync n))) :
  (exists n1, step n n1 /\ p2p_job n1 = Accepted (Sync.block_of_announce a) /\
     Sync.GetBlock (Sync.aNumber a) (sync n1) = Some (Sync.block_of_announce a) /\
     Consensus.network (cons n1) = net) /\
  (exists n2, step n n2 /\ sync n2 = sync n /\ p2p_job n2 = Idle /\ rpc_job n2 = rpc_job n /\
     Consensus.network (cons n2) = net /\
     Consensus.processMessages (cons n) = Some (cons n2, [Consensus.ReceivedNewBlock (From msg)])).
Proof.
  split.
  - eexists. split; [by apply step_listen|]. unfold listen. rewrite Ht, Ha. simpl.
    unfold start_block. destruct Hacc as [s Hs]. simpl. rewrite Hs.
    apply Sync.accept_Some in Hs as (_ & _ & ->). simpl. unfold Sync.GetBlock. simpl.
    change (Sync.aNumber a) with (Sync.Number (Sync.block_of_announce a)). by rewrite lookup_insert_eq.
  - assert (Consensus.processMessages (cons n) =
      Some (set_network net (cons n), [Consensus.ReceivedNewBlock (From msg)])) as Hp.
    { unfold Consensus.processMessages. rewrite Hm. unfold Consensus.dispatch. by rewrite Ht. }
    eexists. split; [by eapply (step_consensus n _ _ Hc Hg)|]. by split_and!.
Qed.

(** Run without interference, the two steps of a goroutine are the callback: verify,
    check the bounds, attest. *)
Theorem callback_steps (g : goroutine) (block : L2Block) (n : Node) (now1 now2 : Z)
  (Hj : job_of g n = Accepted block) (Hcb : Sync.onNewBlock (sync n) = true) :
  exists m, rtc step n (set_job g Idle (fst (callback now1 now2 block (set_cons (set_met m (cons n)) n)))).
Proof.
  destruct (run_verify_verdict g (Err ""%string) block n Hcb) as [m Hm].
  exists m. eapply rtc_l; [by apply (step_verify n g block (Err ""%string))|]. rewrite Hm.
  unfold callback, verify_block. cbn [ver set_cons].
  destruct (Verification.VerifyBlock block (ver n)) as [v r]. cbn [fst snd].
  destruct (Verification.rValid r).
  - eapply rtc_l; [apply (step_attest _ g block now1 now2); apply job_of_set_job|].
    by destruct g.
  - apply rtc_refl.
Qed.

End Steps.

(** ** Witnesses *)

Section Witnesses.
Import ToyEth.

Definition key : PrivateKey := vreplicate 20 Byte.x0a.
Definition clock (k : nat) : Z := 1700000000 * Config.second + Z.of_nat k.

(** The shipped configuration. *)
Definition started : Node :=
  match setup Config.DefaultConfig key clock with
  | Ok n => n
  | _ => mkNode Sync.NewEngine Verification.NewEngine
           (Consensus.mkState (Consensus.NewEngine true key key) None (Network.NewNetwork 0 []) Metrics.New)
           (Staking.NewManager 0) Verification.DefaultAdaptiveBounds Idle Idle
           [] (mkLoops None None false AtTick false NoServer) []
  end.

Lemma started_setup : setup Config.DefaultConfig key clock = Ok started.
Proof.
  assert (is_ok (setup Config.DefaultConfig key clock) = true) as H by (vm_compute; reflexivity).
  unfold started. destruct (setup Config.DefaultConfig key clock); done.
Qed.

(** Two honest blocks. *)
Definition with_root (b : Sync.L2Block) (root : string) : Sync.L2Block :=
  Sync.mkL2Block (Sync.Number b) (Sync.BHash b) (Sync.ParentHash b) (Sync.Timestamp b) root
    (Sync.GasUsed b) (Sync.GasLimit b) (Sync.TxCount b) (Sync.Sequencer b).
Definition root0 : Hash := Verification.stateRoot Verification.NewEngine.
Definition block1 : Sync.L2Block :=
  with_root (Sync.sample_block 1) (Hash_Hex (Verification.derive root0 [Sync.sample_block 1])).
Definition block2 : Sync.L2Block :=
  with_root (Sync.sample_block 2) (Hash_Hex (Verification.derive root0 [Sync.sample_block 1; Sync.sample_block 2])).

Definition announce_of (b : Sync.L2Block) : Sync.BlockAnnounce :=
  Sync.mkAnnounce (Sync.Number b) (Sync.BHash b) (Sync.ParentHash b) (Sync.Timestamp b) (Sync.StateRoot b)
    (Sync.GasUsed b) (Sync.GasLimit b) (Sync.TxCount b) (Sync.Sequencer b).
Definition gossip (b : Sync.L2Block) : Message :=
  mkMessage MsgNewBlock (Json.text "validator-9001") (Some (Wire.EncodeBlockAnnounce (announce_of b))).

Definition receiving (msgs : list Message) (n : Node) : Node := on_network (Network.set_msgCh msgs) n.

(** All services started, and a peer connected. *)
Definition serving : Node := Nat.iter 6 advance started.
Definition peers_pool (i : Framing.inbound) : list Overlay.task :=
  [Overlay.ReadTop "inbound-b:9001" 1 i; Overlay.AcceptLoop; Overlay.Bootnodes []; Overlay.Liveness].

(** [i]: what the peer is going to send. *)
Definition online (i : Framing.inbound) : Node :=
  set_overlay (Overlay.mkOverlay
    (Network.handleInbound "b:9001" 1 (Overlay.open_new 1 Overlay.quiet_conn (Consensus.network (cons serving))))
    (peers_pool i)) serving.

Lemma started_online i : rtc step started (online i).
Proof.
  transitivity serving; [exact (advance_run 6 started)|]. unfold online. apply sched_lift. unfold overlay.
  assert (pool serving = [Overlay.AcceptLoop; Overlay.Bootnodes []; Overlay.Liveness]) as -> by (vm_compute; reflexivity).
  assert (Network.cancelled (Consensus.network (cons serving)) = false) as H1 by (vm_compute; reflexivity).
  assert (Network.listener (Consensus.network (cons serving)) = Some true) as H2 by (vm_compute; reflexivity).
  assert (Network.conns (Consensus.network (cons serving)) !! 1%nat = None) as H3 by (vm_compute; reflexivity).
  unfold peers_pool. revert H1 H2 H3. generalize (Consensus.network (cons serving)). intros net.
  apply Overlay.inbound_run.
Qed.

(** The peer gossips a block. *)
Definition gossip_frame (b : Sync.L2Block) : list byte :=
  Wire.wire_marshal MsgNewBlock (Json.text "validator-9001") (Some (Wire.EncodeBlockAnnounce (announce_of b))).
Definition news_of (b : Sync.L2Block) : Framing.inbound := Framing.Inbound [Framing.frame (gossip_frame b)] Framing.EOF.
Definition gossiped : Node :=
  set_overlay (Overlay.mkOverlay (Network.on_frame (gossip_frame block1) (Consensus.network (cons (online (news_of block1)))))
    (peers_pool (Framing.Inbound [] Framing.EOF))) (online (news_of block1)).

Lemma started_gossiped : rtc step started gossiped.
Proof.
  etrans; [apply (started_online (news_of block1))|]. eapply frame_arrives.
  - reflexivity.
  - vm_compute. reflexivity.
  - eexists. split; vm_compute; reflexivity.
  - vm_compute. reflexivity.
Qed.

(** What the sequencer answers. *)
Definition height_text (h : Z) : outcome (list byte) := Ok (Json.encode (Client.reply_tree (Json.JStr (Json.text (Fmt.Sprintf_0x h))))).
Definition block_text (b : Sync.L2Block) : outcome (list byte) := Ok (Json.encode (Client.reply_tree (Client.block_tree b))).

Definition first_accepted : Node := listen (gossip block1) (on_network (Network.set_msgCh []) gossiped).
Definition both_accepted : Node := fetch 2 2 (block_text block2) (poll (height_text 2) first_accepted).

Lemma gossiped_loops : loops gossiped = mkLoops (Some false) (Some false) false AtTick false Launched.
Proof. vm_compute. reflexivity. Qed.

Lemma gossiped_head :
  take_message (Consensus.network (cons gossiped)) =
    Some (gossip block1, Network.set_msgCh [] (Consensus.network (cons gossiped))).
Proof. vm_compute. reflexivity. Qed.

Lemma started_first : rtc step started first_accepted.
Proof.
  eapply rtc_r; [apply started_gossiped|].
  refine (step_listen gossiped (gossip block1) (Network.set_msgCh [] (Consensus.network (cons gossiped))) _ _ _ gossiped_head).
  - rewrite gossiped_loops. by eexists.
  - by rewrite gossiped_loops.
  - vm_compute. reflexivity.
Qed.

Lemma first_loops : loops first_accepted = mkLoops (Some false) (Some false) false AtTick false Launched.
Proof. vm_compute. reflexivity. Qed.

Lemma started_both : rtc step started both_accepted.
Proof.
  etrans; [apply started_first|].
  eapply rtc_l; [apply (step_poll first_accepted (height_text 2))|].
  - rewrite first_loops. by eexists.
  - by rewrite first_loops.
  - vm_compute. reflexivity.
  - apply rtc_once. apply step_fetch; vm_compute; reflexivity.
Qed.

Lemma default_stake : 1 <= Config.MinStake (Config.Validator Config.DefaultConfig) < 2 ^ 51.
Proof. done. Qed.

Lemma attested_once_witness : (length (attestations 1 both_accepted) <= 1)%nat.
Proof.
  apply (attested_once Config.DefaultConfig key clock started both_accepted 1); [done|done|apply started_setup|apply started_both].
Defined.

Lemma self_finality_witness :
  snd (Consensus.IsFinalized (map_to_list (Consensus.validators (Consensus.eng (cons both_accepted)))) 1 (cons both_accepted))
    = false.
Proof.
  apply not_true_is_false. intros H.
  apply (self_finality Config.DefaultConfig key clock started both_accepted 1 _ default_stake ltac:(done)
    started_setup started_both (Permutation_refl _)) in H. apply H. vm_compute. reflexivity.
Defined.

Lemma setup_outcome_witness : exists n, setup Config.DefaultConfig key clock = Ok n /\ p2p_job n = Idle.
Proof.
  pose proof (setup_outcome Config.DefaultConfig key clock ltac:(by split)) as H. cbv zeta in H.
  rewrite decide_True in H by done. destruct H as (n & i & H & _ & _ & _ & _ & _ & Hj & _). exists n. split; [exact H|exact Hj].
Defined.

Lemma out_of_order_callbacks_witness :
  exists n2, rtc step both_accepted n2 /\ length (attestations 1 n2) = 1%nat /\
    forall n3, rtc step n2 n3 -> attestations 2 n3 = [].
Proof.
  destruct (out_of_order_callbacks Config.DefaultConfig key clock started both_accepted block1 block2)
    as [_ (n2 & H1 & H2 & H3)]; [done|done|apply started_setup|apply started_both|vm_compute; reflexivity
    |vm_compute; reflexivity|done| | |].
  - split; [done|]. split; [right; vm_compute; reflexivity|]. split; [done|]. split; [|done]. right. vm_compute. reflexivity.
  - intros [H|H]; vm_compute in H; discriminate.
  - exists n2. split; [exact H1|]. split; [exact H2|]. intros n3 H. apply (H3 n3 H).
Defined.

Lemma announcement_lost_witness :
  exists n2, step gossiped n2 /\ sync n2 = sync gossiped /\ Network.msgCh (Consensus.network (cons n2)) = [].
Proof.
  destruct (announcement_lost gossiped (gossip block1) (Network.set_msgCh [] (Consensus.network (cons gossiped)))
    (announce_of block1)) as [_ (n2 & H1 & H2 & _ & _ & H3 & _)];
    [by rewrite gossiped_loops; eexists|by rewrite gossiped_loops|by rewrite gossiped_loops; eexists
    |by rewrite gossiped_loops|vm_compute; reflexivity|apply gossiped_head|reflexivity|vm_compute; reflexivity| |].
  - vm_compute. by eexists.
  - exists n2. split; [exact H1|]. split; [exact H2|]. by rewrite H3.
Defined.

Lemma callback_steps_witness :
  exists m, rtc step both_accepted
    (set_job P2PListener Idle (fst (callback 0 0 block1 (set_cons (set_met m (cons both_accepted)) both_accepted)))).
Proof. apply (callback_steps P2PListener); vm_compute; reflexivity. Defined.

End Witnesses.

End Node.
