(* ===== verification/Lifecycle.v ===== *)
(** * cmd/validator: the life of a node

    What holds of a node from its start to its end: its network is one of [Overlay] and
    runs as such, the parts of its state fit together ([wellformed]), its RPC loop catches
    up like the synchroniser's sequential function, and when [main] has gone through its
    shutdown all goroutines can end, leaving no connection behind. *)

From Stdlib Require Import QArith.
From S2P Require Import Prelude Bytes Fmt Eth Metrics P2P Json Sync Wire Network Overlay Verification Client Rounding Float Config BigFloat Quorum Reputation Staking Consensus Node.
Local Open Scope Z_scope.
Import P2P Node.

Module Lifecycle.

#[local] Existing Instance Network.transport.
#[local] Existing Instance Network.transport_laws.

Section Life.
Context {E : EthLib}.

(** ** The node's network *)

(** Nothing runs yet. *)
Record quiet (n : Node) : Prop := {
  q_sync : sync_ctx (loops n) = None;
  q_cons : cons_ctx (loops n) = None;
  q_poller : poller_at (loops n) = AtTick;
  q_p2p : p2p_job n = Idle;
  q_rpc : rpc_job n = Idle;
  q_pool : pool n = [];
  q_http : httpServer (loops n) = NoServer
}.

(** The network through the interface of the consensus engine. *)
Lemma transport_call t p (net : Network.Network) :
  fst (P2P.Broadcast t p net) = fst (Network.Broadcast (Network.order_of net) t p net).
Proof. cbn. by destruct (Network.Broadcast _ t p net). Qed.

Lemma overlay_set_job g j n : overlay (set_job g j n) = overlay n.
Proof. by destruct g. Qed.

Lemma start_block_overlay g b n : overlay (start_block g b n) = overlay n.
Proof. unfold start_block. destruct (Sync.accept b (sync n)); [by destruct g|done]. Qed.

Lemma start_block_todo g b n : todo (start_block g b n) = todo n /\ loops (start_block g b n) = loops n.
Proof. unfold start_block. destruct (Sync.accept b (sync n)); [by destruct g|done]. Qed.

Lemma call_lift f n : Overlay.call_step (Consensus.network (cons n)) (f (Consensus.network (cons n))) ->
  rtc Overlay.step (overlay n) (overlay (on_network f n)).
Proof. intros H. apply rtc_once. exact (Overlay.step_call (overlay n) _ H). Qed.

(** Every step is a run of the network's, or none, once the network is started. *)
Lemma step_overlay n n' :
  step n n' -> StartNetwork ∉ todo n ->
  rtc Overlay.step (overlay n) (overlay n') /\ StartNetwork ∉ todo n'.
Proof.
  intros [err order a rest Ht Hord|o Ho|msg net Hs Hg Hj Hm|Hs Hj|resp Hs Hp Hj|num remote resp Hp Hj|Hs Hp Hj
    |g block reply Hj|g block now1 now2 Hj|c log Hs Hg Hc|Hs|Hw|Hw|Hw|num block Hw Hb] Hn; try (split; [apply rtc_refl|done]).
  - rewrite Ht in Hn. apply not_elem_of_cons in Hn as [Ha Hrest].
    destruct a; try done; cbn [perform]; (split; [|done]); try apply rtc_refl.
    + apply (call_lift Network.cancel (set_ctx _ _ (set_todo rest n))). constructor.
    + apply (call_lift Network.cancel (set_todo rest n)). constructor.
    + apply (call_lift Network.close_listener (set_todo rest n)). constructor.
    + apply (call_lift (Network.close_peers order) (set_todo rest n)). by constructor.
  - split; [|done]. apply rtc_once. destruct o as [net ts]. exact (Overlay.step_sched _ _ Ho).
  - assert (rtc Overlay.step (overlay n) (overlay (set_cons (set_network net (cons n)) n))) as Hr.
    { apply rtc_once. exact (Overlay.step_call (overlay n) net (Overlay.call_receive _ _ _ Hm)). }
    unfold listen. destruct (Type_ msg =? MsgNewBlock); [|done].
    destruct (Wire.DecodeBlockAnnounce _); [|done..].
    rewrite start_block_overlay. by destruct (start_block_todo P2PListener (Sync.block_of_announce a) (set_cons (set_network net (cons n)) n)) as [-> _].
  - unfold poll. destruct (Client.fetchLatestBlockNumber resp); [|split; [apply rtc_refl|done]..].
    destruct (_ <=? _); (split; [apply rtc_refl|done]).
  - unfold fetch. destruct (remote <? num); [split; [apply rtc_refl|done]|].
    destruct (Client.fetchBlock resp) as [b|e|w]; [|split; [apply rtc_refl|done]..].
    rewrite start_block_overlay. destruct (start_block_todo RPCLoop b (set_poller (Fetching (num +[u64] 1) remote) n)) as [-> _].
    split; [apply rtc_refl|done].
  - destruct (run_verify_shape g reply block n) as (j & v & m & _ & ->). rewrite overlay_set_job.
    split; [apply rtc_refl|by destruct g].
  - unfold run_attest. rewrite overlay_set_job. split; [|by destruct g].
    apply rtc_once. unfold attest_block. cbn [fst]. unfold Consensus.AttestBlock.
    set (sig := Consensus.Signature _). pose proof (Overlay.step_call (overlay n) _
      (Overlay.call_Broadcast (Consensus.network (cons n)) (Network.order_of (Consensus.network (cons n))) MsgAttestation sig
        (Permutation_refl _))) as H.
    rewrite <- transport_call in H. exact H.
  - unfold Consensus.processMessages in Hc. destruct (take_message _) as [[msg net]|] eqn:Hm; [|done].
    injection Hc as <- _. split; [|done]. apply rtc_once. exact (Overlay.step_call (overlay n) net (Overlay.call_receive _ _ _ Hm)).
Qed.

(** ** Where [main] is *)

(** An engine's context when [main] has done [k] actions: derived at the [at_]-th, ended
    with the context of [main]. *)
Definition ctx_at (at_ k : nat) : option bool :=
  if (k <? at_)%nat then None else if (k <? 8)%nat then Some false else Some true.

Record progress (k : nat) (n : Node) : Prop := {
  pr_todo : exists minStake, todo n = drop k (main_actions minStake);
  pr_sync : sync_ctx (loops n) = ctx_at 2 k;
  pr_cons : cons_ctx (loops n) = ctx_at 3 k
}.

(** Only [main] moves its own position and the contexts. *)
Lemma step_others n n' :
  step n n' ->
  (exists err order a rest, todo n = a :: rest /\ n' = perform err order a (set_todo rest n)) \/
  (todo n' = todo n /\ sync_ctx (loops n') = sync_ctx (loops n) /\ cons_ctx (loops n') = cons_ctx (loops n)).
Proof.
  intros [err order a rest Ht _|o Ho|msg net Hs Hg Hj Hm|Hs Hj|resp Hs Hp Hj|num remote resp Hp Hj|Hs Hp Hj
    |g block reply Hj|g block now1 now2 Hj|c log Hs Hg Hc|Hs|Hw|Hw|Hw|num block Hw Hb]; try (right; done).
  - left. by exists err, order, a, rest.
  - right. unfold listen. destruct (Type_ msg =? MsgNewBlock); [|done]. destruct (Wire.DecodeBlockAnnounce _); [|done..].
    by destruct (start_block_todo P2PListener (Sync.block_of_announce a) (set_cons (set_network net (cons n)) n)) as [-> ->].
  - right. unfold poll. destruct (Client.fetchLatestBlockNumber resp); [|done..]. by destruct (_ <=? _).
  - right. unfold fetch. destruct (remote <? num); [done|]. destruct (Client.fetchBlock resp) as [b|e|w]; [|done..].
    by destruct (start_block_todo RPCLoop b (set_poller (Fetching (num +[u64] 1) remote) n)) as [-> ->].
  - right. destruct (run_verify_shape g reply block n) as (j & v & m & _ & ->). by destruct g.
  - right. by destruct g.
Qed.

Lemma drop_main k minStake a rest :
  drop k (main_actions minStake) = a :: rest -> main_actions minStake !! k = Some a /\ rest = drop (S k) (main_actions minStake).
Proof.
  intros H. assert (main_actions minStake !! k = Some a) as Hk.
  { replace k with (k + 0)%nat by lia. by rewrite <- lookup_drop, H. }
  split; [done|]. apply drop_S in Hk. congruence.
Qed.

Lemma perform_progress k err order a rest n :
  todo n = a :: rest -> a <> StartNetwork -> progress k n -> progress (S k) (perform err order a (set_todo rest n)).
Proof.
  intros Ht Hns [[ms Htd] Hs Hc]. rewrite Ht in Htd. symmetry in Htd. apply drop_main in Htd as [Hk ->].
  assert (todo (perform err order a (set_todo (drop (S k) (main_actions ms)) n)) = drop (S k) (main_actions ms)) as Htodo
    by (by destruct a).
  split; [by exists ms|..]; clear Htodo;
    do 14 (destruct k as [|k]; [injection Hk as <-; first [done|cbn; rewrite ?Hs, ?Hc; reflexivity]|]); discriminate Hk.
Qed.

Lemma quiet_step n n' :
  quiet n -> step n n' -> exists err order a rest, todo n = a :: rest /\ n' = perform err order a (set_todo rest n).
Proof.
  intros [Q1 Q2 Q3 Q4 Q5 Q6 Q7] [err order a rest Ht _|o Ho|msg net Hs Hg Hj Hm|Hs Hj|resp Hs Hp Hj|num remote resp Hp Hj|Hs Hp Hj
    |g block reply Hj|g block now1 now2 Hj|c log Hs Hg Hc|Hs|Hw|Hw|Hw|num block Hw Hb];
    try (unfold answers in *; try rewrite Q1 in *; try rewrite Q2 in *; try rewrite Q3 in *; try rewrite Q7 in *; naive_solver).
  - destruct Ho as [t rest net ts Hp _]. unfold overlay in Hp. cbn [Overlay.tasks] in Hp. rewrite Q6 in Hp.
    exfalso. exact (Permutation_nil_cons Hp).
  - destruct g; cbn [job_of] in Hj; [by rewrite Q4 in Hj|by rewrite Q5 in Hj].
  - destruct g; cbn [job_of] in Hj; [by rewrite Q4 in Hj|by rewrite Q5 in Hj].
Qed.

(** The network started and [main] gone through its first [k] actions. *)
Record live (k : nat) (n : Node) : Prop := {
  lv_overlay : Overlay.reachable (overlay n);
  lv_progress : progress k n;
  lv_started : (1 <= k)%nat;
  lv_cancelled : (8 <= k)%nat -> Network.cancelled (Consensus.network (cons n)) = true
}.

Lemma live_todo k n : live k n -> StartNetwork ∉ todo n.
Proof.
  intros [_ [[ms ->] _ _] Hk _] Hin. destruct k as [|k]; [lia|].
  assert (StartNetwork ∈ drop 1 (main_actions ms)) as Hin1.
  { replace (S k) with (1 + k)%nat in Hin by lia. rewrite <- drop_drop in Hin.
    rewrite <- (take_drop k (drop 1 (main_actions ms))). apply elem_of_app. by right. }
  cbn [drop main_actions] in Hin1. repeat (apply elem_of_cons in Hin1 as [Hin1|Hin1]; [discriminate|]).
  by apply elem_of_nil in Hin1.
Qed.

Lemma step_live k n n' : step n n' -> live k n -> exists k', live k' n'.
Proof.
  intros Hst Hl. pose proof (live_todo _ _ Hl) as Hn. destruct Hl as [Hov Hp Hk Hc].
  destruct (step_overlay _ _ Hst Hn) as [Hrun _].
  assert (Overlay.reachable (overlay n')) as Hov'.
  { destruct Hov as (parent & port & boot & Hov). exists parent, port, boot. by etrans. }
  destruct (step_others _ _ Hst) as [(err & order & a & rest & Ht & ->)|(Ht & Hs & Hcc)].
  - exists (S k). split; [done| |lia|].
    + apply perform_progress; [done| |done]. intros ->. apply Hn. rewrite Ht. left.
    + intros Hk8. destruct (decide (8 <= k)%nat) as [H8|H8].
      * apply (Overlay.steps_cancelled _ _ Hrun). by apply Hc.
      * destruct Hp as [[ms Htd] _ _]. rewrite Ht in Htd. symmetry in Htd. apply drop_main in Htd as [Ha _].
        replace k with 7%nat in Ha by lia. injection Ha as <-.
        destruct (Overlay.reachable_ctx _ Hov) as [d Hd]. unfold overlay in Hd. cbn [Overlay.net] in Hd.
        cbn [perform]. unfold Network.cancelled, on_network, Consensus_Stop, Sync_Stop.
        cbn [cons set_cons set_ctx set_loops set_todo Consensus.network set_network Network.ctx Network.cancel Network.set_ctx].
        by rewrite Hd.
  - exists k. destruct Hp as [H1 H2 H3]. split; [done| |done|].
    + split; [by rewrite Ht|by rewrite Hs|by rewrite Hcc].
    + intros H8. apply (Overlay.steps_cancelled _ _ Hrun). by apply Hc.
Qed.

(** Before the network is started, when it could not listen, and from its start on. *)
Inductive phase (n : Node) : Prop :=
| starting port boot :
    quiet n -> Consensus.network (cons n) = Network.NewNetwork port boot -> progress 0 n -> phase n
| failed port boot err :
    quiet n -> Consensus.network (cons n) = fst (Network.Start false (Some err) (Network.NewNetwork port boot)) ->
    todo n = [] -> phase n
| running k : live k n -> phase n.

Lemma step_phase n n' : step n n' -> phase n -> phase n'.
Proof.
  intros Hst [port boot Hq Hnet Hp|port boot err Hq Hnet Ht|k Hl].
  - destruct (quiet_step _ _ Hq Hst) as (err & order & a & rest' & Ha & ->).
    destruct Hp as [[ms Htd] _ _]. rewrite Ha in Htd. injection Htd as -> ->.
    cbn [perform]. unfold start_network. cbn [cons set_todo]. rewrite Hnet.
    destruct err as [e|]; cbn [Network.Start].
    + eapply (failed _ port boot e); [by destruct Hq|done|done].
    + apply (running _ 1). destruct Hq. split; [by exists false, port, boot| |lia|lia]. split; [by exists ms|done|done].
  - destruct (quiet_step _ _ Hq Hst) as (e & order & a & rest' & Ha & _). congruence.
  - destruct (step_live _ _ _ Hst Hl) as [k' Hl']. by apply (running _ k').
Qed.

Lemma steps_phase n n' : rtc step n n' -> phase n -> phase n'.
Proof. induction 1; eauto using step_phase. Qed.

(** What [setup] leaves to the services. *)
Lemma setup_quiet cfg key clock n :
  setup cfg key clock = Ok n ->
  phase n /\ Sync.blocks (sync n) = ∅ /\ Sync.latestBlock (sync n) = 0 /\ quiet n /\
  Consensus.localAddr (Consensus.eng (cons n)) = own_address key /\
  Consensus.attestations (Consensus.eng (cons n)) = ∅ /\ Consensus.met (cons n) = Metrics.New /\
  Network.msgCh (Consensus.network (cons n)) = [] /\ Sync.onNewBlock (sync n) = true.
Proof.
  unfold setup. intros (mgr & _ & H)%outcome_bind_Ok. apply outcome_bind_Ok in H as (c & Hc & H).
  assert (Consensus.network c = Network.NewNetwork (Config.P2PPort (Config.Validator cfg)) (Config.Bootnodes (Config.Validator cfg)) /\
    Consensus.met c = Metrics.New /\ Consensus.attestations (Consensus.eng c) = ∅ /\
    Consensus.localAddr (Consensus.eng c) = own_address key) as (Hn & Hm & Ha & Hl).
  { revert Hc. set (s0 := Consensus.mkState _ _ _ _). generalize (initial_stake (Config.MinStake (Config.Validator cfg))).
    intros stake. unfold Consensus.RegisterValidator. intros (f & _ & Hc)%outcome_bind_Ok. revert Hc.
    destruct (Consensus.repMgr s0) as [m|]; [destruct (Reputation.ComputeSovereignty _ _ _ _ _) as [m' [x t]]|];
      intros [= <-]; (split; [|split; [|split]]); reflexivity. }
  clear Hc. injection H as <-. cbn [sync cons]. rewrite Hn, Hm, Ha, Hl.
  assert (forall a b ms, quiet (mkNode (Sync.OnNewBlock Sync.NewEngine) a c mgr b Idle Idle [] (mkLoops None None false AtTick false NoServer) ms))
    as Hq by (intros; split; reflexivity).
  split; [|split; [|split; [|split; [|split; [|split; [|split; [|split]]]]]]]; [|reflexivity|reflexivity|apply Hq|reflexivity..].
  eapply starting; [apply Hq|exact Hn|]. split; [eexists; reflexivity|reflexivity|reflexivity].
Qed.

(** C10. The node and its network are composed as in the code: whatever the node does, its
    network is in a state of [Overlay], reached by running the network's goroutines and
    calls alone; before the network is started, or when it could not listen, it has no
    connection, no peer and no goroutine, and nothing is ever processed. *)
Theorem network_refined (cfg : Config.t) (key : PrivateKey) (clock : nat -> Z) (n0 n : Node)
  (H0 : setup cfg key clock = Ok n0) (Hr : rtc step n0 n) :
  Overlay.reachable (overlay n) \/
  (pool n = [] /\ Network.peers (Consensus.network (cons n)) = ∅ /\ Network.conns (Consensus.network (cons n)) = ∅ /\
   p2p_job n = Idle /\ rpc_job n = Idle /\ Network.listener (Consensus.network (cons n)) = None).
Proof.
  apply setup_quiet in H0 as [Hp _]. apply (steps_phase _ _ Hr) in Hp as [port boot [] Hnet _|port boot err [] Hnet _|k [Hov _ _ _]].
  - right. rewrite Hnet. by split_and!.
  - right. rewrite Hnet. by split_and!.
  - by left.
Qed.

(** ** Well-formed nodes *)

(** The chain, the blocks in hand and the attestations. *)
Record core_wf (addr : Address) (n : Node) : Prop := {
  cw_latest : is_u64 (Sync.latestBlock (sync n));
  cw_top : Sync.blocks (sync n) = ∅ /\ Sync.latestBlock (sync n) = 0 \/
    is_Some (Sync.GetBlock (Sync.latestBlock (sync n)) (sync n));
  cw_chain k b : Sync.GetBlock k (sync n) = Some b -> Sync.Number b = k /\ Wire.block_typed b;
  cw_job g b : job_block (job_of g n) = Some b ->
    Wire.block_typed b /\ Sync.GetBlock (Sync.Number b) (sync n) = Some b;
  cw_addr : Consensus.localAddr (Consensus.eng (cons n)) = addr;
  cw_attestation k a : a ∈ attestations k n ->
    Consensus.BlockNumber a = k /\ is_Some (Sync.GetBlock k (sync n)) /\ Consensus.Validator a = addr
}.

Lemma core_wf_same addr n n' : same_core n n' -> core_wf addr n -> core_wf addr n'.
Proof.
  intros Hs [H1 H2 H3 H4 H5 H6]. pose proof Hs as [Hb Hl _ _ _ Ha _ Hd].
  assert (forall k, Sync.GetBlock k (sync n') = Sync.GetBlock k (sync n)) as Hg by (intros k; unfold Sync.GetBlock; by rewrite Hb).
  split.
  - by rewrite Hl.
  - by rewrite Hl, Hb, Hg.
  - intros k b. rewrite Hg. apply H3.
  - intros g b. rewrite (same_core_job g _ _ Hs), Hg. apply H4.
  - by rewrite Hd.
  - intros k a. unfold attestations. rewrite Ha, Hg. apply H6.
Qed.

Lemma job_block_set_job g g' j n :
  job_block (job_of g (set_job g' j n)) = job_block j \/ job_block (job_of g (set_job g' j n)) = job_block (job_of g n).
Proof. destruct g, g'; cbn; auto. Qed.

(** A block in hand may be put aside for another of the chain, or for none. *)
Lemma core_wf_set_job addr g j n :
  (forall b, job_block j = Some b -> Wire.block_typed b /\ Sync.GetBlock (Sync.Number b) (sync n) = Some b) ->
  core_wf addr n -> core_wf addr (set_job g j n).
Proof.
  intros Hj [H1 H2 H3 H4 H5 H6]. destruct (set_job_other g j n) as (Hs & Hc & _).
  split; rewrite ?Hs, ?Hc; try done.
  - intros g' b. destruct (job_block_set_job g' g j n) as [-> | ->]; [apply Hj|apply H4].
  - intros k a. unfold attestations. rewrite Hc. apply H6.
Qed.

Lemma core_wf_accept addr block s n :
  Wire.block_typed block -> Sync.accept block (sync n) = Some s -> core_wf addr n ->
  core_wf addr (set_sync s n) /\ Sync.GetBlock (Sync.Number block) s = Some block.
Proof.
  intros Hty (Hnew & _ & ->)%Sync.accept_Some [H1 H2 H3 H4 H5 H6]. set (s := Sync.mkEngine _ _ _ _).
  assert (Sync.GetBlock (Sync.Number block) s = Some block) as Hin by apply lookup_insert_eq.
  assert (forall k b, Sync.GetBlock k (sync n) = Some b -> Sync.GetBlock k s = Some b) as Hold.
  { intros k b Hb. assert (Sync.Number block <> k) as Hne by (intros <-; unfold Sync.GetBlock in Hb; congruence).
    unfold Sync.GetBlock. cbn. by rewrite lookup_insert_ne. }
  split; [|exact Hin]. split.
  - apply Hty.
  - right. by exists block.
  - intros k b. change (sync (set_sync s n)) with s. unfold Sync.GetBlock. cbn.
    intros [[<- <-]|[_ Hb]]%lookup_insert_Some; [done|by apply H3].
  - intros g b Hb. destruct (H4 g b) as [? Hg]; [by destruct g|]. split; [done|]. by apply Hold.
  - exact H5.
  - intros k a Hin'. destruct (H6 k a Hin') as (? & [b Hb] & ?). split; [done|]. split; [|done]. exists b. by apply Hold.
Qed.

Lemma step_core_wf addr n n' : step n n' -> core_wf addr n -> core_wf addr n'.
Proof.
  intros [n1 Hs|g block n0 Hs Hj Hty|g block reply Hj|g block now1 now2 Hj]%step_change Hn.
  - by apply (core_wf_same addr n).
  - apply (core_wf_same addr n n0 Hs) in Hn. clear Hs. unfold start_block.
    destruct (Sync.accept block (sync n0)) as [s|] eqn:Ea; [|done].
    destruct (core_wf_accept addr block s n0 Hty Ea Hn) as [Hn' Hin].
    apply core_wf_set_job; [|exact Hn']. by intros b [= <-].
  - destruct (run_verify_shape g reply block n) as (j & v & m & Hjb & ->).
    apply core_wf_set_job; [|by apply (core_wf_same addr n)].
    intros b Hb. apply (cw_job _ _ Hn g). rewrite Hj. rewrite Hb in Hjb.
    apply list_elem_of_In in Hjb as [Hx|[Hx|[]]]; [done|exact Hx].
  - unfold run_attest. apply core_wf_set_job; [done|].
    destruct (attest_block_shape now1 now2 block n) as (att & Hsh & [Hval Hnum] & Heng).
    destruct (cw_job _ _ Hn g block) as [_ Hin]; [by rewrite Hj|]. destruct Hn as [H1 H2 H3 H4 H5 H6].
    split; [exact H1|exact H2|exact H3|exact H4|by rewrite Heng|].
    intros k a. unfold attestations at 1. rewrite Heng. cbn [Consensus.attestations Consensus.set_attestations].
    destruct (decide (Sync.Number block = k)) as [<-|Hne].
    + rewrite lookup_insert_eq. cbn [default]. intros [Ha| ->%list_elem_of_singleton]%elem_of_app; [by apply H6|].
      split; [done|]. split; [by exists block|congruence].
    + rewrite lookup_insert_ne by done. apply H6.
Qed.

(** The metrics, and the catch-up loop's counters. *)
Record aux_typed (n : Node) : Prop := {
  at_created : is_u64 (Metrics.AttestationsCreated (Consensus.met (cons n)));
  at_synced : is_u64 (Metrics.SyncedBlock (Consensus.met (cons n)));
  at_flag : Metrics.IsSynced (Consensus.met (cons n)) ∈ [0; 1];
  at_peers : is_i32 (Metrics.PeerCount (Consensus.met (cons n)));
  at_staked : is_i64 (Metrics.StakedAmountWei (Consensus.met (cons n)));
  at_requests : is_u64 (Metrics.RPCRequests (Consensus.met (cons n)));
  at_poller num remote : poller_at (loops n) = Fetching num remote -> is_u64 num /\ is_u64 remote
}.

Lemma aux_typed_same n n' :
  Consensus.met (cons n') = Consensus.met (cons n) -> poller_at (loops n') = poller_at (loops n) ->
  aux_typed n -> aux_typed n'.
Proof. intros Hm Hl []. split; by rewrite ?Hm, ?Hl. Qed.

Lemma aux_typed_poller n p :
  (forall num remote, p = Fetching num remote -> is_u64 num /\ is_u64 remote) -> aux_typed n -> aux_typed (set_poller p n).
Proof. intros Hp []. by split. Qed.

Lemma start_block_aux g b n : aux_typed n -> aux_typed (start_block g b n).
Proof.
  apply aux_typed_same; [by rewrite start_block_cons|]. by destruct (start_block_todo g b n) as [_ ->].
Qed.

Lemma perform_aux err order a n : aux_typed n -> aux_typed (perform err order a n).
Proof.
  intros Hn. destruct a; cbn [perform]; try exact Hn; try (apply (aux_typed_same n); [reflexivity|reflexivity|exact Hn]).
  - unfold start_network. destruct (Network.Start _ _ _) as [net' [e|]];
      (apply (aux_typed_same n); [reflexivity|reflexivity|exact Hn]).
  - destruct Hn. split; try assumption; unfold wire_metrics; cbn [cons set_sync set_ver set_cons Consensus.met];
      unfold Metrics.seed; destruct (Consensus.met (cons n)); cbn; try assumption; auto with go.
Qed.

Lemma add_created_typed m : is_u64 (Metrics.AttestationsCreated (Metrics.add_AttestationsCreated m)).
Proof. destruct m. cbn. auto with go. Qed.

Lemma run_verify_met g reply block n :
  loops (run_verify g reply block n) = loops n /\
  (Consensus.met (cons (run_verify g reply block n)) = Consensus.met (cons n) \/
   exists f, f ∈ [0; 1] /\
     Consensus.met (cons (run_verify g reply block n)) = Metrics.store_Synced (Sync.Number block) f (Consensus.met (cons n))).
Proof.
  unfold run_verify, Sync.notify. set (m := if Sync.metrics (sync n) then _ else _).
  assert (m = Consensus.met (cons n) \/ exists f, f ∈ [0; 1] /\
    m = Metrics.store_Synced (Sync.Number block) f (Consensus.met (cons n))) as Hm.
  { unfold m. destruct (Sync.metrics (sync n)); [right|by left]. eexists. split; [|reflexivity].
    destruct (Sync.IsSynced _ _); [right; left|left]. }
  clearbody m. destruct (Sync.onNewBlock (sync n)); [|by destruct g].
  unfold verify_block. destruct (Verification.VerifyBlock block _) as [v r].
  destruct (Verification.rValid r); by destruct g.
Qed.

Lemma run_verify_aux g reply block n :
  is_u64 (Sync.Number block) -> aux_typed n -> aux_typed (run_verify g reply block n).
Proof.
  intros Hb Hn. destruct (run_verify_met g reply block n) as [Hl [Hm|(f & Hf & Hm)]].
  - apply (aux_typed_same n); [exact Hm|by rewrite Hl|exact Hn].
  - destruct Hn as [H1 H2 H3 H4 H5 H6 H7].
    split; rewrite ?Hm, ?Hl; try assumption; destruct (Consensus.met (cons n)); assumption.
Qed.

Lemma run_attest_aux g now1 now2 block n : aux_typed n -> aux_typed (run_attest g now1 now2 block n).
Proof.
  intros [H1 H2 H3 H4 H5 H6 H7]. unfold run_attest.
  destruct (set_job_other g Idle (fst (attest_block now1 now2 block n))) as (_ & Hc & _).
  assert (loops (set_job g Idle (fst (attest_block now1 now2 block n))) = loops n) as Hl by (by destruct g).
  assert (Consensus.met (cons (fst (attest_block now1 now2 block n))) =
    if Consensus.metrics (Consensus.eng (cons n)) then Metrics.add_AttestationsCreated (Consensus.met (cons n))
    else Consensus.met (cons n)) as Hm by reflexivity.
  split; rewrite ?Hc, ?Hm, ?Hl; try assumption; destruct (Consensus.metrics _); try assumption;
    destruct (Consensus.met (cons n)); cbn in *; try assumption. auto with go.
Qed.

Lemma step_aux addr n n' : step n n' -> core_wf addr n -> aux_typed n -> aux_typed n'.
Proof.
  intros Hst Hcore Hn.
  destruct Hst as [err order a rest Ht _|o Ho|msg net Hs Hg Hj Hm|Hs Hj|resp Hs Hp Hj|num remote resp Hp Hj|Hs Hp Hj
    |g block reply Hj|g block now1 now2 Hj|c log Hs Hg Hc|Hs|Hw|Hw|Hw|num block Hw Hb];
    try (apply (aux_typed_same n); [reflexivity|reflexivity|exact Hn]).
  - apply perform_aux. apply (aux_typed_same n); [reflexivity|reflexivity|exact Hn].
  - unfold listen. assert (aux_typed (set_cons (set_network net (cons n)) n)) as Hn'
      by (apply (aux_typed_same n); [reflexivity|reflexivity|exact Hn]).
    destruct (Type_ msg =? MsgNewBlock); [|exact Hn']. destruct (Wire.DecodeBlockAnnounce _); [|exact Hn'..].
    by apply start_block_aux.
  - unfold poll. destruct (Client.fetchLatestBlockNumber resp) as [h|e|w] eqn:Eh; [|exact Hn..].
    destruct (_ <=? _); [exact Hn|]. apply aux_typed_poller; [|exact Hn]. intros num remote [= <- <-].
    split; [auto with go|by eapply Client.fetchLatestBlockNumber_typed].
  - destruct (at_poller _ Hn _ _ Hp) as [_ Hr]. unfold fetch. destruct (remote <? num).
    { apply aux_typed_poller; [by intros ? ?|exact Hn]. }
    destruct (Client.fetchBlock resp) as [b|e|w]; [|apply aux_typed_poller; [by intros ? ?|exact Hn]..].
    apply start_block_aux, aux_typed_poller; [|exact Hn]. intros ? ? [= <- <-]. split; [auto with go|exact Hr].
  - apply aux_typed_poller; [by intros ? ?|exact Hn].
  - apply run_verify_aux; [|exact Hn]. apply (cw_job _ _ Hcore g block). by rewrite Hj.
  - by apply run_attest_aux.
  - unfold Consensus.processMessages in Hc. destruct (take_message _) as [[msg net]|]; [|discriminate].
    injection Hc as <- _. apply (aux_typed_same n); [reflexivity|reflexivity|exact Hn].
  - destruct Hn as [H1 H2 H3 H4 H5 H6 H7].
    split; try assumption; cbn [cons set_cons set_met Consensus.met]; destruct (Consensus.met (cons n)); cbn in *; try assumption.
    auto with go.
Qed.

(** *** The books

    What an attestation moves besides the list it is appended to, and what nothing moves. *)

Definition total_attested (n : Node) : nat :=
  map_fold (fun _ atts c => (length atts + c)%nat) 0%nat (Consensus.attestations (Consensus.eng (cons n))).

Lemma total_append (m : gmap Z (list Consensus.Attestation)) k a :
  let total := map_fold (fun _ atts c => (length atts + c)%nat) 0%nat in
  total (<[k := default [] (m !! k) ++ [a]]> m) = S (total m).
Proof.
  cbv zeta. destruct (m !! k) as [l|] eqn:Hk; cbn [default].
  - rewrite <- (insert_delete_id m k l Hk) at 2. rewrite <- insert_delete_eq.
    rewrite !map_fold_insert_L by (apply lookup_delete_eq || lia). rewrite length_app. cbn. lia.
  - rewrite map_fold_insert_L by (done || lia). done.
Qed.

(** The XP after that many attestations: a sum of 64 bits, capped. *)
Fixpoint xp_after (c : Reputation.XPConfig) (k : nat) : Z :=
  match k with
  | O => 0
  | S k => let xp := xp_after c k +[u64] Reputation.BlockAttestationXP c in
           if Reputation.MaxXP c <? xp then Reputation.MaxXP c else xp
  end.

Lemma xp_after_range c k : 0 <= Reputation.MaxXP c -> 0 <= xp_after c k <= Reputation.MaxXP c.
Proof.
  intros Hc. destruct k as [|k]; cbn [xp_after]; [lia|]. set (xp := _ +[u64] _).
  assert (is_u64 xp) as [? _] by (unfold xp; auto with go). destruct (Z.ltb_spec (Reputation.MaxXP c) xp); lia.
Qed.

Lemma xp_after_min c k :
  0 <= Reputation.MaxXP c < 2 ^ 63 -> 0 <= Reputation.BlockAttestationXP c < 2 ^ 63 ->
  xp_after c k = Z.min (Z.of_nat k * Reputation.BlockAttestationXP c) (Reputation.MaxXP c).
Proof.
  intros Hc Ha. induction k as [|k IH]; cbn [xp_after]; [lia|].
  pose proof (xp_after_range c k ltac:(lia)). rewrite u64_small by (unfold is_u64; lia).
  rewrite IH in *. rewrite Nat2Z.inj_succ, Z.mul_succ_l. assert (0 <= Z.of_nat k * Reputation.BlockAttestationXP c) by nia.
  destruct (Z.ltb_spec (Reputation.MaxXP c)
    (Z.min (Z.of_nat k * Reputation.BlockAttestationXP c) (Reputation.MaxXP c) + Reputation.BlockAttestationXP c)); lia.
Qed.

(** The one entry of the reputation manager after [k] attestations. *)
Definition own_entry (addr : Address) (k : nat) (m : Reputation.Manager) : Prop :=
  exists r, Reputation.reps m = {[addr := r]} /\ Reputation.rAddress r = addr /\
    Reputation.BlocksAttested r = u64 (Z.of_nat k) /\ Reputation.XP r = xp_after (Reputation.cfg m) k /\
    Reputation.UptimeBps r = 10000 /\ Reputation.BlocksMissed r = 0 /\ Reputation.SlashCount r = 0 /\
    0 <= Reputation.Tier r <= 4.

Lemma own_entry_attest addr k now m :
  own_entry addr k m -> own_entry addr (S k) (Reputation.RecordAttestation addr now m).
Proof.
  intros (r & Hr & Ha & Hb & Hx & Hu & Hm & Hs & Ht). unfold Reputation.RecordAttestation, Reputation.on_rep.
  rewrite Hr, lookup_singleton_eq. eexists. cbn [Reputation.reps Reputation.cfg]. rewrite insert_singleton_eq.
  split; [reflexivity|]. unfold Reputation.addXP, Reputation.set_XP, Reputation.set_LastActive, Reputation.set_BlocksAttested.
  cbn. rewrite Hb, Hx. split_and!; try done; try lia.
  unfold u64. rewrite Zplus_mod_idemp_l. f_equal. lia.
Qed.

(** The metrics, all but six fields at zero. *)
Definition written (m : Metrics.t) : Prop :=
  exists created synced flag peers staked requests,
    m = Metrics.mk created 0 0 0 0 synced flag 0 0 0 peers staked 0 0 requests 0 0 0 0 0 0 0.

(** [n] is a later state of the node that started as [n0]. *)
Record books (addr : Address) (n0 n : Node) : Prop := {
  bk_staking : staking n = staking n0;
  bk_bounds : bounds n = bounds n0;
  bk_validators : Consensus.validators (Consensus.eng (cons n)) = Consensus.validators (Consensus.eng (cons n0));
  bk_reputation : exists m, Consensus.repMgr (cons n) = Some m /\
    Some (Reputation.cfg m) = Reputation.cfg <$> Consensus.repMgr (cons n0) /\ own_entry addr (total_attested n) m;
  bk_written : written (Consensus.met (cons n));
  bk_created : 0 <= Metrics.AttestationsCreated (Consensus.met (cons n)) <= Z.of_nat (total_attested n);
  bk_synced : Metrics.SyncedBlock (Consensus.met (cons n)) = 0 \/
    is_Some (Sync.GetBlock (Metrics.SyncedBlock (Consensus.met (cons n))) (sync n))
}.

Lemma total_attested_same n n' :
  Consensus.attestations (Consensus.eng (cons n')) = Consensus.attestations (Consensus.eng (cons n)) ->
  total_attested n' = total_attested n.
Proof. unfold total_attested. by intros ->. Qed.

(** What a step writes of the books, an attestation apart. *)
Inductive bookkeeping (n n' : Node) : Metrics.t -> Prop :=
| book_same : bookkeeping n n' (Consensus.met (cons n))
| book_synced k f : is_Some (Sync.GetBlock k (sync n)) -> bookkeeping n n' (Metrics.store_Synced k f (Consensus.met (cons n)))
| book_seed p s : bookkeeping n n' (Metrics.seed p s (Consensus.met (cons n)))
| book_request : bookkeeping n n' (Metrics.add_RPCRequests (Consensus.met (cons n))).

Lemma books_keep addr n0 n n' m :
  books addr n0 n -> bookkeeping n n' m ->
  staking n' = staking n -> bounds n' = bounds n ->
  Consensus.validators (Consensus.eng (cons n')) = Consensus.validators (Consensus.eng (cons n)) ->
  Consensus.attestations (Consensus.eng (cons n')) = Consensus.attestations (Consensus.eng (cons n)) ->
  Consensus.repMgr (cons n') = Consensus.repMgr (cons n) -> Consensus.met (cons n') = m ->
  (forall k, is_Some (Sync.GetBlock k (sync n)) -> is_Some (Sync.GetBlock k (sync n'))) -> books addr n0 n'.
Proof.
  intros [H1 H2 H3 H4 (c & b & f & p & t & r & Hw) H6 H7] Hm Hst Hbo Hva Hat Hre Hme Hch.
  pose proof (total_attested_same _ _ Hat) as Htot. rewrite Hw in H6, H7. cbn in H6, H7.
  assert (written m /\ Metrics.AttestationsCreated m = c /\
    (Metrics.SyncedBlock m = 0 \/ is_Some (Sync.GetBlock (Metrics.SyncedBlock m) (sync n)))) as (Hwm & Hcm & Hsm).
  { destruct Hm as [|k g Hk|q u|]; rewrite Hw; cbn.
    - split; [by exists c, b, f, p, t, r|done].
    - split; [by exists c, k, g, p, t, r|]. split; [done|by right].
    - split; [by exists c, b, f, q, u, r|done].
    - split; [by exists c, b, f, p, t, (r +[u64] 1)|done]. }
  split; [congruence|congruence|congruence| |congruence|rewrite Hme, Hcm, Htot; done|].
  - by rewrite Hre, Htot.
  - rewrite Hme. destruct Hsm as [?|?]; [by left|right; by apply Hch].
Qed.

Lemma books_attest addr n0 n g now1 now2 block :
  Consensus.localAddr (Consensus.eng (cons n)) = addr -> books addr n0 n -> books addr n0 (run_attest g now1 now2 block n).
Proof.
  intros Haddr [H1 H2 H3 (m & Hm & Hc & Hown) (c & b & f & p & t & r & Hw) H6 H7].
  unfold run_attest. destruct (attest_block_shape now1 now2 block n) as (att & Hsh & _ & Heng).
  set (n1 := fst (attest_block now1 now2 block n)) in *.
  destruct (set_job_other g Idle n1) as (Hs & Hcn & _ & Hb).
  assert (Consensus.repMgr (cons n1) = Some (Reputation.RecordAttestation addr now2 m)) as Hrep
    by (unfold n1, attest_block; cbn; by rewrite Hm, Haddr).
  assert (Consensus.met (cons n1) = if Consensus.metrics (Consensus.eng (cons n)) then Metrics.add_AttestationsCreated (Consensus.met (cons n))
    else Consensus.met (cons n)) as Hmet by reflexivity.
  assert (total_attested (set_job g Idle n1) = S (total_attested n)) as Htot.
  { unfold total_attested. rewrite Hcn, Heng. apply total_append. }
  rewrite Hw in H6, H7. cbn in H6, H7. split; rewrite ?Hcn, ?Htot.
  - by destruct g.
  - by rewrite Hb.
  - by rewrite Heng.
  - rewrite Hrep. eexists. split; [reflexivity|]. split; [|by apply own_entry_attest].
    rewrite <- Hc. unfold Reputation.RecordAttestation, Reputation.on_rep. by destruct (Reputation.reps m !! addr).
  - rewrite Hmet, Hw. destruct (Consensus.metrics _); [by exists (c +[u64] 1), b, f, p, t, r|by exists c, b, f, p, t, r].
  - rewrite Hmet, Hw. destruct (Consensus.metrics _); cbn; [|lia]. destruct (u64_range (c + 1)) as [? _].
    assert (c +[u64] 1 <= c + 1) by (unfold u64; apply Z.mod_le; lia). lia.
  - rewrite Hs, Hmet, Hw. by destruct (Consensus.metrics _).
Qed.

Lemma start_block_books addr n0 g b n : books addr n0 n -> books addr n0 (start_block g b n).
Proof.
  intros Hb. unfold start_block. destruct (Sync.accept b (sync n)) as [s|] eqn:Ea; [|exact Hb].
  assert (forall m, cons (set_job g (Accepted b) (set_sync s n)) = cons n /\ sync (set_job g m (set_sync s n)) = s) as Hset
    by (by destruct g).
  eapply books_keep; [exact Hb|apply book_same|..].
  all: try (by destruct g).
  intros k [b' Hk]. destruct (Hset (Accepted b)) as [_ ->]. apply Sync.accept_Some in Ea as (Hnew & _ & ->).
  assert (Sync.Number b <> k) as Hne by (intros <-; unfold Sync.GetBlock in Hk; congruence).
  exists b'. unfold Sync.GetBlock. cbn. by rewrite lookup_insert_ne.
Qed.

Lemma perform_books addr n0 err order a n : books addr n0 n -> books addr n0 (perform err order a n).
Proof.
  intros Hb. destruct a; cbn [perform]; try exact Hb; try (by eapply books_keep; [exact Hb|apply book_same|done..]).
  - unfold start_network. destruct (Network.Start _ _ _) as [net' [e|]]; by eapply books_keep; [exact Hb|apply book_same|done..].
  - by eapply books_keep; [exact Hb|apply book_seed|done..].
Qed.

Lemma step_books addr n0 n n' : step n n' -> core_wf addr n -> books addr n0 n -> books addr n0 n'.
Proof.
  intros Hst Hcore Hb.
  destruct Hst as [err order a rest Ht _|o Ho|msg net Hs Hg Hj Hm|Hs Hj|resp Hs Hp Hj|num remote resp Hp Hj|Hs Hp Hj
    |g block reply Hj|g block now1 now2 Hj|c log Hs Hg Hc|Hs|Hw|Hw|Hw|num block Hw Hbl];
    try (by eapply books_keep; [exact Hb|apply book_same|done..]).
  - apply perform_books. by eapply books_keep; [exact Hb|apply book_same|done..].
  - assert (books addr n0 (set_cons (set_network net (cons n)) n)) as Hn' by (by eapply books_keep; [exact Hb|apply book_same|done..]).
    unfold listen. destruct (Type_ msg =? MsgNewBlock); [|exact Hn']. destruct (Wire.DecodeBlockAnnounce _); [|exact Hn'..].
    by apply start_block_books.
  - unfold poll. destruct (Client.fetchLatestBlockNumber resp); [|exact Hb..].
    destruct (_ <=? _); [exact Hb|]. by eapply books_keep; [exact Hb|apply book_same|done..].
  - assert (forall p, books addr n0 (set_poller p n)) as Hn' by (intros p; by eapply books_keep; [exact Hb|apply book_same|done..]).
    unfold fetch. destruct (remote <? num); [apply Hn'|]. destruct (Client.fetchBlock resp); [|apply Hn'..].
    by apply start_block_books.
  - destruct (run_verify_met g reply block n) as [_ Hm]. destruct (cw_job _ _ Hcore g block) as [_ Hin]; [by rewrite Hj|].
    destruct (run_verify_shape g reply block n) as (j & v & m & _ & Heq).
    destruct Hm as [Hm|(f & _ & Hm)]; rewrite Heq in *.
    + eapply books_keep; [exact Hb|apply book_same|by destruct g..].
    + eapply books_keep; [exact Hb|apply (book_synced _ _ (Sync.Number block) f); by exists block|destruct g; done || exact Hm..].
  - apply books_attest; [apply Hcore|exact Hb].
  - unfold Consensus.processMessages in Hc. destruct (take_message _) as [[msg net]|]; [|discriminate].
    injection Hc as <- _. by eapply books_keep; [exact Hb|apply book_same|done..].
  - by eapply books_keep; [exact Hb|apply book_request|done..].
Qed.

(** A node that has been set up has the books of a node without attestations. *)
Lemma setup_books cfg key clock n :
  setup cfg key clock = Ok n ->
  books (own_address key) n n /\ (exists info, Consensus.validators (Consensus.eng (cons n)) = {[own_address key := info]}) /\
  Reputation.cfg <$> Consensus.repMgr (cons n) = Some (xp_config (Config.Sovereignty cfg)) /\
  Staking.stakes (staking n) = {[own_address key :=
    Staking.mkStake (own_address key) (initial_stake (Config.MinStake (Config.Validator cfg))) (clock 2%nat) true 0 0]}.
Proof.
  unfold setup. fold (own_address key). set (addr := own_address key). set (stake := initial_stake _).
  intros (mgr & Hmgr & H)%outcome_bind_Ok. apply outcome_bind_Ok in H as (c & Hc & H). injection H as <-.
  apply Staking.Register_Ok in Hmgr as (_ & _ & ->). cbn [staking cons].
  unfold Consensus.RegisterValidator in Hc. apply outcome_bind_Ok in Hc as (f & _ & Hc).
  unfold Reputation.Register, Reputation.ComputeSovereignty in Hc. cbn in Hc. rewrite lookup_empty in Hc. cbn in Hc.
  rewrite lookup_insert_eq in Hc. cbn in Hc. injection Hc as <-. cbn.
  set (score := Reputation.sovereignty _ _ _ _ _). split; [split|].
  - done.
  - done.
  - done.
  - eexists. split; [reflexivity|]. split; [reflexivity|]. eexists. split; [apply insert_insert_eq|].
    cbn. destruct (Reputation.scoreTier_range score). by split_and!.
  - by exists 0, 0, 0, 0, 0, 0.
  - done.
  - by left.
  - split; [by eexists|]. split; [reflexivity|]. reflexivity.
Qed.

(** What holds of a node between its steps. *)
Record wellformed (addr : Address) (n0 n : Node) : Prop := {
  nw_core : core_wf addr n;
  nw_aux : aux_typed n;
  nw_books : books addr n0 n;
  nw_inbox : Overlay.inbox_ok (Consensus.network (cons n))
}.

Lemma setup_wf cfg key clock n :
  setup cfg key clock = Ok n -> core_wf (own_address key) n /\ aux_typed n.
Proof.
  intros (_ & Hb & Hl & [_ _ Hpo Hp Hr _] & Ha & Hat & Hm & _)%setup_quiet. split.
  - split.
    + rewrite Hl. by split.
    + by left.
    + intros k b. unfold Sync.GetBlock. by rewrite Hb, lookup_empty.
    + intros [] b; cbn; [by rewrite Hp|by rewrite Hr].
    + exact Ha.
    + intros k a. unfold attestations. rewrite Hat, lookup_empty. intros Hin. by apply elem_of_nil in Hin.
  - split; rewrite ?Hm; [by split|by split|left|by split|by split|by split|]. by rewrite Hpo.
Qed.

Lemma steps_kept addr n0 n n' :
  rtc step n n' -> core_wf addr n -> aux_typed n -> books addr n0 n -> core_wf addr n' /\ aux_typed n' /\ books addr n0 n'.
Proof.
  induction 1 as [n|n1 n2 n3 H _ IH]; [done|]. intros Hc Ha Hb.
  apply IH; [by eapply step_core_wf|by eapply step_aux|by eapply step_books].
Qed.

(** C8. The invariant of a node, kept by every step whatever comes off the wire, from the
    sequencer or from a client. The chain holds each block under its own number, with
    fields of Go's widths, and its height is the number of one of them, or 0 when it is
    empty; a block in hand is one of the chain; every attestation stands under the number it
    is for, is for a block of the chain and is this validator's. The node is the only
    validator and the only staker, with the power and the stake it started with; the one
    reputation entry is its own, with as many attested blocks as there are attestations
    (modulo [2^64]), the XP they earn (for a reward below [2^63]) up to the cap of 100000,
    full uptime, no missed block and no slash. Of the metrics six are ever written: the
    created attestations never exceed those there are, the synced block is 0 or one of the
    chain, its flag 0 or 1. The channel never holds more than its 4096 messages. *)
Theorem node_wellformed (cfg : Config.t) (key : PrivateKey) (clock : nat -> Z) (n0 n : Node)
  (H0 : setup cfg key clock = Ok n0) (Hr : rtc step n0 n) :
  wellformed (own_address key) n0 n /\
  (exists info, Consensus.validators (Consensus.eng (cons n)) = {[own_address key := info]}) /\
  Staking.stakes (staking n) = {[own_address key :=
    Staking.mkStake (own_address key) (initial_stake (Config.MinStake (Config.Validator cfg))) (clock 2%nat) true 0 0]} /\
  (forall m addr r, Consensus.repMgr (cons n) = Some m -> Reputation.GetReputation addr m = Some r ->
     addr = own_address key /\ 0 <= Reputation.XP r <= 100000 /\
     (0 <= Config.AttestationXP (Config.Sovereignty cfg) < 2 ^ 63 ->
        Reputation.XP r = Z.min (Z.of_nat (total_attested n) * Config.AttestationXP (Config.Sovereignty cfg)) 100000)).
Proof.
  destruct (setup_wf _ _ _ _ H0) as [Hc Ha]. destruct (setup_books _ _ _ _ H0) as (Hb & [info Hv] & Hcfg & Hst).
  apply setup_quiet in H0 as [Hp _].
  destruct (steps_kept _ n0 _ _ Hr Hc Ha Hb) as (Hc' & Ha' & Hb').
  split; [split; [done|done|done|]|].
  - apply (steps_phase _ _ Hr) in Hp as [port boot _ -> _|port boot err _ -> _|k [Hov _ _ _]].
    + split; [cbn; lia|constructor].
    + split; [cbn; lia|constructor].
    + apply Overlay.reachable_inbox in Hov. exact Hov.
  - destruct Hb' as [-> _ -> (m & Hm & Hmc & r & Hreps & _ & _ & Hxp & _) _ _ _].
    split; [by exists info|]. split; [exact Hst|]. rewrite Hcfg in Hmc. injection Hmc as Hmc.
    intros m' addr r' Hm' Hr'. rewrite Hm in Hm'. injection Hm' as <-. unfold Reputation.GetReputation in Hr'.
    rewrite Hreps in Hr'. apply lookup_singleton_Some in Hr' as [<- <-]. rewrite Hxp, Hmc.
    split; [done|]. split; [apply (xp_after_range (xp_config _)); cbn; lia|].
    intros Hx. by rewrite xp_after_min by (cbn; lia).
Qed.

(** ** Shutdown *)

Lemma steps_live k n n' : rtc step n n' -> live k n -> exists k', live k' n'.
Proof.
  intros Hr. revert k. induction Hr as [n|n1 n2 n3 H _ IH]; intros k Hl; [by exists k|].
  destruct (step_live _ _ _ H Hl) as [k2 H2]. eauto.
Qed.

(** Once [main] has stopped the network all contexts are done. *)
Lemma live_stopped k n :
  live k n -> ClosePeers ∉ todo n ->
  Network.cancelled (Consensus.network (cons n)) = true /\ sync_ctx (loops n) = Some true /\ cons_ctx (loops n) = Some true.
Proof.
  intros [_ [[ms Ht] Hs Hc] _ Hnet] Hn. rewrite Ht in Hn. assert (11 <= k)%nat as Hk.
  { destruct (le_lt_dec 11 k) as [|Hlt]; [done|]. exfalso. apply Hn.
    apply list_elem_of_lookup. exists (10 - k)%nat. rewrite lookup_drop. by replace (k + (10 - k))%nat with 10%nat by lia. }
  split; [apply Hnet; lia|]. rewrite Hs, Hc. unfold ctx_at.
  by rewrite !(proj2 (Nat.ltb_ge k _)) by lia.
Qed.

(** A goroutine finishes the block it has in hand. *)
Lemma finish_job g n :
  exists n', rtc step n n' /\ job_of g n' = Idle /\ job_of (other g) n' = job_of (other g) n /\
    pool n' = pool n /\ loops n' = loops n /\ todo n' = todo n /\ sync n' = sync n.
Proof.
  assert (forall m b, job_of g m = Verified b -> exists n', rtc step m n' /\ job_of g n' = Idle /\
    job_of (other g) n' = job_of (other g) m /\ pool n' = pool m /\ loops n' = loops m /\ todo n' = todo m /\ sync n' = sync m) as Hv.
  { intros m b Hj. exists (run_attest g 0 0 b m). split; [by apply rtc_once, step_attest|].
    destruct g; (split_and!; reflexivity). }
  destruct (job_of g n) as [|b|b] eqn:Hj; [by exists n| |by apply (Hv n b)].
  pose proof (step_verify n g b (Err ""%string) Hj) as Hst.
  destruct (run_verify_shape g (Err ""%string) b n) as (j & v & m & Hjb & Heq). rewrite Heq in Hst.
  set (n1 := set_job g j _) in Hst.
  assert (job_of g n1 = j /\ job_of (other g) n1 = job_of (other g) n /\ pool n1 = pool n /\ loops n1 = loops n /\
    todo n1 = todo n /\ sync n1 = sync n) as (H1 & H2 & H3 & H4 & H5 & H6) by (destruct g; split_and!; reflexivity).
  destruct j as [|b'|b'].
  - exists n1. split_and!; try done. by apply rtc_once.
  - exfalso. revert Hst. clear -Heq. unfold run_verify, Sync.notify in Heq. intros _.
    apply (f_equal (job_of g)) in Heq. rewrite job_of_set_job in Heq. revert Heq.
    destruct (Sync.onNewBlock (sync n)); [|by rewrite job_of_set_job]. unfold verify_block.
    destruct (Verification.VerifyBlock b _) as [v' r]. destruct (Verification.rValid r); by rewrite job_of_set_job.
  - destruct (Hv n1 b' H1) as (n' & Hr & A1 & A2 & A3 & A4 & A5 & A6).
    exists n'. split; [by eapply rtc_l|]. split_and!; congruence.
Qed.

(** ** The RPC server *)

(** A server that failed, and the number of requests counted. *)
Record failed_server (c : Z) (n : Node) : Prop := {
  fs_failed : httpServer (loops n) = ServerFailed;
  fs_todo : StartRPC ∉ todo n;
  fs_count : Metrics.RPCRequests (Consensus.met (cons n)) = c
}.

Lemma failed_same c n n' :
  httpServer (loops n') = httpServer (loops n) -> todo n' = todo n -> Consensus.met (cons n') = Consensus.met (cons n) ->
  failed_server c n -> failed_server c n'.
Proof. intros H1 H2 H3 []. split; congruence. Qed.

Lemma start_block_failed c g b n : failed_server c n -> failed_server c (start_block g b n).
Proof. destruct (start_block_todo g b n) as [Ht Hl]. apply failed_same; [by rewrite Hl|done|by rewrite start_block_cons]. Qed.

Lemma perform_failed c err order a rest n :
  todo n = a :: rest -> failed_server c n -> failed_server c (perform err order a (set_todo rest n)).
Proof.
  intros Ht [H1 H2 H3]. rewrite Ht in H2. apply not_elem_of_cons in H2 as [Ha Hrest].
  destruct a; try (by split).
  - cbn [perform]. unfold start_network. destruct (Network.Start _ _ _) as [net' [e|]]; (split; [done| |done]); [|done].
    apply not_elem_of_nil.
  - split; [done|done|]. cbn [perform]. unfold wire_metrics. cbn. unfold Metrics.seed. by destruct (Consensus.met (cons n)).
  - split; [|done|done]. cbn. by rewrite H1.
Qed.

Lemma step_failed c n n' : step n n' -> failed_server c n -> failed_server c n'.
Proof.
  intros Hst Hf. pose proof Hf as [H1 H2 H3].
  destruct Hst as [err order a rest Ht _|o Ho|msg net Hs Hg Hj Hm|Hs Hj|resp Hs Hp Hj|num remote resp Hp Hj|Hs Hp Hj
    |g block reply Hj|g block now1 now2 Hj|k log Hs Hg Hc|Hs|Hw|Hw|Hw|num block Hw Hb];
    try (by split); try (by unfold answers in Hw; rewrite H1 in Hw); try (rewrite H1 in Hw; naive_solver).
  - by apply perform_failed.
  - unfold listen. destruct (Type_ msg =? MsgNewBlock); [|by split].
    destruct (Wire.DecodeBlockAnnounce _); [|by split..]. apply start_block_failed. by split.
  - unfold poll. destruct (Client.fetchLatestBlockNumber resp); [|done..]. destruct (_ <=? _); [done|by split].
  - unfold fetch. destruct (remote <? num); [by split|]. destruct (Client.fetchBlock resp); [|by split..].
    apply start_block_failed. by split.
  - destruct (run_verify_met g reply block n) as [Hl Hm].
    assert (todo (run_verify g reply block n) = todo n) as Ht
      by (destruct (run_verify_shape g reply block n) as (j & v & m & _ & ->); by destruct g).
    split; [by rewrite Hl|by rewrite Ht|]. destruct Hm as [->|(f & _ & ->)]; [done|]. by destruct (Consensus.met (cons n)).
  - unfold run_attest. destruct (set_job_other g Idle (fst (attest_block now1 now2 block n))) as (_ & Hc & _).
    split; [by destruct g|by destruct g|]. rewrite Hc. unfold attest_block. cbn [fst cons set_cons].
    unfold Consensus.AttestBlock. cbn [fst Consensus.met]. destruct (Consensus.metrics _); [|done]. by destruct (Consensus.met (cons n)).
  - unfold Consensus.processMessages in Hc. destruct (take_message _) as [[msg net]|]; [|done]. injection Hc as <- _. by split.
Qed.

(** Nobody learns that the RPC server could not listen: [Start] has returned no error, and
    [main] goes on as if nothing had happened; but no request is ever answered. *)
Theorem rpc_failure_unnoticed (n : Node) (Hl : httpServer (loops n) = Launched) (Ht : StartRPC ∉ todo n) :
  step n (set_http ServerFailed n) /\ todo (set_http ServerFailed n) = todo n /\
  forall n', rtc step (set_http ServerFailed n) n' ->
    answers n' = false /\ Metrics.RPCRequests (Consensus.met (cons n')) = Metrics.RPCRequests (Consensus.met (cons n)).
Proof.
  split; [apply step_rpc_fails; by left|]. split; [done|]. intros n' Hr.
  assert (failed_server (Metrics.RPCRequests (Consensus.met (cons n))) n') as [H1 _ H3].
  { assert (failed_server (Metrics.RPCRequests (Consensus.met (cons n))) (set_http ServerFailed n)) as H0 by (by split).
    revert H0. induction Hr; eauto using step_failed. }
  split; [|done]. unfold answers. by rewrite H1.
Qed.

(** ** The catch-up *)

(** The RPC loop in a catch-up, the sequencer serving [serve num] when it is asked for
    [num], and nothing else of the node running. *)
Inductive rpc_hop (serve : Z -> outcome (list byte)) (n : Node) : Node -> Prop :=
| rpc_fetches num remote :
    poller_at (loops n) = Fetching num remote -> rpc_job n = Idle -> rpc_hop serve n (fetch num remote (serve num) n)
| rpc_verifies block reply : rpc_job n = Accepted block -> rpc_hop serve n (run_verify RPCLoop reply block n)
| rpc_attests block now1 now2 : rpc_job n = Verified block -> rpc_hop serve n (run_attest RPCLoop now1 now2 block n).

Lemma rpc_hop_step serve n n' : rpc_hop serve n n' -> step n n'.
Proof.
  intros [num remote Hp Hj|b reply Hj|b now1 now2 Hj].
  - by apply step_fetch.
  - by apply (step_verify n RPCLoop).
  - by apply (step_attest n RPCLoop).
Qed.

Lemma rpc_hops_steps serve n n' : rtc (rpc_hop serve) n n' -> rtc step n n'.
Proof. apply rtc_subrel. intros ? ?. apply rpc_hop_step. Qed.

(** [m] is [n] after the callback of the blocks [bs]: each verified on the live engine, in
    this order, and attested if the verdict was positive. *)
Record called_back (n : Node) (bs : list Sync.L2Block) (m : Node) : Prop := {
  cb_ver : ver m = fst (Verification.verify_all bs (ver n));
  cb_attested k : length (attestations k m) = (length (attestations k n) + Verification.accepted_as k bs (ver n))%nat
}.

(** The chain with the blocks [bs] accepted one after the other. *)
Definition taken (e : Sync.Engine) (bs : list Sync.L2Block) : Sync.Engine :=
  foldl (fun e b => default e (Sync.accept b e)) e bs.

Lemma taken_snoc e bs b : taken e (bs ++ [b]) = default (taken e bs) (Sync.accept b (taken e bs)).
Proof. unfold taken. by rewrite foldl_app. Qed.

Lemma called_back_none n m : ver m = ver n -> (forall k, attestations k m = attestations k n) -> called_back n [] m.
Proof. intros Hv Ha. split; [done|]. intros k. rewrite Ha. cbn. lia. Qed.

Lemma called_back_same n bs m m' :
  ver m' = ver m -> (forall k, attestations k m' = attestations k m) -> called_back n bs m -> called_back n bs m'.
Proof. intros Hv Ha [H1 H2]. split; [by rewrite Hv|]. intros k. by rewrite Ha. Qed.

Section CatchUp.
Context (n : Node) (serve : Z -> outcome (list byte)) (env : Sync.rpc_env) (e' : Sync.Engine) (cbs : list Sync.L2Block).
Context (Henv : Sync.block_reply env = fun k => Client.block_reply (serve k)).

(** The loop is at [num], and what it still does is the tail [todo] of the callbacks. *)
Definition ahead (f : nat) (num remote : Z) (bs : list Sync.L2Block) (m : Node) : Prop :=
  poller_at (loops m) = Fetching num remote /\ Sync.onNewBlock (sync m) = true /\
  exists m1 m2, Sync.catch_up f env num remote (sync m, m1) = ((e', m2), bs, true).

(** The points of a catch-up, with the number of steps it takes at most from there. *)
Inductive catching (m : Node) : nat -> Prop :=
| catching_idle f num remote past bs :
    rpc_job m = Idle -> ahead f num remote bs m -> cbs = past ++ bs -> sync m = taken (sync n) past ->
    called_back n past m -> catching m (1 + 3 * f)
| catching_accepted f num remote past b bs :
    rpc_job m = Accepted b -> ahead f num remote bs m -> cbs = past ++ b :: bs -> sync m = taken (sync n) (past ++ [b]) ->
    called_back n past m -> catching m (3 + 3 * f)
| catching_verified f num remote past b bs :
    rpc_job m = Verified b -> ahead f num remote bs m -> cbs = past ++ b :: bs -> sync m = taken (sync n) (past ++ [b]) ->
    ver m = fst (Verification.verify_all (past ++ [b]) (ver n)) ->
    (forall k, (length (attestations k m) + (if (Sync.Number b =? k)%Z then 1 else 0) =
      length (attestations k n) + Verification.accepted_as k (past ++ [b]) (ver n))%nat) -> catching m (2 + 3 * f)
| caught_up :
    rpc_job m = Idle -> poller_at (loops m) = AtTick -> sync m = e' -> sync m = taken (sync n) cbs -> called_back n cbs m -> catching m 0.

Lemma ahead_same f num remote bs m m' :
  poller_at (loops m') = poller_at (loops m) -> sync m' = sync m -> ahead f num remote bs m -> ahead f num remote bs m'.
Proof using. unfold ahead. by intros -> ->. Qed.

Lemma accepted_snoc k bs b e :
  Verification.accepted_as k (bs ++ [b]) e =
    (Verification.accepted_as k bs e + (if Verification.rValid (snd (Verification.VerifyBlock b (fst (Verification.verify_all bs e))))
      then if (Sync.Number b =? k)%Z then 1 else 0 else 0))%nat.
Proof using.
  unfold Verification.accepted_as. destruct (Verification.verify_all_snoc bs b e) as [_ ->].
  rewrite filter_app, length_app. f_equal. set (e1 := fst (Verification.verify_all bs e)).
  destruct (Verification.VerifyBlock_spec b e1) as (_ & _ & Hn). rewrite filter_cons, filter_nil.
  destruct (Verification.rValid _), (Z.eqb_spec (Sync.Number b) k); case_decide; cbn; intuition congruence.
Qed.

(** A fetch either goes on to the next block, with or without one in hand, or ends the loop. *)
Lemma fetch_catching m f num remote past bs :
  rpc_job m = Idle -> ahead f num remote bs m -> cbs = past ++ bs -> sync m = taken (sync n) past -> called_back n past m ->
  exists k, (k < 1 + 3 * f)%nat /\ catching (fetch num remote (serve num) m) k.
Proof using Henv.
  intros Hj (Hp & Hcb & m1 & m2 & Hrun) Hcbs Htk Hpast. unfold fetch.
  destruct f as [|f]; cbn [Sync.catch_up] in Hrun; destruct (remote <? num).
  1,3: injection Hrun as <- _ <-; rewrite app_nil_r in Hcbs; subst past; exists 0%nat; split; [lia|];
    apply caught_up; [done|done|done|exact Htk|by apply (called_back_same n _ m)].
  { discriminate Hrun. }
  rewrite Henv in Hrun. change (Sync.fetchBlock (Client.block_reply (serve num))) with (Client.fetchBlock (serve num)) in Hrun.
  destruct (Client.fetchBlock (serve num)) as [b|e|w].
  2,3: injection Hrun as <- _ <-; rewrite app_nil_r in Hcbs; subst past; exists 0%nat; split; [lia|];
    apply caught_up; [done|done|done|exact Htk|by apply (called_back_same n _ m)].
  unfold Sync.processBlock, start_block in *. cbn [fst sync set_poller set_loops] in *.
  destruct (Sync.accept b (sync m)) as [s|] eqn:Ea.
  - assert (Sync.onNewBlock s = true) as Hs by (by apply Sync.accept_Some in Ea as (_ & _ & ->)).
    unfold Sync.notify in Hrun. rewrite Hs in Hrun. set (mt := if Sync.metrics s then _ else _) in Hrun.
    destruct (Sync.catch_up f _ _ _ _) as [[[e2 mm] c2] fin] eqn:Ec. injection Hrun as -> -> <- ->.
    exists (3 + 3 * f)%nat. split; [lia|]. apply (catching_accepted _ f (num +[u64] 1) remote past b c2); [done| |done| |by apply (called_back_same n _ m)].
    2: { rewrite taken_snoc, <- Htk, Ea. done. }
    split; [done|]. split; [done|]. by exists mt, m2.
  - destruct (Sync.catch_up f _ _ _ _) as [[[e2 mm] c2] fin] eqn:Ec. injection Hrun as -> -> <- ->.
    exists (1 + 3 * f)%nat. split; [lia|]. apply (catching_idle _ f (num +[u64] 1) remote past c2); [done| |done|exact Htk|by apply (called_back_same n _ m)].
    split; [done|]. split; [done|]. by exists m1, m2.
Qed.

Lemma verify_catching m reply f num remote past b bs :
  rpc_job m = Accepted b -> ahead f num remote bs m -> cbs = past ++ b :: bs -> sync m = taken (sync n) (past ++ [b]) ->
  called_back n past m -> exists k, (k < 3 + 3 * f)%nat /\ catching (run_verify RPCLoop reply b m) k.
Proof using.
  intros Hj Ha Hcbs Htk [Hv Hat]. pose proof Ha as (_ & Hcb & _).
  destruct (run_verify_verdict RPCLoop reply b m Hcb) as [met ->]. rewrite Hv.
  pose proof (fun k => accepted_snoc k past b (ver n)) as Hk. destruct (Verification.verify_all_snoc past b (ver n)) as [Hf _].
  destruct (Verification.rValid _).
  - exists (2 + 3 * f)%nat. split; [lia|]. apply (catching_verified _ f num remote past b bs); [done|exact Ha|done|exact Htk|by rewrite Hf|].
    intros k. rewrite Hk. specialize (Hat k). change (attestations k (set_job RPCLoop ?j ?x)) with (attestations k m). lia.
  - exists (1 + 3 * f)%nat. split; [lia|]. apply (catching_idle _ f num remote (past ++ [b]) bs); [done|exact Ha| |exact Htk|].
    { by rewrite <- app_assoc. }
    split; [by rewrite Hf|]. intros k. rewrite Hk. specialize (Hat k).
    change (attestations k (set_job RPCLoop ?j ?x)) with (attestations k m). lia.
Qed.

Lemma hop_catching m m' k : rpc_hop serve m m' -> catching m k -> exists k', (k' < k)%nat /\ catching m' k'.
Proof using Henv.
  intros Hh Hc. destruct Hc as [f num remote past bs Hj Ha He Hk Hb|f num remote past b bs Hj Ha He Hk Hb
    |f num remote past b bs Hj Ha He Hk Hv Hat|Hj Hp _ _ _]; destruct Hh as [num' remote' Hp' Hj'|b' reply Hj'|b' now1 now2 Hj']; try congruence.
  - pose proof Ha as (Hp & _). rewrite Hp in Hp'. injection Hp' as <- <-. by eapply fetch_catching.
  - assert (b' = b) as -> by congruence. by eapply verify_catching.
  - assert (b' = b) as -> by congruence. exists (1 + 3 * f)%nat. split; [lia|].
    apply (catching_idle _ f num remote (past ++ [b]) bs); [done|exact Ha|by rewrite <- app_assoc|exact Hk|].
    split; [exact Hv|]. intros k. rewrite run_attest_attestations. apply Hat.
Qed.

Lemma catching_moves m k :
  catching m k -> k = 0%nat \/ exists m', rpc_hop serve m m'.
Proof using.
  intros [f num remote past bs Hj (Hp & _) _ _ _|f num remote past b bs Hj _ _ _ _|f num remote past b bs Hj _ _ _ _ _|]; [right..|by left].
  - eexists. by apply (rpc_fetches serve m num remote).
  - eexists. by apply (rpc_verifies serve m b (Err ""%string)).
  - eexists. by apply (rpc_attests serve m b 0 0).
Qed.

(** Every run of the loop is finite and ends caught up. *)
Lemma catching_ends k m : catching m k -> exists m', rtc (rpc_hop serve) m m' /\ catching m' 0.
Proof using Henv.
  revert m. induction (lt_wf k) as [k _ IH]. intros m Hc.
  destruct (catching_moves m k Hc) as [->|[m1 H1]]; [by exists m|].
  destruct (hop_catching m m1 k H1 Hc) as (k1 & Hk & Hc1). destruct (IH k1 Hk m1 Hc1) as (m' & Hr & H).
  exists m'. split; [by eapply rtc_l|done].
Qed.

Lemma hops_catching m m' k : rtc (rpc_hop serve) m m' -> catching m k -> exists k', catching m' k'.
Proof using Henv.
  intros Hr. revert k. induction Hr as [m|m1 m2 m3 H _ IH]; intros k Hc; [by exists k|].
  destruct (hop_catching _ _ _ H Hc) as (k' & _ & Hc'). by apply (IH k').
Qed.

Lemma catching_between m k :
  catching m k -> rpc_job m = Idle ->
  exists past bs, cbs = past ++ bs /\ sync m = taken (sync n) past /\ called_back n past m.
Proof using.
  intros [f num remote past bs _ _ He Hk Hb| | |_ _ _ Hk Hb] Hj; [by exists past, bs|congruence..|].
  exists cbs, []. by rewrite app_nil_r.
Qed.

End CatchUp.

(** C18. The sequential catch-up of the synchroniser is what the RPC loop of a node does when
    nothing comes between. The loop is at its ticker and asks for the height; from then on
    let the loop run alone, the sequencer serving for each number what it serves the
    synchroniser. Whenever it has no block in hand, so whenever it is about to ask for the
    next, the callback has run for exactly the blocks that the chain has taken so far: they
    are the first of the synchroniser's callbacks, verified on the live engine in this
    order, and those with a positive verdict attested. From wherever it has come to, it can
    go on to its ticker, with the chain of the synchroniser, and with exactly the
    synchroniser's callbacks verified and, where valid, attested. *)
Theorem catch_up_refined (fuel : nat) (first : outcome (list byte)) (serve again : Z -> outcome (list byte))
  (n : Node) (m0 m' : Metrics.t) (e' : Sync.Engine) (cbs : list Sync.L2Block)
  (Hs : is_Some (sync_ctx (loops n))) (Hp : poller_at (loops n) = AtTick) (Hj : rpc_job n = Idle)
  (Hcb : Sync.onNewBlock (sync n) = true)
  (Hrun : Sync.syncFromRPC fuel (Client.env_of first serve again) (sync n, m0) = ((e', m'), cbs, true)) :
  step n (poll first n) /\
  forall m, rtc (rpc_hop serve) (poll first n) m ->
    (rpc_job m = Idle -> exists past rest,
       cbs = past ++ rest /\ sync m = taken (sync n) past /\ called_back n past m) /\
    exists n', rtc (rpc_hop serve) m n' /\ rtc step n n' /\
      sync n' = e' /\ poller_at (loops n') = AtTick /\ rpc_job n' = Idle /\ called_back n cbs n'.
Proof.
  split; [by apply step_poll|]. intros m Hm.
  set (env := Client.env_of first serve again) in *.
  assert (exists k, catching n env e' cbs (poll first n) k) as [k Hk].
  { unfold Sync.syncFromRPC in Hrun.
    change (Sync.fetchLatestBlockNumber (Sync.latest_reply env)) with (Client.fetchLatestBlockNumber first) in Hrun. unfold poll.
    assert (called_back n [] n) as H0 by (by apply called_back_none).
    destruct (Client.fetchLatestBlockNumber first) as [remote|e|w];
      [|injection Hrun as <- _ <-; exists 0%nat; by apply caught_up..].
    cbn [fst] in Hrun. destruct (remote <=? Sync.LatestBlock (sync n));
      [injection Hrun as <- _ <-; exists 0%nat; by apply caught_up|].
    exists (1 + 3 * fuel)%nat. eapply (catching_idle _ _ _ _ _ fuel _ remote [] cbs); [done| |done|done|by apply called_back_none].
    split; [reflexivity|]. split; [exact Hcb|]. by exists m0, m'. }
  destruct (hops_catching n serve env e' cbs eq_refl _ _ _ Hm Hk) as [k1 H1].
  split; [by apply (catching_between n env e' cbs m k1)|].
  destruct (catching_ends n serve env e' cbs eq_refl _ _ H1) as (n' & Hr & Hend).
  exists n'. split; [exact Hr|]. split.
  { eapply rtc_l; [by apply step_poll|]. apply (rpc_hops_steps serve). by etrans. }
  inversion Hend; try lia. done.
Qed.

(** C16. Shutdown of the node. From when [main] has stopped the network on (it still waits for
    the RPC server then, up to ten seconds), whatever the goroutines were at, each of them
    can end: there is a continuation in which the blocks in hand are finished, the
    catch-up, the loops and all goroutines of the network are gone, every connection is
    closed and no peer is left to send to. The chain does not move on the way. *)
Theorem node_stops (cfg : Config.t) (key : PrivateKey) (clock : nat -> Z) (n0 n : Node)
  (H0 : setup cfg key clock = Ok n0) (Hr : rtc step n0 n)
  (Hup : is_Some (sync_ctx (loops n))) (Hstop : ClosePeers ∉ todo n) :
  exists n', rtc step n n' /\
    p2p_job n' = Idle /\ rpc_job n' = Idle /\ pool n' = [] /\
    listener_gone (loops n') = true /\ poller_at (loops n') = PollerGone /\ consumer_gone (loops n') = true /\
    sync n' = sync n /\
    (forall c, ~ Overlay.is_open (Consensus.network (cons n')) c) /\
    (forall id, Network.target (Consensus.network (cons n')) id = None).
Proof.
  apply setup_quiet in H0 as [Hp _].
  apply (steps_phase _ _ Hr) in Hp as [port boot [Q _ _ _ _ _] _ _|port boot err [Q _ _ _ _ _] _ _|k Hl];
    [rewrite Q in Hup; by destruct Hup..|].
  destruct (live_stopped _ _ Hl Hstop) as (Hcan & Hs & Hc).
  destruct (finish_job P2PListener n) as (n1 & R1 & J1 & O1 & P1 & L1 & T1 & S1).
  destruct (finish_job RPCLoop n1) as (n2 & R2 & J2 & O2 & P2 & L2 & T2 & S2). cbn [job_of other] in *.
  assert (exists n3, rtc step n2 n3 /\ p2p_job n3 = Idle /\ rpc_job n3 = Idle /\ poller_at (loops n3) = PollerGone /\
    sync_ctx (loops n3) = Some true /\ cons_ctx (loops n3) = Some true /\ sync n3 = sync n /\ todo n3 = todo n) as
    (n3 & R3 & J3 & K3 & P3 & X3 & C3 & S3 & T3).
  { destruct (poller_at (loops n2)) as [|num remote|] eqn:Ep.
    - exists (set_poller PollerGone n2). split; [apply rtc_once, step_poller_leaves; congruence|].
      cbn. split_and!; congruence.
    - set (m := set_poller AtTick n2). exists (set_poller PollerGone m).
      assert (fetch num remote (Err ""%string) n2 = m) as Hf by (unfold fetch; by destruct (remote <? num)).
      split; [|cbn; split_and!; congruence].
      eapply rtc_l; [apply (step_fetch n2 num remote (Err ""%string)); [done|congruence]|]. rewrite Hf.
      apply rtc_once, step_poller_leaves; cbn; congruence.
    - exists n2. split; [apply rtc_refl|]. split_and!; congruence. }
  set (n4 := listener_leaves n3).
  set (n5 := consumer_leaves n4).
  assert (rtc step n n5) as R5.
  { etrans; [exact R1|]. etrans; [exact R2|]. etrans; [exact R3|].
    eapply rtc_l; [by apply (step_listener_leaves n3)|]. apply rtc_once. by apply (step_consumer_leaves n4). }
  destruct (steps_live _ _ _ R5 Hl) as [k5 H5]. pose proof (lv_overlay _ _ H5) as Hov.
  destruct (live_stopped _ _ H5 ltac:(change (todo n5) with (todo n3); by rewrite T3)) as (Hcan5 & _ & _).
  destruct (Overlay.work_terminates (overlay n5) Hcan5) as (o & Hw & Ho).
  assert (rtc Overlay.sched (overlay n5) o) as Hsched by (eapply rtc_subrel; [|exact Hw]; apply Overlay.work_sched).
  exists (set_overlay o n5).
  split; [etrans; [exact R5|by apply sched_lift]|]. split_and!; try done.
  all: assert (Overlay.wf (Overlay.net o) []) as Hwf
    by (rewrite <- Ho; apply (Overlay.steps_wf (overlay n5)); [by apply Overlay.sched_steps|by apply Overlay.reachable_wf]).
  all: apply Overlay.wf_quiet in Hwf as (Hopen & Htarget & _).
  - exact Hopen.
  - exact Htarget.
Qed.

(** C23. The catch-up loop does not look at its context. If the shutdown finds it with blocks
    still to fetch, an honest next block is fetched, accepted, verified and attested after
    [main] has stopped the network and both engines, while it waits for the RPC server,
    and the loop goes on to the one after it. *)
Theorem catch_up_ignores_shutdown (cfg : Config.t) (key : PrivateKey) (clock : nat -> Z) (n0 n : Node)
  (num remote : Z) (resp : outcome (list byte)) (b : Sync.L2Block)
  (H0 : setup cfg key clock = Ok n0) (Hr : rtc step n0 n) (Hret : todo n = [ShutdownRPC])
  (Hp : poller_at (loops n) = Fetching num remote) (Hle : num <= remote) (Hidle : rpc_job n = Idle)
  (Hb : Client.fetchBlock resp = Ok b) (Hacc : is_Some (Sync.accept b (sync n)))
  (Hz : Sync.Number b <> 0) (Hok : Verification.claim_ok (ver n) b) :
  exists n', rtc step n n' /\ todo n' = [ShutdownRPC] /\
    length (attestations (Sync.Number b) n') = S (length (attestations (Sync.Number b) n)) /\
    Sync.GetBlock (Sync.Number b) (sync n') = Some b /\
    poller_at (loops n') = Fetching (num +[u64] 1) remote /\ rpc_job n' = Idle.
Proof.
  destruct Hacc as [s Hs]. set (n1 := set_job RPCLoop (Accepted b) (set_sync s (set_poller (Fetching (num +[u64] 1) remote) n))).
  assert (fetch num remote resp n = n1) as Hf.
  { unfold fetch. rewrite (proj2 (Z.ltb_ge remote num)) by lia. rewrite Hb. unfold start_block. cbn [sync set_poller set_loops].
    by rewrite Hs. }
  assert (step n n1) as Hst1 by (rewrite <- Hf; by apply step_fetch).
  assert (Sync.onNewBlock (sync n1) = true) as Hcb.
  { rewrite (step_sync_callback _ _ Hst1), (steps_sync_callback _ _ Hr).
    by apply setup_quiet in H0 as (_ & _ & _ & _ & _ & _ & _ & _ & ->). }
  destruct (run_verify_verdict RPCLoop (Err ""%string) b n1 Hcb) as [m Hm].
  change (ver n1) with (ver n) in Hm. rewrite (Verification.VerifyBlock_accepts b (ver n) Hz Hok) in Hm. cbn [snd fst Verification.rValid] in Hm.
  set (n2 := set_job RPCLoop (Verified b) _) in Hm.
  assert (step n1 n2) as Hst2 by (rewrite <- Hm; by apply step_verify).
  exists (run_attest RPCLoop 0 0 b n2). split.
  { eapply rtc_l; [exact Hst1|]. eapply rtc_l; [exact Hst2|]. apply rtc_once. by apply step_attest. }
  split; [exact Hret|]. rewrite run_attest_attestations, Z.eqb_refl.
  change (attestations (Sync.Number b) n2) with (attestations (Sync.Number b) n).
  split; [lia|]. split; [|split; reflexivity].
  apply Sync.accept_Some in Hs as (_ & _ & ->). unfold Sync.GetBlock. cbn. apply lookup_insert_eq.
Qed.
End Life.

(** ** Witnesses *)

Section Witnesses.
Import ToyEth.

Lemma network_refined_witness : Overlay.reachable (overlay both_accepted).
Proof.
  destruct (network_refined Config.DefaultConfig key clock started both_accepted started_setup started_both) as [H|(H & _)];
    [exact H|]. vm_compute in H. discriminate H.
Defined.

Lemma node_wellformed_witness : wellformed (own_address key) started both_accepted.
Proof. exact (proj1 (node_wellformed Config.DefaultConfig key clock started both_accepted started_setup started_both)). Defined.

Lemma rpc_failure_unnoticed_witness : step serving (set_http ServerFailed serving).
Proof.
  apply (rpc_failure_unnoticed serving); [vm_compute; reflexivity|].
  assert (todo serving = drop 6 (main_actions 0)) as -> by (vm_compute; reflexivity).
  cbn [drop main_actions]. intros Hin. repeat (apply elem_of_cons in Hin as [Hin|Hin]; [discriminate|]). by apply elem_of_nil in Hin.
Defined.

Lemma catch_up_refined_witness :
  exists n', rtc (rpc_hop (fun k => block_text (Sync.sample_block k))) (poll (height_text 2) serving) n' /\
    Sync.latestBlock (sync n') = 2 /\ length (attestations 2 n') = 1%nat.
Proof.
  set (serve := fun k => block_text (Sync.sample_block k)).
  destruct (Sync.syncFromRPC 3 (Client.env_of (height_text 2) serve (fun _ => height_text 2)) (sync serving, Metrics.New))
    as [[[e m] cbs] fin] eqn:Hrun.
  assert (fin = true /\ Sync.latestBlock e = 2 /\ cbs = [Sync.sample_block 1; Sync.sample_block 2]) as (-> & He & ->)
    by (vm_compute in Hrun; injection Hrun as <- <- <- <-; by split).
  destruct (catch_up_refined 3 (height_text 2) serve (fun _ => height_text 2) serving Metrics.New m e
    [Sync.sample_block 1; Sync.sample_block 2]) as (_ & H);
    [exists false; vm_compute; reflexivity|vm_compute; reflexivity|vm_compute; reflexivity|vm_compute; reflexivity|exact Hrun|].
  destruct (H _ (rtc_refl _ _)) as (_ & n' & H1 & _ & H2 & _ & _ & [_ H3]).
  exists n'. split; [exact H1|]. split; [by rewrite H2|]. rewrite H3. vm_compute. reflexivity.
Defined.

(** The signal arrives while both goroutines have a block in hand. *)
Definition stopping : Node := Nat.iter 7 advance both_accepted.

Lemma started_stopping : rtc step started stopping.
Proof. transitivity both_accepted; [apply started_both|exact (advance_run 7 both_accepted)]. Qed.

Lemma node_stops_witness :
  exists n', rtc step stopping n' /\ pool n' = [] /\ forall c, ~ Overlay.is_open (Consensus.network (cons n')) c.
Proof.
  destruct (node_stops Config.DefaultConfig key clock started stopping started_setup started_stopping)
    as (n' & H1 & _ & _ & H2 & _ & _ & _ & _ & H3 & _).
  - exists true. vm_compute. reflexivity.
  - assert (todo stopping = [ShutdownRPC]) as -> by (vm_compute; reflexivity). by intros [=]%list_elem_of_singleton.
  - exists n'. split; [exact H1|]. split; [exact H2|exact H3].
Defined.

(** The signal arrives when a catch-up has begun. *)
Definition polled : Node := poll (height_text 2) serving.
Definition behind : Node := Nat.iter 7 advance polled.

Lemma started_behind : rtc step started behind.
Proof.
  transitivity serving; [exact (advance_run 6 started)|]. transitivity polled; [|exact (advance_run 7 polled)].
  apply rtc_once. apply (step_poll serving (height_text 2)); [exists false|..]; vm_compute; reflexivity.
Qed.

Lemma catch_up_ignores_shutdown_witness :
  exists n', rtc step behind n' /\ todo n' = [ShutdownRPC] /\ length (attestations 1 n') = S (length (attestations 1 behind)).
Proof.
  destruct (catch_up_ignores_shutdown Config.DefaultConfig key clock started behind 1 2 (block_text (Sync.sample_block 1))
    (Sync.sample_block 1) started_setup started_behind) as (n' & H1 & H2 & H3 & _);
    [vm_compute; reflexivity|vm_compute; reflexivity|lia|vm_compute; reflexivity|vm_compute; reflexivity| |done|by left|].
  - vm_compute. by eexists.
  - exists n'. split; [exact H1|]. split; [exact H2|exact H3].
Defined.

End Witnesses.
End Lifecycle.
