(* ===== verification/System.v ===== *)
(** * Two nodes

    The components composed from end to end: what one node broadcasts as bytes, another
    turns into a finalized block. The sender is the network code of any node; the
    receiver is a whole node of which the read loop, the P2P listener and its callback
    take part. *)

From Stdlib Require Import QArith.
From S2P Require Import Prelude Bytes Fmt Eth Metrics P2P Framing Json Sync Wire Network Overlay Verification Client Rounding Float Config BigFloat Quorum Reputation Staking Consensus Node Lifecycle.
Local Open Scope Z_scope.
Import P2P Framing Node.

Module System.

#[local] Existing Instance Network.transport.
#[local] Existing Instance Network.transport_laws.

Section Delivery.
Context {E : EthLib}.

(** ** The way of a message

    The goroutines that a message takes part in after it was sent on connection [d]: the
    read loop of [d], the P2P listener and its callback. None of their steps brings in
    anything from outside but the answer to the height query of the metrics and the
    clock; what the read loop reads is fixed by its connection. *)
Inductive hop (d : nat) (n : Node) : Node -> Prop :=
| hop_read t rest net ts :
    pool n ≡ₚ t :: rest -> Overlay.conn_of t = Some d ->
    Overlay.task_step (Consensus.network (cons n)) t net ts ->
    hop d n (set_overlay (Overlay.mkOverlay net (ts ++ rest)) n)
| hop_listen msg net :
    is_Some (sync_ctx (loops n)) -> listener_gone (loops n) = false -> p2p_job n = Idle ->
    take_message (Consensus.network (cons n)) = Some (msg, net) ->
    hop d n (listen msg (set_cons (set_network net (cons n)) n))
| hop_verify block reply : p2p_job n = Accepted block -> hop d n (run_verify P2PListener reply block n)
| hop_attest block now1 now2 : p2p_job n = Verified block -> hop d n (run_attest P2PListener now1 now2 block n).

Lemma hop_step d n n' : hop d n n' -> step n n'.
Proof.
  intros [t rest net ts Hp _ Hst|msg net Hs Hg Hj Hm|b reply Hj|b now1 now2 Hj].
  - apply step_network. by apply (Overlay.sched_task (overlay n) t rest net ts).
  - by apply step_listen.
  - by apply (step_verify n P2PListener).
  - by apply (step_attest n P2PListener).
Qed.

Lemma hops_steps d n n' : rtc (hop d) n n' -> rtc step n n'.
Proof. apply rtc_subrel. intros ? ?. apply hop_step. Qed.

(** What a run of the network's goroutines leaves alone. *)
Record same_rest (n n' : Node) : Prop := {
  sr_core : same_core n n';
  sr_sync : sync n' = sync n;
  sr_ver : ver n' = ver n;
  sr_loops : loops n' = loops n
}.

Lemma same_rest_trans n1 n2 n3 : same_rest n1 n2 -> same_rest n2 n3 -> same_rest n1 n3.
Proof. intros [[] ? ? ?] [[] ? ? ?]. split; [split|..]; congruence. Qed.

Lemma set_overlay_rest o n : same_rest n (set_overlay o n).
Proof. by split. Qed.

Lemma set_network_rest net n : same_rest n (set_cons (set_network net (cons n)) n).
Proof. by split. Qed.

Abbreviation net_of n := (Consensus.network (cons n)).
Abbreviation channel n := (Network.msgCh (Consensus.network (cons n))).

(** ** The reader *)

(** The read loop of connection [d] at one of its points, with the frames [ds] to come. *)
Inductive reader (id : string) (d : nat) : list (list byte) -> list Overlay.task -> Prop :=
| reader_top i k e ds : readFrames k i = (ds, Some e) -> reader id d ds [Overlay.ReadTop id d i]
| reader_reading i k e ds : readFrames k i = (ds, Some e) -> reader id d ds [Overlay.Reading id d i]
| reader_closing : reader id d [] [Overlay.Closing id d]
| reader_leaving : reader id d [] [Overlay.Leaving id d]
| reader_gone : reader id d [] [].

(** A read loop that reads on. *)
Definition readable (d : nat) (n : Network.Network) : Prop :=
  Network.cancelled n = false /\ Overlay.is_open n d.

(** One step of it: it reads the next frame, or goes on to where it reads, or ends. *)
Lemma reader_step id d ds t n net ts :
  reader id d ds [t] -> Overlay.task_step n t net ts ->
  exists ds', reader id d ds' ts /\
    ((exists data, ds = data :: ds' /\ net = Network.on_frame data n) \/
     (ds' = ds /\ net = n) \/
     (ds' = [] /\ Network.msgCh net = Network.msgCh n /\ (ds = [] \/ ~ readable d n))).
Proof.
  intros Hr Hst. inversion Hr as [i k e ds0 Hf|i k e ds0 Hf| | |]; subst; inversion Hst; subst.
  - exists []. split; [constructor|]. right. right. split; [done|]. split; [done|]. right. intros [Hc _]. congruence.
  - exists ds. split; [by eapply reader_reading|]. by right; left.
  - destruct k as [|k]; [done|]. cbn [readFrames] in Hf.
    match goal with H : readFrame i = _ |- _ => rewrite H in Hf end.
    destruct (readFrames k _) as [ds' e'] eqn:Ek. injection Hf as <- ->.
    exists ds'. split; [by eapply reader_top|]. left. by eexists.
  - destruct k as [|k]; [done|]. cbn [readFrames] in Hf.
    match goal with H : readFrame i = _ |- _ => rewrite H in Hf end. injection Hf as <- _.
    exists []. split; [constructor|]. right. right. split; [done|]. split; [done|by left].
  - exists []. split; [constructor|]. right. right. split; [done|]. split; [done|]. right. by intros [_ Ho].
  - exists []. split; [constructor|]. right. right. split; [done|]. split; [apply Overlay.close_conn_inbox|by left].
  - exists []. split; [constructor|]. right. right. split; [done|]. split; [apply Overlay.deactivate_inbox|by left].
Qed.

(** The pool of a node with the read loop of [d] in it; the others have other connections. *)
Record has_reader (id : string) (d : nat) (rest : list Overlay.task) (ds : list (list byte)) (n : Node) : Prop := {
  hr_reader : exists rd, reader id d ds rd /\ pool n ≡ₚ rd ++ rest;
  hr_others t : t ∈ rest -> Overlay.conn_of t <> Some d
}.

Lemma has_reader_pool id d rest ds n n' : pool n' = pool n -> has_reader id d rest ds n -> has_reader id d rest ds n'.
Proof. intros Hp [H1 H2]. split; [by rewrite Hp|done]. Qed.

Lemma has_reader_step id d rest ds n t rest' net ts :
  has_reader id d rest ds n -> pool n ≡ₚ t :: rest' -> Overlay.conn_of t = Some d ->
  Overlay.task_step (net_of n) t net ts ->
  exists ds', has_reader id d rest ds' (set_overlay (Overlay.mkOverlay net (ts ++ rest')) n) /\
    ((exists data, ds = data :: ds' /\ net = Network.on_frame data (net_of n)) \/
     (ds' = ds /\ net = net_of n) \/
     (ds' = [] /\ Network.msgCh net = channel n /\ (ds = [] \/ ~ readable d (net_of n)))).
Proof.
  intros [(rd & Hrd & Hp) Ho] Hp' Hc Hst. rewrite Hp in Hp'.
  assert (t ∉ rest) as Hnot by (intros Hin; by apply (Ho t Hin)).
  assert (rd = [t] /\ rest ≡ₚ rest') as [-> Hrest].
  { assert (t ∈ rd ++ rest) as Hin by (rewrite Hp'; left). apply elem_of_app in Hin as [Hin|Hin]; [|done].
    assert (rd = [t]) as -> by (destruct Hrd; [by apply list_elem_of_singleton in Hin as ->..|by apply elem_of_nil in Hin]).
    split; [done|]. by apply Permutation_cons_inv in Hp'. }
  destruct (reader_step id d ds t (net_of n) net ts Hrd Hst) as (ds' & Hrd' & Hcase).
  exists ds'. split; [|exact Hcase]. split; [|exact Ho]. exists ts. split; [exact Hrd'|]. cbn. by rewrite Hrest.
Qed.

(** It can read to the end of its stream: the messages of the frames are in the channel. *)
Lemma read_on id d rest ds n :
  has_reader id d rest ds n -> ds = [] \/ readable d (net_of n) ->
  (length (channel n ++ Network.decoded ds) <= Network.msgCh_cap)%nat ->
  exists n', rtc (hop d) n n' /\ same_rest n n' /\ has_reader id d rest [] n' /\
    channel n' = channel n ++ Network.decoded ds.
Proof.
  revert n. induction ds as [|data ds IH]; intros n Hr Hread Hroom.
  { exists n. split; [done|]. split; [by repeat split|]. split; [done|]. by rewrite app_nil_r. }
  destruct Hread as [Hread|[Hcan Hopen]]; [done|].
  assert (exists i i' k e n1, rtc (hop d) n n1 /\ same_rest n n1 /\ net_of n1 = net_of n /\
    pool n1 ≡ₚ Overlay.Reading id d i :: rest /\
    readFrame i = (i', inl data) /\ readFrames k i' = (ds, Some e)) as (i & i' & k & e & n1 & Hrun & Hsame & Hnet & Hp1 & Hf & Hfs).
  { destruct Hr as [(rd & Hrd & Hp) _].
    assert (forall i k e, readFrames k i = (data :: ds, Some e) ->
      exists i' k', readFrame i = (i', inl data) /\ readFrames k' i' = (ds, Some e)) as Hinv.
    { intros i k e Hf. destruct k as [|k]; [done|]. cbn [readFrames] in Hf.
      destruct (readFrame i) as [i' [data'|err]]; [|done]. destruct (readFrames k i') as [ds' e'] eqn:Ek.
      injection Hf as <- <- ->. by exists i', k. }
    inversion Hrd as [i k e ds0 Hf|i k e ds0 Hf| | |]; subst; destruct (Hinv _ _ _ Hf) as (i' & k' & H1 & H2).
    - exists i, i', k', e, (set_overlay (Overlay.mkOverlay (net_of n) ([Overlay.Reading id d i] ++ rest)) n).
      split; [|by repeat split]. apply rtc_once.
      apply (hop_read d n (Overlay.ReadTop id d i) rest (net_of n) [Overlay.Reading id d i]); [done|done|].
      by apply Overlay.read_check.
    - exists i, i', k', e, n. by repeat split. }
  destruct Hr as [_ Hothers].
  set (net := Network.on_frame data (net_of n)).
  set (n2 := set_overlay (Overlay.mkOverlay net ([Overlay.ReadTop id d i'] ++ rest)) n1).
  assert (hop d n1 n2) as Hhop.
  { apply (hop_read d n1 (Overlay.Reading id d i) rest net [Overlay.ReadTop id d i']); [done|done|].
    rewrite Hnet. by eapply Overlay.read_frame. }
  destruct (Network.on_frame_frame data (net_of n)) as (_ & Hconns & Hcan2).
  rewrite Network.decoded_cons in *.
  assert (Network.msgCh net = channel n ++ Network.decoded [data]) as Hch.
  { unfold net. pose proof (Network.on_frame_channel [data] (net_of n)) as H. cbn [foldl] in H.
    rewrite !length_app in Hroom. rewrite H by lia. apply take_ge. rewrite length_app. lia. }
  destruct (IH n2) as (n' & R' & S' & H' & C').
  - split; [|exact Hothers]. exists [Overlay.ReadTop id d i']. split; [by eapply reader_top|done].
  - right. split; [by rewrite <- Hcan|]. unfold Overlay.is_open. cbn. unfold net. by rewrite Hconns.
  - cbn. fold net. rewrite Hch, <- app_assoc. exact Hroom.
  - exists n'. split; [etrans; [exact Hrun|]; by eapply rtc_l|]. split.
    { apply (same_rest_trans n n1); [done|]. by apply (same_rest_trans n1 n2). }
    split; [done|]. rewrite C'. cbn. fold net. rewrite Hch. by rewrite <- app_assoc.
Qed.

(** The listener discards what is not an announcement. *)
Lemma listener_discards d msgs ms n :
  is_Some (sync_ctx (loops n)) -> listener_gone (loops n) = false -> p2p_job n = Idle ->
  Forall (fun m => Type_ m <> MsgNewBlock) msgs -> channel n = msgs ++ ms ->
  exists n', rtc (hop d) n n' /\ same_rest n n' /\ pool n' = pool n /\ channel n' = ms.
Proof.
  intros Hs Hg Hj Hall. revert n Hs Hg Hj. induction Hall as [|m msgs Hm _ IH]; intros n Hs Hg Hj Hch.
  { exists n. by repeat split. }
  set (net := Network.set_msgCh (msgs ++ ms) (net_of n)).
  set (n1 := set_cons (set_network net (cons n)) n).
  assert (hop d n n1) as Hst.
  { assert (listen m n1 = n1) as <- by (unfold listen; by rewrite (proj2 (Z.eqb_neq _ _) Hm)).
    apply (hop_listen d n m net); [done..|]. cbn. by rewrite Hch. }
  destruct (IH n1) as (n' & Hr & Hsame & Hp & Hch'); [done..|]. exists n'. split; [by eapply rtc_l|].
  split; [|by split]. by apply (same_rest_trans n n1).
Qed.

(** ** The announcement

    [n] is the node when the bytes are on their way; [b] is the announced block, [s] the
    chain with it. *)
Section Announcement.
Context (id : string) (d : nat) (rest : list Overlay.task) (n : Node).
Context (msg : Message) (ann : Sync.BlockAnnounce) (s : Sync.Engine).
Let b := Sync.block_of_announce ann.
Context (Hs : is_Some (sync_ctx (loops n))) (Hg : listener_gone (loops n) = false) (Hj : p2p_job n = Idle).
Context (Ht : Type_ msg = MsgNewBlock) (Hann : Wire.DecodeBlockAnnounce (default [] (Payload msg)) = Ok ann).
Context (Hacc : Sync.accept b (sync n) = Some s) (Hcb : Sync.onNewBlock (sync n) = true).
Context (Hz : Sync.Number b <> 0) (Hok : Verification.claim_ok (ver n) b).

Definition count (m : Node) : nat := length (attestations (Sync.Number b) m).

(** Before the listener has taken the announcement. *)
Record waiting (m : Node) : Prop := {
  wt_same : same_rest n m;
  wt_coming : exists ds others, has_reader id d rest ds m /\ channel m ++ Network.decoded ds = others ++ [msg] /\
    Forall (fun m => Type_ m <> MsgNewBlock) others /\
    (length (others ++ [msg]) <= Network.msgCh_cap)%nat /\ (ds = [] \/ readable d (net_of m))
}.

(** From then on: nothing else is coming. *)
Record handled (m : Node) : Prop := {
  hd_empty : exists ds, has_reader id d rest ds m /\ channel m ++ Network.decoded ds = [];
  hd_sync : sync m = s;
  hd_stage : (p2p_job m = Accepted b /\ ver m = ver n /\ count m = count n) \/
             (p2p_job m = Verified b /\ count m = count n) \/
             (p2p_job m = Idle /\ count m = S (count n))
}.

Lemma accepted_callback : Sync.onNewBlock s = true.
Proof using Hacc Hcb. by apply Sync.accept_Some in Hacc as (_ & _ & ->). Qed.

(** The listener takes the announcement. *)
Lemma take_announcement m net ms ds :
  same_rest n m -> has_reader id d rest ds m -> ms ++ Network.decoded ds = [] ->
  net = Network.set_msgCh ms (net_of m) -> handled (listen msg (set_cons (set_network net (cons m)) m)).
Proof using Hj Ht Hann Hacc.
  intros [[_ _ _ J _ A _ _] Y V _] Hr Hnil ->. unfold listen. rewrite Ht, Hann. cbn [Z.eqb MsgNewBlock]. fold b.
  unfold start_block. cbn [sync set_cons]. rewrite Y, Hacc. split.
  - exists ds. split; [|exact Hnil]. by apply (has_reader_pool id d rest ds m).
  - done.
  - left. split; [done|]. split; [done|]. unfold count, attestations. cbn. by rewrite A.
Qed.

Lemma verify_handled m reply : handled m -> p2p_job m = Accepted b -> handled (run_verify P2PListener reply b m).
Proof using Hacc Hcb Hz Hok.
  intros [(ds & Hr & Hnil) Hsy Hst] Ha. assert (ver m = ver n /\ count m = count n) as [Hv Hc] by (destruct Hst as [(_ & ?)|[[? _]|[? _]]]; [done|congruence..]).
  destruct (run_verify_verdict P2PListener reply b m) as [met ->]; [by rewrite Hsy, accepted_callback|].
  rewrite Hv, (Verification.VerifyBlock_accepts b (ver n) Hz Hok). cbn [snd fst Verification.rValid]. split.
  - exists ds. split; [|exact Hnil]. by apply (has_reader_pool id d rest ds m).
  - done.
  - right. left. split; [done|exact Hc].
Qed.

Lemma attest_handled m now1 now2 : handled m -> p2p_job m = Verified b -> handled (run_attest P2PListener now1 now2 b m).
Proof using.
  intros [(ds & Hr & Hnil) Hsy Hst] Hv. assert (count m = count n) as Hc by (destruct Hst as [[? _]|[[_ ?]|[? _]]]; [congruence|done|congruence]).
  split.
  - exists ds. split; [by apply (has_reader_pool id d rest ds m)|].
    assert (channel (run_attest P2PListener now1 now2 b m) = channel m) as ->; [|done].
    exact (P2P.Broadcast_inbox _ _ (net_of m)).
  - done.
  - right. right. split; [done|]. unfold count. rewrite run_attest_attestations, Z.eqb_refl. unfold count in Hc. lia.
Qed.

Lemma hop_handled m m' : hop d m m' -> handled m -> handled m'.
Proof using Hacc Hcb Hz Hok.
  intros [t rest' net ts Hp Hc Hst|msg' net _ _ Hjm Hm|b' reply Ha|b' now1 now2 Hv] Hh.
  - pose proof Hh as [(ds & Hr & Hnil) Hsy Hstage].
    destruct (has_reader_step id d rest ds m t rest' net ts Hr Hp Hc Hst) as (ds' & Hr' & Hcase).
    split; [|done|exact Hstage]. exists ds'. split; [exact Hr'|]. cbn.
    apply app_nil in Hnil as [Hch Hds]. destruct Hcase as [(data & -> & ->)|[[-> ->]|(-> & -> & _)]].
    + rewrite Network.decoded_cons in Hds. apply app_nil in Hds as [Hd ->]. rewrite app_nil_r.
      pose proof (Network.on_frame_channel [data] (net_of m)) as H. cbn [foldl] in H. rewrite H, Hch, Hd; [done|]. rewrite Hch. cbn. lia.
    + by rewrite Hch.
    + by rewrite Hch.
  - exfalso. destruct Hh as [(ds & _ & [Hch _]%app_nil) _ _]. cbn in Hm. by rewrite Hch in Hm.
  - assert (b' = b) as -> by (destruct Hh as [_ _ [[? _]|[[? _]|[? _]]]]; congruence). by apply verify_handled.
  - assert (b' = b) as -> by (destruct Hh as [_ _ [[? _]|[[? _]|[? _]]]]; congruence). by apply attest_handled.
Qed.

Lemma hop_waiting m m' : hop d m m' -> waiting m -> waiting m' \/ handled m'.
Proof using Hj Ht Hann Hacc.
  intros [t rest' net ts Hp Hc Hst|msg' net _ _ Hjm Hm|b' reply Ha|b' now1 now2 Hv]
    [Hsame (ds & others & Hr & Hch & Hoth & Hroom & Hread)].
  - left. destruct (has_reader_step id d rest ds m t rest' net ts Hr Hp Hc Hst) as (ds' & Hr' & Hcase).
    split; [by apply (same_rest_trans n m)|]. exists ds', others. split; [exact Hr'|]. cbn.
    destruct Hcase as [(data & -> & ->)|[[-> ->]|(-> & -> & Hend)]].
    + destruct (Network.on_frame_frame data (net_of m)) as (_ & Hconns & Hcan).
      pose proof (Network.on_frame_channel [data] (net_of m)) as H. cbn [foldl] in H.
      rewrite Network.decoded_cons, app_assoc in Hch. rewrite <- Hch, !length_app in Hroom.
      rewrite H, take_ge by (rewrite ?length_app; lia). split; [done|]. split; [done|].
      split; [rewrite <- Hch, !length_app; lia|]. right. destruct Hread as [|[H1 H2]]; [done|].
      split; [by rewrite Hcan|]. unfold Overlay.is_open. by rewrite Hconns.
    + by repeat split.
    + assert (ds = []) as -> by (destruct Hend as [->|Hno]; [done|]; by destruct Hread).
      split; [exact Hch|]. split; [done|]. split; [done|by left].
  - cbn in Hm. destruct (channel m) as [|m0 ch] eqn:Ec; [done|]. injection Hm as -> <-.
    destruct others as [|o others].
    + injection Hch as -> Hnil. right. by apply (take_announcement m _ ch ds).
    + injection Hch as -> Hch. left. apply Forall_cons in Hoth as [Ho Hoth].
      unfold listen. rewrite (proj2 (Z.eqb_neq _ _) Ho). split; [by apply (same_rest_trans n m)|].
      exists ds, others. split; [by apply (has_reader_pool id d rest ds m)|]. split; [exact Hch|]. split; [exact Hoth|].
      split; [cbn in Hroom; lia|exact Hread].
  - exfalso. destruct Hsame as [[_ _ _ J _ _ _ _] _ _ _]. congruence.
  - exfalso. destruct Hsame as [[_ _ _ J _ _ _ _] _ _ _]. congruence.
Qed.

Lemma hops_on_the_way m : rtc (hop d) n m -> waiting n -> waiting m \/ handled m.
Proof using Hj Ht Hann Hacc Hcb Hz Hok.
  intros Hr Hw. assert (forall m1 m2, rtc (hop d) m1 m2 -> waiting m1 \/ handled m1 -> waiting m2 \/ handled m2) as H.
  { induction 1 as [|m1 m2 m3 H _ IH]; [done|]. intros [Hw1|Hh]; apply IH; [by apply (hop_waiting m1)|right; by apply (hop_handled m1)]. }
  apply (H n m Hr). by left.
Qed.

Lemma waiting_handled m : waiting m -> exists m', rtc (hop d) m m' /\ handled m'.
Proof using Hs Hg Hj Ht Hann Hacc.
  intros [Hsame (ds & others & Hr & Hch & Hoth & Hroom & Hread)].
  destruct (read_on id d rest ds m Hr Hread) as (m1 & R1 & S1 & Hr1 & C1); [by rewrite Hch|].
  pose proof (same_rest_trans _ _ _ Hsame S1) as S1'. assert (loops m1 = loops n /\ p2p_job m1 = Idle) as [L1 J1] by (destruct S1' as [[_ _ _ J _ _ _ _] _ _ L]; split; congruence).
  destruct (listener_discards d others [msg] m1) as (m2 & R2 & S2 & P2 & C2);
    [by rewrite L1|by rewrite L1|congruence|done|by rewrite C1|].
  pose proof (same_rest_trans _ _ _ S1' S2) as S2'. assert (loops m2 = loops n /\ p2p_job m2 = Idle) as [L2 J2] by (destruct S2' as [[_ _ _ J _ _ _ _] _ _ L]; split; congruence).
  eexists. split; [etrans; [exact R1|]; etrans; [exact R2|]; apply rtc_once|].
  - apply (hop_listen d m2 msg (Network.set_msgCh [] (net_of m2))); [by rewrite L2|by rewrite L2|congruence|]. cbn. by rewrite C2.
  - apply (take_announcement m2 _ [] []); [done| |done|done]. by apply (has_reader_pool id d rest [] m1).
Qed.

Lemma handled_finished m : handled m -> exists m', rtc (hop d) m m' /\ sync m' = s /\ count m' = S (count n).
Proof using Hacc Hcb Hz Hok.
  assert (forall m, handled m -> p2p_job m = Verified b -> exists m', rtc (hop d) m m' /\ sync m' = s /\ count m' = S (count n)) as Hv.
  { intros m1 Hh H1. exists (run_attest P2PListener 0 0 b m1). split; [by apply rtc_once, hop_attest|].
    pose proof (attest_handled m1 0 0 Hh H1) as [_ Hsy Hst]. split; [exact Hsy|]. by destruct Hst as [[? _]|[[? _]|[_ ?]]]. }
  intros Hh. pose proof Hh as [_ Hsy [(Ha & _)|[[H1 _]|[_ Hc]]]]; [|by apply Hv|by exists m].
  pose proof (verify_handled m (Err ""%string) Hh Ha) as Hh'.
  destruct (Hv _ Hh') as (m' & R & H); [|exists m'; split; [eapply rtc_l; [by apply hop_verify|exact R]|exact H]].
  destruct (run_verify_verdict P2PListener (Err ""%string) b m) as [met ->]; [by rewrite Hsy, accepted_callback|].
  destruct Hh as [_ _ [(_ & -> & _)|[[? _]|[? _]]]]; [|congruence..].
  by rewrite (Verification.VerifyBlock_accepts b (ver n) Hz Hok).
Qed.

End Announcement.
(** No other goroutine has the connection of a read loop. *)
Lemma reader_alone cfg key clock n0 n id d i rest :
  setup cfg key clock = Ok n0 -> rtc step n0 n -> pool n ≡ₚ Overlay.ReadTop id d i :: rest ->
  forall t, t ∈ rest -> Overlay.conn_of t <> Some d.
Proof.
  intros (Hphase & _)%Lifecycle.setup_quiet Hr Hp t Hin Hc.
  apply (Lifecycle.steps_phase _ _ Hr) in Hphase as [port boot [_ _ _ _ _ Q _] _ _|port boot err [_ _ _ _ _ Q _] _ _|k [Hov _ _ _]].
  1,2: rewrite Q in Hp; exact (Permutation_nil_cons Hp).
  apply Overlay.reachable_wf in Hov. pose proof (Overlay.wf_hands _ _ Hov d) as Hh. cbn [overlay Overlay.tasks] in Hh.
  rewrite (Overlay.hands_perm d _ _ Hp), Overlay.hands_cons, decide_True in Hh by done. pose proof (Overlay.hands_elem d t rest Hin Hc). lia.
Qed.

(** What the sender has put on the wire. *)
Lemma sent_stream (a : Network.Network) order ida c datas payload w :
  Network.iterates order a -> Network.owns a ida c -> Network.open_conn a c (mjoin (map frame datas)) ->
  Network.open_conn (fst (Network.Broadcast order MsgNewBlock (Some payload) a)) c w ->
  w = mjoin (map frame (datas ++ [Network.envelope a MsgNewBlock (Some payload)])).
Proof.
  intros Ho Hown Hopen [e2 He2].
  pose proof (Network.Broadcast_open order MsgNewBlock (Some payload) a ida c _ Ho Hown Hopen) as [e1 He1].
  rewrite He1 in He2. injection He2 as <- _. rewrite map_app, join_app. cbn. by rewrite app_nil_r.
Qed.

(** ** Properties *)

(** C4. From gossip to finality. A peer [a] has sent messages of other kinds on a connection,
    as its own announcement, and broadcasts the announcement of a block. The bytes it has
    written, cut into chunks in any way, are what a running node's read loop is going to
    read from its end of the connection. Let only the goroutines on the way of the message
    run: that read loop, the P2P listener and its callback, in any order and interleaved in
    any way. If the block is the next of the node's chain and honestly derived from its
    root, then from whatever point they have come to they can go on to where the announced
    block is in the chain and attested exactly once, and the node counts it as finalized. *)
Theorem gossip_finalizes (cfg : Config.t) (key : PrivateKey) (clock : nat -> Z) (n0 n : Node)
  (Hstake : 1 <= Config.MinStake (Config.Validator cfg) < 2 ^ 51) (Hclock : clock 0%nat <= clock 3%nat)
  (H0 : setup cfg key clock = Ok n0) (Hr : rtc step n0 n)
  (* the sender *)
  (a : Network.Network) (order : list string) (ida : string) (c : nat) (datas : list (list byte))
  (payload w : list byte) (ann : Sync.BlockAnnounce)
  (Ho : Network.iterates order a) (Hown : Network.owns a ida c)
  (Hopen : Network.open_conn a c (mjoin (map frame datas)))
  (Hother : Forall (fun m => Type_ m <> MsgNewBlock) (Network.decoded datas))
  (Hsize : Forall (fun m => Z.of_nat (length m) <= max_message) (datas ++ [Network.envelope a MsgNewBlock (Some payload)]))
  (Hid : Json.ascii (Json.text (Network.localID a)))
  (Hann : Wire.DecodeBlockAnnounce payload = Ok ann)
  (Hw : Network.open_conn (fst (Network.Broadcast order MsgNewBlock (Some payload) a)) c w)
  (* the receiver *)
  (id : string) (d : nat) (rest : list Overlay.task) (cs : list (list byte))
  (Hcs : mjoin cs = w) (Hpool : pool n ≡ₚ Overlay.ReadTop id d (Inbound cs EOF) :: rest)
  (Hlive : Network.cancelled (Consensus.network (cons n)) = false)
  (Hconn : Overlay.is_open (Consensus.network (cons n)) d)
  (Hempty : Network.msgCh (Consensus.network (cons n)) = []) (Hroom : (S (length datas) <= Network.msgCh_cap)%nat)
  (Hs : is_Some (sync_ctx (loops n))) (Hg : listener_gone (loops n) = false) (Hj : p2p_job n = Idle)
  (Hnext : is_Some (Sync.accept (Sync.block_of_announce ann) (sync n)))
  (Hz : Sync.aNumber ann <> 0) (Hok : Verification.claim_ok (ver n) (Sync.block_of_announce ann)) :
  forall m, rtc (hop d) n m -> exists n', rtc (hop d) m n' /\
    Sync.GetBlock (Sync.aNumber ann) (sync n') = Some (Sync.block_of_announce ann) /\
    length (attestations (Sync.aNumber ann) n') = 1%nat /\
    forall ord, Consensus.iterates ord (Consensus.eng (cons n')) ->
      snd (Consensus.IsFinalized ord (Sync.aNumber ann) (cons n')) = true.
Proof.
  intros m Hm. destruct Hnext as [s Hacc]. set (env := Network.envelope a MsgNewBlock (Some payload)) in *.
  set (msg := mkMessage MsgNewBlock (Json.text (Network.localID a)) (Some payload)).
  assert (Network.decoded (datas ++ [env]) = Network.decoded datas ++ [msg]) as Hdec.
  { unfold Network.decoded. rewrite omap_app. f_equal.
    exact (Network.decoded_envelopes a [(MsgNewBlock, Some payload)] Hid ltac:(by repeat constructor)). }
  rewrite (sent_stream a order ida c datas payload w Ho Hown Hopen Hw) in Hcs. fold env in Hcs.
  assert (Sync.onNewBlock (sync n) = true) as Hcb.
  { rewrite (steps_sync_callback _ _ Hr). by apply Lifecycle.setup_quiet in H0 as (_ & _ & _ & _ & _ & _ & _ & _ & ->). }
  assert (waiting id d rest n msg n) as Hwait.
  { split; [by repeat split|]. exists (datas ++ [env]), (Network.decoded datas). split; [|split; [|split; [|split]]].
    - split; [|by eapply reader_alone]. exists [Overlay.ReadTop id d (Inbound cs EOF)]. split; [|done].
      eapply reader_top. by apply readFrames_stream.
    - by rewrite Hempty, Hdec.
    - done.
    - rewrite length_app, Nat.add_1_r. etrans; [|exact Hroom]. apply le_n_S, Network.decoded_length.
    - by right. }
  assert (exists m', rtc (hop d) m m' /\ handled id d rest n ann s m') as (m' & R1 & Hh).
  { destruct (hops_on_the_way id d rest n msg ann s) with (m := m) as [Hw'|Hh]; try done; [|by exists m].
    by apply (waiting_handled id d rest n msg ann s). }
  destruct (handled_finished id d rest n ann s) with (m := m') as (n' & R2 & Hsy & Hc); try done.
  assert (rtc step n0 n') as R by (etrans; [exact Hr|]; eapply (hops_steps d); etrans; [exact Hm|]; by etrans).
  set (k := Sync.Number (Sync.block_of_announce ann)) in *. change (Sync.aNumber ann) with k in *.
  assert (length (attestations k n') = 1%nat) as A1.
  { pose proof (claims_le_held cfg key clock n0 n' k ltac:(lia) Hclock H0 R) as Hcl.
    pose proof (held_le_1 k n'). unfold claims in Hcl. unfold count in Hc. fold k in Hc. lia. }
  exists n'. split; [by etrans|]. split; [|split; [exact A1|]].
  - rewrite Hsy. apply Sync.accept_Some in Hacc as (_ & _ & ->). unfold Sync.GetBlock. cbn. apply lookup_insert_eq.
  - intros ord Hord. by rewrite (own_quorum cfg key clock n0 n' _ ord Hstake Hclock H0 R Hord), A1.
Qed.
End Delivery.

(** ** Witnesses *)

Section Witnesses.
Import ToyEth.

(** A peer that has connected and announced itself. *)
Definition sender : Network.Network :=
  Overlay.connected "a:9000" 1 Overlay.quiet_conn (Network.NewNetwork 9001 ["a:9000"]).
Definition sent : list (list byte) := [Network.announce (Network.NewNetwork 9001 ["a:9000"])].

Lemma sender_owns : Network.owns sender "outbound-a:9000" 1.
Proof.
  split; [vm_compute; reflexivity|]. intros id. unfold Network.target.
  assert (Network.peers sender = {["outbound-a:9000"%string := Network.mkPeer "outbound-a:9000" "a:9000" "inso/1.0" true 0 (Some 1%nat)]})
    as -> by (vm_compute; reflexivity).
  destruct (decide (id = "outbound-a:9000"%string)) as [->|Hne]; [done|]. by rewrite lookup_singleton_ne.
Qed.

Lemma sender_open : Network.open_conn sender 1 (mjoin (map frame sent)).
Proof. exists ErrClosed. vm_compute. reflexivity. Qed.

Definition news : list byte := Wire.EncodeBlockAnnounce (announce_of block1).

(** What arrives at the other end, in two chunks. *)
Definition wire_bytes : list byte :=
  mjoin (map frame (sent ++ [Network.envelope sender MsgNewBlock (Some news)])).
Definition two_chunks : inbound := Inbound [take 11 wire_bytes; drop 11 wire_bytes] EOF.
Definition receiver : Node := online two_chunks.

(** On the way: the read loop has seen that the network is not stopped, and reads. *)
Definition others : list Overlay.task := [Overlay.AcceptLoop; Overlay.Bootnodes []; Overlay.Liveness].
Definition on_its_way : Node :=
  set_overlay (Overlay.mkOverlay (Consensus.network (cons receiver)) (Overlay.Reading "inbound-b:9001" 1 two_chunks :: others)) receiver.

Lemma on_its_way_hop : hop 1 receiver on_its_way.
Proof.
  apply (hop_read 1 receiver (Overlay.ReadTop "inbound-b:9001" 1 two_chunks) others (Consensus.network (cons receiver))
    [Overlay.Reading "inbound-b:9001" 1 two_chunks]).
  - reflexivity.
  - reflexivity.
  - apply Overlay.read_check. vm_compute. reflexivity.
Qed.

Lemma gossip_finalizes_witness :
  exists n', rtc (hop 1) on_its_way n' /\ Sync.GetBlock 1 (sync n') = Some block1 /\ length (attestations 1 n') = 1%nat.
Proof.
  destruct (gossip_finalizes Config.DefaultConfig key clock started receiver default_stake ltac:(done) started_setup
    (started_online two_chunks) sender (Network.order_of sender) "outbound-a:9000" 1 sent news wire_bytes (announce_of block1)
    (Permutation_refl _) sender_owns sender_open) with (id := "inbound-b:9001"%string) (d := 1%nat)
    (cs := [take 11 wire_bytes; drop 11 wire_bytes]) (m := on_its_way)
    (rest := others) as (n' & H1 & H2 & H3 & _).
  - rewrite Forall_forall. intros m Hm. assert (Network.decoded sent = [mkMessage MsgValidatorAnnounce (Json.text "validator-9001")
      (Some (Json.quoted "{'port':9001}"))]) as Hd by (vm_compute; reflexivity).
    rewrite Hd in Hm. apply list_elem_of_singleton in Hm as ->. discriminate.
  - apply Forall_app. unfold sent. split; apply Forall_singleton; vm_compute; discriminate.
  - apply Wire.text_ascii. vm_compute. reflexivity.
  - vm_compute. reflexivity.
  - exists ErrClosed. vm_compute. reflexivity.
  - cbn [mjoin list_join]. rewrite app_nil_r. apply take_drop.
  - reflexivity.
  - vm_compute. reflexivity.
  - eexists. split; vm_compute; reflexivity.
  - vm_compute. reflexivity.
  - unfold Network.msgCh_cap. cbn. lia.
  - exists false. vm_compute. reflexivity.
  - vm_compute. reflexivity.
  - vm_compute. reflexivity.
  - vm_compute. by eexists.
  - done.
  - right. vm_compute. reflexivity.
  - apply rtc_once, on_its_way_hop.
  - exists n'. split; [exact H1|]. split; [exact H2|exact H3].
Defined.

End Witnesses.
End System.
