(* ===== verification/Rpc.v ===== *)
(** * internal/rpc: the JSON-RPC server

    The handlers over the node's components. A request is its HTTP method and body, a
    reply the status and the value handed to the JSON encoder; the sequencer's answers
    and the iteration orders of maps are given by the environment. *)

From Stdlib Require Import QArith Ascii.
From S2P Require Import Prelude Bytes Fmt Eth Metrics P2P Json Sync Wire Network Verification Client Rounding Float Value Config BigFloat Quorum Reputation Staking Consensus Node.
Local Open Scope Z_scope.
Import Json Wire Value Node.

Module Rpc.

#[local] Existing Instance Network.transport.

(** ** Parameters *)

(** The parameter array and the element at [idx]: a missing array is no JSON text, [null]
    an array without elements. *)
Definition param (params : option json) (idx : nat) : outcome json :=
  match params with
  | Some JNull => Err ("missing parameter at index " +:+ string_of_bytes (FormatInt (Z.of_nat idx)))
  | Some (JArr es) =>
      match es !! idx with
      | Some j => Ok j
      | None => Err ("missing parameter at index " +:+ string_of_bytes (FormatInt (Z.of_nat idx)))
      end
  | _ => Err "params must be an array"
  end.

(** [strings.TrimPrefix(s, "0x")]. *)
Definition trim_0x (s : list byte) : list byte :=
  match s with
  | a :: b :: s' => if (code a =? 48) && (code b =? 120) then s' else s
  | _ => s
  end.

(** [new(big.Int).SetString(s, 16)]: an optional sign and at least one digit. *)
Definition SetString16 (s : list byte) : option Z :=
  let '(neg, ds) := match s with
    | b :: s' => if code b =? 45 then (true, s') else if code b =? 43 then (false, s') else (false, s)
    | [] => (false, []) end in
  match mapM hex_code ds with
  | None | Some [] => None
  | Some l => Some (if neg then - Fmt.digits_value l else Fmt.digits_value l)
  end.

(** [Uint64]: the low 64 bits of the magnitude. *)
Definition Uint64 (n : Z) : Z := u64 (Z.abs n).

Definition parseUint64Param (params : option json) (idx : nat) : outcome Z :=
  j ← param params idx;
  match dec_uint 64 j 0 with
  | (val, true) => Ok val
  | (_, false) =>
      match dec_string j [] with
      | (hexStr, true) =>
          match SetString16 (trim_0x hexStr) with
          | Some n => Ok (Uint64 n)
          | None => Err ("invalid uint64 at index " +:+ string_of_bytes (FormatInt (Z.of_nat idx)))
          end
      | (_, false) => Err ("invalid uint64 at index " +:+ string_of_bytes (FormatInt (Z.of_nat idx)))
      end
  end.

Definition parseStringParam (params : option json) (idx : nat) : outcome (list byte) :=
  j ← param params idx;
  match dec_string j [] with
  | (val, true) => Ok val
  | (_, false) => Err ("invalid string at index " +:+ string_of_bytes (FormatInt (Z.of_nat idx)))
  end.

(** ** Hexadecimal parameters *)

Lemma hex_code_digit d : 0 <= d < 16 -> mapM hex_code (text (String (Fmt.hex_digit d) "")) = Some [d].
Proof.
  intros H. assert (forallb (fun d => bool_decide (mapM hex_code (text (String (Fmt.hex_digit d) "")) = Some [d])) (seqZ 0 16) = true)
    as Hall by (vm_compute; reflexivity).
  rewrite forallb_forall in Hall. eapply bool_decide_eq_true_1, Hall. apply list_elem_of_In, elem_of_seqZ. lia.
Qed.

Lemma hex_code_digits ds :
  Forall (fun d => 0 <= d < 16) ds -> mapM hex_code (text (Fmt.string_of_digits ds)) = Some ds.
Proof.
  induction 1 as [|d ds Hd _ IH]; [done|]. pose proof (hex_code_digit d Hd) as H1.
  cbn [Fmt.string_of_digits]. change (text (String ?c ?s)) with (Ascii.byte_of_ascii c :: text s).
  change (text (String ?c "")) with [Ascii.byte_of_ascii c] in H1. cbn [mapM] in *.
  destruct (hex_code (Ascii.byte_of_ascii (Fmt.hex_digit d))) as [x|]; [|done]. cbn in H1. injection H1 as ->.
  cbn [mbind option_bind]. by rewrite IH.
Qed.

Lemma SetString16_digits ds :
  Forall (fun d => 0 <= d < 16) ds -> ds <> [] ->
  SetString16 (text (Fmt.string_of_digits ds)) = Some (Fmt.digits_value ds).
Proof.
  intros Hds Hne. pose proof (hex_code_digits ds Hds) as Hm. unfold SetString16.
  destruct Hds as [|d ds Hd Hds]; [done|]. cbn [Fmt.string_of_digits] in *.
  change (text (String ?c ?s)) with (Ascii.byte_of_ascii c :: text s) in *.
  set (b := Ascii.byte_of_ascii (Fmt.hex_digit d)) in *.
  assert ((code b =? 45) = false /\ (code b =? 43) = false) as [-> ->].
  { cbn [mapM] in Hm. destruct (hex_code b) as [x|] eqn:Eb; [|done].
    split; apply Z.eqb_neq; intros Hc; unfold hex_code, between_codes in Eb; rewrite Hc in Eb; done. }
  by rewrite Hm.
Qed.

Lemma digits_value_nonneg ds : Forall (fun d => 0 <= d < 16) ds -> 0 <= Fmt.digits_value ds.
Proof.
  intros H. unfold Fmt.digits_value. assert (forall acc, 0 <= acc -> 0 <= foldl (fun acc d => acc * 16 + d) acc ds) as Hg;
    [|by apply Hg]. induction H as [|d ds Hd _ IH]; intros acc Ha; [done|]. cbn [foldl]. apply IH. lia.
Qed.

(** ** Requests and replies *)

Record request := mkRequest { JSONRPC : list byte; Method : list byte; Params : option json; ID : value }.

Definition dec_any : decoder value := fun j _ => of_json j.

Definition request_fields : list (field request) := [
  ("jsonrpc"%string, on JSONRPC (fun x r => mkRequest x (Method r) (Params r) (ID r)) dec_string);
  ("method"%string, on Method (fun x r => mkRequest (JSONRPC r) x (Params r) (ID r)) dec_string);
  ("params"%string, on Params (fun x r => mkRequest (JSONRPC r) (Method r) x (ID r)) Client.dec_raw);
  ("id"%string, on ID (fun x r => mkRequest (JSONRPC r) (Method r) (Params r) x) dec_any) ].

Record reply := mkReply { status : Z; body : option value }.

Definition obj (ms : list (string * value)) : value := VObj (List.map (fun '(k, v) => (text k, v)) ms).
Definition str (s : string) : value := VStr (text s).

Definition writeError (id : value) (code : Z) (msg : string) : reply :=
  mkReply 200 (Some (obj [("error", obj [("code", VInt code); ("message", str msg)]); ("id", id); ("jsonrpc", str "2.0")])).

(** A result that cannot be marshalled becomes [null]. *)
Definition writeResult (id : value) (result : value) : reply :=
  mkReply 200 (Some (obj [("id", id); ("jsonrpc", str "2.0"); ("result", if marshalable result then result else VNull)])).

Section Server.
Context {E : EthLib}.

(** ** The structs as JSON values *)

Definition omitempty (k s : string) : list (string * value) := if bool_decide (s = ""%string) then [] else [(k, str s)].

Definition value_of_info (v : Consensus.ValidatorInfo) : value := obj [
  ("address", str (Address_MarshalText (Consensus.vAddress v))); ("stake", VInt (Consensus.vStake v));
  ("tasteScore", VFloat (Consensus.vTasteScore v)); ("votePower", VFloat (Consensus.VotePower v));
  ("sovereigntyScore", VFloat (Consensus.SovereigntyScore v)); ("sovereigntyTier", VInt (Consensus.SovereigntyTier v));
  ("isActive", VBool (Consensus.IsActive v)); ("slashCount", VInt (Consensus.SlashCount v));
  ("joinedAt", VTime (Consensus.JoinedAt v))].

Definition value_of_peer (p : Network.Peer) : value := obj [
  ("id", str (Network.ID p)); ("address", str (Network.pAddress p)); ("version", str (Network.Version p));
  ("isActive", VBool (Network.IsActive p)); ("latencyMs", VInt (Network.Latency p))].

Definition value_of_stake (s : Staking.Stake) : value := obj [
  ("validator", str (Address_MarshalText (Staking.Validator s))); ("amount", VInt (Staking.Amount s));
  ("stakedAt", VTime (Staking.StakedAt s)); ("isActive", VBool (Staking.IsActive s));
  ("rewards", VInt (Staking.Rewards s)); ("slashCount", VInt (Staking.SlashCount s))].

Definition value_of_reputation (r : Reputation.ValidatorReputation) : value := obj [
  ("address", str (Address_MarshalText (Reputation.rAddress r))); ("xp", VInt (Reputation.XP r));
  ("uptimeBps", VInt (Reputation.UptimeBps r)); ("blocksAttested", VInt (Reputation.BlocksAttested r));
  ("blocksMissed", VInt (Reputation.BlocksMissed r)); ("slashCount", VInt (Reputation.SlashCount r));
  ("sovereigntyScore", VFloat (Reputation.SovereigntyScore r)); ("tier", VInt (Reputation.Tier r));
  ("lastActive", VTime (Reputation.LastActive r)); ("joinedAt", VTime (Reputation.JoinedAt r))].

Definition value_of_result (r : Verification.Result) : value := obj (
  [("blockNumber", VInt (Verification.rBlockNumber r)); ("valid", VBool (Verification.rValid r))]
  ++ omitempty "error" (Verification.rError r) ++ [("stateRoot", str (Verification.rStateRoot r))]).

Definition value_of_lanes (r : Verification.LaneVerificationResult) : value := obj (
  [("blockNumber", VInt (Verification.lrBlockNumber r)); ("lanesEnabled", VBool (Verification.lrLanesEnabled r));
   ("fastCount", VInt (Verification.lrFast r)); ("standardCount", VInt (Verification.lrStandard r));
   ("slowCount", VInt (Verification.lrSlow r)); ("valid", VBool (Verification.lrValid r))]
  ++ omitempty "error" (Verification.lrError r)).

Definition value_of_receipt (r : Verification.ReceiptVerificationResult) : value := obj (
  [("txHash", str (Verification.rrTxHash r)); ("blockNumber", VInt (Verification.rrBlockNumber r));
   ("valid", VBool (Verification.rrValid r))] ++ omitempty "error" (Verification.rrError r) ++
  [("receiptHash", str (Verification.rrReceiptHash r)); ("verified", VBool (Verification.rrVerified r))]).

Definition value_of_adaptive (r : Verification.AdaptiveVerificationResult) : value := obj (
  [("blockNumber", VInt (Verification.arBlockNumber r)); ("gasUsed", VInt (Verification.arGasUsed r));
   ("gasLimit", VInt (Verification.arGasLimit r)); ("gasLimitValid", VBool (Verification.arGasLimitValid r));
   ("txCountValid", VBool (Verification.arTxCountValid r)); ("valid", VBool (Verification.arValid r))]
  ++ omitempty "error" (Verification.arError r)).

(** A nil slice is [null]; only [ActiveValidators] may return one. *)
Definition slice_or_null (vs : list value) : value := match vs with [] => VNull | _ => VList vs end.

(** ** The server *)

(** What is wired in besides the components: whether the reputation manager and the
    metrics are, and the sequencer's address. *)
Record Server := mkServer { reputation : bool; seqCfg : option string; metrics : bool }.

Definition NewServer : Server := mkServer false None false.
Definition SetReputation (s : Server) : Server := mkServer true (seqCfg s) (metrics s).
Definition SetSequencerConfig (url : string) (s : Server) : Server := mkServer (reputation s) (Some url) (metrics s).
Definition SetMetrics (s : Server) : Server := mkServer (reputation s) (seqCfg s) true.

Definition sequencerURL (s : Server) : string :=
  match seqCfg s with
  | Some url => if negb (bool_decide (url = ""%string)) then url else "http://localhost:8545"
  | None => "http://localhost:8545"
  end.

Record environment := mkEnv {
  height : outcome (list byte); lanes : string -> outcome (list byte);
  receipt : string -> list byte -> outcome (list byte);
  order_validators : list (Address * Consensus.ValidatorInfo); order_stakes : list (Address * Staking.Stake);
  order_peers : list string; order_reputations : list (Address * Reputation.ValidatorReputation)
}.

Definition is_method (r : request) (name : string) : bool := bool_decide (Method r = text name).

Definition synced (env : environment) (n : Node) : bool := Sync.IsSynced (Client.height_reply (height env)) (Node.sync n).
Definition peer_count (n : Node) : Z := Network.PeerCount (Consensus.network (cons n)).

(** The block named by the first parameter. *)
Definition block_param (r : request) (n : Node) : Sync.L2Block + reply :=
  match parseUint64Param (Params r) 0 with
  | Err e | Panic e => inr (writeError (ID r) (-32602) ("invalid block number: " +:+ e))
  | Ok blockNum =>
      match Sync.GetBlock blockNum (Node.sync n) with
      | None => inr (writeError (ID r) (-32602) "block not found")
      | Some block => inl block
      end
  end.

(** The methods, in the order of the switch. *)
Definition dispatch (env : environment) (s : Server) (r : request) (n : Node) : Node * reply :=
  let ok result := (n, writeResult (ID r) result) in
  let fail code msg := (n, writeError (ID r) code msg) in
  if is_method r "inso_validatorStatus" then
    ok (obj [("latestBlock", VInt (Sync.LatestBlock (Node.sync n))); ("peerCount", VInt (peer_count n));
             ("synced", VBool (synced env n));
             ("totalStaked", VStr (text (pretty (Staking.TotalStaked (order_stakes env)))));
             ("validatorCount", VInt (Consensus.ValidatorCount (Consensus.eng (cons n))))])
  else if is_method r "inso_getValidators" then ok (VList (value_of_info <$> Consensus.Validators (order_validators env)))
  else if is_method r "inso_getPeers" then
    ok (VList (value_of_peer <$> Network.Peers (order_peers env) (Consensus.network (cons n))))
  else if is_method r "inso_getActiveStakes" then
    ok (slice_or_null (value_of_stake <$> Staking.ActiveValidators (order_stakes env)))
  else if is_method r "inso_verifyBlock" then
    match block_param r n with
    | inr e => (n, e)
    | inl block =>
        let '(v, result) := Verification.VerifyBlock block (ver n) in
        (set_ver v n, writeResult (ID r) (value_of_result result))
    end
  else if is_method r "inso_getLaneVerification" then
    ok (value_of_lanes (Verification.VerifyLaneAllocation (Client.fetchLaneStats (lanes env (sequencerURL s)))))
  else if is_method r "inso_getReceiptVerification" then
    match parseStringParam (Params r) 0 with
    | Err e | Panic e => fail (-32602) ("invalid txHash: " +:+ e)%string
    | Ok txHash =>
        ok (value_of_receipt (Verification.VerifyComputeReceipt
          (Client.fetchComputeReceipt (receipt env (sequencerURL s) (Client.receipt_body txHash))) (string_of_bytes txHash)))
    end
  else if is_method r "inso_getAdaptiveVerification" then
    match block_param r n with
    | inr e => (n, e)
    | inl block => ok (value_of_adaptive (Verification.VerifyAdaptiveBlock block Verification.DefaultAdaptiveBounds))
    end
  else if is_method r "inso_getReputationScores" then
    if negb (reputation s) then fail (-32603) "reputation manager not available"%string
    else ok (VList (value_of_reputation <$> Reputation.AllReputations (order_reputations env)))
  else if is_method r "inso_getReputation" then
    if negb (reputation s) then fail (-32603) "reputation manager not available"%string
    else
      match parseStringParam (Params r) 0 with
      | Err e | Panic e => fail (-32602) ("invalid address: " +:+ e)%string
      | Ok addrStr =>
          match (m ← Consensus.repMgr (cons n); Reputation.GetReputation (HexToAddress (string_of_bytes addrStr)) m) with
          | None => fail (-32602) "validator not found"%string
          | Some rep => ok (value_of_reputation rep)
          end
      end
  else if is_method r "inso_getSyncStatus" then
    ok (obj [("latestBlock", VInt (Sync.LatestBlock (Node.sync n))); ("synced", VBool (synced env n))])
  else fail (-32601) "method not found"%string.

(** At most 1 MiB of the body is read. *)
Definition limit : Z := 2 ^ 20.
Definition LimitReader (l : list byte) : list byte :=
  if Z.of_nat (length l) <=? limit then l else take (Z.to_nat limit) l.

Definition count (s : Server) (n : Node) : Node :=
  if metrics s then set_cons (set_met (Metrics.add_RPCRequests (Consensus.met (cons n))) (cons n)) n else n.

Definition handle (env : environment) (s : Server) (post : bool) (content : outcome (list byte)) (n : Node) :
    Node * reply :=
  let n := count s n in
  if negb post then (n, mkReply 405 None)
  else
    match content with
    | Ok l =>
        match Unmarshal request_fields (mkRequest [] [] None VNull) (LimitReader l) with
        | Some r => dispatch env s r n
        | None => (n, writeError VNull (-32700) "parse error")
        end
    | _ => (n, writeError VNull (-32700) "parse error")
    end.

Definition handleHealth (env : environment) (n : Node) : reply :=
  mkReply 200 (Some (obj [("peers", VInt (peer_count n)); ("service", str "inso-validator"); ("status", str "ok");
    ("synced", VBool (synced env n)); ("validatorCount", VInt (Consensus.ValidatorCount (Consensus.eng (cons n))));
    ("version", str "phase5")])).

Definition handleReady (env : environment) (n : Node) : reply :=
  if negb (synced env n) then
    mkReply 503 (Some (obj [("peers", VInt (peer_count n)); ("reason", str "not synced"); ("service", str "inso-validator");
      ("status", str "not_ready"); ("synced", VBool false)]))
  else
    mkReply 200 (Some (obj [("peers", VInt (peer_count n)); ("service", str "inso-validator"); ("status", str "ready");
      ("synced", VBool true)])).

(** The mux of [Start]: two exact paths, everything else is JSON-RPC. *)
Definition ServeHTTP (env : environment) (s : Server) (path : string) (post : bool) (content : outcome (list byte)) (n : Node) :
    Node * reply :=
  if decide (path = "/health"%string) then (n, handleHealth env n)
  else if decide (path = "/ready"%string) then (n, handleReady env n)
  else handle env s post content n.

(** The paths of their own in the mux. *)
Definition probes : list string := ["/health"; "/ready"]%string.

(** ** Facts *)

Definition methods : list string := ["inso_validatorStatus"; "inso_getValidators"; "inso_getPeers"; "inso_getActiveStakes";
  "inso_verifyBlock"; "inso_getLaneVerification"; "inso_getReceiptVerification"; "inso_getAdaptiveVerification";
  "inso_getReputationScores"; "inso_getReputation"; "inso_getSyncStatus"]%string.

(** Decide which method a closed name is. *)
Ltac decide_methods :=
  repeat match goal with |- context [bool_decide (text ?a = text ?b)] =>
    let v := eval vm_compute in (bool_decide (text a = text b)) in change (bool_decide (text a = text b)) with v end;
  cbv iota.

(** The only write: [inso_verifyBlock] moves the verification engine. *)
Lemma dispatch_node env s r n :
  fst (dispatch env s r n) = n \/
  exists num block, Method r = text "inso_verifyBlock" /\ parseUint64Param (Params r) 0 = Ok num /\
    Sync.GetBlock num (Node.sync n) = Some block /\
    fst (dispatch env s r n) = set_ver (fst (Verification.VerifyBlock block (ver n))) n.
Proof.
  unfold dispatch. destruct (is_method r "inso_verifyBlock") eqn:Ev.
  - apply bool_decide_eq_true_1 in Ev. unfold is_method. rewrite Ev. decide_methods.
    unfold block_param. destruct (parseUint64Param (Params r) 0) as [num| |] eqn:Ep; [|by left..].
    destruct (Sync.GetBlock num (Node.sync n)) as [b|] eqn:Eb; [|by left].
    right. exists num, b. split_and!; try done. by destruct (Verification.VerifyBlock b (ver n)).
  - left. repeat case_match; done.
Qed.

Lemma dispatch_verify env s r n num block :
  Method r = text "inso_verifyBlock" -> parseUint64Param (Params r) 0 = Ok num ->
  Sync.GetBlock num (Node.sync n) = Some block ->
  dispatch env s r n = (set_ver (fst (Verification.VerifyBlock block (ver n))) n,
    writeResult (ID r) (value_of_result (snd (Verification.VerifyBlock block (ver n))))).
Proof.
  intros Hm Hp Hb. unfold dispatch, is_method. rewrite Hm. decide_methods.
  unfold block_param. rewrite Hp, Hb. by destruct (Verification.VerifyBlock block (ver n)).
Qed.

Lemma count_spec s n :
  exists m, count s n = set_cons (set_met m (cons n)) n.
Proof. unfold count. destruct (metrics s); [by eexists|]. exists (Consensus.met (cons n)). by destruct n as [? ? []]. Qed.

(** What handling a request does to the node. *)
Lemma handle_node env s post content n :
  fst (handle env s post content n) = count s n \/
  exists l r num block, post = true /\ content = Ok l /\
    Unmarshal request_fields (mkRequest [] [] None VNull) (LimitReader l) = Some r /\
    Method r = text "inso_verifyBlock" /\ parseUint64Param (Params r) 0 = Ok num /\
    Sync.GetBlock num (Node.sync n) = Some block /\
    fst (handle env s post content n) = set_ver (fst (Verification.VerifyBlock block (ver n))) (count s n).
Proof.
  destruct (count_spec s n) as [m Hm]. unfold handle.
  destruct post; [|by left]. destruct content as [l| |]; [|by left..].
  destruct (Unmarshal _ _ _) as [r|] eqn:Hu; [|by left].
  destruct (dispatch_node env s r (count s n)) as [Hd|(num & block & Hmeth & Hp & Hb & Hd)]; [by left|].
  right. rewrite Hm in Hb, Hd |- *. by exists l, r, num, block.
Qed.

Lemma count_steps s n : answers n = true -> rtc step n (count s n).
Proof. intros H. unfold count. destruct (metrics s); [by apply rtc_once, step_request|apply rtc_refl]. Qed.

(** ** Properties *)

(** C7. The server is a client of the node's step relation: while it answers, whatever the
    path, the method and the body of a request, handling it is a sequence of the node's
    steps. The probes change nothing. Every other request leaves the chain, the
    validators, the attestations, the reputations, the stakes, the adaptive bounds, the
    network, the goroutines with what they have in hand, and what [main] still has to do
    alone; of the metrics it moves the request counter, where the collector is wired,
    and no other. The verification engine it leaves alone as well, unless it is a POST
    whose body is a request of method [inso_verifyBlock] that names a block of the chain:
    then the engine is as after verifying that block. *)
Theorem requests_are_steps (env : environment) (s : Server) (path : string) (post : bool) (content : outcome (list byte))
  (n : Node) (Hup : answers n = true) :
  let n' := fst (ServeHTTP env s path post content n) in
  rtc step n n' /\
  Node.sync n' = Node.sync n /\ Node.staking n' = Node.staking n /\ Node.bounds n' = Node.bounds n /\
  p2p_job n' = p2p_job n /\ rpc_job n' = rpc_job n /\
  Node.pool n' = Node.pool n /\ loops n' = loops n /\ todo n' = todo n /\
  Consensus.eng (cons n') = Consensus.eng (cons n) /\ Consensus.repMgr (cons n') = Consensus.repMgr (cons n) /\
  Consensus.network (cons n') = Consensus.network (cons n) /\
  Consensus.met (cons n') =
    (if bool_decide (path ∈ probes) then Consensus.met (cons n)
     else if metrics s then Metrics.add_RPCRequests (Consensus.met (cons n)) else Consensus.met (cons n)) /\
  (ver n' = ver n \/ exists l r num block,
     path ∉ probes /\ post = true /\ content = Ok l /\
     Unmarshal request_fields (mkRequest [] [] None VNull) (LimitReader l) = Some r /\
     Method r = text "inso_verifyBlock" /\ parseUint64Param (Params r) 0 = Ok num /\
     Sync.GetBlock num (Node.sync n) = Some block /\ ver n' = fst (Verification.VerifyBlock block (ver n))).
Proof.
  cbv zeta. pose proof (handle_node env s post content n) as Hn. pose proof (count_steps s n Hup) as Hcount.
  unfold ServeHTTP. case_decide as Hhealth; [subst path; split_and!; done || by left|].
  case_decide as Hready; [subst path; split_and!; done || by left|].
  assert (path ∉ probes) as Hpath by (unfold probes; set_solver). rewrite bool_decide_eq_false_2 by done.
  assert (ver (count s n) = ver n /\ Node.sync (count s n) = Node.sync n /\ answers (count s n) = true) as (Hv & Hs & Ha)
    by (unfold count; by destruct (metrics s)).
  destruct Hn as [->|(l & r & num & block & Hpost & Hl & Hu & Hm & Hp & Hb & ->)]; (split; [|unfold count]).
  - exact Hcount.
  - destruct (metrics s); split_and!; done || by left.
  - eapply rtc_r; [exact Hcount|]. rewrite <- Hv. apply (step_rpc_verify (count s n) num block); congruence.
  - destruct (metrics s); split_and!; try done; right; exists l, r, num, block; by split_and!.
Qed.

(** The answers to requests the server does not serve: anything but POST gets a 405
    without a body; a body that is not a request object a parse error whose id is null;
    an unknown method the error -32601 with the request's id. None of them changes
    anything but the request counter. *)
Theorem rejected_requests (env : environment) (s : Server) (content : outcome (list byte)) (n : Node) :
  handle env s false content n = (count s n, mkReply 405 None) /\
  (forall l, content = Ok l -> Unmarshal request_fields (mkRequest [] [] None VNull) (LimitReader l) = None ->
     handle env s true content n = (count s n, writeError VNull (-32700) "parse error")) /\
  (forall l r, content = Ok l -> Unmarshal request_fields (mkRequest [] [] None VNull) (LimitReader l) = Some r ->
     Method r ∉ text <$> methods ->
     handle env s true content n = (count s n, writeError (ID r) (-32601) "method not found")).
Proof.
  split; [done|]. unfold handle. cbn [negb]. split.
  - by intros l -> ->.
  - intros l r -> -> Hr. unfold dispatch.
    assert (forall name, name ∈ methods -> is_method r name = false) as Hno.
    { intros name Hin. apply bool_decide_eq_false_2. intros Heq. apply Hr. rewrite Heq.
      by apply list_elem_of_fmap_2. }
    by rewrite !Hno by (unfold methods; set_solver).
Qed.

(** Block numbers: a JSON integer of 64 bits is itself; a string of hexadecimal digits,
    with or without the prefix, is its value modulo [2^64], so that a number that does
    not fit names another block. *)
Theorem parseUint64Param_spec (n : Z) (ds : list Z) (rest : list json)
  (Hn : is_u64 n) (Hds : Forall (fun d => 0 <= d < 16) ds) (Hne : ds <> []) :
  parseUint64Param (Some (JArr (JNum (FormatInt n) :: rest))) 0 = Ok n /\
  parseUint64Param (Some (JArr (JStr (text ("0x" +:+ Fmt.string_of_digits ds)) :: rest))) 0 = Ok (u64 (Fmt.digits_value ds)).
Proof.
  split; unfold parseUint64Param; cbn [param mbind outcome_bind lookup list_lookup dec_uint dec_string].
  - by rewrite ParseUint_FormatInt.
  - change (trim_0x (text ("0x" +:+ Fmt.string_of_digits ds))) with (text (Fmt.string_of_digits ds)).
    rewrite SetString16_digits by done. unfold Uint64. rewrite Z.abs_eq; [done|].
    by apply digits_value_nonneg.
Qed.

(** The readiness probe answers 200 exactly when the sequencer reports a height that has
    been reached; the comment also asks for peers, but their number only appears in the
    body. *)
Theorem ready_spec (env : environment) (n : Node) (net : Network.Network) :
  (status (handleReady env n) = 200 <->
     exists h, Client.fetchLatestBlockNumber (height env) = Ok h /\ h <= Sync.LatestBlock (Node.sync n)) /\
  status (handleReady env (set_cons (set_network net (cons n)) n)) = status (handleReady env n).
Proof.
  unfold handleReady, synced, Sync.IsSynced, Client.fetchLatestBlockNumber. split.
  2: { destruct (Sync.fetchLatestBlockNumber _) as [h| |]; [|done..]. cbn [Node.sync set_cons]. by destruct (h <=? _). }
  destruct (Sync.fetchLatestBlockNumber _) as [h| |]; cbn [negb].
  - destruct (Z.leb_spec h (Sync.LatestBlock (Node.sync n))); cbn; [naive_solver|].
    split; [done|]. intros (h' & [= <-] & ?). lia.
  - split; [done|]. by intros (? & ? & _).
  - split; [done|]. by intros (? & ? & _).
Qed.

(** C31. A query can cost the node its attestations. Let [b2] be accepted and about to be
    verified, and honest, while the other goroutine has nothing in hand. Left alone, the
    node attests to it. Let a client first ask [inso_verifyBlock] for a block [b] of the
    chain, not numbered 0, that claims no root: this moves the engine's root. If [b2] claims
    a root, and that is not the one it would have on the moved root (a block that claims
    none is accepted on any), then [b2], verified next, is rejected, and is never attested
    in any continuation. *)
Theorem query_blocks_attestation (cfg : Config.t) (key : PrivateKey) (clock : nat -> Z) (n0 n : Node)
  (g : goroutine) (num : Z) (b b2 : Sync.L2Block) (env : environment) (s : Server) (r : request)
  (Hstake : 0 <= Config.MinStake (Config.Validator cfg) < 2 ^ 51) (Hclock : clock 0%nat <= clock 3%nat)
  (H0 : setup cfg key clock = Ok n0) (Hr : rtc step n0 n)
  (Hj : job_of g n = Accepted b2) (Hidle : job_of (other g) n = Idle)
  (Hhonest : Verification.honest (Verification.stateRoot (ver n)) [b2])
  (Hb : Sync.GetBlock num (Node.sync n) = Some b) (Hz : Sync.Number b <> 0) (Hempty : Sync.StateRoot b = ""%string)
  (Hmoved : ~ Verification.claim_ok (fst (Verification.VerifyBlock b (ver n))) b2)
  (Hm : Method r = text "inso_verifyBlock") (Hp : parseUint64Param (Params r) 0 = Ok num) :
  (exists n1, rtc step n n1 /\ length (attestations (Sync.Number b2) n1) = 1%nat) /\
  (exists n2, rtc step (fst (dispatch env s r n)) n2 /\ job_of g n2 = Idle /\
     forall n3, rtc step n2 n3 -> attestations (Sync.Number b2) n3 = []).
Proof.
  destruct (in_hand cfg key clock n0 n g b2 Hstake Hclock H0 Hr Hj) as (Ha & Hh & Hcb).
  destruct Hhonest as (Hz2 & Hc2 & _). split.
  - destruct (verify_step g b2 n Hj Hcb) as (m1 & [S1 _ _] & A1 & _ & K1).
    rewrite (Verification.VerifyBlock_accepts b2 (ver n) Hz2 Hc2) in K1. simpl in K1.
    destruct (attest_step g b2 m1 K1) as (m2 & [S2 _ _] & _ & _ & A2).
    exists m2. split; [by repeat (eapply rtc_l; [eassumption|])|]. by rewrite A2, A1, Ha, Z.eqb_refl.
  - rewrite (dispatch_verify env s r n num b Hm Hp Hb). cbn [fst]. set (m := set_ver _ n).
    assert (job_of g m = Accepted b2 /\ job_of (other g) m = Idle) as [Hjm Hom] by (by destruct g).
    destruct (verify_step g b2 m Hjm Hcb) as (m1 & [S1 Y1 J1] & A1 & _ & K1).
    destruct (Verification.VerifyBlock_rejects b2 (ver m) (or_intror Hmoved)) as (err & root & Hv).
    rewrite Hv in K1. simpl in K1. exists m1. split; [by apply rtc_once|]. split; [done|].
    apply (lost_forever (Sync.Number b2) m1).
    + unfold held. by rewrite Y1.
    + rewrite Hom in J1. unfold claims. rewrite A1. change (attestations ?k m) with (attestations k n). rewrite Ha.
      destruct g; simpl in *; by rewrite K1, J1.
Qed.

End Server.

(** ** Witnesses *)

Section Witnesses.
Import ToyEth.

Lemma parseUint64Param_spec_witness :
  parseUint64Param (Some (JArr [JStr (text "0x10000000000000005")])) 0 = Ok 5.
Proof.
  apply (parseUint64Param_spec 0 [1; 0; 0; 0; 0; 0; 0; 0; 0; 0; 0; 0; 0; 0; 0; 0; 5] []); [by split| |done].
  repeat (constructor; [lia|]). constructor.
Defined.

Definition quiet : environment :=
  mkEnv (Err "refused") (fun _ => Err "refused") (fun _ _ => Err "refused") [] [] [] [].

Lemma rejected_requests_witness :
  handle quiet NewServer true (Ok (quoted "{'jsonrpc':'2.0','id':7,'method':'eth_chainId'}")) started =
    (started, writeError (VFloat (f64_of_Z 7)) (-32601) "method not found").
Proof.
  destruct (rejected_requests quiet NewServer (Ok (quoted "{'jsonrpc':'2.0','id':7,'method':'eth_chainId'}")) started)
    as (_ & _ & H).
  apply (H (quoted "{'jsonrpc':'2.0','id':7,'method':'eth_chainId'}")
    (mkRequest (text "2.0") (text "eth_chainId") None (VFloat (f64_of_Z 7)))); [reflexivity|vm_compute; reflexivity|].
  intros Hin. apply (bool_decide_eq_true_2 _) in Hin. vm_compute in Hin. discriminate.
Defined.

(** The sequencer serves two blocks; the first, which claims no root, is attested, the
    second accepted. *)
Definition bare1 : Sync.L2Block := Sync.sample_block 1.
Definition polled1 : Node := poll (height_text 2) serving.
Definition fetched1 : Node := fetch 1 2 (block_text bare1) polled1.
Definition checked1 : Node := run_verify RPCLoop (Err "refused") bare1 fetched1.
Definition verified1 : Node := run_attest RPCLoop 0 0 bare1 checked1.
Definition second_accepted : Node := fetch 2 2 (block_text block2) verified1.

Lemma serving_started : is_Some (sync_ctx (loops serving)).
Proof. exists false. vm_compute. reflexivity. Qed.

Lemma serving_ticks : poller_at (loops serving) = AtTick.
Proof. vm_compute. reflexivity. Qed.

Lemma serving_idle : rpc_job serving = Idle.
Proof. vm_compute. reflexivity. Qed.

Lemma started_second : rtc step started second_accepted.
Proof.
  transitivity serving; [exact (advance_run 6 started)|].
  apply (rtc_l _ _ polled1); [exact (step_poll serving (height_text 2) serving_started serving_ticks serving_idle)|].
  apply (rtc_l _ _ fetched1); [apply (step_fetch polled1 1 2 (block_text bare1)); vm_compute; reflexivity|].
  apply (rtc_l _ _ checked1); [apply (step_verify fetched1 RPCLoop bare1 (Err "refused")); vm_compute; reflexivity|].
  apply (rtc_l _ _ verified1); [apply (step_attest checked1 RPCLoop bare1 0 0); vm_compute; reflexivity|].
  apply rtc_once. apply (step_fetch verified1 2 2 (block_text block2)); vm_compute; reflexivity.
Qed.

(** The same node with its RPC server listening; a client asks it to verify block 1. *)
Definition listening : Node := set_http Listening second_accepted.
Definition verify_1 : list byte := quoted "{'jsonrpc':'2.0','id':7,'method':'inso_verifyBlock','params':[1]}".
Definition asked : Node := fst (ServeHTTP quiet (SetMetrics NewServer) "/" true (Ok verify_1) listening).

Lemma requests_are_steps_witness :
  rtc step listening asked /\ Metrics.RPCRequests (Consensus.met (cons asked)) = 1 /\ ver asked <> ver listening.
Proof.
  split; [|split].
  - exact (proj1 (requests_are_steps quiet (SetMetrics NewServer) "/" true (Ok verify_1) listening eq_refl)).
  - vm_compute. reflexivity.
  - intros Hv. apply (f_equal Verification.stateRoot) in Hv. vm_compute in Hv. discriminate.
Defined.

Lemma query_blocks_attestation_witness :
  exists n2, rtc step (fst (dispatch quiet NewServer
      (mkRequest (text "2.0") (text "inso_verifyBlock") (Some (JArr [JNum (text "1")])) VNull) second_accepted)) n2 /\
    forall n3, rtc step n2 n3 -> attestations 2 n3 = [].
Proof.
  destruct (query_blocks_attestation Config.DefaultConfig key clock started second_accepted RPCLoop 1 bare1 block2
    quiet NewServer (mkRequest (text "2.0") (text "inso_verifyBlock") (Some (JArr [JNum (text "1")])) VNull))
    as [_ (n2 & H1 & _ & H2)]; [done|done|apply started_setup|apply started_second|vm_compute; reflexivity
    |vm_compute; reflexivity| |vm_compute; reflexivity|done|reflexivity| |reflexivity|vm_compute; reflexivity|].
  - split; [done|]. split; [|done]. right. vm_compute. reflexivity.
  - intros [H|H]; vm_compute in H; discriminate.
  - exists n2. split; [exact H1|exact H2].
Defined.

End Witnesses.

End Rpc.
